(* ===== verification/_CoqProject ===== *)
-Q . S2P
Prelude.v
Interfaces.v
Types.v
Concrete.v
Crypto.v
ConsensusTypes.v
Election.v
Voting.v
Slashing.v
ValidatorSet.v
Utf8.v
Version.v
Vm.v
Host.v
Engine.v
World.v
Score.v
ConcreteState.v
StateRoot.v
HandlerBase.v
ConcreteTx.v
Tokens.v
Agents.v
Staking.v
Mining.v
Contracts.v
TestEnv.v
Store.v
ApplyTx.v
Rewards.v
Epochs.v
Node.v
Chain.v
ConcreteNode.v
BlockLedger.v
Genesis.v
Agreement.v
Sync.v
Network.v
Json.v
SerdeJson.v
Config.v
ConcreteFiles.v
Queries.v
NodeSteps.v
Peers.v
CatchUp.v
Snapshots.v
RpcServer.v
RpcLimits.v
Cli.v
ContractTool.v
Startup.v
Launch.v
BlockLoop.v
Sdk.v
ArenaPool.v
ArenaEntry.v
ArenaLedger.v
RewardVault.v
VaultLedger.v
VaultEntry.v
ConcreteVm.v
HostSafety.v
TestCalls.v
QueryCorrect.v
RpcSafety.v
CliCorrect.v
ToolCorrect.v
CommandLine.v
SdkCorrect.v
Deployed.v
ArenaCalls.v
VaultCalls.v
