(* ===== verification/Prelude.v ===== *)
(** * ClawNetwork: a verification library for the node

    ClawNetwork is a proof-of-stake chain written in Rust.  This library models
    its ledger and consensus code, crate by crate, as executable definitions and
    proves what makes them correct.  A definition carries the name of the item it
    translates; [claw-node/crates/] is left out of the paths below.

    ** Parts of the program and the files that model them

    - [Prelude] (this file): machine integers as [N] with their wrap-around (the
      release profile does not check overflow), bytes, [BTreeMap] iteration order,
      stable sorting, sums, the state-and-error monad [ST] in which a failing
      method keeps the state it has reached, record updates, and the tactics
      [st_inv], [st_exec], [upd], [bools] that the proofs use.
    - [Interfaces]: what is not source of this repository, as classes with laws:
      [Blake3], [Ed25519], [Borsh] readers, [Hex].  The laws are documented
      behaviour (length of a digest, a signature made with a key verifies under
      its public key, a decoder inverts its encoder).  [Concrete],
      [ConcreteState] and [ConcreteTx] hold toy instances, used by witnesses only.
    - [Types]: [types/src]: transactions, payloads, state records, blocks, their
      hashes and the block reader.
    - [Crypto]: [crypto/src]: the Merkle tree, signing and verification.
    - [ConsensusTypes], [Election], [Voting], [Slashing], [ValidatorSet]:
      [consensus/src]: quorum, weighted proposer election and its fallback, the
      vote collector, equivocation evidence, slashing, jail, downtime, weights and
      the active set.
    - [Vm]: [vm/src]: types, limits, code validation, contract addresses; the
      class [VmEngine] is what the ledger asks of the execution engine.
    - [World], [StateRoot], [Score]: [state/src/world.rs], [score.rs]: the world
      state, snapshot versions, the supply audit, the state root, the agent score.
    - [HandlerBase], [Tokens], [Agents], [Staking], [Mining], [Contracts]:
      [state/src/handlers.rs], one definition per [handle_*] function.
    - [ApplyTx]: [WorldState::apply_tx] with its dispatch, and the invariants every
      transaction keeps.
    - [Rewards], [Epochs]: [state/src/rewards.rs]: the reward schedule, block
      rewards, fees, mining rewards and the epoch boundary.
    - [Store]: [storage/src/store.rs]: blocks, indexes, receipts and snapshots in
      tables of a database that writes a transaction as a whole (class [Redb]).
    - [Node], [Chain], [Sync]: [node/src/chain.rs] and the data of
      [p2p/src/protocol.rs]: the record [ChainInner] behind the node's lock, the
      mempool, check-ins, votes, [produce_block], [apply_remote_block_inner], the
      rotation of validators, synchronisation, snapshots and the event loop.
      [ConcreteNode] is a toy store and node.
    - [Genesis]: [node/src/genesis.rs]; [Startup]: [Chain::new].
    - [BlockLedger], [Agreement], [NodeSteps], [CatchUp], [Snapshots]: theorems
      about the node: a block on the ledger, a producer against its validators, a
      node over time, a node that catches up, a node that takes a snapshot.
    - [Utf8], [Host], [Engine]: [vm/src/host.rs] and [engine.rs]: the host
      functions over a guest memory (class [GuestMemory]), contract calls nested
      in each other, the module cache; with a WebAssembly machine (class
      [Wasmer]) the engine is an instance of [VmEngine].  [HostSafety] holds what
      no contract can get around, [ConcreteVm] a toy machine.
    - [Sdk]: [sdk/src]: the wrappers a contract is written with, as programs that
      run on [Host].  [SdkCorrect] is about the two together, [Deployed] about
      SDK programs that are called through the ledger.
    - [ArenaPool] ([logic.rs], [types.rs]) and [ArenaEntry] ([lib.rs]):
      [contracts/arena-pool/src]; [ArenaLedger] is about the rules, [ArenaCalls]
      about the exported functions on the chain.
    - [RewardVault] ([logic.rs], [mock.rs]) and [VaultEntry] ([lib.rs],
      [types.rs]): [contracts/reward-vault/src]; [VaultLedger] and [VaultCalls]
      are their theorems.
    - [Network]: [p2p/src]: topics, messages, the framing of [SyncCodec] and the
      network manager between [libp2p]'s swarm, whose events are inputs, and the
      node; [Peers] puts network and node together.
    - [Json], [Queries], [RpcServer], [RpcLimits]: the queries of [chain.rs], the
      methods of [rpc_server.rs] that answer with them, and the limits of
      [rpc/src/lib.rs]; [QueryCorrect] is about the answers, [RpcSafety] about what
      a request can change.  [Version]: [version_check.rs].
    - [TestEnv]: [test-framework/src]: the environment contracts are tested in,
      against the handler of the chain; [TestCalls] runs it.
    - [Config]: [node/src/config.rs], [network.rs] and [sync.rs]: the key file and
      its encryption, [config.toml], the network presets, the sync modes, over a
      data directory of two files; [ConcreteFiles] holds toy texts and a cipher.
      [SerdeJson]: the hand-written JSON forms of signatures.
    - [Cli], [Launch], [CommandLine]: [node/src/main.rs]: the commands as clients
      of a server with a state of its own, what [start] makes of arguments, files,
      manifest, genesis and store, and the dispatch of all commands.
      [BlockLoop]: [run_block_loop] of [chain.rs].  [CliCorrect] is about the
      commands and the node as their server.
    - [ContractTool]: [tools/claw-contract]: the developer's tool, with its own
      transactions and client; [ToolCorrect] runs it against the node.
    ** How they interact

    A block is applied by running [apply_tx] on each transaction, then the block
    reward, the mining reward, the fees and, on an epoch boundary, the settlement
    of the mining rewards; each is a function from [WorldState] to [WorldState]
    that may emit block events.  A handler is a computation in
    [ST WorldState StateError]: an error returns to [apply_tx] with the state the
    handler has reached, and [apply_tx] refunds the gas and nothing else, which is
    how the code works; [rejected_tx_rolls_back] says which handlers restore the
    rest.  The contract handlers call the engine through [VmEngine] and the
    scheduler of their threads through [VmSchedule]; their theorems hold of every
    engine, those of [HostSafety] and [Deployed] of the engine of [Engine].

    A step of the node is a function of [ChainInner], of its input and of the
    time: producing a block, validating one, receiving a transaction, a vote, a
    check-in or a message of a peer.  Producer and validator apply a block with
    the same functions of the ledger, consensus and the store; starting a node
    reads the store back or applies the genesis.  [NodeSteps] collects the steps
    in an inductive relation, and proves what holds in every reachable state.

    A contract is three layers: rules over a plain state, as the repository tests
    them; exported functions, SDK programs that decode, check and store; and the
    engine and handlers that run those.  A refinement theorem joins the first two.

    ** What the theorems show

    - The ledger: conservation of the native supply ([apply_tx_supply],
      [block_reward_conserves], [mining_reward_conserves], [fees_split],
      [epoch_boundary_correct]), the invariants of its tables
      ([apply_tx_ledger_ok]), replay protection ([no_replay],
      [heartbeat_once_per_epoch]), the upgrade delay ([code_change_timelocked]),
      the effect of each handler, errors included ([rejected_tx_rolls_back]).
    - Consensus: safety of finality ([conflicting_finality_needs_equivocators],
      [collected_votes_good]), evidence ([evidence_never_replayed]), bounds of
      scores, weights and rewards.
    - The state root binds the state, up to a collision of the hash
      ([state_root_binds]); the store is atomic ([store_atomic_roundtrip]).
    - The node: an accepted block keeps the ledger sound ([accepted_block_sound]),
      a rejected one changes nothing ([rejected_block_leaves_node]), a produced
      one is accepted elsewhere with the same outcome
      ([produced_block_accepted]), a syncing node catches up ([sync_catches_up]),
      and every reachable state is sound ([reachable_sound], from a command line
      and a genesis [start_sound], across a restart [restart_restores]); the mempool and
      check-ins ([mempool_invariant], [checkin_once_per_epoch]); the guards of a
      snapshot ([snapshot_guarded]).
    - The virtual machine: whatever a guest computes, fuel bounds its effects
      ([fuel_bounds]) and the storage it sees is the storage the ledger keeps
      ([committed_storage]).
    - What surrounds the node: the peers it asks are the ones the network counts
      ([peers_tracked]), an accepted transaction is found again
      ([accepted_tx_found]), requests cannot touch the ledger
      ([rpc_never_touches_ledger]) and pass at a bounded rate ([burst_bound]).
    - The commands: what is sent arrives and has its effect
      ([cli_transfer_arrives], [cli_checkin_accepted], [tool_deploy_arrives]),
      amounts are read exactly ([parse_claw_amount_correct]), no command touches
      the ledger ([command_submits_at_most_one]) or loses the key
      ([commands_keep_key], [key_roundtrip]), and deployed code that is verified
      is the code of the ledger ([verify_tells_the_truth]).
    - The contracts: solvency of the pool and the way out of it ([arena_solvent],
      [emergency_exit]), the vault's cap, nonces and owner
      ([daily_cap_enforced], [claim_never_replayed], [only_owner_governs]), and
      that the exported functions implement the rules ([arena_entry_refines],
      [vault_entry_refines]); a test of a contract shows what the chain does
      ([test_env_matches_chain]).

    A theorem about arithmetic says under which bound nothing wraps:
    [supply_fits] asks for a supply below [2^127], the network's is about [2^60].

    ** Fuel and bounds

    The Merkle tree's loop halves its list: [climb] gets the number of leaves as
    fuel, which [climb_fuel] shows to be enough ([merkle_root_terminates]).
    [Chain::new] calls itself after deleting a store that does not fit; two
    rounds are enough ([start_terminates]).  UTF-8 decoding and string searches
    get the length of their input, one unit per byte.  The tool waits for a
    number of rounds that is its time limit halved.  A contract is a finite
    tree of host calls, one per run of the machine, and calls nest at most as
    deep as [vm/src] allows.  Every other recursion is structural.  Counters keep
    the width of their Rust type.

    ** What the theorems show to be wrong

    Some theorems state what the code does where it is not what it means to do.
    The ledger: [stake_claim_failure_wipes_queue], [stake_withdraw_cap_burns],
    [negative_attestation_scores_high], [state_root_duplicate], [decay_shape].
    Consensus: [conflict_unauthenticated], [evidence_height_not_authenticated],
    [last_resort_not_highest_stake].  The node: [gossip_rejects_fresh_block],
    [full_mempool_refuses], [snapshot_sets_back], [snapshot_reactivates_jailed],
    [restored_block_listed_twice], [restart_forgets_rotation],
    [checkin_cache_matters], [mismatch_deletes_chain],
    [genesis_duplicates_lose], [devnet_faucet_empty],
    [large_snapshot_unreachable], [faucet_one_per_block], [miner_pages_lose],
    [audit_omits_mining], [candidate_above_release],
    [halted_node_starts_again].  The commands: [encrypted_key_cannot_checkin],
    [cli_one_per_block], [huge_amount_wraps], [broken_config_is_devnet],
    [tool_never_confirms], [tool_shows_wrong_address].  The contracts:
    [arena_drained], [arena_never_pays], [vault_never_pays].

    ** Not modelled

    - Outside the repository, and therefore classes with the laws the code relies
      on: BLAKE3 and Ed25519, the encodings of [borsh], [serde_json] and [hex], the
      database [redb], the WebAssembly machine [wasmer], the swarm of [libp2p].
    - I/O: sockets and HTTP, JSON and TOML text, the parsing of arguments, the
      terminal, metrics, logging, the download of the version manifest, disks that
      fail, and the processes the tool starts ([cargo], [wasm-opt], a node).  The
      cipher of the key file is a class, and the disk a command of the tool sees
      is a view it reads and a list of what it writes.
    - Key generation, which is randomness, and locks: the node's state is behind
      one lock, so each operation is one step.  Threads that only bound the time of
      a call are a parameter that says whether the call was in time.
    - The macros of the SDK beyond [entry!] and [require!] abbreviate those two. *)

From stdpp Require Export base gmap strings list sorting fin_maps.
From Stdlib Require Export Strings.Byte NArith Lia.

#[global] Open Scope N_scope.

Declare Scope claw_scope.
Delimit Scope claw_scope with claw.
#[global] Open Scope claw_scope.

Create HintDb claw.

(** ** Machine integers

    An unsigned integer of Rust is a number below its modulus.  The node is
    built with the release profile, where [+], [-] and [*] wrap around. *)

Abbreviation TWO16 := 65536%N.
Abbreviation TWO32 := 4294967296%N.
Abbreviation TWO64 := 18446744073709551616%N.
Abbreviation TWO128 := 340282366920938463463374607431768211456%N.

Definition wadd (M a b : N) : N := (a + b) mod M.
Definition wsub (M a b : N) : N := (M + a - b) mod M.
Definition wmul (M a b : N) : N := (a * b) mod M.
Definition sat_add (M a b : N) : N := N.min (a + b) (M - 1).
Definition sat_sub (a b : N) : N := a - b.
Definition checked_add (M a b : N) : option N := if a + b <? M then Some (a + b) else None.

Abbreviation u128_add := (wadd TWO128).
Abbreviation u128_sub := (wsub TWO128).
Abbreviation u128_mul := (wmul TWO128).
Abbreviation u64_add := (wadd TWO64).
Abbreviation u64_sub := (wsub TWO64).
Abbreviation u64_mul := (wmul TWO64).
Abbreviation u32_add := (wadd TWO32).
Abbreviation u16_add := (wadd TWO16).

Lemma wadd_small M a b : a + b < M -> wadd M a b = a + b.
Proof. intros. unfold wadd. by apply N.mod_small. Qed.

Lemma wmul_small M a b : a * b < M -> wmul M a b = a * b.
Proof. intros. unfold wmul. by apply N.mod_small. Qed.

Lemma wsub_small M a b : a < M -> b <= a -> wsub M a b = a - b.
Proof.
  intros. unfold wsub.
  replace (M + a - b) with ((a - b) + 1 * M) by lia.
  rewrite N.Div0.mod_add. apply N.mod_small. lia.
Qed.

Lemma wadd_lt M a b : 0 < M -> wadd M a b < M.
Proof. intros. unfold wadd. apply N.mod_lt. lia. Qed.

Lemma wsub_lt M a b : 0 < M -> wsub M a b < M.
Proof. intros. unfold wsub. apply N.mod_lt. lia. Qed.

Lemma checked_add_Some M a b c : checked_add M a b = Some c <-> c = a + b /\ a + b < M.
Proof.
  unfold checked_add. destruct (N.ltb_spec (a + b) M); split; intros Hc;
    [injection Hc; lia | f_equal; lia | done | lia].
Qed.

(** ** Bytes and their order

    Addresses, hashes and payloads are byte lists; [BTreeMap] iterates over
    arrays in lexicographic order. *)

Abbreviation bytes := (list byte).

Definition byte_of_N (n : N) : byte := default x00 (Byte.of_N n).

Lemma byte_of_to_N b : byte_of_N (Byte.to_N b) = b.
Proof. unfold byte_of_N. by rewrite Byte.of_to_N. Qed.

Lemma byte_to_of_N n : n < 256 -> Byte.to_N (byte_of_N n) = n.
Proof.
  intros Hn. unfold byte_of_N. destruct (Byte.of_N n) eqn:E; simpl.
  - by apply Byte.to_of_N.
  - apply Byte.of_N_None_iff in E. lia.
Qed.

Lemma byte_to_N_inj a b : Byte.to_N a = Byte.to_N b -> a = b.
Proof. intros H. by rewrite <- (byte_of_to_N a), <- (byte_of_to_N b), H. Qed.

Lemma byte_to_N_lt b : Byte.to_N b < 256.
Proof. pose proof (Byte.to_N_bounded b). lia. Qed.

#[export] Instance byte_eq_dec : EqDecision byte := Byte.byte_eq_dec.
#[export] Program Instance byte_countable : Countable byte :=
  inj_countable' Byte.to_N byte_of_N _.
Next Obligation. intros b. apply byte_of_to_N. Qed.

(** [x.to_le_bytes()] on [k] bytes and its inverse. *)
Fixpoint le_bytes (k : nat) (x : N) : bytes :=
  match k with
  | O => []
  | S k => byte_of_N (x mod 256) :: le_bytes k (x / 256)
  end.

Fixpoint le_value (bs : bytes) : N :=
  match bs with
  | [] => 0
  | b :: bs => Byte.to_N b + 256 * le_value bs
  end.

Abbreviation le64 := (le_bytes 8).
Abbreviation le128 := (le_bytes 16).
Abbreviation le16 := (le_bytes 2).

Lemma length_le_bytes k x : length (le_bytes k x) = k.
Proof. revert x. induction k as [|k IH]; intros x; simpl; [done | by rewrite IH]. Qed.

Lemma le_value_le_bytes k x : x < 256 ^ N.of_nat k -> le_value (le_bytes k x) = x.
Proof.
  revert x. induction k as [|k IH]; intros x Hx.
  - simpl in *. lia.
  - cbn [le_bytes le_value]. rewrite byte_to_of_N by (apply N.mod_lt; lia).
    rewrite IH.
    + pose proof (N.div_mod' x 256). lia.
    + replace (N.of_nat (S k)) with (N.succ (N.of_nat k)) in Hx by lia.
      rewrite N.pow_succ_r' in Hx. apply N.Div0.div_lt_upper_bound. lia.
Qed.

Lemma le_bytes_inj k x y :
  x < 256 ^ N.of_nat k -> y < 256 ^ N.of_nat k -> le_bytes k x = le_bytes k y -> x = y.
Proof.
  intros Hx Hy H. by rewrite <- (le_value_le_bytes k x Hx), H, le_value_le_bytes.
Qed.

#[global] Arguments le_bytes : simpl never.

Fixpoint bytes_leb (a b : bytes) : bool :=
  match a, b with
  | [], _ => true
  | _ :: _, [] => false
  | x :: a, y :: b =>
      if Byte.to_N x <? Byte.to_N y then true
      else if Byte.to_N x =? Byte.to_N y then bytes_leb a b else false
  end.

Lemma bytes_leb_total a b : bytes_leb a b \/ bytes_leb b a.
Proof.
  revert b. induction a as [|x a IH]; intros [|y b]; simpl; auto.
  destruct (N.ltb_spec (Byte.to_N x) (Byte.to_N y)), (N.ltb_spec (Byte.to_N y) (Byte.to_N x)); auto.
  replace (Byte.to_N y) with (Byte.to_N x) by lia. rewrite N.eqb_refl. apply IH.
Qed.

Lemma bytes_leb_trans a b c : bytes_leb a b -> bytes_leb b c -> bytes_leb a c.
Proof.
  revert b c. induction a as [|x a IH]; intros [|y b] [|z c]; simpl; auto; try done.
  destruct (N.ltb_spec (Byte.to_N x) (Byte.to_N y)), (N.ltb_spec (Byte.to_N y) (Byte.to_N z)),
    (N.ltb_spec (Byte.to_N x) (Byte.to_N z)); auto; try lia;
    destruct (N.eqb_spec (Byte.to_N x) (Byte.to_N y)), (N.eqb_spec (Byte.to_N y) (Byte.to_N z)),
      (N.eqb_spec (Byte.to_N x) (Byte.to_N z)); auto; try done; try lia. apply IH.
Qed.

Lemma bytes_leb_antisym a b : bytes_leb a b -> bytes_leb b a -> a = b.
Proof.
  revert b. induction a as [|x a IH]; intros [|y b]; simpl; try done.
  destruct (N.ltb_spec (Byte.to_N x) (Byte.to_N y)), (N.ltb_spec (Byte.to_N y) (Byte.to_N x)); try lia;
    destruct (N.eqb_spec (Byte.to_N x) (Byte.to_N y)) as [E|], (N.eqb_spec (Byte.to_N y) (Byte.to_N x));
    try done; try lia.
  intros. f_equal; [by apply byte_to_N_inj | by apply IH].
Qed.

Lemma bytes_leb_refl a : bytes_leb a a.
Proof. destruct (bytes_leb_total a a); done. Qed.

(** ** Stable sorting

    [sort_by] is the result of Rust's stable [sort_by]; insertion keeps the
    order of equal elements. *)

Section sorting.
Context {A : Type} (leb : A -> A -> bool).

Fixpoint insert_by (x : A) (l : list A) : list A :=
  match l with
  | [] => [x]
  | y :: l => if leb x y then x :: y :: l else y :: insert_by x l
  end.

Definition sort_by (l : list A) : list A := foldr insert_by [] l.

Lemma insert_by_perm x l : insert_by x l ≡ₚ x :: l.
Proof.
  induction l as [|y l IH]; simpl; [done |]. destruct (leb x y); [done |].
  rewrite IH. apply Permutation_swap.
Qed.

Lemma sort_by_perm l : sort_by l ≡ₚ l.
Proof. induction l as [|x l IH]; simpl; [done |]. by rewrite insert_by_perm, IH. Qed.

Lemma elem_of_sort_by x l : x ∈ sort_by l <-> x ∈ l.
Proof. by rewrite sort_by_perm. Qed.

Lemma length_sort_by l : length (sort_by l) = length l.
Proof. by rewrite sort_by_perm. Qed.

Context (leb_total : forall x y, leb x y \/ leb y x).
Context (leb_trans : forall x y z, leb x y -> leb y z -> leb x z).

Lemma insert_by_sorted x l : StronglySorted leb l -> StronglySorted leb (insert_by x l).
Proof.
  induction 1 as [|y l Hl IH Hy]; simpl; [by repeat constructor |].
  destruct (leb x y) eqn:E.
  - constructor; [by constructor |]. constructor; [by rewrite E |].
    eapply Forall_impl; [exact Hy |]. intros z Hz. eapply leb_trans; [by rewrite E | done].
  - constructor; [done |]. apply Forall_forall. intros z Hz.
    rewrite insert_by_perm in Hz. apply elem_of_cons in Hz as [-> | Hz].
    + destruct (leb_total x y) as [Hxy|]; [by rewrite E in Hxy | done].
    + rewrite Forall_forall in Hy. by apply Hy.
Qed.

Lemma sort_by_sorted l : StronglySorted leb (sort_by l).
Proof.
  induction l as [|x l IH]; simpl; [constructor | by apply insert_by_sorted].
Qed.

Lemma sorted_perm_unique l1 l2 :
  (forall x y, x ∈ l1 -> y ∈ l1 -> leb x y -> leb y x -> x = y) ->
  StronglySorted leb l1 -> StronglySorted leb l2 -> l1 ≡ₚ l2 -> l1 = l2.
Proof.
  revert l2. induction l1 as [|x l1 IH]; intros l2 Hanti H1 H2 Hp.
  { by apply Permutation_nil_l in Hp. }
  destruct l2 as [|y l2]; [by apply Permutation_nil_r in Hp |].
  apply StronglySorted_inv in H1 as [H1 Hx]. apply StronglySorted_inv in H2 as [H2 Hy].
  rewrite Forall_forall in Hx, Hy.
  assert (x = y) as ->.
  { assert (y ∈ x :: l1) as Hy1 by (rewrite Hp; left).
    assert (x ∈ y :: l2) as Hx1 by (rewrite <- Hp; left).
    apply elem_of_cons in Hy1 as [-> | Hy1]; [done |].
    apply elem_of_cons in Hx1 as [-> | Hx1]; [done |].
    apply Hanti; [left | by right | by apply Hx | by apply Hy]. }
  f_equal. apply IH; auto.
  - intros u v Hu Hv. apply Hanti; by right.
  - by apply Permutation_cons_inv in Hp.
Qed.

Lemma sort_by_unique l1 l2 :
  (forall x y, x ∈ l1 -> y ∈ l1 -> leb x y -> leb y x -> x = y) ->
  l1 ≡ₚ l2 -> sort_by l1 = sort_by l2.
Proof.
  intros Hanti Hp. apply sorted_perm_unique; auto using sort_by_sorted.
  - intros x y Hx Hy. rewrite elem_of_sort_by in Hx, Hy. by apply Hanti.
  - by rewrite !sort_by_perm.
Qed.
End sorting.

(** ** Maps in key order

    The entries of a [BTreeMap] in the order its iterator yields them. *)

Section entries.
Context {K V : Type} `{Countable K} (kleb : K -> K -> bool).

Definition entry_leb (p q : K * V) : bool := kleb p.1 q.1.

Definition sorted_entries (m : gmap K V) : list (K * V) := sort_by entry_leb (map_to_list m).

Lemma elem_of_sorted_entries m k v : (k, v) ∈ sorted_entries m <-> m !! k = Some v.
Proof. unfold sorted_entries. by rewrite elem_of_sort_by, elem_of_map_to_list. Qed.

Lemma sorted_entries_perm m : sorted_entries m ≡ₚ map_to_list m.
Proof. apply sort_by_perm. Qed.

Lemma sorted_entries_NoDup m : NoDup (sorted_entries m).*1.
Proof. rewrite sorted_entries_perm. apply NoDup_fst_map_to_list. Qed.
End entries.

(** The keys of an address-indexed map, in order. *)
Definition addr_entries {V} (m : gmap bytes V) : list (bytes * V) := sorted_entries bytes_leb m.

(** ** Lists *)

(** The numbers from [c] to [c + n - 1]. *)
Definition seqN (c n : N) : list N := N.of_nat <$> seq (N.to_nat c) (N.to_nat n).

Lemma elem_of_seqN c n p : p ∈ seqN c n <-> c <= p < c + n.
Proof.
  unfold seqN. rewrite list_elem_of_fmap. split.
  - intros (i & -> & Hi%elem_of_seq). lia.
  - intros Hp. exists (N.to_nat p). rewrite elem_of_seq. lia.
Qed.

Lemma seqN_app c n1 n2 : seqN c (n1 + n2) = seqN c n1 ++ seqN (c + n1) n2.
Proof.
  unfold seqN. rewrite <- fmap_app, !N2Nat.inj_add. f_equal. apply seq_app.
Qed.

Lemma length_seqN c n : length (seqN c n) = N.to_nat n.
Proof. unfold seqN. by rewrite length_fmap, length_seq. Qed.

(** A test on the [n] numbers from [k] on. *)
Fixpoint all_from (P : N -> bool) (n : nat) (k : N) : bool :=
  match n with
  | O => true
  | S n => P k && all_from P n (N.succ k)
  end.

Lemma all_from_spec P n k i : all_from P n k = true -> k <= i < k + N.of_nat n -> P i = true.
Proof.
  revert k. induction n as [|n IH]; intros k Hall Hi; [lia |]. simpl in Hall.
  apply andb_true_iff in Hall as [Hk Hall].
  destruct (decide (i = k)) as [-> |]; [done | apply (IH _ Hall); lia].
Qed.

Lemma elem_of_take_incl {A} n (l : list A) x : x ∈ take n l -> x ∈ l.
Proof. intros Hx. rewrite <- (take_drop n l). apply elem_of_app. by left. Qed.

Lemma elem_of_drop_incl {A} n (l : list A) x : x ∈ drop n l -> x ∈ l.
Proof. intros Hx. rewrite <- (take_drop n l). apply elem_of_app. by right. Qed.

Section filters.
Context {A : Type} (P Q : A -> Prop) `{forall x, Decision (P x), forall x, Decision (Q x)}.
Implicit Types (l : list A).

Lemma filter_ext_in l : (forall x, x ∈ l -> P x <-> Q x) -> filter P l = filter Q l.
Proof.
  induction l as [|x l IH]; intros Hl; [done |].
  assert (filter P l = filter Q l) as IHl by (apply IH; intros y Hy; apply Hl; by right).
  assert (P x <-> Q x) as Hx by (apply Hl; left).
  destruct (decide (P x)) as [Px|Px].
  - rewrite !filter_cons_True by tauto. by rewrite IHl.
  - rewrite !filter_cons_False by tauto. done.
Qed.

Lemma filter_all l : (forall x, x ∈ l -> P x) -> filter P l = l.
Proof.
  induction l as [|x l IH]; intros Hl; [done |].
  rewrite filter_cons_True by (apply Hl; left). f_equal. apply IH. intros y Hy. apply Hl. by right.
Qed.

Lemma filter_none l : (forall x, x ∈ l -> ~ P x) -> filter P l = [].
Proof.
  induction l as [|x l IH]; intros Hl; [done |].
  rewrite filter_cons_False by (apply Hl; left). apply IH. intros y Hy. apply Hl. by right.
Qed.
End filters.

Lemma alter_as_insert {K V} `{Countable K} (f : V -> V) (m : gmap K V) k v :
  m !! k = Some v -> alter f k m = <[k := f v]> m.
Proof.
  intros Hk. apply map_eq. intros j. destruct (decide (k = j)) as [<-|].
  - by rewrite lookup_alter_eq, lookup_insert_eq, Hk.
  - by rewrite lookup_alter_ne, lookup_insert_ne.
Qed.

(** ** Sums over lists and maps *)

Definition lsum {A} (f : A -> N) (l : list A) : N := foldr (fun x acc => f x + acc) 0 l.

Section lsum.
Context {A : Type}.
Implicit Types (f g : A -> N) (l : list A).

Lemma lsum_cons f x l : lsum f (x :: l) = f x + lsum f l.
Proof. done. Qed.

Lemma lsum_app f l1 l2 : lsum f (l1 ++ l2) = lsum f l1 + lsum f l2.
Proof. induction l1 as [|x l1 IH]; simpl; [done | rewrite IH; lia]. Qed.

Lemma lsum_perm f l1 l2 : l1 ≡ₚ l2 -> lsum f l1 = lsum f l2.
Proof. induction 1; simpl; lia. Qed.

Lemma lsum_le f l x : x ∈ l -> f x <= lsum f l.
Proof. induction 1; simpl; lia. Qed.

Lemma lsum_ext f g l : (forall x, x ∈ l -> f x = g x) -> lsum f l = lsum g l.
Proof.
  induction l as [|x l IH]; intros Hfg; [done |]. simpl.
  rewrite Hfg by left. rewrite IH; [done |]. intros y Hy. apply Hfg. by right.
Qed.

Lemma lsum_mono f g l : (forall x, x ∈ l -> f x <= g x) -> lsum f l <= lsum g l.
Proof.
  induction l as [|x l IH]; intros Hfg; [done |]. simpl.
  pose proof (Hfg x (list_elem_of_here _ _)).
  assert (lsum f l <= lsum g l) by (apply IH; intros y Hy; apply Hfg; by right). lia.
Qed.

Lemma lsum_const c l : lsum (fun _ => c) l = c * N.of_nat (length l).
Proof. induction l as [|x l IH]; cbn [lsum foldr length] in *; [lia | unfold lsum in IH; lia]. Qed.

Lemma lsum_fmap {B} (h : B -> A) f (l : list B) : lsum f (h <$> l) = lsum (f ∘ h) l.
Proof. induction l as [|x l IH]; [done | exact (f_equal (N.add (f (h x))) IH)]. Qed.

(** An iterator's wrapping [sum()]: a left fold of wrapping additions. *)
Definition wsum (M : N) f l : N := foldl (fun acc x => wadd M acc (f x)) 0 l.

Lemma wsum_exact_aux M f l acc :
  acc + lsum f l < M -> foldl (fun acc x => wadd M acc (f x)) acc l = acc + lsum f l.
Proof.
  revert acc. induction l as [|x l IH]; intros acc; simpl; [lia |]. intros Hlt.
  rewrite wadd_small by lia. rewrite IH by lia. lia.
Qed.

Lemma wsum_exact M f l : lsum f l < M -> wsum M f l = lsum f l.
Proof. intros. unfold wsum. rewrite wsum_exact_aux; lia. Qed.
End lsum.

(** [iter().max().unwrap_or(0)]. *)
Definition max_list (l : list N) : N := foldr N.max 0 l.

Lemma max_list_ge x l : x ∈ l -> x <= max_list l.
Proof. induction 1; simpl; lia. Qed.

Lemma max_list_in l : l <> [] -> max_list l ∈ l.
Proof.
  induction l as [|x l IH]; intros Hl; [done |]. simpl.
  destruct l as [|y l]; [simpl; rewrite N.max_0_r; left |].
  destruct (N.max_spec x (max_list (y :: l))) as [[_ ->] | [_ ->]]; [right; by apply IH | left].
Qed.

Definition msum {K V} `{Countable K} (f : V -> N) (m : gmap K V) : N :=
  lsum (fun p => f p.2) (map_to_list m).

Section msum.
Context {K V : Type} `{Countable K} (f : V -> N).
Implicit Types (m : gmap K V).

(** The contribution of key [k]. *)
Definition mval (m : gmap K V) (k : K) : N := from_option f 0 (m !! k).

Lemma msum_empty : msum f (∅ : gmap K V) = 0.
Proof. unfold msum. by rewrite map_to_list_empty. Qed.

Lemma msum_insert_None m k v : m !! k = None -> msum f (<[k:=v]> m) = f v + msum f m.
Proof.
  intros Hk. unfold msum. by rewrite (lsum_perm _ _ _ (map_to_list_insert m k v Hk)).
Qed.

Lemma msum_delete m k : msum f m = mval m k + msum f (delete k m).
Proof.
  unfold mval. destruct (m !! k) as [v|] eqn:Hk; simpl.
  - rewrite <- (insert_delete_id m k v) at 1 by done.
    rewrite msum_insert_None; [done | apply lookup_delete_eq].
  - by rewrite delete_id.
Qed.

Lemma msum_insert m k v : msum f (<[k:=v]> m) + mval m k = f v + msum f m.
Proof.
  rewrite (msum_delete m k), <- insert_delete_eq, msum_insert_None by apply lookup_delete_eq. lia.
Qed.

Lemma mval_le m k : mval m k <= msum f m.
Proof. rewrite (msum_delete m k). lia. Qed.

Lemma mval_insert_eq m k v : mval (<[k:=v]> m) k = f v.
Proof. unfold mval. by rewrite lookup_insert_eq. Qed.

Lemma mval_insert_ne m k k' v : k <> k' -> mval (<[k:=v]> m) k' = mval m k'.
Proof. intros. unfold mval. by rewrite lookup_insert_ne. Qed.

Lemma mval_Some m k v : m !! k = Some v -> mval m k = f v.
Proof. intros Hk. unfold mval. by rewrite Hk. Qed.
End msum.

Arguments mval {K V _ _} f m k.

Abbreviation amount_of := (mval (fun x : N => x)).
Abbreviation map_total := (msum (fun x : N => x)).

Lemma total_insert {K} `{Countable K} (m : gmap K N) k v :
  map_total (<[k:=v]> m) + amount_of m k = v + map_total m.
Proof. apply (msum_insert (fun x : N => x)). Qed.

Lemma amount_le_total {K} `{Countable K} (m : gmap K N) k : amount_of m k <= map_total m.
Proof. apply mval_le. Qed.

Lemma amount_of_default {K} `{Countable K} (m : gmap K N) k : amount_of m k = default 0 (m !! k).
Proof. unfold mval. by destruct (m !! k). Qed.

(** [*m.entry(k).or_insert(0) += x] and [-= x], wrapping at [M]. *)
Definition entry_add {K} `{Countable K} (M : N) (k : K) (x : N) (m : gmap K N) : gmap K N :=
  <[k := wadd M (default 0 (m !! k)) x]> m.
Definition entry_sub {K} `{Countable K} (M : N) (k : K) (x : N) (m : gmap K N) : gmap K N :=
  <[k := wsub M (default 0 (m !! k)) x]> m.

Section entry.
Context {K : Type} `{Countable K} (M : N).
Implicit Types (m : gmap K N).

Lemma total_entry_add m k x : map_total m + x < M -> map_total (entry_add M k x m) = map_total m + x.
Proof.
  intros Hlt. unfold entry_add. rewrite <- amount_of_default.
  pose proof (amount_le_total m k).
  rewrite wadd_small by lia. pose proof (total_insert m k (amount_of m k + x)). lia.
Qed.

Lemma total_entry_sub m k x :
  map_total m < M -> x <= amount_of m k -> map_total (entry_sub M k x m) = map_total m - x.
Proof.
  intros Hlt Hx. unfold entry_sub. rewrite <- amount_of_default.
  pose proof (amount_le_total m k).
  rewrite wsub_small by lia. pose proof (total_insert m k (amount_of m k - x)). lia.
Qed.

Lemma amount_entry_add m k x j :
  map_total m + x < M -> amount_of (entry_add M k x m) j = amount_of m j + (if decide (k = j) then x else 0).
Proof.
  intros Hlt. unfold entry_add. rewrite <- amount_of_default.
  pose proof (amount_le_total m k).
  case_decide; subst; [rewrite mval_insert_eq, wadd_small by lia | rewrite mval_insert_ne by done]; lia.
Qed.

Lemma amount_entry_sub m k x j :
  map_total m < M -> x <= amount_of m k ->
  amount_of (entry_sub M k x m) j = amount_of m j - (if decide (k = j) then x else 0).
Proof.
  intros Hlt Hx. unfold entry_sub. rewrite <- amount_of_default.
  pose proof (amount_le_total m k).
  case_decide; subst; [rewrite mval_insert_eq, wsub_small by lia | rewrite mval_insert_ne by done]; lia.
Qed.

(** A debit followed by the same credit restores an existing entry. *)
Lemma entry_add_sub m k x :
  is_Some (m !! k) -> amount_of m k < M -> x <= amount_of m k ->
  entry_add M k x (entry_sub M k x m) = m.
Proof.
  intros [v Hv] Hlt Hx. rewrite (mval_Some _ _ _ _ Hv) in Hlt, Hx.
  unfold entry_add, entry_sub. rewrite Hv, lookup_insert_eq. simpl.
  rewrite insert_insert_eq, wsub_small, wadd_small by lia.
  apply insert_id. rewrite Hv. f_equal. lia.
Qed.

(** Loops that credit the entries of a list, or debit one amount from each. *)
Lemma total_entries_add (l : list (K * N)) m :
  map_total m + lsum snd l < M ->
  map_total (foldl (fun m p => entry_add M p.1 p.2 m) m l) = map_total m + lsum snd l.
Proof.
  revert m. induction l as [| [k x] l IH]; intros m Hlt; simpl in *; [lia |].
  rewrite IH; rewrite total_entry_add; lia.
Qed.

Lemma amount_entries_add (l : list (K * N)) m j :
  map_total m + lsum snd l < M ->
  amount_of (foldl (fun m p => entry_add M p.1 p.2 m) m l) j
  = amount_of m j + lsum (fun p => if decide (p.1 = j) then p.2 else 0) l.
Proof.
  revert m. induction l as [| [k x] l IH]; intros m Hlt; simpl in *; [lia |].
  rewrite IH by (rewrite total_entry_add; lia). rewrite amount_entry_add by lia. lia.
Qed.

Lemma entries_sub (l : list K) x m :
  NoDup l -> map_total m < M -> (forall k, k ∈ l -> x <= amount_of m k) ->
  let m' := foldl (fun m k => entry_sub M k x m) m l in
  map_total m' + x * N.of_nat (length l) = map_total m
  /\ forall j, amount_of m' j + (if decide (j ∈ l) then x else 0) = amount_of m j.
Proof.
  intros Hnd. revert m. induction Hnd as [| k l Hk _ IH]; intros m Hlt Hle.
  { cbn [foldl length]. split; [lia |]. intros j. rewrite decide_False by apply not_elem_of_nil. lia. }
  assert (x <= amount_of m k) as Hx by (apply Hle; left).
  cbn [foldl length]. rewrite Nat2N.inj_succ.
  destruct (IH (entry_sub M k x m)) as [Ht Ha].
  - rewrite total_entry_sub; lia.
  - intros j Hj. rewrite amount_entry_sub by done. case_decide; [by subst |].
    rewrite N.sub_0_r. apply Hle. by right.
  - pose proof (total_entry_sub m k x Hlt Hx). pose proof (amount_le_total m k). split; [lia |].
    intros j. specialize (Ha j). rewrite amount_entry_sub in Ha by done.
    destruct (decide (k = j)) as [<- |].
    + rewrite decide_False in Ha by done. rewrite decide_True by left. lia.
    + destruct (decide (j ∈ l)).
      * rewrite decide_True by (by right). lia.
      * rewrite decide_False by (by intros [->|]%elem_of_cons). lia.
Qed.
End entry.

(** Crediting one amount to each of some distinct keys. *)
Lemma lsum_once {K} `{EqDecision K} (x : N) (l : list K) j :
  NoDup l -> lsum (fun p : K * N => if decide (p.1 = j) then p.2 else 0) ((fun k => (k, x)) <$> l)
             = if decide (j ∈ l) then x else 0.
Proof.
  rewrite lsum_fmap. induction 1 as [| k l Hk _ IH]; [done |]. simpl. rewrite IH.
  destruct (decide (k = j)) as [<- |].
  - rewrite decide_False by done. rewrite decide_True by left. lia.
  - destruct (decide (j ∈ l)).
    + by rewrite decide_True by (by right).
    + by rewrite decide_False by (by intros [->|]%elem_of_cons).
Qed.

Lemma total_mono {K} `{Countable K} (m1 m2 : gmap K N) :
  (forall k, amount_of m1 k <= amount_of m2 k) -> map_total m1 <= map_total m2.
Proof.
  revert m2. induction m1 as [| k v m1 Hk IH] using map_ind; intros m2 Hle.
  { rewrite (msum_empty (K:=K)). lia. }
  rewrite (msum_delete _ m2 k), msum_insert_None by done.
  pose proof (Hle k) as Hv. rewrite mval_insert_eq in Hv.
  enough (map_total m1 <= map_total (delete k m2)) by lia. apply IH. intros j.
  destruct (decide (j = k)) as [-> |].
  - unfold mval at 1. rewrite Hk. simpl. lia.
  - specialize (Hle j). rewrite mval_insert_ne in Hle by done.
    unfold mval at 2. rewrite lookup_delete_ne by done. done.
Qed.

Lemma total_mono_plus {K} `{Countable K} (m1 m2 : gmap K N) l x :
  NoDup l -> (forall k, amount_of m1 k <= amount_of m2 k) -> (forall k, k ∈ l -> x + amount_of m1 k <= amount_of m2 k) ->
  map_total m1 + x * N.of_nat (length l) <= map_total m2.
Proof.
  intros Hnd Hle Hl.
  destruct (entries_sub (map_total m2 + 1) l x m2 Hnd) as [Ht Ha]; [lia | intros k Hk; specialize (Hl k Hk); lia |].
  rewrite <- Ht. apply N.add_le_mono_r, total_mono. intros k. specialize (Ha k). specialize (Hle k).
  case_decide as Hk; [specialize (Hl k Hk) |]; lia.
Qed.

(** ** Results and the state-and-error monad

    A method on [&mut S] that returns a [Result] leaves the state it has
    reached in place when it fails: nothing is rolled back for free. *)

Inductive result (A E : Type) : Type :=
  | Ok (a : A)
  | Err (e : E).
Arguments Ok {A E} a.
Arguments Err {A E} e.

Definition is_ok {A E} (r : result A E) : bool := if r is Ok _ then true else false.

(** The [?] operator of a function that returns a [Result]. *)
Notation "'let?' x ':=' m 'in' k" := (match m with Ok x => k | Err e => Err e end)
  (at level 200, x name, m at level 100, k at level 200, right associativity).

Definition ST (S E A : Type) : Type := S -> result A E * S.

#[export] Instance ST_ret S E : MRet (ST S E) := fun A a s => (Ok a, s).
#[export] Instance ST_bind S E : MBind (ST S E) := fun A B f m s =>
  match m s with
  | (Ok a, s1) => f a s1
  | (Err e, s1) => (Err e, s1)
  end.

Section st.
Context {S E : Type}.

Definition st_get : ST S E S := fun s => (Ok s, s).
Definition st_gets {A} (f : S -> A) : ST S E A := fun s => (Ok (f s), s).
Definition st_modify (f : S -> S) : ST S E unit := fun s => (Ok tt, f s).
Definition st_throw {A} (e : E) : ST S E A := fun s => (Err e, s).
(** [if b { return Err(e); }] *)
Definition fail_if (b : bool) (e : E) : ST S E unit := fun s => (if b then Err e else Ok tt, s).
(** [o.ok_or(e)?] *)
Definition ok_or {A} (o : option A) (e : E) : ST S E A :=
  fun s => (if o is Some a then Ok a else Err e, s).
(** [r.map_err(f)?] *)
Definition map_err {A E'} (r : result A E') (f : E' -> E) : ST S E A :=
  fun s => (match r with Ok a => Ok a | Err e => Err (f e) end, s).

Lemma bind_Ok {A B} (m : ST S E A) (f : A -> ST S E B) s b s' :
  (m ≫= f) s = (Ok b, s') <-> exists a s1, m s = (Ok a, s1) /\ f a s1 = (Ok b, s').
Proof.
  unfold mbind, ST_bind. destruct (m s) as [[a|e] s1]; split.
  - eauto.
  - by intros (a' & s1' & [= <- <-] & Hf).
  - done.
  - by intros (a' & s1' & Hm & Hf).
Qed.

Lemma bind_Err {A B} (m : ST S E A) (f : A -> ST S E B) s e s' :
  (m ≫= f) s = (Err e, s') <->
  m s = (Err e, s') \/ exists a s1, m s = (Ok a, s1) /\ f a s1 = (Err e, s').
Proof.
  unfold mbind, ST_bind. destruct (m s) as [[a|e'] s1]; split.
  - eauto.
  - by intros [[=] | (a' & s1' & [= <- <-] & Hf)].
  - intros [= <- <-]. by left.
  - intros [[= <- <-] | (a' & s1' & [=] & Hf)]. done.
Qed.

(** Name a run's final state by its outcome. *)
Lemma run_eq {A} (m : ST S E A) s r : (m s).1 = r -> m s = (r, (m s).2).
Proof. by destruct (m s); intros [= <-]. Qed.

(** A step that never changes the state, one that never fails, and one that
    changes nothing when it fails. *)
Definition readonly {A} (m : ST S E A) : Prop := forall s r s', m s = (r, s') -> s' = s.
Definition infallible {A} (m : ST S E A) : Prop := forall s e s', m s <> (Err e, s').
Definition atomic {A} (m : ST S E A) : Prop := forall s e s', m s = (Err e, s') -> s' = s.

Lemma readonly_ret {A} (a : A) : readonly (mret a : ST S E A).
Proof. by intros s r s' [= _ <-]. Qed.
Lemma readonly_gets {A} (f : S -> A) : readonly (st_gets f).
Proof. by intros s r s' [= _ <-]. Qed.
Lemma readonly_get : readonly st_get.
Proof. by intros s r s' [= _ <-]. Qed.
Lemma readonly_throw {A} e : readonly (st_throw (A:=A) e).
Proof. by intros s r s' [= _ <-]. Qed.
Lemma readonly_fail_if b e : readonly (fail_if b e).
Proof. by intros s r s' [= _ <-]. Qed.
Lemma readonly_ok_or {A} (o : option A) e : readonly (ok_or o e).
Proof. by intros s r s' [= _ <-]. Qed.
Lemma readonly_map_err {A E'} (r : result A E') f : readonly (map_err r f).
Proof. by intros s r' s' [= _ <-]. Qed.
Lemma readonly_bind {A B} (m : ST S E A) (f : A -> ST S E B) :
  readonly m -> (forall a, readonly (f a)) -> readonly (m ≫= f).
Proof.
  intros Hm Hf s r s'. unfold mbind, ST_bind. destruct (m s) as [[a|e] s1] eqn:Em.
  - intros Hr. apply Hf in Hr as ->. by apply Hm in Em.
  - intros [= _ <-]. by apply Hm in Em.
Qed.
Lemma infallible_ret {A} (a : A) : infallible (mret a : ST S E A).
Proof. by intros s e s' [=]. Qed.
Lemma infallible_modify f : infallible (st_modify f).
Proof. by intros s e s' [=]. Qed.
Lemma infallible_gets {A} (f : S -> A) : infallible (st_gets f).
Proof. by intros s e s' [=]. Qed.
Lemma infallible_bind {A B} (m : ST S E A) (f : A -> ST S E B) :
  infallible m -> (forall a, infallible (f a)) -> infallible (m ≫= f).
Proof.
  intros Hm Hf s e s' [Hc | (a & s1 & _ & Hc)]%bind_Err; [by apply Hm in Hc | by apply Hf in Hc].
Qed.

Lemma atomic_readonly {A} (m : ST S E A) : readonly m -> atomic m.
Proof. intros Hm s e s'. apply Hm. Qed.
Lemma atomic_infallible {A} (m : ST S E A) : infallible m -> atomic m.
Proof. intros Hm s e s' Hc. by apply Hm in Hc. Qed.
Lemma atomic_bind {A B} (m : ST S E A) (f : A -> ST S E B) :
  readonly m -> (forall a, atomic (f a)) -> atomic (m ≫= f).
Proof.
  intros Hm Hf s e s' [Hc | (a & s1 & Hs & Hc)]%bind_Err; [by apply Hm in Hc |].
  apply Hf in Hc as ->. by apply Hm in Hs.
Qed.
End st.

Lemma run_eq_pair {S1 S2 E A} (m : ST (S1 * S2) E A) s r :
  (m s).1 = r -> m s = (r, ((m s).2.1, (m s).2.2)).
Proof. destruct (m s) as [? []]. by intros [= <-]. Qed.

(** [for x in l { f(x)?; }]. *)
Fixpoint for_each {S E A} (f : A -> ST S E unit) (l : list A) : ST S E unit :=
  match l with
  | [] => mret tt
  | x :: l => f x;; for_each f l
  end.

Arguments ST : simpl never.

Lemma for_each_modify {S E A} (f : A -> S -> S) l (s : S) :
  for_each (fun x => st_modify (f x)) l s = (Ok tt : result unit E, foldl (fun s x => f x s) s l).
Proof. revert s. induction l as [| x l IH]; intros s; [done |]. apply (IH (f x s)). Qed.

(** A loop of read-only steps that ends has passed them all. *)
Lemma for_each_readonly {S E A} (f : A -> ST S E unit) l s u s' :
  (forall x, readonly (f x)) -> for_each f l s = (Ok u, s') ->
  s' = s /\ forall x, x ∈ l -> f x s = (Ok tt, s).
Proof.
  intros Hf. induction l as [| x l IH]; intros Hrun.
  - injection Hrun as _ <-. split; [done |]. by intros ? ?%elem_of_nil.
  - apply bind_Ok in Hrun as ([] & s1 & Hx & Hrun). pose proof (Hf x _ _ _ Hx) as ->.
    destruct (IH Hrun) as [-> Hall]. split; [done |]. by intros y [-> | Hy]%elem_of_cons; [| apply Hall].
Qed.

#[export] Hint Resolve readonly_ret readonly_gets readonly_get readonly_throw readonly_fail_if
  readonly_ok_or readonly_map_err readonly_bind infallible_ret infallible_modify infallible_gets
  infallible_bind : claw.

(** ** Record update

    [r <| f := v |>] and [r <| f ::= g |>] for the records that model the
    node's structs; a record declares one [Update] instance per field. *)

Class Update {R T : Type} (proj : R -> T) : Type := update : (T -> T) -> R -> R.
Arguments update {R T} proj {_} f r : simpl never.

Notation "r <| proj := v |>" := (update proj (fun _ => v) r)
  (at level 1, left associativity, format "r  <| proj  :=  v |>") : claw_scope.
Notation "r <| proj ::= f |>" := (update proj f r)
  (at level 1, left associativity, format "r  <| proj  ::=  f |>") : claw_scope.

Ltac solve_update eta proj :=
  let r := fresh "r" in let f := fresh "f" in
  intros f r;
  let e := eval cbv beta delta [eta] in (eta r) in
  let p := eval pattern (proj r) in e in
  match p with ?g _ => let b := eval cbv beta in (g (f (proj r))) in exact b end.

Ltac upd_reduce p q f w k :=
  first
    [ let v := eval cbv beta in (f (p w)) in k v
    | k (p w) ].

(** Read a field of an updated record. *)
Ltac upd_step :=
  match goal with
  | |- context [?p (update ?q ?f ?w)] =>
      upd_reduce p q f w ltac:(fun v => change (p (update q f w)) with v)
  | H : context [?p (update ?q ?f ?w)] |- _ =>
      upd_reduce p q f w ltac:(fun v => change (p (update q f w)) with v in H)
  end.
Ltac upd := repeat upd_step.
(** The same in the goal only. *)
Ltac upd_goal :=
  repeat match goal with
  | |- context [?p (update ?q ?f ?w)] =>
      upd_reduce p q f w ltac:(fun v => change (p (update q f w)) with v)
  end.

(** What a successful primitive step says; the new state is named by the old one. *)
Section st_ok.
Context {S E : Type}.
Implicit Types (s : S).

Lemma gets_run {A} (f : S -> A) s (r : result A E) s' :
  st_gets f s = (r, s') -> s' = s /\ r = Ok (f s).
Proof. by intros [= <- <-]. Qed.
Lemma get_run s (r : result S E) s' : st_get s = (r, s') -> s' = s /\ r = Ok s.
Proof. by intros [= <- <-]. Qed.
Lemma modify_run (f : S -> S) s (r : result unit E) s' :
  st_modify f s = (r, s') -> s' = f s /\ r = Ok tt.
Proof. by intros [= <- <-]. Qed.
Lemma ret_run {A} (a : A) s (r : result A E) s' :
  (mret a : ST S E A) s = (r, s') -> s' = s /\ r = Ok a.
Proof. by intros [= <- <-]. Qed.
Lemma fail_if_Ok b (e : E) s u s' : fail_if b e s = (Ok u, s') -> s' = s /\ b = false.
Proof. unfold fail_if. destruct b; [done |]. by intros [= _ <-]. Qed.
Lemma ok_or_Ok {A} (o : option A) (e : E) s a s' :
  ok_or o e s = (Ok a, s') -> s' = s /\ o = Some a.
Proof. unfold ok_or. destruct o; [| done]. by intros [= <- <-]. Qed.
Lemma map_err_Ok {A E'} (r : result A E') (f : E' -> E) s a s' :
  map_err r f s = (Ok a, s') -> s' = s /\ r = Ok a.
Proof. unfold map_err. destruct r; [| done]. by intros [= <- <-]. Qed.
End st_ok.

(** Symbolic execution of a monadic run [m s = (r, s')] in the context. *)
Ltac st_split lem H := first [ apply lem in H as [-> H] | apply lem in H as [_ H] ].
Ltac st_inv_step :=
  match goal with
  | H : mbind _ _ _ = (Ok _, _) |- _ => apply bind_Ok in H as (? & ? & ? & H)
  | H : st_gets _ _ = (_, _) |- _ => st_split gets_run H; injection H as ->
  | H : st_get _ = (_, _) |- _ => st_split get_run H; injection H as ->
  | H : st_modify _ _ = (_, _) |- _ => st_split modify_run H; clear H
  | H : mret _ _ = (_, _) |- _ => st_split ret_run H; first [injection H as -> | clear H]
  | H : st_throw _ _ = (Ok _, _) |- _ => discriminate H
  | H : fail_if _ _ _ = (Ok _, _) |- _ => st_split fail_if_Ok H
  | H : ok_or _ _ _ = (Ok _, _) |- _ => st_split ok_or_Ok H
  | H : map_err _ _ _ = (Ok _, _) |- _ => st_split map_err_Ok H
  | H : Err _ = Ok _ |- _ => discriminate H
  end.
Ltac st_inv := repeat (st_inv_step; simpl in *).

(** Stepwise execution of a run, for both outcomes. *)
Section st_exec.
Context {S E : Type}.
Implicit Types (s : S).

Lemma bind_fail_if {B} b (e : E) (f : unit -> ST S E B) s :
  (fail_if b e ≫= f) s = if b then (Err e, s) else f tt s.
Proof. by destruct b. Qed.
Lemma bind_gets {A B} (g : S -> A) (f : A -> ST S E B) s : (st_gets g ≫= f) s = f (g s) s.
Proof. done. Qed.
Lemma bind_get {B} (f : S -> ST S E B) s : (st_get ≫= f) s = f s s.
Proof. done. Qed.
Lemma bind_modify {B} (g : S -> S) (f : unit -> ST S E B) s : (st_modify g ≫= f) s = f tt (g s).
Proof. done. Qed.
Lemma bind_ret {A B} (a : A) (f : A -> ST S E B) s : ((mret a : ST S E A) ≫= f) s = f a s.
Proof. done. Qed.
Lemma bind_throw {A B} (e : E) (f : A -> ST S E B) s : (st_throw e ≫= f) s = (Err e, s).
Proof. done. Qed.
Lemma bind_ok_or {A B} (o : option A) (e : E) (f : A -> ST S E B) s :
  (ok_or o e ≫= f) s = match o with Some a => f a s | None => (Err e, s) end.
Proof. by destruct o. Qed.
Lemma bind_map_err {A B E'} (r : result A E') (g : E' -> E) (f : A -> ST S E B) s :
  (map_err r g ≫= f) s = match r with Ok a => f a s | Err e => (Err (g e), s) end.
Proof. by destruct r. Qed.
Lemma bind_assoc {A B C} (m : ST S E A) (g : A -> ST S E B) (f : B -> ST S E C) s :
  ((m ≫= g) ≫= f) s = (m ≫= fun a => g a ≫= f) s.
Proof. unfold mbind, ST_bind. by destruct (m s) as [[] ?]. Qed.
Lemma bind_run {A B} (m : ST S E A) (f : A -> ST S E B) s r s' :
  m s = (r, s') -> (m ≫= f) s = match r with Ok a => f a s' | Err e => (Err e, s') end.
Proof. unfold mbind, ST_bind. intros ->. by destruct r. Qed.
(** A read-only step either fails on the spot or yields a value there. *)
Lemma bind_readonly {A B} (m : ST S E A) (f : A -> ST S E B) s :
  readonly m ->
  (m ≫= f) s = match (m s).1 with Ok a => f a s | Err e => (Err e, s) end.
Proof.
  intros Hm. unfold mbind, ST_bind. destruct (m s) as [r s1] eqn:Em.
  apply Hm in Em as ->. by destruct r.
Qed.
End st_exec.

Ltac st_exec_step H :=
  match type of H with
  | mbind _ (mbind _ _) _ = _ => rewrite bind_assoc in H
  | mbind _ (st_gets _) _ = _ => rewrite bind_gets in H
  | mbind _ st_get _ = _ => rewrite bind_get in H
  | mbind _ (st_modify _) _ = _ => rewrite bind_modify in H
  | mbind _ (mret _) _ = _ => rewrite bind_ret in H
  | mbind _ (st_throw _) _ = _ => rewrite bind_throw in H
  | mbind _ (fail_if ?b _) _ = _ => rewrite bind_fail_if in H; destruct b eqn:?
  | mbind _ (ok_or ?o _) _ = _ => rewrite bind_ok_or in H; destruct o eqn:?
  | mbind _ (map_err ?r _) _ = _ => rewrite bind_map_err in H; destruct r eqn:?
  | mbind _ (match ?x with _ => _ end) _ = _ => destruct x eqn:?
  | (match ?x with _ => _ end) _ = _ => destruct x eqn:?
  | st_modify _ _ = _ => apply modify_run in H as [-> ->]
  | mret _ _ = _ => apply ret_run in H as [-> ->]
  | (Err _, _) = (?r, ?s') => injection H as <- <-
  | (Ok _, _) = (?r, ?s') => injection H as <- <-
  end.
Ltac st_exec H := repeat (cbv beta zeta in H; st_exec_step H).

(** Unfold a run in [H] down to its tests. *)
Ltac st_run H :=
  cbv [mbind ST_bind mret ST_ret st_get st_gets st_modify st_throw fail_if ok_or map_err] in H.

(** Boolean tests of the code, as propositions. *)
Ltac bool_step :=
  match goal with
  | H : (_ <? _)%N = true |- _ => apply N.ltb_lt in H
  | H : (_ <? _)%N = false |- _ => apply N.ltb_ge in H
  | H : (_ <=? _)%N = true |- _ => apply N.leb_le in H
  | H : (_ <=? _)%N = false |- _ => apply N.leb_gt in H
  | H : (_ =? _)%N = true |- _ => apply N.eqb_eq in H
  | H : (_ =? _)%N = false |- _ => apply N.eqb_neq in H
  | H : _ && _ = true |- _ => apply andb_true_iff in H as [? ?]
  | H : _ || _ = false |- _ => apply orb_false_iff in H as [? ?]
  | H : negb _ = true |- _ => apply negb_true_iff in H
  | H : negb _ = false |- _ => apply negb_false_iff in H
  | H : bool_decide _ = true |- _ => apply bool_decide_eq_true in H
  | H : bool_decide _ = false |- _ => apply bool_decide_eq_false in H
  end.
Ltac bools := repeat bool_step.
