(* ===== verification/Interfaces.v ===== *)
(** * Interfaces to code outside the repository

    The node relies on four third-party libraries: [blake3], [ed25519-dalek],
    [borsh] and [hex].  Each is a class of operations here, and what the node relies
    on is a separate class of laws, so that a definition needs only the
    operations and a theorem names the laws it uses. *)

From S2P Require Import Prelude.

(** [blake3::hash(..).as_bytes()]. *)
Class Blake3 : Type := blake3 : bytes -> bytes.

Class Blake3Laws `{Blake3} : Prop := { length_blake3 : forall m, length (blake3 m) = 32%nat }.

(** [ed25519_dalek]: [VerifyingKey::from_bytes] and [Signature::from_slice]
    succeed on valid encodings,
    [verify_strict] decides a signature, [sign] makes one. *)
Class Ed25519 : Type := {
  vk_from_bytes : bytes -> bool;
  sig_from_slice : bytes -> bool;
  verify_strict : bytes -> bytes -> bytes -> bool;
  vk_of_signing_key : bytes -> bytes;
  ed_sign : bytes -> bytes -> bytes;
}.

Class Ed25519Laws `{Ed25519} : Prop := {
  vk_of_signing_key_valid : forall sk, vk_from_bytes (vk_of_signing_key sk) = true;
  verify_sign : forall sk m, verify_strict (vk_of_signing_key sk) m (ed_sign sk m) = true;
}.

(** [borsh::to_vec] and [T::try_from_slice] (or [borsh::from_slice]) of a type. *)
Class Borsh (A : Type) : Type := {
  to_vec : A -> bytes;
  try_from_slice : bytes -> result A string;
}.

(** [T::deserialize_reader(reader)]: reads a prefix of the remaining input; the
    reader has advanced even when the read fails. *)
Class BorshRead (A : Type) : Type := read : ST bytes unit A.

(** A value's encoding, read back from the front of any input. *)
Definition reads_back {A} `{!BorshRead A} (enc : A -> bytes) (a : A) : Prop :=
  forall rest, read (enc a ++ rest) = (Ok a, rest).

(** [hex::encode]. *)
Class Hex : Type := hex_encode : bytes -> string.

(** A signature check as the node writes it: decode the key, then verify. *)
Definition checked_verify `{Ed25519} (key msg sig : bytes) : bool :=
  vk_from_bytes key && verify_strict key msg sig.
