(* ===== verification/Types.v ===== *)
(** * On-chain data types ([claw-node/crates/types])

    Transactions and their payloads, the state records, blocks and receipts,
    with the byte strings that are signed and hashed. *)

From S2P Require Import Prelude Interfaces.

(** ** Transactions ([types/src/transaction.rs]) *)

Inductive TxType : Type :=
  | AgentRegister | TokenTransfer | TokenCreate | TokenMintTransfer | ReputationAttest
  | ServiceRegister | ContractDeploy | ContractCall | StakeDeposit | StakeWithdraw | StakeClaim
  | PlatformActivityReport | TokenApprove | TokenBurn | ChangeDelegation | MinerRegister
  | MinerHeartbeat | ContractUpgradeAnnounce | ContractUpgradeExecute.

#[export] Instance TxType_eq_dec : EqDecision TxType.
Proof. solve_decision. Defined.

(** [tx_type as u8]. *)
Definition tx_type_u8 (t : TxType) : N :=
  match t with
  | AgentRegister => 0 | TokenTransfer => 1 | TokenCreate => 2 | TokenMintTransfer => 3
  | ReputationAttest => 4 | ServiceRegister => 5 | ContractDeploy => 6 | ContractCall => 7
  | StakeDeposit => 8 | StakeWithdraw => 9 | StakeClaim => 10 | PlatformActivityReport => 11
  | TokenApprove => 12 | TokenBurn => 13 | ChangeDelegation => 14 | MinerRegister => 15
  | MinerHeartbeat => 16 | ContractUpgradeAnnounce => 17 | ContractUpgradeExecute => 18
  end.

Record Transaction : Type := mkTransaction {
  tx_type : TxType;
  tx_from : bytes;
  tx_nonce : N;
  tx_payload : bytes;
  tx_signature : bytes;
}.

Record AgentRegisterPayload : Type := mkAgentRegisterPayload {
  arp_name : string;
  arp_metadata : gmap string string;
}.

Record TokenTransferPayload : Type := mkTokenTransferPayload {
  ttp_to : bytes;
  ttp_amount : N;
}.

Record TokenCreatePayload : Type := mkTokenCreatePayload {
  tcp_name : string;
  tcp_symbol : string;
  tcp_decimals : N;
  tcp_total_supply : N;
}.

Record TokenMintTransferPayload : Type := mkTokenMintTransferPayload {
  tmp_token_id : bytes;
  tmp_to : bytes;
  tmp_amount : N;
}.

Record ReputationAttestPayload : Type := mkReputationAttestPayload {
  rap_to : bytes;
  rap_category : string;
  rap_score : Z;
  rap_platform : string;
  rap_memo : string;
}.

Record ServiceRegisterPayload : Type := mkServiceRegisterPayload {
  srp_service_type : string;
  srp_description : string;
  srp_price_token : bytes;
  srp_price_amount : N;
  srp_endpoint : string;
  srp_active : bool;
}.

Record ContractDeployPayload : Type := mkContractDeployPayload {
  cdp_code : bytes;
  cdp_init_method : string;
  cdp_init_args : bytes;
}.

Record ContractCallPayload : Type := mkContractCallPayload {
  ccp_contract : bytes;
  ccp_method : string;
  ccp_args : bytes;
  ccp_value : N;
}.

Record StakeDepositPayload : Type := mkStakeDepositPayload {
  sdp_amount : N;
  sdp_validator : bytes;
  sdp_commission_bps : N;
}.

Record StakeWithdrawPayload : Type := mkStakeWithdrawPayload {
  swp_amount : N;
  swp_validator : bytes;
}.

Inductive StakeClaimPayload : Type := mkStakeClaimPayload.

Record TokenApprovePayload : Type := mkTokenApprovePayload {
  tap_token_id : bytes;
  tap_spender : bytes;
  tap_amount : N;
}.

Record TokenBurnPayload : Type := mkTokenBurnPayload {
  tbp_token_id : bytes;
  tbp_amount : N;
}.

Record ChangeDelegationPayload : Type := mkChangeDelegationPayload {
  chp_validator : bytes;
  chp_new_owner : bytes;
  chp_commission_bps : N;
}.

Record ActivityEntry : Type := mkActivityEntry {
  ae_agent : bytes;
  ae_action_count : N;
  ae_action_type : string;
}.

Record PlatformActivityReportPayload : Type := mkPlatformActivityReportPayload {
  par_reports : list ActivityEntry;
}.

Record MinerRegisterPayload : Type := mkMinerRegisterPayload {
  mrp_tier : N;
  mrp_ip_addr : bytes;
  mrp_name : string;
}.

Record MinerHeartbeatPayload : Type := mkMinerHeartbeatPayload {
  mhp_latest_block_hash : bytes;
  mhp_latest_height : N;
}.

Record ContractUpgradeAnnouncePayload : Type := mkContractUpgradeAnnouncePayload {
  cua_contract : bytes;
  cua_new_code_hash : bytes;
}.

Record ContractUpgradeExecutePayload : Type := mkContractUpgradeExecutePayload {
  cue_contract : bytes;
  cue_new_code : bytes;
  cue_migrate_method : option string;
  cue_migrate_args : bytes;
}.

(** [s.len()] of a Rust string or slice. *)
Definition slen (s : string) : N := N.of_nat (String.length s).
Definition blen (b : bytes) : N := N.of_nat (length b).
Definition as_bytes (s : string) : bytes := String.list_byte_of_string s.

(** Byte-string literals, [b"..."]. *)
Abbreviation lit := as_bytes.

Definition signable_bytes (tx : Transaction) : bytes :=
  [byte_of_N (tx_type_u8 (tx_type tx))] ++ tx_from tx ++ le64 (tx_nonce tx) ++ tx_payload tx.

Definition tx_hash `{Blake3} `{!Borsh Transaction} (tx : Transaction) : bytes :=
  blake3 (to_vec tx).

(** ** State records ([types/src/state.rs]) *)

Record AgentIdentity : Type := mkAgentIdentity {
  ai_address : bytes;
  ai_name : string;
  ai_metadata : gmap string string;
  ai_registered_at : N;
}.

Record TokenDef : Type := mkTokenDef {
  td_id : bytes;
  td_name : string;
  td_symbol : string;
  td_decimals : N;
  td_total_supply : N;
  td_issuer : bytes;
}.

Record ReputationAttestation : Type := mkReputationAttestation {
  ra_from : bytes;
  ra_to : bytes;
  ra_category : string;
  ra_score : Z;
  ra_platform : string;
  ra_memo : string;
  ra_block_height : N;
}.

Record ServiceEntry : Type := mkServiceEntry {
  se_provider : bytes;
  se_service_type : string;
  se_description : string;
  se_price_token : bytes;
  se_price_amount : N;
  se_endpoint : string;
  se_active : bool;
}.

Record UnbondingEntry : Type := mkUnbondingEntry {
  ub_address : bytes;
  ub_amount : N;
  ub_release_height : N;
}.

Definition UNBONDING_PERIOD_BLOCKS : N := 201600.

Record ActivityStats : Type := mkActivityStats {
  as_tx_count : N;
  as_contract_deploys : N;
  as_contract_calls : N;
  as_tokens_created : N;
  as_services_registered : N;
  as_gas_consumed : N;
}.
Definition default_ActivityStats : ActivityStats := mkActivityStats 0 0 0 0 0 0.

Record ValidatorUptime : Type := mkValidatorUptime {
  vu_signed_blocks : N;
  vu_expected_blocks : N;
  vu_produced_blocks : N;
}.
Definition default_ValidatorUptime : ValidatorUptime := mkValidatorUptime 0 0 0.

Record PlatformActivityAgg : Type := mkPlatformActivityAgg {
  pa_total_actions : N;
  pa_platform_count : N;
}.
Definition default_PlatformActivityAgg : PlatformActivityAgg := mkPlatformActivityAgg 0 0.

Definition MAX_ACTION_TYPE_LEN : N := 64.
Definition PLATFORM_AGENT_MIN_STAKE : N := 50000000000000.
Definition MAX_ACTIVITY_ENTRIES : N := 100.

(** [[0u8; 32]]: the native token id, the burn recipient, "no validator". *)
Definition zeros32 : bytes := replicate 32 x00.
Definition NATIVE_TOKEN_ID : bytes := zeros32.

Definition GAS_FEE : N := 1000000.
Definition CLAW_TOTAL_SUPPLY : N := 1000000000000000000.

Inductive MinerTier : Type := Online.

Record MinerInfoV1 : Type := mkMinerInfoV1 {
  m1_address : bytes;
  m1_tier : MinerTier;
  m1_name : string;
  m1_registered_at : N;
  m1_last_heartbeat : N;
  m1_ip_prefix : bytes;
  m1_active : bool;
  m1_reputation_bps : N;
}.

Record MinerInfoV2 : Type := mkMinerInfoV2 {
  m2_address : bytes;
  m2_tier : MinerTier;
  m2_name : string;
  m2_registered_at : N;
  m2_last_heartbeat : N;
  m2_ip_prefix : bytes;
  m2_active : bool;
  m2_reputation_bps : N;
  m2_pending_rewards : N;
  m2_pending_epoch : N;
  m2_epoch_attendance : N;
  m2_consecutive_misses : N;
}.

Record MinerInfo : Type := mkMinerInfo {
  mi_address : bytes;
  mi_tier : MinerTier;
  mi_name : string;
  mi_registered_at : N;
  mi_last_heartbeat : N;
  mi_ip_prefix : bytes;
  mi_active : bool;
  mi_reputation_bps : N;
  mi_pending_rewards : N;
  mi_pending_epoch : N;
  mi_epoch_attendance : N;
  mi_consecutive_misses : N;
  mi_last_checkin_epoch : N;
}.

Definition eta_MinerInfo (m : MinerInfo) : MinerInfo :=
  mkMinerInfo (mi_address m) (mi_tier m) (mi_name m) (mi_registered_at m) (mi_last_heartbeat m)
    (mi_ip_prefix m) (mi_active m) (mi_reputation_bps m) (mi_pending_rewards m) (mi_pending_epoch m)
    (mi_epoch_attendance m) (mi_consecutive_misses m) (mi_last_checkin_epoch m).

#[export] Instance upd_mi_last_heartbeat : Update mi_last_heartbeat := ltac:(solve_update eta_MinerInfo mi_last_heartbeat).
#[export] Instance upd_mi_active : Update mi_active := ltac:(solve_update eta_MinerInfo mi_active).
#[export] Instance upd_mi_reputation_bps : Update mi_reputation_bps := ltac:(solve_update eta_MinerInfo mi_reputation_bps).
#[export] Instance upd_mi_pending_rewards : Update mi_pending_rewards := ltac:(solve_update eta_MinerInfo mi_pending_rewards).
#[export] Instance upd_mi_pending_epoch : Update mi_pending_epoch := ltac:(solve_update eta_MinerInfo mi_pending_epoch).
#[export] Instance upd_mi_epoch_attendance : Update mi_epoch_attendance := ltac:(solve_update eta_MinerInfo mi_epoch_attendance).
#[export] Instance upd_mi_consecutive_misses : Update mi_consecutive_misses := ltac:(solve_update eta_MinerInfo mi_consecutive_misses).
#[export] Instance upd_mi_last_checkin_epoch : Update mi_last_checkin_epoch := ltac:(solve_update eta_MinerInfo mi_last_checkin_epoch).

Definition MINER_HEARTBEAT_INTERVAL_V1 : N := 1000.
Definition MINER_HEARTBEAT_INTERVAL : N := 100.
Definition MAX_MINERS_PER_SUBNET : N := 3.
Definition MINER_GRACE_BLOCKS : N := 2000.
Definition MINER_EPOCH_LENGTH : N := 100.
Definition MINER_UPTIME_WINDOW : N := 12.
Definition MINER_MIN_UPTIME_FOR_REWARD : N := 6.
Definition MINER_GRACE_EPOCHS : N := 6.
Definition REPUTATION_DECAY_BPS : N := 100.
Definition HEARTBEAT_V2_HEIGHT : N := 225900.
Definition REPUTATION_NEWCOMER_BPS : N := 2000.
Definition REPUTATION_ESTABLISHED_BPS : N := 5000.
Definition REPUTATION_VETERAN_BPS : N := 10000.
Definition BLOCKS_7_DAYS : N := 201600.
Definition BLOCKS_30_DAYS : N := 864000.
Definition CHECKIN_V3_HEIGHT : N := 280500.
Definition CHECKIN_V3_1_HEIGHT : N := 384500.

(** [MinerInfoV2::into_v3]: the last check-in epoch is read off the heartbeat. *)
Definition into_v3 (m : MinerInfoV2) : MinerInfo :=
  {| mi_last_checkin_epoch := m2_last_heartbeat m / MINER_EPOCH_LENGTH;
     mi_address := m2_address m; mi_tier := m2_tier m; mi_name := m2_name m;
     mi_registered_at := m2_registered_at m; mi_last_heartbeat := m2_last_heartbeat m;
     mi_ip_prefix := m2_ip_prefix m; mi_active := m2_active m;
     mi_reputation_bps := m2_reputation_bps m; mi_pending_rewards := m2_pending_rewards m;
     mi_pending_epoch := m2_pending_epoch m; mi_epoch_attendance := m2_epoch_attendance m;
     mi_consecutive_misses := m2_consecutive_misses m |}.

(** [impl From<MinerInfoV1> for MinerInfo]. *)
Definition MinerInfo_from_v1 (m : MinerInfoV1) : MinerInfo :=
  {| mi_address := m1_address m; mi_tier := m1_tier m; mi_name := m1_name m;
     mi_registered_at := m1_registered_at m; mi_last_heartbeat := m1_last_heartbeat m;
     mi_ip_prefix := m1_ip_prefix m; mi_active := m1_active m;
     mi_reputation_bps := m1_reputation_bps m; mi_pending_rewards := 0; mi_pending_epoch := 0;
     mi_epoch_attendance := 0; mi_consecutive_misses := 0; mi_last_checkin_epoch := 0 |}.

(** The borsh encodings of the primitive field types. *)
Class BorshPrims : Type := {
  ser_array : bytes -> bytes;
  ser_tier : MinerTier -> bytes;
  ser_string : string -> bytes;
  ser_vec_u8 : bytes -> bytes;
  ser_bool : bool -> bytes;
  ser_u16 : N -> bytes;
  ser_u64 : N -> bytes;
  ser_u128 : N -> bytes;
}.

(** [MinerInfo::borsh_v1]: the eight fields of the first layout. *)
Definition borsh_v1 `{BorshPrims} (m : MinerInfo) : bytes :=
  ser_array (mi_address m) ++ ser_tier (mi_tier m) ++ ser_string (mi_name m)
    ++ ser_u64 (mi_registered_at m) ++ ser_u64 (mi_last_heartbeat m)
    ++ ser_vec_u8 (mi_ip_prefix m) ++ ser_bool (mi_active m) ++ ser_u16 (mi_reputation_bps m).

(** [MinerInfo::borsh_v2]: all fields but [last_checkin_epoch]. *)
Definition borsh_v2 `{BorshPrims} (m : MinerInfo) : bytes :=
  ser_array (mi_address m) ++ ser_tier (mi_tier m) ++ ser_string (mi_name m)
    ++ ser_u64 (mi_registered_at m) ++ ser_u64 (mi_last_heartbeat m)
    ++ ser_vec_u8 (mi_ip_prefix m) ++ ser_bool (mi_active m) ++ ser_u16 (mi_reputation_bps m)
    ++ ser_u128 (mi_pending_rewards m) ++ ser_u64 (mi_pending_epoch m)
    ++ ser_u16 (mi_epoch_attendance m) ++ ser_u16 (mi_consecutive_misses m).

Record MinerCheckinWitness : Type := mkMinerCheckinWitness {
  w_miner : bytes;
  w_epoch : N;
  w_ref_block_hash : bytes;
  w_ref_block_height : N;
  w_signature : bytes;
}.

(** [MinerCheckinWitness::signable_bytes]. *)
Definition checkin_signable_bytes `{Blake3} (epoch : N) (ref_block_hash : bytes) : bytes :=
  blake3 (lit "claw-checkin" ++ le64 epoch ++ ref_block_hash).

Definition miner_uptime_multiplier (attendance_count : N) : N :=
  if attendance_count =? 12 then 100
  else if (9 <=? attendance_count) && (attendance_count <=? 11) then 80
  else if (6 <=? attendance_count) && (attendance_count <=? 8) then 50
  else 0.

(** ** Receipts and blocks ([types/src/receipt.rs], [types/src/block.rs]) *)

Record ReceiptEvent : Type := mkReceiptEvent {
  re_topic : string;
  re_data : bytes;
}.

Record TransactionReceipt : Type := mkTransactionReceipt {
  tr_tx_hash : bytes;
  tr_success : bool;
  tr_fuel_consumed : N;
  tr_fuel_limit : N;
  tr_return_data : bytes;
  tr_error_message : option string;
  tr_events : list ReceiptEvent;
  tr_logs : list string;
}.

Inductive BlockEvent : Type :=
  | RewardDistributed (recipient : bytes) (amount : N) (reward_type : string)
  | ContractEventE (contract : bytes) (tx_index : N) (topic : string) (data : bytes).

Record Block : Type := mkBlock {
  b_height : N;
  b_prev_hash : bytes;
  b_timestamp : N;
  b_validator : bytes;
  b_transactions : list Transaction;
  b_state_root : bytes;
  b_hash : bytes;
  b_signatures : list (bytes * bytes);
  b_events : list BlockEvent;
  b_checkin_witnesses : list MinerCheckinWitness;
}.

Definition eta_Block (b : Block) : Block :=
  mkBlock (b_height b) (b_prev_hash b) (b_timestamp b) (b_validator b) (b_transactions b)
    (b_state_root b) (b_hash b) (b_signatures b) (b_events b) (b_checkin_witnesses b).
#[export] Instance upd_b_hash : Update b_hash := ltac:(solve_update eta_Block b_hash).
#[export] Instance upd_b_signatures : Update b_signatures := ltac:(solve_update eta_Block b_signatures).

(** The custom [BorshDeserialize for Block]: the last three fields default to
    empty when they cannot be read. *)
Section block_read.
Context `{!BorshRead N} {hash_read : ST bytes unit bytes}.
Context `{!BorshRead (list Transaction), !BorshRead (list (bytes * bytes)),
          !BorshRead (list BlockEvent), !BorshRead (list MinerCheckinWitness)}.

(** [.unwrap_or_default()] on a read. *)
Definition read_or_default {A} (r : ST bytes unit (list A)) : ST bytes unit (list A) :=
  fun s => match r s with (Ok l, s') => (Ok l, s') | (Err _, s') => (Ok [], s') end.

Definition Block_deserialize_reader : ST bytes unit Block :=
  height ← read;
  prev_hash ← hash_read;
  timestamp ← read;
  validator ← hash_read;
  transactions ← read;
  state_root ← hash_read;
  hash ← hash_read;
  signatures ← read_or_default read;
  events ← read_or_default read;
  checkin_witnesses ← read_or_default read;
  mret (mkBlock height prev_hash timestamp validator transactions state_root hash
          signatures events checkin_witnesses).
End block_read.

Section block_hash.
Context `{Blake3} `{!Borsh Transaction}.

Definition witness_bytes (w : MinerCheckinWitness) : bytes :=
  w_miner w ++ le64 (w_epoch w) ++ w_ref_block_hash w ++ le64 (w_ref_block_height w)
    ++ w_signature w.

(** The header bytes that [compute_hash] hashes. *)
Definition header_bytes (b : Block) : bytes :=
  le64 (b_height b) ++ b_prev_hash b ++ le64 (b_timestamp b) ++ b_validator b
    ++ concat (tx_hash <$> b_transactions b) ++ b_state_root b
    ++ (if CHECKIN_V3_HEIGHT <=? b_height b
        then concat (witness_bytes <$> b_checkin_witnesses b) else []).

Definition compute_hash (b : Block) : bytes := blake3 (header_bytes b).

Definition verify_hash (b : Block) : bool := bool_decide (b_hash b = compute_hash b).
End block_hash.

(** ** Properties *)
Lemma length_zeros32 : length zeros32 = 32%nat.
Proof. done. Qed.

Lemma tx_type_u8_inj t1 t2 : tx_type_u8 t1 = tx_type_u8 t2 -> t1 = t2.
Proof. by destruct t1, t2. Qed.

Lemma tx_type_u8_lt t : tx_type_u8 t < 256.
Proof. by destruct t. Qed.

(** The signed byte string determines every signed field: no two different
    transactions of a sender share a signature's message. *)
Lemma signable_bytes_fields t1 t2 :
  length (tx_from t1) = 32%nat -> length (tx_from t2) = 32%nat ->
  tx_nonce t1 < TWO64 -> tx_nonce t2 < TWO64 ->
  signable_bytes t1 = signable_bytes t2 ->
  tx_type t1 = tx_type t2 /\ tx_from t1 = tx_from t2 /\ tx_nonce t1 = tx_nonce t2
    /\ tx_payload t1 = tx_payload t2.
Proof.
  unfold signable_bytes. intros Hf1 Hf2 Hn1 Hn2 Heq.
  apply app_inj_1 in Heq as [Ht Heq]; [| done].
  apply app_inj_1 in Heq as [Hf Heq]; [| by rewrite Hf1, Hf2].
  apply app_inj_1 in Heq as [Hn Hp]; [| by rewrite !length_le_bytes].
  split_and!; try done.
  - apply tx_type_u8_inj. apply (f_equal (from_option Byte.to_N 0 ∘ head)) in Ht. cbn in Ht.
    by rewrite !byte_to_of_N in Ht by apply tx_type_u8_lt.
  - by apply le_bytes_inj in Hn.
Qed.

Lemma read_or_default_reads_back {A} `{!BorshRead (list A)} (enc : list A -> bytes) l rest :
  reads_back enc l -> read_or_default read (enc l ++ rest) = (Ok l, rest).
Proof. intros Hr. unfold read_or_default. by rewrite Hr. Qed.

Section block_roundtrip.
Context `{Hu64 : !BorshRead N} {hash_read : ST bytes unit bytes}.
Context `{Htxs : !BorshRead (list Transaction), Hsigs : !BorshRead (list (bytes * bytes)),
          Hevs : !BorshRead (list BlockEvent), Hws : !BorshRead (list MinerCheckinWitness)}.
Context (eu64 : N -> bytes) (etxs : list Transaction -> bytes)
        (esigs : list (bytes * bytes) -> bytes) (eevs : list BlockEvent -> bytes)
        (ews : list MinerCheckinWitness -> bytes).

(** The derived [BorshSerialize]: the fields in order; [header_enc] is the part
    written before the three optional fields existed. *)
Definition Block_header_enc (b : Block) : bytes :=
  eu64 (b_height b) ++ b_prev_hash b ++ eu64 (b_timestamp b) ++ b_validator b
    ++ etxs (b_transactions b) ++ b_state_root b ++ b_hash b.
Definition Block_enc (b : Block) : bytes :=
  Block_header_enc b ++ esigs (b_signatures b) ++ eevs (b_events b)
    ++ ews (b_checkin_witnesses b).

Definition hash_reads (h : bytes) : Prop := forall rest, hash_read (h ++ rest) = (Ok h, rest).

(** Every field of the block can be read back. *)
Record block_readable (b : Block) : Prop := {
  br_u64 : reads_back eu64 (b_height b) /\ reads_back eu64 (b_timestamp b);
  br_hash : hash_reads (b_prev_hash b) /\ hash_reads (b_validator b)
            /\ hash_reads (b_state_root b) /\ hash_reads (b_hash b);
  br_txs : reads_back etxs (b_transactions b);
  br_opt : reads_back esigs (b_signatures b) /\ reads_back eevs (b_events b)
           /\ reads_back ews (b_checkin_witnesses b);
}.

Lemma Block_header_read b rest :
  block_readable b ->
  Block_deserialize_reader (hash_read:=hash_read) (Block_header_enc b ++ rest) =
    (signatures ← read_or_default read;
     events ← read_or_default read;
     checkin_witnesses ← read_or_default read;
     mret (mkBlock (b_height b) (b_prev_hash b) (b_timestamp b) (b_validator b)
             (b_transactions b) (b_state_root b) (b_hash b) signatures events checkin_witnesses)) rest.
Proof.
  intros [[H1 H2] (H3 & H4 & H5 & H6) H7 _]. unfold Block_deserialize_reader, Block_header_enc.
  rewrite <- !app_assoc.
  unfold mbind, ST_bind. by rewrite H1, H3, H2, H4, H7, H5, H6.
Qed.
End block_roundtrip.
