(* ===== verification/Concrete.v ===== *)
(** * Concrete stand-ins for the external libraries

    Executable functions that satisfy the laws of [Interfaces].  They are used
    only to evaluate the development at concrete inputs: nothing here models
    [blake3], [ed25519-dalek] or [borsh]. *)

From S2P Require Import Prelude Interfaces Types.

(** A checksum in the place of the hash. *)
Definition toy_blake3 : Blake3 := fun m => le_bytes 32 (le_value m mod (2 ^ 255 - 19)).

Lemma toy_blake3_laws : @Blake3Laws toy_blake3.
Proof. constructor. intros m. apply length_le_bytes. Qed.

Definition toy_key (sk : bytes) : bytes := take 32 (sk ++ zeros32).

Definition toy_ed25519 : Ed25519 := {|
  vk_from_bytes k := (length k =? 32)%nat;
  sig_from_slice _ := true;
  verify_strict k m s := bool_decide (s = toy_blake3 (k ++ m));
  vk_of_signing_key sk := toy_key sk;
  ed_sign sk m := toy_blake3 (toy_key sk ++ m);
|}.

Lemma toy_ed25519_laws : @Ed25519Laws toy_ed25519.
Proof.
  constructor.
  - intros sk. simpl. unfold toy_key. apply Nat.eqb_eq.
    rewrite length_take, length_app, length_zeros32. lia.
  - intros sk m. simpl. by apply bool_decide_eq_true.
Qed.

(** A 32-byte address with first byte [i]. *)
Definition toy_addr (i : N) : bytes := byte_of_N i :: replicate 31 x00.
