(* ===== verification/Crypto.v ===== *)
(** * Cryptographic layer ([claw-node/crates/crypto])

    The Merkle tree that commits the state and the transaction signer, over
    the operations of [Interfaces]. *)

From S2P Require Import Prelude Interfaces Types.

(** ** Merkle root ([crypto/src/merkle.rs]) *)

Section merkle.
Context `{Blake3}.

(** Domain tags: 0x00 for leaves, 0x01 for internal nodes. *)
Definition hash_leaf (leaf : bytes) : bytes := blake3 ([x00] ++ leaf).
Definition hash_node (a b : bytes) : bytes := blake3 ([x01] ++ a ++ b).

(** One pass over [current.chunks(2)]; an odd last element is paired with itself. *)
Fixpoint next_level (current : list bytes) : list bytes :=
  match current with
  | a :: b :: rest => hash_node a b :: next_level rest
  | [a] => [hash_node a a]
  | [] => []
  end.

(** [while current.len() > 1]; [fuel] bounds the number of passes. *)
Fixpoint climb (fuel : nat) (current : list bytes) : list bytes :=
  match fuel with
  | O => current
  | S fuel => if (1 <? length current)%nat then climb fuel (next_level current) else current
  end.

(** The leaves suffice as fuel: every pass halves the level. *)
Definition merkle_root (leaves : list bytes) : bytes :=
  match leaves with
  | [] => zeros32
  | _ => hd zeros32 (climb (length leaves) (hash_leaf <$> leaves))
  end.
End merkle.

(** ** Signer ([crypto/src/signer.rs]) *)

Inductive SignError : Type := SE_InvalidSignature | SE_SenderMismatch.

Section signer.
Context `{Ed25519}.

(** Sets [from] and [signature]. *)
Definition sign_transaction (tx : Transaction) (signing_key : bytes) : Transaction :=
  let tx := mkTransaction (tx_type tx) (vk_of_signing_key signing_key) (tx_nonce tx)
              (tx_payload tx) (tx_signature tx) in
  mkTransaction (tx_type tx) (tx_from tx) (tx_nonce tx) (tx_payload tx)
    (ed_sign signing_key (signable_bytes tx)).

Definition verify_transaction (tx : Transaction) : result unit SignError :=
  if vk_from_bytes (tx_from tx) then
    if verify_strict (tx_from tx) (signable_bytes tx) (tx_signature tx) then Ok tt
    else Err SE_InvalidSignature
  else Err SE_InvalidSignature.
End signer.

(** ** Properties of the Merkle tree *)

(** Two different inputs with one hash. *)
Definition collision `{Blake3} : Prop := exists x y, x <> y /\ blake3 x = blake3 y.

Section merkle_facts.
Context `{HB : Blake3} `{!Blake3Laws}.
Implicit Types (l : list bytes).

Definition all32 l : Prop := Forall (fun b => length b = 32%nat) l.

(** Two-step induction, following [next_level]. *)
Lemma pair_ind (P : list bytes -> Prop) :
  P [] -> (forall a, P [a]) -> (forall a b l, P l -> P (a :: b :: l)) -> forall l, P l.
Proof.
  intros H0 H1 H2. fix IH 1. intros [|a [|b l]]; [exact H0 | exact (H1 a) | apply H2, IH].
Qed.

Lemma length_next_level l : length (next_level l) = ((length l + 1) / 2)%nat.
Proof.
  induction l as [| a | a b l IH] using pair_ind; [done | done |]. cbn [next_level length].
  rewrite IH. replace (S (S (length l)) + 1)%nat with (length l + 1 + 1 * 2)%nat by lia.
  rewrite Nat.div_add by lia. lia.
Qed.

Lemma length_next_level_lt l : (1 < length l)%nat -> (0 < length (next_level l) < length l)%nat.
Proof.
  intros Hl. rewrite length_next_level. split.
  - apply Nat.div_str_pos. lia.
  - apply Nat.Div0.div_lt_upper_bound; lia.
Qed.

Lemma next_level_all32 l : all32 (next_level l).
Proof.
  induction l as [| a | a b l IH] using pair_ind.
  - apply Forall_nil_2.
  - apply Forall_cons_2; [apply length_blake3 | apply Forall_nil_2].
  - apply Forall_cons_2; [apply length_blake3 | done].
Qed.

(** Enough fuel ends the loop at a single hash. *)
Lemma climb_singleton fuel l :
  (0 < length l)%nat -> (length l <= fuel)%nat -> exists r, climb fuel l = [r].
Proof.
  revert l. induction fuel as [|fuel IH]; intros l Hpos Hfuel; [lia |]. simpl.
  destruct (Nat.ltb_spec 1 (length l)).
  - pose proof (length_next_level_lt l). apply IH; lia.
  - destruct l as [|r [|? ?]]; simpl in *; [lia | eauto | lia].
Qed.

(** More fuel changes nothing. *)
Lemma climb_fuel f1 f2 l :
  (length l <= f1)%nat -> (length l <= f2)%nat -> climb f1 l = climb f2 l.
Proof.
  revert f2 l. induction f1 as [|f1 IH]; intros f2 l H1 H2.
  - destruct l; [by destruct f2 | simpl in *; lia].
  - destruct f2 as [|f2]; [destruct l; [done | simpl in *; lia] |]. simpl.
    destruct (Nat.ltb_spec 1 (length l)); [| done].
    pose proof (length_next_level_lt l). apply IH; lia.
Qed.

Lemma hash_leaf_inj a b : hash_leaf a = hash_leaf b -> a = b \/ collision.
Proof.
  intros Hab. destruct (decide (a = b)) as [|Hne]; [by left | right].
  exists ([x00] ++ a), ([x00] ++ b). split; [by intros [= ?] | done].
Qed.

Lemma hash_node_inj a b c d :
  length a = 32%nat -> length c = 32%nat -> hash_node a b = hash_node c d ->
  (a = c /\ b = d) \/ collision.
Proof.
  intros Ha Hc Heq. destruct (decide (a ++ b = c ++ d)) as [Hab|Hne].
  - left. apply app_inj_1 in Hab; [done | by rewrite Ha, Hc].
  - right. exists ([x01] ++ a ++ b), ([x01] ++ c ++ d). split; [by intros [= ?] | done].
Qed.

Lemma hash_leaves_inj l1 l2 : hash_leaf <$> l1 = hash_leaf <$> l2 -> l1 = l2 \/ collision.
Proof.
  revert l2. induction l1 as [|a l1 IH]; intros [|b l2] Heq; try done; [by left |].
  rewrite !fmap_cons in Heq. injection Heq as Hh Ht.
  destruct (hash_leaf_inj _ _ Hh) as [-> |]; [| by right].
  destruct (IH _ Ht) as [-> |]; [by left | by right].
Qed.

Lemma next_level_inj l1 l2 :
  all32 l1 -> all32 l2 -> length l1 = length l2 -> next_level l1 = next_level l2 ->
  l1 = l2 \/ collision.
Proof.
  revert l2. induction l1 as [| a | a b l1 IH] using pair_ind;
    intros [|c [|d l2]] H1 H2 Hlen Heq; try done; [by left | |].
  - injection Heq as Hn. apply Forall_cons in H1 as [Ha _]. apply Forall_cons in H2 as [Hc _].
    destruct (hash_node_inj _ _ _ _ Ha Hc Hn) as [[-> _] |]; [by left | by right].
  - injection Heq as Hn Ht. injection Hlen as Hlen.
    apply Forall_cons in H1 as [Ha [_ H1]%Forall_cons].
    apply Forall_cons in H2 as [Hc [_ H2]%Forall_cons].
    destruct (hash_node_inj _ _ _ _ Ha Hc Hn) as [[-> ->] |]; [| by right].
    destruct (IH _ H1 H2 Hlen Ht) as [-> |]; [by left | by right].
Qed.

Lemma climb_inj fuel l1 l2 :
  all32 l1 -> all32 l2 -> length l1 = length l2 -> climb fuel l1 = climb fuel l2 ->
  l1 = l2 \/ collision.
Proof.
  revert l1 l2. induction fuel as [|fuel IH]; intros l1 l2 H1 H2 Hlen Heq; [by left |].
  simpl in Heq. rewrite Hlen in Heq. destruct (1 <? length l2)%nat; [| by left].
  apply IH in Heq as [Heq |]; try apply next_level_all32; [| | by rewrite !length_next_level, Hlen].
  - by apply next_level_inj.
  - by right.
Qed.

Lemma hash_leaves_all32 l : all32 (hash_leaf <$> l).
Proof. apply Forall_fmap, Forall_true. intros. apply length_blake3. Qed.

Lemma merkle_root_binds l1 l2 :
  length l1 = length l2 -> merkle_root l1 = merkle_root l2 -> l1 = l2 \/ collision.
Proof.
  intros Hlen Hroot. destruct l1 as [|a l1], l2 as [|b l2]; try done; [by left |].
  unfold merkle_root in Hroot. rewrite <- Hlen in Hroot.
  destruct (climb_singleton (length (a :: l1)) (hash_leaf <$> a :: l1)) as [r1 Hr1];
    [rewrite length_fmap; simpl; lia | by rewrite length_fmap |].
  destruct (climb_singleton (length (a :: l1)) (hash_leaf <$> b :: l2)) as [r2 Hr2];
    [rewrite length_fmap; simpl; lia | by rewrite length_fmap, <- Hlen |].
  rewrite Hr1, Hr2 in Hroot. simpl in Hroot. subst r2. rewrite <- Hr1 in Hr2.
  apply climb_inj in Hr2 as [Hl |]; auto using hash_leaves_all32.
  - symmetry in Hl. by apply hash_leaves_inj in Hl.
  - by rewrite !length_fmap.
Qed.

(** An odd level and the same level with its last element repeated. *)
Lemma next_level_snoc_dup l x :
  Nat.Odd (length (l ++ [x])) -> next_level (l ++ [x; x]) = next_level (l ++ [x]).
Proof.
  induction l as [| a | a b l IH] using pair_ind; intros Hodd; [done | |].
  - apply Nat.odd_spec in Hodd. done.
  - simpl. f_equal. apply IH. apply Nat.odd_spec in Hodd. by apply Nat.odd_spec.
Qed.

Lemma merkle_root_dup l x :
  Nat.Odd (length (l ++ [x])) -> l <> [] -> merkle_root (l ++ [x; x]) = merkle_root (l ++ [x]).
Proof.
  intros Hodd Hl. unfold merkle_root.
  destruct l as [|a l]; [done |]. cbn [app].
  change (a :: l ++ [x; x]) with ((a :: l) ++ [x; x]).
  change (a :: l ++ [x]) with ((a :: l) ++ [x]).
  set (k := a :: l) in *. f_equal.
  rewrite (climb_fuel (length (k ++ [x])) (length (k ++ [x; x])))
    by (rewrite length_fmap, !length_app; simpl; lia).
  assert (Hlen : length (k ++ [x; x]) = S (length (k ++ [x]))) by (rewrite !length_app; simpl; lia).
  rewrite Hlen. cbn [climb]. rewrite !length_fmap, Hlen, !fmap_app. cbn [fmap list_fmap].
  assert (1 < length (k ++ [x]))%nat by (unfold k; rewrite length_app; simpl; lia).
  destruct (Nat.ltb_spec 1 (S (length (k ++ [x])))); [| lia].
  destruct (Nat.ltb_spec 1 (length (k ++ [x]))); [| lia].
  f_equal. apply next_level_snoc_dup. rewrite length_app in Hodd |- *. by rewrite length_fmap.
Qed.
(** ** The loop, as the source writes it

    [loops n l r]: the [while] loop entered with the level [l] leaves with the
    level [r] after [n] passes.  Nothing bounds [n]. *)
Inductive loops : nat -> list bytes -> list bytes -> Prop :=
  | loops_exit l : (length l <= 1)%nat -> loops 0 l l
  | loops_pass n l r : (1 < length l)%nat -> loops n (next_level l) r -> loops (S n) l r.

Lemma loops_climb n l r fuel : loops n l r -> (length l <= fuel)%nat -> climb fuel l = r.
Proof.
  intros Hl. revert fuel. induction Hl as [l Hl | n l r Hl _ IH]; intros fuel Hf.
  - destruct fuel; [done |]. simpl. by destruct (Nat.ltb_spec 1 (length l)); [lia |].
  - destruct fuel; [lia |]. simpl. destruct (Nat.ltb_spec 1 (length l)); [| lia].
    pose proof (length_next_level_lt l Hl). apply IH. lia.
Qed.

Lemma log2_up_level l :
  (1 < length l)%nat -> Nat.log2_up (length l) = S (Nat.log2_up (length (next_level l))).
Proof.
  intros Hl. rewrite length_next_level.
  pose proof (Nat.div_mod_eq (length l + 1) 2). pose proof (Nat.mod_upper_bound (length l + 1) 2).
  set (h := ((length l + 1) / 2)%nat) in *.
  destruct (decide (h = 1%nat)) as [-> |]; [by replace (length l) with 2%nat by lia |].
  destruct (Nat.log2_up_spec h) as [Hlo Hhi]; [lia |].
  pose proof (Nat.log2_up_pos h ltac:(lia)) as Hk.
  destruct (Nat.log2_up h) as [| k]; [lia |].
  apply Nat.log2_up_unique; simpl in *; lia.
Qed.

Lemma loops_total l :
  (0 < length l)%nat -> exists r, loops (Nat.log2_up (length l)) l [r].
Proof.
  induction l as [l IH] using (induction_ltof1 _ (@length bytes)); intros Hpos. unfold ltof in IH.
  destruct (decide (1 < length l)%nat) as [Hl |].
  - pose proof (length_next_level_lt l Hl). destruct (IH (next_level l)) as [r Hr]; [lia.. |].
    exists r. rewrite log2_up_level by done. by apply loops_pass.
  - destruct l as [| r []]; simpl in *; [lia | | lia]. exists r. by apply loops_exit.
Qed.

(** C29. The loop of [merkle_root] ends: on [n] leaves, after exactly the rounded-up
    binary logarithm of [n] passes, and leaves one hash, which is the root. *)
Theorem merkle_root_terminates leaves :
  leaves = [] /\ merkle_root leaves = zeros32 \/
  loops (Nat.log2_up (length leaves)) (hash_leaf <$> leaves) [merkle_root leaves].
Proof.
  destruct leaves as [| a l]; [by left | right].
  destruct (loops_total (hash_leaf <$> a :: l)) as [r Hr]; [simpl; lia |].
  rewrite length_fmap in Hr.
  unfold merkle_root. by rewrite (loops_climb _ _ _ _ Hr) by (by rewrite length_fmap).
Qed.
End merkle_facts.

(** ** Properties of the signer *)

Section signer_facts.
Context `{HE : Ed25519} `{!Ed25519Laws}.

Lemma verify_transaction_Ok tx :
  verify_transaction tx = Ok tt <->
  checked_verify (tx_from tx) (signable_bytes tx) (tx_signature tx) = true.
Proof.
  unfold verify_transaction, checked_verify.
  destruct (vk_from_bytes (tx_from tx)), (verify_strict _ _ _); simpl; by split.
Qed.

Lemma verify_sign_transaction tx sk : verify_transaction (sign_transaction tx sk) = Ok tt.
Proof.
  apply verify_transaction_Ok. unfold checked_verify, sign_transaction, signable_bytes. simpl.
  by rewrite vk_of_signing_key_valid, verify_sign.
Qed.
End signer_facts.
