(* ===== verification/ConsensusTypes.v ===== *)
(** * Consensus types ([claw-node/crates/consensus/src/types.rs]) *)

From S2P Require Import Prelude Interfaces Types.

Definition MIN_STAKE : N := 10000000000000.
Definition MAX_VALIDATORS : nat := 21.
Definition EPOCH_LENGTH : N := 100.
Definition BLOCK_TIME_SECS : N := 3.

(** More than two thirds of [n] validators. *)
Definition quorum (n : N) : N := if n =? 0 then 0 else 2 * n / 3 + 1.

Record WeightConfig : Type := mkWeightConfig { wc_stake_bps : N; wc_score_bps : N }.
Definition COLD_START : WeightConfig := mkWeightConfig 7000 3000.
Definition TARGET : WeightConfig := mkWeightConfig 4000 6000.

Record ActiveValidator : Type := mkActiveValidator {
  av_address : bytes;
  av_stake : N;
  av_agent_score : N;
  av_weight : N;
}.

Record Vote : Type := mkVote {
  vt_block_hash : bytes;
  vt_height : N;
  vt_voter : bytes;
  vt_signature : bytes;
}.

(** [Vote::signable_bytes]. *)
Definition vote_signable_bytes (block_hash : bytes) (height : N) : bytes := block_hash ++ le64 height.

Record EpochInfo : Type := mkEpochInfo {
  ei_epoch : N;
  ei_validators : list ActiveValidator;
  ei_weight_config : WeightConfig;
}.

(** The comparator of both sorts: weight descending, then address ascending. *)
Definition weight_leb (a b : ActiveValidator) : bool :=
  (av_weight b <? av_weight a)
  || ((av_weight b =? av_weight a) && bytes_leb (av_address a) (av_address b)).

Lemma weight_leb_total a b : weight_leb a b \/ weight_leb b a.
Proof.
  unfold weight_leb.
  destruct (N.ltb_spec (av_weight b) (av_weight a)), (N.ltb_spec (av_weight a) (av_weight b)); auto.
  replace (av_weight b) with (av_weight a) by lia. rewrite N.eqb_refl. apply bytes_leb_total.
Qed.

Lemma weight_leb_weight a b : weight_leb a b -> av_weight b <= av_weight a.
Proof.
  unfold weight_leb. destruct (N.ltb_spec (av_weight b) (av_weight a)); [lia |].
  destruct (N.eqb_spec (av_weight b) (av_weight a)); [lia | done].
Qed.

Lemma weight_leb_trans a b c : weight_leb a b -> weight_leb b c -> weight_leb a c.
Proof.
  intros Hab Hbc. pose proof (weight_leb_weight _ _ Hab). pose proof (weight_leb_weight _ _ Hbc).
  revert Hab Hbc. unfold weight_leb. destruct (N.ltb_spec (av_weight c) (av_weight a)); [done |].
  replace (av_weight b) with (av_weight a) by lia. replace (av_weight c) with (av_weight a) by lia.
  rewrite N.ltb_irrefl, N.eqb_refl. apply bytes_leb_trans.
Qed.

Lemma quorum_majority n : 0 < n -> 2 * n < 3 * quorum n.
Proof.
  intros. unfold quorum. destruct (N.eqb_spec n 0); [lia |].
  pose proof (N.Div0.div_mod (2 * n) 3). pose proof (N.mod_lt (2 * n) 3 ltac:(done)). lia.
Qed.

Lemma quorum_le n : quorum n <= n.
Proof.
  unfold quorum. destruct (N.eqb_spec n 0); [lia |].
  pose proof (N.Div0.mul_div_le (2 * n) 3). lia.
Qed.
