(* ===== verification/Election.v ===== *)
(** * Proposer election ([claw-node/crates/consensus/src/election.rs]) *)

From S2P Require Import Prelude Interfaces Types Concrete ConsensusTypes.

Section election.
Context `{Blake3}.
Implicit Types (vs validators : list ActiveValidator).

Definition vrf_seed (prev_hash : bytes) (height : N) : bytes := blake3 (prev_hash ++ le64 height).

(** The walk over cumulative weights. *)
Fixpoint walk (cumulative pick : N) vs : option bytes :=
  match vs with
  | [] => None
  | v :: vs =>
      let cumulative := u64_add cumulative (av_weight v) in
      if pick <? cumulative then Some (av_address v) else walk cumulative pick vs
  end.

Definition total_weight vs : N := wsum TWO64 av_weight vs.

(** The seed's first eight bytes, little-endian, reduced to the weight range. *)
Definition pick_of (prev_hash : bytes) (height : N) vs : N :=
  le_value (take 8 (vrf_seed prev_hash height)) mod total_weight vs.

Definition elect_proposer vs (prev_hash : bytes) (height : N) : option bytes :=
  match vs with
  | [] => None
  | [v] => Some (av_address v)
  | v0 :: _ =>
      if total_weight vs =? 0 then Some (av_address v0)
      else match walk 0 (pick_of prev_hash height vs) vs with
           | Some a => Some a
           | None => av_address <$> last vs
           end
  end.

Definition elect_fallback_proposer vs (prev_hash : bytes) (height : N) : option bytes :=
  if (length vs <? 2)%nat then None
  else
    primary ← elect_proposer vs prev_hash height;
    v ← head (filter (fun v => av_address v <> primary) (sort_by weight_leb vs));
    Some (av_address v).

(** ** The walk *)
Lemma walk_interval c p vs :
  c + lsum av_weight vs < TWO64 -> c <= p < c + lsum av_weight vs ->
  exists pre v post, vs = pre ++ v :: post
    /\ c + lsum av_weight pre <= p < c + lsum av_weight pre + av_weight v
    /\ walk c p vs = Some (av_address v).
Proof.
  revert c. induction vs as [|v vs IH]; intros c Hlt Hp; simpl in *; [lia |].
  rewrite wadd_small by lia. destruct (N.ltb_spec p (c + av_weight v)).
  - exists [], v, vs. simpl. split_and!; [done | lia | lia | done].
  - destruct (IH (c + av_weight v)) as (pre & u & post & -> & Hu & Hw); [lia | lia |].
    exists (v :: pre), u, post. simpl. split_and!; [done | lia | lia | done].
Qed.

(** The number of draws in the weight range that select address [a]. *)
Definition draws (c : N) vs (a : bytes) : N :=
  N.of_nat (length (filter (fun p => walk c p vs = Some a) (seqN c (lsum av_weight vs)))).

Lemma walk_first c p v vs :
  c + av_weight v < TWO64 -> c <= p < c + av_weight v -> walk c p (v :: vs) = Some (av_address v).
Proof.
  intros. simpl. rewrite wadd_small by lia. destruct (N.ltb_spec p (c + av_weight v)); [done | lia].
Qed.

Lemma walk_rest c p v vs :
  c + av_weight v < TWO64 -> c + av_weight v <= p -> walk c p (v :: vs) = walk (c + av_weight v) p vs.
Proof.
  intros. simpl. rewrite wadd_small by lia. destruct (N.ltb_spec p (c + av_weight v)); [lia | done].
Qed.

Lemma draws_weight c vs a :
  c + lsum av_weight vs < TWO64 ->
  draws c vs a = lsum (fun v => if decide (av_address v = a) then av_weight v else 0) vs.
Proof.
  unfold draws. revert c. induction vs as [|v vs IH]; intros c Hlt; [done |].
  rewrite !lsum_cons in *. rewrite seqN_app, filter_app, length_app, Nat2N.inj_add, <- (IH (c + av_weight v)) by lia.
  f_equal.
  - case_decide as Ha.
    + rewrite filter_all, length_seqN; [lia |]. intros p Hp%elem_of_seqN.
      rewrite walk_first by lia. by rewrite Ha.
    + rewrite filter_none; [done |]. intros p Hp%elem_of_seqN.
      rewrite walk_first by lia. by intros [= ?].
  - do 2 f_equal. apply filter_ext_in. intros p Hp%elem_of_seqN. by rewrite walk_rest by lia.
Qed.
End election.

(** ** Election *)

Section election_facts.
Context `{Blake3}.
Implicit Types (vs : list ActiveValidator).

Lemma total_weight_exact vs : lsum av_weight vs < TWO64 -> total_weight vs = lsum av_weight vs.
Proof. apply wsum_exact. Qed.

Lemma walk_elem c p vs a : walk c p vs = Some a -> a ∈ av_address <$> vs.
Proof.
  revert c. induction vs as [|v vs IH]; intros c Hw; simpl in Hw; [done |].
  rewrite fmap_cons. destruct (_ <? _); [injection Hw as <-; left | right; eauto].
Qed.

Lemma elect_proposer_cases vs prev_hash height :
  elect_proposer vs prev_hash height = None -> vs = [].
Proof.
  destruct vs as [|v0 [|v1 vs]]; [done | done |]. unfold elect_proposer.
  destruct (_ =? _); [done |]. destruct (walk _ _ _); [done |].
  by intros ?%fmap_None%last_None.
Qed.

Lemma elect_proposer_elem vs prev_hash height a :
  elect_proposer vs prev_hash height = Some a -> a ∈ av_address <$> vs.
Proof.
  destruct vs as [|v0 [|v1 vs]]; [done | intros [= <-]; left |].
  unfold elect_proposer. destruct (_ =? _); [intros [= <-]; left |].
  destruct (walk _ _ _) eqn:Hw; [intros [= <-]; by eapply walk_elem |].
  intros (v & Hv & ->)%fmap_Some. apply list_elem_of_fmap. exists v. split; [done |].
  by apply last_Some_elem_of.
Qed.

Lemma head_filter_first {A} (P : A -> Prop) `{forall x, Decision (P x)} (leb : A -> A -> bool) l v :
  StronglySorted leb l -> (forall x, leb x x) -> head (filter P l) = Some v ->
  v ∈ l /\ P v /\ forall u, u ∈ l -> P u -> leb v u.
Proof.
  induction 1 as [|x l Hl IH Hx]; intros Hrefl Hhead; [done |].
  rewrite Forall_forall in Hx. destruct (decide (P x)) as [Px|Px].
  - rewrite filter_cons_True in Hhead by done. simpl in Hhead. simplify_eq.
    split_and!; [left | done |]. intros u [-> | Hu]%elem_of_cons _; auto.
  - rewrite filter_cons_False in Hhead by done. destruct (IH Hrefl Hhead) as (Hin & Hp & Hmin).
    split_and!; [by right | done |]. intros u [-> | Hu]%elem_of_cons Pu; [done | auto].
Qed.

Lemma elect_fallback_None vs prev_hash height p :
  elect_proposer vs prev_hash height = Some p ->
  elect_fallback_proposer vs prev_hash height = None <->
    ((length vs < 2)%nat \/ forall u, u ∈ vs -> av_address u = p).
Proof.
  intros Hp. unfold elect_fallback_proposer. destruct (Nat.ltb_spec (length vs) 2); [split; auto |].
  rewrite Hp. simpl. destruct (head _) as [v|] eqn:Hh; simpl; split; try done.
  - intros [?|Hall]; [lia |]. apply head_Some_elem_of in Hh.
    apply list_elem_of_filter in Hh as [Hv Hin]. rewrite elem_of_sort_by in Hin. by apply Hall in Hin.
  - intros _. right. intros u Hu. destruct (decide (av_address u = p)) as [|Hne]; [done |]. exfalso.
    apply head_None in Hh.
    assert (u ∈ filter (fun v => av_address v <> p) (sort_by weight_leb vs)) as Hu'.
    { apply list_elem_of_filter. by rewrite elem_of_sort_by. }
    rewrite Hh in Hu'. by apply not_elem_of_nil in Hu'.
Qed.

(** Weighted election.  With at least two validators and a total weight
    that fits in 64 bits, [elect_proposer] returns the validator whose interval
    of cumulative weights holds the draw, the trailing "shouldn't happen" branch
    is never taken, and over the whole weight range an address is selected
    exactly as often as its weight. *)
Theorem elect_proposer_weighted vs prev_hash height :
  (2 <= length vs)%nat -> 0 < lsum av_weight vs -> lsum av_weight vs < TWO64 ->
  (exists pre v post, vs = pre ++ v :: post
    /\ lsum av_weight pre <= pick_of prev_hash height vs < lsum av_weight pre + av_weight v
    /\ elect_proposer vs prev_hash height = Some (av_address v))
  /\ forall a, draws 0 vs a = lsum (fun v => if decide (av_address v = a) then av_weight v else 0) vs.
Proof.
  intros Hlen Hpos Hlt. split; [| intros a; by apply draws_weight].
  destruct (walk_interval 0 (pick_of prev_hash height vs) vs) as (pre & v & post & Hvs & Hi & Hw);
    [lia | | ].
  { unfold pick_of. rewrite total_weight_exact by done. rewrite N.add_0_l. split; [apply N.le_0_l |]. apply N.mod_lt. lia. }
  exists pre, v, post. split_and!; [done | lia | lia |].
  destruct vs as [|v0 [|v1 vs]]; simpl in Hlen; [lia | lia |]. unfold elect_proposer.
  rewrite total_weight_exact by done. destruct (N.eqb_spec (lsum av_weight (v0 :: v1 :: vs)) 0); [lia |].
  by rewrite Hw.
Qed.

(** The election is total: it fails only on an empty set and otherwise
    names a member of it; the fallback is a different member of maximal weight
    (smallest address among equals), and there is none exactly when no other
    address exists. *)
Theorem election_members vs prev_hash height :
  (elect_proposer vs prev_hash height = None <-> vs = [])
  /\ (forall a, elect_proposer vs prev_hash height = Some a -> a ∈ av_address <$> vs)
  /\ (forall p, elect_proposer vs prev_hash height = Some p ->
        elect_fallback_proposer vs prev_hash height = None <->
          ((length vs < 2)%nat \/ forall u, u ∈ vs -> av_address u = p))
  /\ (forall p a, elect_proposer vs prev_hash height = Some p ->
        elect_fallback_proposer vs prev_hash height = Some a ->
        exists v, v ∈ vs /\ av_address v = a /\ a <> p
          /\ forall u, u ∈ vs -> av_address u <> p -> weight_leb v u).
Proof.
  split_and!.
  - split; [apply elect_proposer_cases | by intros ->].
  - apply elect_proposer_elem.
  - apply elect_fallback_None.
  - intros p a Hp. unfold elect_fallback_proposer. destruct (_ <? _)%nat; [done |]. rewrite Hp. simpl.
    intros (v & Hv & [= <-])%bind_Some.
    apply (head_filter_first _ weight_leb) in Hv as (Hin & Hne & Hmin);
      [| apply sort_by_sorted; [apply weight_leb_total | apply weight_leb_trans] |].
    + rewrite elem_of_sort_by in Hin. exists v. split_and!; try done. intros u Hu Hup. apply Hmin; [| done].
      by rewrite elem_of_sort_by.
    + intros u. by destruct (weight_leb_total u u).
Qed.
End election_facts.

(** ** Witnesses *)

Definition sample_validators : list ActiveValidator :=
  [mkActiveValidator (toy_addr 1) 10 0 7; mkActiveValidator (toy_addr 2) 10 0 5;
   mkActiveValidator (toy_addr 3) 10 0 2].

Lemma elect_proposer_weighted_witness :
  draws 0 sample_validators (toy_addr 2) = 5
  /\ exists a, elect_proposer (H:=toy_blake3) sample_validators zeros32 7 = Some a.
Proof.
  destruct (@elect_proposer_weighted toy_blake3 sample_validators zeros32 7) as [(pre & v & post & _ & _ & He) Hd];
    [simpl; lia | vm_compute; reflexivity | vm_compute; reflexivity |].
  split; [rewrite Hd; vm_compute; reflexivity | exists (av_address v); exact He].
Defined.
