(* ===== verification/Voting.v ===== *)
(** * Vote collection and finality ([claw-node/crates/consensus/src/voting.rs]) *)

From S2P Require Import Prelude Interfaces Types Concrete ConsensusTypes.

Inductive VoteResult : Type :=
  | Pending (votes needed : N)
  | Finalized (votes : N)
  | Conflict (voter : bytes).

Record VoteCollector : Type := mkVoteCollector {
  vc_height : N;
  vc_expected_hash : bytes;
  vc_active_validators : list ActiveValidator;
  vc_votes : gmap bytes Vote;
}.

Definition eta_VoteCollector (c : VoteCollector) : VoteCollector :=
  mkVoteCollector (vc_height c) (vc_expected_hash c) (vc_active_validators c) (vc_votes c).
#[export] Instance upd_vc_votes : Update vc_votes := ltac:(solve_update eta_VoteCollector vc_votes).

Section voting.
Context `{Ed25519}.

Definition VoteCollector_new (height : N) (expected_hash : bytes)
    (active_validators : list ActiveValidator) : VoteCollector :=
  mkVoteCollector height expected_hash active_validators ∅.

Definition vote_count (c : VoteCollector) : N := N.of_nat (size (vc_votes c)).

Definition current_result (c : VoteCollector) : VoteResult :=
  let n := N.of_nat (length (vc_active_validators c)) in
  let needed := quorum n in
  let have := vote_count c in
  if needed <=? have then Finalized have else Pending have needed.

Definition is_active_voter (c : VoteCollector) (voter : bytes) : bool :=
  existsb (fun v => bool_decide (av_address v = voter)) (vc_active_validators c).

Definition add_vote (vote : Vote) : ST VoteCollector string VoteResult :=
  c ← st_get;
  fail_if (negb (is_active_voter c (vt_voter vote))) "voter is not an active validator";;
  fail_if (negb (vt_height vote =? vc_height c)) "vote height mismatch";;
  match vc_votes c !! vt_voter vote with
  | Some existing =>
      if negb (bool_decide (vt_block_hash existing = vt_block_hash vote))
      then mret (Conflict (vt_voter vote))
      else mret (current_result c)
  | None =>
      let msg := vote_signable_bytes (vt_block_hash vote) (vt_height vote) in
      fail_if (negb (vk_from_bytes (vt_voter vote))) "invalid voter public key";;
      fail_if (negb (verify_strict (vt_voter vote) msg (vt_signature vote))) "invalid vote signature";;
      fail_if (negb (bool_decide (vt_block_hash vote = vc_expected_hash c)))
        "vote for unexpected block hash";;
      st_modify (fun c => c <| vc_votes ::= <[vt_voter vote := vote]> |>);;
      st_gets current_result
  end.

(** The collectors that a sequence of submitted votes, accepted or not, can reach. *)
Definition submit (c : VoteCollector) (v : Vote) : VoteCollector := (add_vote v c).2.

Inductive reachable (height : N) (hash : bytes) (active : list ActiveValidator) :
    VoteCollector -> Prop :=
  | reach_new : reachable height hash active (VoteCollector_new height hash active)
  | reach_vote c v : reachable height hash active c -> reachable height hash active (submit c v).

(** ** Invariant *)

(** A vote that a collector for this round may hold. *)
Definition good_vote (height : N) (hash : bytes) (active : list ActiveValidator)
    (voter : bytes) (v : Vote) : Prop :=
  vt_voter v = voter /\ voter ∈ av_address <$> active
  /\ vt_height v = height /\ vt_block_hash v = hash
  /\ checked_verify voter (vote_signable_bytes hash height) (vt_signature v) = true.

Lemma is_active_voter_elem c a :
  is_active_voter c a = true -> a ∈ av_address <$> vc_active_validators c.
Proof.
  intros (v & Hv & Ha)%existsb_exists. apply bool_decide_eq_true in Ha as <-.
  apply list_elem_of_fmap_2. by apply list_elem_of_In.
Qed.

(** One submission either leaves the collector alone or stores one good vote. *)
Lemma submit_cases c v :
  submit c v = c
  \/ (submit c v = c <| vc_votes ::= <[vt_voter v := v]> |> /\ vc_votes c !! vt_voter v = None
      /\ good_vote (vc_height c) (vc_expected_hash c) (vc_active_validators c) (vt_voter v) v).
Proof.
  unfold submit, add_vote, mbind, ST_bind, st_get, fail_if, st_modify, st_gets, mret, ST_ret; simpl.
  destruct (is_active_voter c (vt_voter v)) eqn:Ha; simpl; [| by left].
  destruct (N.eqb_spec (vt_height v) (vc_height c)) as [Hh|]; simpl; [| by left].
  destruct (vc_votes c !! vt_voter v); simpl; [case_match; by left |].
  destruct (vk_from_bytes (vt_voter v)) eqn:Hk; simpl; [| by left].
  destruct (verify_strict _ _ _) eqn:Hv; simpl; [| by left].
  case_bool_decide as Hhash; simpl; [| by left].
  right. split_and!; [done | done |]. unfold good_vote.
  split_and!; try done; [by apply is_active_voter_elem |].
  unfold checked_verify. by rewrite Hk, <- Hhash, <- Hh, Hv.
Qed.

Lemma reachable_votes height hash active c :
  reachable height hash active c ->
  vc_height c = height /\ vc_expected_hash c = hash /\ vc_active_validators c = active
  /\ map_Forall (good_vote height hash active) (vc_votes c).
Proof.
  induction 1 as [| c v Hc (<- & <- & <- & IH)].
  - split_and!; done || apply map_Forall_empty.
  - destruct (submit_cases c v) as [-> | (-> & Hnone & Hgood)]; [by split_and! |]. upd.
    split_and!; try done. by apply map_Forall_insert_2.
Qed.

Lemma votes_dom_subset height hash active c :
  reachable height hash active c -> dom (vc_votes c) ⊆ list_to_set (av_address <$> active).
Proof.
  intros (_ & _ & _ & Hall)%reachable_votes a [v Hv]%elem_of_dom.
  apply elem_of_list_to_set. by apply Hall in Hv as (_ & Ha & _).
Qed.

Lemma size_active_le (active : list ActiveValidator) :
  (size (list_to_set (C:=gset bytes) (av_address <$> active)) <= length active)%nat.
Proof.
  induction active as [|v active IH]; [done |]. rewrite fmap_cons. simpl.
  rewrite size_union_alt, size_singleton.
  assert (size (list_to_set (C:=gset bytes) (av_address <$> active) ∖ {[av_address v]})
          <= size (list_to_set (C:=gset bytes) (av_address <$> active)))%nat
    by (apply subseteq_size; set_solver).
  lia.
Qed.
End voting.

(** ** Safety *)

Section safety.
Context `{Ed25519}.
Implicit Types (active : list ActiveValidator).

Lemma finalized_count c n : current_result c = Finalized n ->
  n = vote_count c /\ quorum (N.of_nat (length (vc_active_validators c))) <= vote_count c.
Proof.
  unfold current_result. destruct (N.leb_spec (quorum (N.of_nat (length (vc_active_validators c)))) (vote_count c)).
  - by intros [= <-].
  - done.
Qed.

Lemma size_inter_lower (X Y Z : gset bytes) :
  X ⊆ Z -> Y ⊆ Z -> (size X + size Y <= size Z + size (X ∩ Y))%nat.
Proof.
  intros HX HY.
  assert (size (X ∪ Y) <= size Z)%nat by (apply subseteq_size; set_solver).
  assert (size (X ∪ Y) = size X + size (Y ∖ X))%nat by apply size_union_alt.
  assert (size Y = size (Y ∖ X) + size (X ∩ Y))%nat.
  { rewrite <- size_union by set_solver. f_equal. apply set_eq. intros a.
    destruct (decide (a ∈ X)); set_solver. }
  lia.
Qed.

(** A collector only ever holds, for each voter, one vote of an active
    validator for this round's height and expected hash with a valid signature,
    whatever votes are submitted. *)
Theorem collected_votes_good height hash active c :
  reachable height hash active c ->
  vc_active_validators c = active
  /\ map_Forall (good_vote height hash active) (vc_votes c)
  /\ (vote_count c <= N.of_nat (length active)).
Proof.
  intros Hr. pose proof (reachable_votes _ _ _ _ Hr) as (_ & _ & Ha & Hall).
  assert (size (vc_votes c) <= length active)%nat.
  { rewrite <- size_dom. etrans; [| apply size_active_le]. by eapply subseteq_size, votes_dom_subset. }
  split_and!; [done | done |]. unfold vote_count. lia.
Qed.

(** C17. Finality is safe.  If two rounds over the same validators at one
    height are both finalized, more than a third of the validators signed both
    block hashes. *)
Theorem conflicting_finality_needs_equivocators height h1 h2 active c1 c2 n1 n2 :
  active <> [] ->
  reachable height h1 active c1 -> reachable height h2 active c2 ->
  current_result c1 = Finalized n1 -> current_result c2 = Finalized n2 ->
  exists X : gset bytes,
    N.of_nat (length active) < 3 * N.of_nat (size X)
    /\ forall a, a ∈ X -> a ∈ av_address <$> active
       /\ (exists s1, checked_verify a (vote_signable_bytes h1 height) s1 = true)
       /\ (exists s2, checked_verify a (vote_signable_bytes h2 height) s2 = true).
Proof.
  intros Hne R1 R2 [-> F1]%finalized_count [-> F2]%finalized_count.
  exists (dom (vc_votes c1) ∩ dom (vc_votes c2)). split.
  - pose proof (size_inter_lower _ _ _ (votes_dom_subset _ _ _ _ R1) (votes_dom_subset _ _ _ _ R2)) as Hsz.
    pose proof (size_active_le active). unfold vote_count in F1, F2.
    apply reachable_votes in R1 as (_ & _ & E1 & _). apply reachable_votes in R2 as (_ & _ & E2 & _).
    rewrite E1 in F1. rewrite E2 in F2. rewrite !size_dom in Hsz.
    pose proof (quorum_majority (N.of_nat (length active))).
    assert (0 < N.of_nat (length active)) by (destruct active; [done | simpl; lia]). lia.
  - intros a [[v1 Hv1]%elem_of_dom [v2 Hv2]%elem_of_dom]%elem_of_intersection.
    apply reachable_votes in R1 as (_ & _ & _ & A1). apply reachable_votes in R2 as (_ & _ & _ & A2).
    apply A1 in Hv1 as (_ & Ha & _ & _ & S1). apply A2 in Hv2 as (_ & _ & _ & _ & S2). eauto.
Qed.

(** A conflict is reported before the signature is looked at: once a
    voter's vote is stored, anyone can have that voter reported as byzantine by
    submitting a vote in its name for another hash, with any bytes for a
    signature. *)
Theorem conflict_unauthenticated c voter stored other sig :
  is_active_voter c voter = true -> vc_votes c !! voter = Some stored ->
  other <> vt_block_hash stored ->
  add_vote (mkVote other (vc_height c) voter sig) c = (Ok (Conflict voter), c).
Proof.
  intros Ha Hs Ho. unfold add_vote, mbind, ST_bind, st_get, fail_if, mret, ST_ret; simpl.
  rewrite Ha, N.eqb_refl; simpl. rewrite Hs. by rewrite bool_decide_eq_false_2 by done.
Qed.
End safety.

(** ** Witnesses *)

#[local] Existing Instance toy_ed25519.

Definition toy_vote (hash : bytes) (height : N) (sk : bytes) : Vote :=
  mkVote hash height sk (ed_sign sk (vote_signable_bytes hash height)).

Definition one_validator : list ActiveValidator := [mkActiveValidator (toy_addr 1) 10 0 7].

Definition voted (hash : bytes) : VoteCollector :=
  submit (VoteCollector_new 4 hash one_validator) (toy_vote hash 4 (toy_addr 1)).

Lemma collected_votes_good_witness :
  vote_count (voted (toy_addr 9)) = 1 /\ vote_count (voted (toy_addr 9)) <= 1.
Proof.
  split; [vm_compute; reflexivity |].
  apply (collected_votes_good 4 (toy_addr 9) one_validator (voted (toy_addr 9))).
  exact (reach_vote _ _ _ _ _ (reach_new _ _ _)).
Defined.

Lemma conflicting_finality_needs_equivocators_witness :
  exists X : gset bytes, 1 < 3 * N.of_nat (size X)
    /\ forall a, a ∈ X -> exists s2, checked_verify a (vote_signable_bytes (toy_addr 8) 4) s2 = true.
Proof.
  destruct (conflicting_finality_needs_equivocators 4 (toy_addr 9) (toy_addr 8) one_validator
              (voted (toy_addr 9)) (voted (toy_addr 8)) 1 1) as (X & HX & Ha).
  - discriminate.
  - exact (reach_vote _ _ _ _ _ (reach_new _ _ _)).
  - exact (reach_vote _ _ _ _ _ (reach_new _ _ _)).
  - vm_compute; reflexivity.
  - vm_compute; reflexivity.
  - exists X. split; [exact HX | intros a Hin; apply (Ha a Hin)].
Defined.

Lemma conflict_unauthenticated_witness :
  add_vote (mkVote (toy_addr 8) 4 (toy_addr 1) []) (voted (toy_addr 9))
  = (Ok (Conflict (toy_addr 1)), voted (toy_addr 9)).
Proof.
  apply (conflict_unauthenticated (voted (toy_addr 9)) (toy_addr 1) (toy_vote (toy_addr 9) 4 (toy_addr 1))
           (toy_addr 8) []).
  - vm_compute; reflexivity.
  - vm_compute; reflexivity.
  - discriminate.
Defined.
