(* ===== verification/Slashing.v ===== *)
(** * Slashing and downtime ([claw-node/crates/consensus/src/slashing.rs]) *)

From S2P Require Import Prelude Interfaces Types Concrete ConsensusTypes.

Definition EQUIVOCATION_SLASH_BPS : N := 1000.
Definition DOWNTIME_THRESHOLD_PERCENT : N := 50.
Definition JAIL_DURATION : N := EPOCH_LENGTH.

Record EquivocationEvidence : Type := mkEquivocationEvidence {
  ev_validator : bytes;
  ev_height : N;
  ev_block_hash_a : bytes;
  ev_signature_a : bytes;
  ev_block_hash_b : bytes;
  ev_signature_b : bytes;
}.

Record SlashingState : Type := mkSlashingState {
  sl_jailed : gmap bytes N;
  sl_evidence : list EquivocationEvidence;
  sl_missed_slots : gmap bytes N;
  sl_assigned_slots : gmap bytes N;
  sl_processed_evidence : gset bytes;
}.

Definition eta_SlashingState (s : SlashingState) : SlashingState :=
  mkSlashingState (sl_jailed s) (sl_evidence s) (sl_missed_slots s) (sl_assigned_slots s)
    (sl_processed_evidence s).
#[export] Instance upd_sl_jailed : Update sl_jailed := ltac:(solve_update eta_SlashingState sl_jailed).
#[export] Instance upd_sl_evidence : Update sl_evidence := ltac:(solve_update eta_SlashingState sl_evidence).
#[export] Instance upd_sl_missed_slots : Update sl_missed_slots := ltac:(solve_update eta_SlashingState sl_missed_slots).
#[export] Instance upd_sl_assigned_slots : Update sl_assigned_slots := ltac:(solve_update eta_SlashingState sl_assigned_slots).
#[export] Instance upd_sl_processed_evidence : Update sl_processed_evidence := ltac:(solve_update eta_SlashingState sl_processed_evidence).

Definition SlashingState_new : SlashingState := mkSlashingState ∅ [] ∅ ∅ ∅.

Definition is_jailed (s : SlashingState) (address : bytes) (current_height : N) : bool :=
  match sl_jailed s !! address with
  | Some jail_until => current_height <? jail_until
  | None => false
  end.

(** Returns the remaining stakes and the amount burned. *)
Definition slash_stake (stakes : gmap bytes N) (address : bytes) (basis_points : N)
    : N * gmap bytes N :=
  match stakes !! address with
  | None => (0, stakes)
  | Some stake =>
      let slash_amount := u128_mul stake basis_points / 10000 in
      if slash_amount =? 0 then (0, stakes)
      else
        let remaining := sat_sub stake slash_amount in
        if remaining <? MIN_STAKE then (stake, delete address stakes)
        else (slash_amount, <[address := remaining]> stakes)
  end.

Definition record_assigned_slot (validator : bytes) (s : SlashingState) : SlashingState :=
  s <| sl_assigned_slots ::= entry_add TWO64 validator 1 |>.
Definition record_missed_slot (validator : bytes) (s : SlashingState) : SlashingState :=
  s <| sl_missed_slots ::= entry_add TWO64 validator 1 |>.

(** The offline validators, in address order. *)
Definition process_downtime_penalties (s : SlashingState) : list bytes :=
  omap (fun '(validator, assigned) =>
          if assigned =? 0 then None
          else
            let missed := default 0 (sl_missed_slots s !! validator) in
            let missed_percent := u64_mul missed 100 / assigned in
            if DOWNTIME_THRESHOLD_PERCENT <? missed_percent then Some validator else None)
       (addr_entries (sl_assigned_slots s)).

Definition reset_epoch_counters (s : SlashingState) : SlashingState :=
  s <| sl_missed_slots := ∅ |> <| sl_assigned_slots := ∅ |> <| sl_evidence := [] |>.

(** The validators whose jail term has ended, and the state without them. *)
Definition unjail_expired (current_height : N) (s : SlashingState) : list bytes * SlashingState :=
  let expired := (filter (fun p => p.2 <= current_height) (addr_entries (sl_jailed s))).*1 in
  (expired, s <| sl_jailed ::= fun jailed => foldl (fun m a => delete a m) jailed expired |>).

Section equivocation.
Context `{Blake3} `{Ed25519}.

Definition evidence_hash (e : EquivocationEvidence) : bytes :=
  blake3 (ev_validator e ++ le64 (ev_height e) ++ ev_block_hash_a e ++ ev_block_hash_b e).

(** Works on the slashing state and on [WorldState.stakes]. *)
Definition report_equivocation (e : EquivocationEvidence) (current_height : N)
    : ST (SlashingState * gmap bytes N) string N :=
  '(s, stakes) ← st_get;
  fail_if (bool_decide (evidence_hash e ∈ sl_processed_evidence s))
    "equivocation evidence already processed";;
  fail_if (bool_decide (ev_block_hash_a e = ev_block_hash_b e))
    "equivocation evidence has identical block hashes";;
  fail_if (bool_decide (ev_signature_a e = ev_signature_b e))
    "equivocation evidence has identical signatures";;
  fail_if (negb (bool_decide (is_Some (stakes !! ev_validator e)))) "validator has no active stake";;
  fail_if (negb (vk_from_bytes (ev_validator e))) "invalid validator public key";;
  fail_if (negb (sig_from_slice (ev_signature_a e))) "invalid signature_a format";;
  fail_if (negb (verify_strict (ev_validator e) (ev_block_hash_a e) (ev_signature_a e)))
    "signature_a verification failed";;
  fail_if (negb (sig_from_slice (ev_signature_b e))) "invalid signature_b format";;
  fail_if (negb (verify_strict (ev_validator e) (ev_block_hash_b e) (ev_signature_b e)))
    "signature_b verification failed";;
  let '(slashed, stakes') := slash_stake stakes (ev_validator e) EQUIVOCATION_SLASH_BPS in
  let jail_until := u64_add current_height JAIL_DURATION in
  st_modify (fun _ =>
    (s <| sl_jailed ::= <[ev_validator e := jail_until]> |>
       <| sl_processed_evidence ::= fun p => {[evidence_hash e]} ∪ p |>
       <| sl_evidence ::= fun l => l ++ [e] |>, stakes'));;
  mret slashed.

(** The checks of [report_equivocation], as one test. *)
Definition evidence_valid (e : EquivocationEvidence) (stakes : gmap bytes N) : Prop :=
  ev_block_hash_a e <> ev_block_hash_b e /\ ev_signature_a e <> ev_signature_b e
  /\ is_Some (stakes !! ev_validator e)
  /\ vk_from_bytes (ev_validator e) = true
  /\ sig_from_slice (ev_signature_a e) = true
  /\ verify_strict (ev_validator e) (ev_block_hash_a e) (ev_signature_a e) = true
  /\ sig_from_slice (ev_signature_b e) = true
  /\ verify_strict (ev_validator e) (ev_block_hash_b e) (ev_signature_b e) = true.

(** The state after accepted evidence. *)
Definition after_report (e : EquivocationEvidence) (current_height : N) (s : SlashingState) : SlashingState :=
  s <| sl_jailed ::= <[ev_validator e := u64_add current_height JAIL_DURATION]> |>
    <| sl_processed_evidence ::= fun p => {[evidence_hash e]} ∪ p |>
    <| sl_evidence ::= fun l => l ++ [e] |>.

Lemma report_equivocation_Ok e h s stakes n s' stakes' :
  report_equivocation e h (s, stakes) = (Ok n, (s', stakes')) <->
  evidence_hash e ∉ sl_processed_evidence s /\ evidence_valid e stakes
  /\ s' = after_report e h s
  /\ (n, stakes') = slash_stake stakes (ev_validator e) EQUIVOCATION_SLASH_BPS.
Proof.
  unfold report_equivocation, evidence_valid, mbind, ST_bind, st_get, fail_if, st_modify, mret, ST_ret.
  split.
  - intros Hr. repeat case_bool_decide; try done. simpl in *.
    destruct (vk_from_bytes _), (sig_from_slice (ev_signature_a e)), (verify_strict _ (ev_block_hash_a e) _),
      (sig_from_slice (ev_signature_b e)), (verify_strict _ (ev_block_hash_b e) _); try done.
    simpl in Hr. destruct (slash_stake _ _ _) as [sl st] eqn:Hs. simplify_eq/=. by split_and!.
  - intros (Hp & (Hh & Hsig & Hst & Hk & Fa & Va & Fb & Vb) & -> & Hs).
    rewrite !bool_decide_eq_false_2 by done. rewrite bool_decide_eq_true_2 by done.
    rewrite Hk, Fa, Va, Fb, Vb. simpl. by rewrite <- Hs.
Qed.

Lemma report_equivocation_atomic e h : atomic (report_equivocation e h).
Proof.
  intros [s stakes] er s'.
  unfold report_equivocation, mbind, ST_bind, st_get, fail_if, st_modify, mret, ST_ret.
  repeat case_bool_decide; simpl; try (by intros [= _ <-]).
  destruct (vk_from_bytes _), (sig_from_slice (ev_signature_a e)), (verify_strict _ (ev_block_hash_a e) _),
    (sig_from_slice (ev_signature_b e)), (verify_strict _ (ev_block_hash_b e) _); simpl;
    try (by intros [= _ <-]).
  by destruct (slash_stake _ _ _).
Qed.
End equivocation.

(** ** Properties *)
Lemma slash_stake_burn stakes a bps n stakes' :
  map_total stakes * bps < TWO128 -> bps <= 10000 ->
  slash_stake stakes a bps = (n, stakes') ->
  map_total stakes' + n = map_total stakes
  /\ (forall b, b <> a -> stakes' !! b = stakes !! b)
  /\ (n = 0 /\ stakes' = stakes
      \/ stakes' !! a = None /\ stakes !! a = Some n
      \/ exists r, stakes' !! a = Some r /\ MIN_STAKE <= r).
Proof.
  intros Hlt Hbps. unfold slash_stake. pose proof (amount_le_total stakes a) as Hle.
  rewrite amount_of_default in Hle. destruct (stakes !! a) as [stake|] eqn:Ha; simpl in Hle.
  2: { intros [= <- <-]. split_and!; [lia | done | by left]. }
  rewrite wmul_small by nia. destruct (N.eqb_spec (stake * bps / 10000) 0) as [|Hs].
  { intros [= <- <-]. split_and!; [lia | done | by left]. }
  assert (stake * bps / 10000 <= stake) by (apply N.Div0.div_le_upper_bound; nia).
  destruct (N.ltb_spec (sat_sub stake (stake * bps / 10000)) MIN_STAKE) as [Hmin|Hmin]; intros [= <- <-].
  - split_and!.
    + pose proof (msum_delete (fun x : N => x) stakes a) as Hd. rewrite (mval_Some _ _ _ _ Ha) in Hd. simpl in Hd. lia.
    + intros b Hb. by apply lookup_delete_ne.
    + right. left. split; [apply lookup_delete_eq | done].
  - unfold sat_sub in *. split_and!.
    + pose proof (total_insert stakes a (stake - stake * bps / 10000)) as Hi.
      rewrite (mval_Some _ _ _ _ Ha) in Hi. simpl in Hi. lia.
    + intros b Hb. by apply lookup_insert_ne.
    + right. right. eexists. by rewrite lookup_insert_eq.
Qed.

Section slashing_facts.
Context `{Blake3} `{Ed25519}.

(** The life of the slashing state: accepted evidence, slot accounting, epoch
    resets and unjailing, with staking changing the stakes at any time. *)
Inductive slash_step : SlashingState * gmap bytes N -> SlashingState * gmap bytes N -> Prop :=
  | step_report e h s stakes r s' : report_equivocation e h (s, stakes) = (r, s') -> slash_step (s, stakes) s'
  | step_assigned v s stakes : slash_step (s, stakes) (record_assigned_slot v s, stakes)
  | step_missed v s stakes : slash_step (s, stakes) (record_missed_slot v s, stakes)
  | step_reset s stakes : slash_step (s, stakes) (reset_epoch_counters s, stakes)
  | step_unjail h s stakes : slash_step (s, stakes) ((unjail_expired h s).2, stakes)
  | step_staking s stakes stakes' : slash_step (s, stakes) (s, stakes').

Lemma slash_step_processed x y :
  slash_step x y -> sl_processed_evidence x.1 ⊆ sl_processed_evidence y.1.
Proof.
  destruct 1 as [e h s stakes [n|er] [s' stakes'] Hr | | | | |]; simpl;
    unfold record_assigned_slot, record_missed_slot, reset_epoch_counters; upd; try set_solver.
  - apply report_equivocation_Ok in Hr as (_ & _ & -> & _). unfold after_report. upd. set_solver.
  - apply report_equivocation_atomic in Hr. simplify_eq. set_solver.
Qed.

Lemma slash_steps_processed x y :
  rtc slash_step x y -> sl_processed_evidence x.1 ⊆ sl_processed_evidence y.1.
Proof. induction 1 as [| x y z Hxy _ IH]; [done |]. apply slash_step_processed in Hxy. set_solver. Qed.

(** Accepted equivocation evidence has the effect it claims and a rejected
    report changes nothing: the validator's stake is cut by a tenth, or burned
    whole when less than [MIN_STAKE] would remain; the reported amount is exactly
    what the stakes lost; no other stake moves; and the validator is jailed for
    one epoch. *)
Theorem report_equivocation_effect e h s stakes r s' stakes' :
  map_total stakes * EQUIVOCATION_SLASH_BPS < TWO128 -> h + JAIL_DURATION < TWO64 ->
  report_equivocation e h (s, stakes) = (r, (s', stakes')) ->
  match r with
  | Err _ => s' = s /\ stakes' = stakes
  | Ok n =>
      map_total stakes' + n = map_total stakes
      /\ (forall b, b <> ev_validator e -> stakes' !! b = stakes !! b)
      /\ (n = 0 /\ stakes' = stakes
          \/ stakes' !! ev_validator e = None /\ stakes !! ev_validator e = Some n
          \/ exists rest, stakes' !! ev_validator e = Some rest /\ MIN_STAKE <= rest)
      /\ (forall k, is_jailed s' (ev_validator e) k = (k <? h + 100))
      /\ evidence_hash e ∈ sl_processed_evidence s'
  end.
Proof.
  intros Hlt Hh Hr. destruct r as [n|er].
  - apply report_equivocation_Ok in Hr as (_ & _ & -> & Hs). symmetry in Hs.
    apply slash_stake_burn in Hs as (Hsum & Hother & Hcases); [| done | done].
    split_and!; try done.
    + intros k. unfold is_jailed, after_report. upd. rewrite lookup_insert_eq.
      by rewrite wadd_small by done.
    + unfold after_report. upd. set_solver.
  - apply report_equivocation_atomic in Hr. by simplify_eq.
Qed.

(** Accepted evidence is never accepted again, however many epochs are
    reset, validators unjailed, stakes changed or other reports made in
    between. *)
Theorem evidence_never_replayed e h n x y z k :
  report_equivocation e h x = (Ok n, y) -> rtc slash_step y z ->
  report_equivocation e k z = (Err "equivocation evidence already processed", z).
Proof.
  destruct x as [s stakes], y as [s' stakes'], z as [s'' stakes''].
  intros (_ & _ & -> & _)%report_equivocation_Ok Hsteps%slash_steps_processed.
  unfold report_equivocation, mbind, ST_bind, st_get, fail_if.
  rewrite bool_decide_eq_true_2; [done |].
  unfold after_report in Hsteps. simpl in Hsteps. revert Hsteps. upd. set_solver.
Qed.

(** The two signatures cover block hashes only, so the height in the
    evidence is whatever the reporter writes: from one accepted report, the same
    pair of signatures under any height whose fingerprint is new is accepted
    again and slashes again. *)
Theorem evidence_height_not_authenticated e h n s stakes s' stakes' height' k :
  let e' := mkEquivocationEvidence (ev_validator e) height' (ev_block_hash_a e) (ev_signature_a e)
              (ev_block_hash_b e) (ev_signature_b e) in
  report_equivocation e h (s, stakes) = (Ok n, (s', stakes')) ->
  is_Some (stakes' !! ev_validator e) -> evidence_hash e' ∉ sl_processed_evidence s' ->
  exists n' stakes'', report_equivocation e' k (s', stakes') = (Ok n', (after_report e' k s', stakes''))
    /\ (n', stakes'') = slash_stake stakes' (ev_validator e) EQUIVOCATION_SLASH_BPS.
Proof.
  intros e' (_ & (Hh & Hsig & _ & Hv) & -> & _)%report_equivocation_Ok Hst Hnew.
  destruct (slash_stake stakes' (ev_validator e) EQUIVOCATION_SLASH_BPS) as [n' stakes''] eqn:Hs.
  exists n', stakes''. split; [| done]. apply report_equivocation_Ok. by split_and!.
Qed.
End slashing_facts.

(** Downtime.  A validator is offline exactly when it had slots and missed
      at least 51 whole percent of them. *)
Theorem downtime_offline_iff s v :
  map_total (sl_missed_slots s) * 100 < TWO64 ->
  v ∈ process_downtime_penalties s <->
  exists assigned, sl_assigned_slots s !! v = Some assigned /\ assigned <> 0
    /\ 51 * assigned <= 100 * default 0 (sl_missed_slots s !! v).
Proof.
  intros Hlt. unfold process_downtime_penalties. rewrite list_elem_of_omap.
  assert (forall assigned, assigned <> 0 ->
    (50 < u64_mul (default 0 (sl_missed_slots s !! v)) 100 / assigned <->
     51 * assigned <= 100 * default 0 (sl_missed_slots s !! v))) as Hpct.
  { intros assigned Hne. pose proof (amount_le_total (sl_missed_slots s) v) as Hle.
    rewrite amount_of_default in Hle. rewrite wmul_small by lia.
    rewrite <- (N.le_succ_l 50). split; intros Hx.
    - pose proof (N.Div0.mul_div_le (default 0 (sl_missed_slots s !! v) * 100) assigned). nia.
    - apply N.div_le_lower_bound; lia. }
  split.
  - intros ([u a] & Hin & Hu). apply elem_of_sorted_entries in Hin.
    destruct (N.eqb_spec a 0); [done |]. unfold DOWNTIME_THRESHOLD_PERCENT in Hu.
    destruct (N.ltb_spec 50 (u64_mul (default 0 (sl_missed_slots s !! u)) 100 / a)) as [Hp|]; [| done].
    simplify_eq. exists a. split_and!; try done. by apply Hpct.
  - intros (a & Ha & Hne & Hp). exists (v, a). split; [by apply elem_of_sorted_entries |].
    destruct (N.eqb_spec a 0); [done |]. unfold DOWNTIME_THRESHOLD_PERCENT.
    destruct (N.ltb_spec 50 (u64_mul (default 0 (sl_missed_slots s !! v)) 100 / a)) as [|Hn]; [done |].
    apply Hpct in Hp; [lia | done].
Qed.

(** ** Witnesses *)

#[local] Existing Instance toy_blake3.
#[local] Existing Instance toy_ed25519.

Definition toy_evidence (height : N) : EquivocationEvidence :=
  mkEquivocationEvidence (toy_addr 1) height (toy_addr 8) (ed_sign (toy_addr 1) (toy_addr 8))
    (toy_addr 9) (ed_sign (toy_addr 1) (toy_addr 9)).

Definition toy_stakes : gmap bytes N := {[toy_addr 1 := 100000000000000; toy_addr 2 := 20000000000000]}.

Definition toy_reported : SlashingState * gmap bytes N :=
  (report_equivocation (toy_evidence 42) 50 (SlashingState_new, toy_stakes)).2.

Lemma report_equivocation_effect_witness :
  map_total toy_reported.2 + 10000000000000 = 120000000000000
  /\ is_jailed toy_reported.1 (toy_addr 1) 149 = true.
Proof.
  destruct (report_equivocation_effect (toy_evidence 42) 50 SlashingState_new toy_stakes
              (Ok 10000000000000) toy_reported.1 toy_reported.2) as (H1 & _ & _ & H2 & _).
  - vm_compute; reflexivity.
  - vm_compute; reflexivity.
  - apply run_eq_pair. vm_compute; reflexivity.
  - split; [rewrite H1; vm_compute; reflexivity |]. rewrite H2. reflexivity.
Defined.

Lemma evidence_never_replayed_witness :
  report_equivocation (toy_evidence 42) 500 (reset_epoch_counters toy_reported.1, toy_reported.2)
  = (Err "equivocation evidence already processed", (reset_epoch_counters toy_reported.1, toy_reported.2)).
Proof.
  apply (evidence_never_replayed (toy_evidence 42) 50 10000000000000 (SlashingState_new, toy_stakes)
           (toy_reported.1, toy_reported.2)).
  - apply run_eq_pair. vm_compute; reflexivity.
  - apply rtc_once. exact (step_reset toy_reported.1 toy_reported.2).
Defined.

Lemma evidence_height_not_authenticated_witness :
  exists n' stakes'', report_equivocation (toy_evidence 43) 60 (toy_reported.1, toy_reported.2)
    = (Ok n', (after_report (toy_evidence 43) 60 toy_reported.1, stakes'')).
Proof.
  destruct (evidence_height_not_authenticated (toy_evidence 42) 50 10000000000000 SlashingState_new
              toy_stakes toy_reported.1 toy_reported.2 43 60) as (n' & st & Hr & _).
  - apply run_eq_pair. vm_compute; reflexivity.
  - exists 90000000000000. vm_compute; reflexivity.
  - apply (bool_decide_eq_false_1 _). vm_compute; reflexivity.
  - exists n', st. exact Hr.
Defined.

Definition toy_slots : SlashingState :=
  mkSlashingState ∅ [] {[toy_addr 1 := 6]} {[toy_addr 1 := 10; toy_addr 2 := 10]} ∅.

Lemma downtime_offline_iff_witness : toy_addr 1 ∈ process_downtime_penalties toy_slots.
Proof.
  apply downtime_offline_iff; [vm_compute; reflexivity |].
  exists 10. split; [vm_compute; reflexivity |]. split; [discriminate |].
  apply N.leb_le. vm_compute; reflexivity.
Defined.
