(* ===== verification/ValidatorSet.v ===== *)
(** * The active validator set ([claw-node/crates/consensus/src/validator_set.rs]) *)

From S2P Require Import Prelude Interfaces Types Concrete ConsensusTypes Slashing.

Record ValidatorSet : Type := mkValidatorSet {
  vs_active : list ActiveValidator;
  vs_epoch : N;
  vs_weight_config : WeightConfig;
}.

Definition ValidatorSet_new : ValidatorSet := mkValidatorSet [] 0 COLD_START.

(** ** Weights *)

(** Signed 64-bit wrap-around. *)
Definition i64_wrap (z : Z) : Z := ((z + 2 ^ 63) mod 2 ^ 64 - 2 ^ 63)%Z.

(** Legacy attestation scores, summed per address and clamped to 0..10000. *)
Definition aggregate_agent_scores (reputation : list ReputationAttestation) : gmap bytes N :=
  let scores := foldl (fun (scores : gmap bytes Z) att =>
                         <[ra_to att := i64_wrap (default 0%Z (scores !! ra_to att) + ra_score att)]> scores)
                      ∅ reputation in
  (fun score => Z.to_N (Z.min 10000 (Z.max 0 score))) <$> scores.

Definition compute_weight (stake : N) (all_stakes : gmap bytes N) (agent_score : N)
    (all_scores : gmap bytes N) (config : WeightConfig) : N :=
  let total_stake := wsum TWO128 snd (addr_entries all_stakes) in
  (* values().max().unwrap_or(1).max(1) *)
  let max_score := N.max (max_list (addr_entries all_scores).*2) 1 in
  let norm_stake := if 0 <? total_stake then (u128_mul stake 10000 / total_stake) mod TWO64 else 0 in
  let norm_score := u64_mul agent_score 10000 / max_score in
  let w := u64_add (u64_mul norm_stake (wc_stake_bps config)) (u64_mul norm_score (wc_score_bps config)) / 10000 in
  N.max w 1.

(** ** Recalculation *)

Definition eligible (stakes : gmap bytes N) (slashing : option SlashingState) (current_height : N)
    (p : bytes * N) : bool :=
  (MIN_STAKE <=? p.2)
  && match slashing with Some s => negb (is_jailed s p.1 current_height) | None => true end.

Definition weighted_validator (stakes agent_scores : gmap bytes N) (config : WeightConfig)
    (p : bytes * N) : ActiveValidator :=
  let agent_score := default 0 (agent_scores !! p.1) in
  mkActiveValidator p.1 p.2 agent_score
    (compute_weight p.2 stakes agent_score agent_scores config).

Definition recalculate_active (stakes : gmap bytes N) (reputation : list ReputationAttestation)
    (slashing : option SlashingState) (current_height : N) (vs : ValidatorSet) : ValidatorSet :=
  let agent_scores := aggregate_agent_scores reputation in
  let weighted := weighted_validator stakes agent_scores (vs_weight_config vs) <$>
    filter (fun p => eligible stakes slashing current_height p) (addr_entries stakes) in
  let active := take MAX_VALIDATORS (sort_by weight_leb weighted) in
  let active :=
    match active, last (addr_entries stakes) with
    | [], Some (addr, amount) => [mkActiveValidator addr amount 0 1]
    | _, _ => active
    end in
  mkValidatorSet active (u64_add (vs_epoch vs) 1) (vs_weight_config vs).

Definition with_initial_stakes (stakes : gmap bytes N) : ValidatorSet :=
  recalculate_active stakes [] None 0 ValidatorSet_new.

Definition is_epoch_boundary (height : N) : bool := (0 <? height) && (height mod EPOCH_LENGTH =? 0).

Definition get_active (vs : ValidatorSet) (address : bytes) : option ActiveValidator :=
  list_find (fun v => av_address v = address) (vs_active vs) ≫= fun p => Some p.2.

Definition is_active (vs : ValidatorSet) (address : bytes) : bool :=
  existsb (fun v => bool_decide (av_address v = address)) (vs_active vs).

Definition vs_total_weight (vs : ValidatorSet) : N := wsum TWO64 av_weight (vs_active vs).

Definition epoch_info (vs : ValidatorSet) : EpochInfo :=
  mkEpochInfo (vs_epoch vs) (vs_active vs) (vs_weight_config vs).

(** ** Lemmas *)
Lemma lsum_entries (m : gmap bytes N) : lsum snd (addr_entries m) = map_total m.
Proof. unfold addr_entries. rewrite (lsum_perm _ _ _ (sorted_entries_perm bytes_leb m)). done. Qed.

Lemma compute_weight_bounds stake all_stakes agent_score all_scores config a :
  all_stakes !! a = Some stake -> map_total all_stakes * 10000 < TWO128 ->
  agent_score <= max_list (addr_entries all_scores).*2 -> agent_score <= 10000 ->
  wc_stake_bps config + wc_score_bps config <= 10000 ->
  1 <= compute_weight stake all_stakes agent_score all_scores config <= 10000.
Proof.
  intros Ha Htot Hmax Hscore Hbps. unfold compute_weight.
  rewrite wsum_exact, lsum_entries by (rewrite lsum_entries; lia).
  pose proof (amount_le_total all_stakes a) as Hle. rewrite amount_of_default, Ha in Hle. simpl in Hle.
  rewrite (wmul_small TWO128) by lia. rewrite (wmul_small TWO64 agent_score) by lia.
  set (ns := if 0 <? map_total all_stakes then _ else 0).
  set (ms := N.max (max_list (addr_entries all_scores).*2) 1).
  assert (ns <= 10000) as Hns.
  { subst ns. destruct (N.ltb_spec 0 (map_total all_stakes)); [| lia].
    etrans; [apply N.Div0.mod_le |]. apply N.Div0.div_le_upper_bound. nia. }
  assert (agent_score * 10000 / ms <= 10000) as Hnsc.
  { apply N.Div0.div_le_upper_bound. nia. }
  generalize dependent (agent_score * 10000 / ms). intros sc Hnsc.
  rewrite !wmul_small by nia. rewrite wadd_small by nia.
  assert ((ns * wc_stake_bps config + sc * wc_score_bps config) / 10000 <= 10000)
    by (apply N.Div0.div_le_upper_bound; nia).
  lia.
Qed.

Lemma aggregate_scores_le reputation a s :
  aggregate_agent_scores reputation !! a = Some s ->
  s <= 10000 /\ s <= max_list (addr_entries (aggregate_agent_scores reputation)).*2.
Proof.
  intros Hs. split.
  - unfold aggregate_agent_scores in Hs. apply lookup_fmap_Some in Hs as (z & <- & _). lia.
  - apply max_list_ge. apply list_elem_of_fmap. exists (a, s). split; [done |].
    by apply elem_of_sorted_entries.
Qed.

Section recalc.
Context (stakes : gmap bytes N) (reputation : list ReputationAttestation)
        (slashing : option SlashingState) (height : N) (vs : ValidatorSet).

(** The candidates of a recalculation. *)
Definition candidates : list ActiveValidator :=
  weighted_validator stakes (aggregate_agent_scores reputation) (vs_weight_config vs) <$>
    filter (fun p => eligible stakes slashing height p) (addr_entries stakes).

Lemma elem_of_candidates v :
  v ∈ candidates <->
  exists a amount, stakes !! a = Some amount /\ eligible stakes slashing height (a, amount) = true
    /\ v = weighted_validator stakes (aggregate_agent_scores reputation) (vs_weight_config vs) (a, amount).
Proof.
  unfold candidates. rewrite list_elem_of_fmap. split.
  - intros ([a n] & -> & [He Hin]%list_elem_of_filter). apply elem_of_sorted_entries in Hin.
    exists a, n. split_and!; [done | by apply Is_true_eq_true | done].
  - intros (a & n & Ha & He & ->). exists (a, n). split; [done |]. apply list_elem_of_filter.
    split; [by apply Is_true_eq_left | by apply elem_of_sorted_entries].
Qed.

Lemma candidates_NoDup : NoDup (av_address <$> candidates).
Proof.
  unfold candidates. rewrite <- list_fmap_compose.
  pose proof (sorted_entries_NoDup bytes_leb stakes) as Hnd. fold (addr_entries stakes) in Hnd.
  revert Hnd. generalize (addr_entries stakes). intros l Hnd.
  induction l as [|p l IH]; [constructor |]. rewrite fmap_cons in Hnd. apply NoDup_cons in Hnd as [Hp Hl].
  rewrite filter_cons. case_decide; [| auto]. rewrite fmap_cons. constructor; [| auto].
  intros (q & Hq & [_ Hin]%list_elem_of_filter)%list_elem_of_fmap. simpl in Hq. apply Hp.
  rewrite Hq. by apply list_elem_of_fmap_2.
Qed.

Lemma recalculate_active_candidates :
  candidates <> [] ->
  vs_active (recalculate_active stakes reputation slashing height vs)
  = take MAX_VALIDATORS (sort_by weight_leb candidates).
Proof.
  intros Hne. unfold recalculate_active. simpl vs_active. fold candidates.
  destruct (sort_by weight_leb candidates) as [|v l] eqn:Hs; [| done].
  pose proof (length_sort_by weight_leb candidates) as Hl. rewrite Hs in Hl. by destruct candidates.
Qed.

Lemma recalculate_active_fallback :
  candidates = [] ->
  vs_active (recalculate_active stakes reputation slashing height vs)
  = match last (addr_entries stakes) with
    | Some (a, n) => [mkActiveValidator a n 0 1]
    | None => []
    end.
Proof.
  intros Hc. unfold recalculate_active. simpl vs_active. fold candidates. rewrite Hc. simpl.
  by destruct (last (addr_entries stakes)) as [[a n]|].
Qed.
End recalc.

(** ** Properties *)
Lemma take_StronglySorted {A} (R : A -> A -> Prop) n (l : list A) :
  StronglySorted R l -> StronglySorted R (take n l).
Proof.
  intros Hs. revert n. induction Hs as [|x l Hl IH Hx]; intros [|n]; simpl; constructor; auto.
  by apply Forall_take.
Qed.

Lemma sorted_take_drop {A} (R : A -> A -> Prop) n (l : list A) x y :
  StronglySorted R l -> x ∈ take n l -> y ∈ drop n l -> R x y.
Proof.
  intros Hs. revert n. induction Hs as [|z l Hl IH Hz]; intros [|n] Hx Hy; simpl in *;
    try (by apply not_elem_of_nil in Hx).
  - apply elem_of_cons in Hx as [-> | Hx]; [| by eapply IH].
    rewrite Forall_forall in Hz. apply Hz. by eapply elem_of_drop_incl.
Qed.

Lemma sorted_app_last {A} (R : A -> A -> Prop) (l : list A) x y :
  StronglySorted R (l ++ [x]) -> y ∈ l -> R y x.
Proof.
  induction l as [|z l IH]; intros Hs Hy; [by apply not_elem_of_nil in Hy |].
  apply StronglySorted_inv in Hs as [Hs Hz]. apply elem_of_cons in Hy as [-> | Hy]; [| auto].
  rewrite Forall_forall in Hz. apply Hz. apply elem_of_app. right. left.
Qed.

Section recalc_facts.
Context (stakes : gmap bytes N) (reputation : list ReputationAttestation)
        (slashing : option SlashingState) (height : N) (vs : ValidatorSet).

Let active := vs_active (recalculate_active stakes reputation slashing height vs).
Let cands := candidates stakes reputation slashing height vs.

Lemma cands_sorted : StronglySorted weight_leb (sort_by weight_leb cands).
Proof. apply sort_by_sorted; [apply weight_leb_total | apply weight_leb_trans]. Qed.

Lemma last_entries_Some : stakes <> ∅ -> exists a n, last (addr_entries stakes) = Some (a, n) /\ stakes !! a = Some n.
Proof.
  intros Hne. destruct (last (addr_entries stakes)) as [[a n]|] eqn:Hl.
  - exists a, n. split; [done |]. apply last_Some_elem_of in Hl. by apply elem_of_sorted_entries in Hl.
  - exfalso. apply last_None in Hl. apply Hne. apply map_eq. intros a. rewrite lookup_empty.
    destruct (stakes !! a) as [n|] eqn:Ha; [| done].
    apply (elem_of_sorted_entries bytes_leb) in Ha. fold (addr_entries stakes) in Ha. rewrite Hl in Ha.
    by apply not_elem_of_nil in Ha.
Qed.

(** The recalculated active set.  When some validator is eligible (staked
    at least [MIN_STAKE] and not jailed) the set holds only eligible stakers with
    their exact stakes, at most [MAX_VALIDATORS] of them, without repetition,
    ordered by weight and address, and every eligible validator left out comes
    after all that are in; otherwise it is the last staker in address order with
    weight one, so it is empty only when nobody stakes. *)
Theorem recalculate_active_spec :
  (cands <> [] ->
    (1 <= length active <= MAX_VALIDATORS)%nat
    /\ NoDup (av_address <$> active)
    /\ StronglySorted weight_leb active
    /\ (forall v, v ∈ active -> v ∈ cands)
    /\ (forall u, u ∈ cands -> u ∉ active -> forall v, v ∈ active -> weight_leb v u))
  /\ (cands = [] -> stakes <> ∅ ->
      exists a n, stakes !! a = Some n /\ active = [mkActiveValidator a n 0 1]
        /\ forall b, is_Some (stakes !! b) -> bytes_leb b a)
  /\ (active = [] <-> stakes = ∅).
Proof.
  assert (cands <> [] -> (1 <= length active <= MAX_VALIDATORS)%nat) as Hlen.
  { intros Hne. subst active. rewrite recalculate_active_candidates by done. fold cands.
    rewrite length_take, length_sort_by. destruct (length cands) eqn:Hz; [by apply nil_length_inv in Hz | unfold MAX_VALIDATORS; lia]. }
  split_and!.
  - intros Hne. split; [by apply Hlen |]. subst active. rewrite recalculate_active_candidates by done.
    fold cands. pose proof cands_sorted as Hs. split_and!.
    + eapply sublist_NoDup; [| apply fmap_sublist, sublist_take].
      rewrite (sort_by_perm weight_leb cands). apply candidates_NoDup.
    + by apply take_StronglySorted.
    + intros v Hv. rewrite <- (elem_of_sort_by weight_leb). by eapply elem_of_take_incl.
    + intros u Hu Hout v Hv. apply (sorted_take_drop weight_leb MAX_VALIDATORS _ v u Hs Hv).
      rewrite <- (elem_of_sort_by weight_leb), <- (take_drop MAX_VALIDATORS (sort_by weight_leb cands)) in Hu.
      by apply elem_of_app in Hu as [?|?].
  - intros Hc Hne. destruct (last_entries_Some Hne) as (a & n & Hl & Ha). exists a, n.
    split_and!; [done | subst active; by rewrite recalculate_active_fallback, Hl |].
    intros b [m Hb]. apply (elem_of_sorted_entries bytes_leb) in Hb. fold (addr_entries stakes) in Hb.
    assert (StronglySorted (entry_leb (V:=N) bytes_leb) (addr_entries stakes)) as Hs.
    { apply sort_by_sorted; unfold entry_leb; intros; [apply bytes_leb_total | by eapply bytes_leb_trans]. }
    apply last_Some in Hl as [l Hl]. rewrite Hl in Hb, Hs.
    apply elem_of_app in Hb as [Hb | Hb%list_elem_of_singleton].
    + by eapply (sorted_app_last _ l (a, n) (b, m) Hs).
    + injection Hb as -> _. apply bytes_leb_refl.
  - split; [| by intros ->]. intros Hnil. destruct (decide (stakes = ∅)) as [|Hne]; [done |]. exfalso.
    destruct (decide (cands = [])) as [Hc|Hc].
    + destruct (last_entries_Some Hne) as (a & n & Hl & _).
      subst active. by rewrite recalculate_active_fallback, Hl in Hnil.
    + specialize (Hlen Hc). rewrite Hnil in Hlen. simpl in Hlen. lia.
Qed.

Lemma active_weights_bounds :
  map_total stakes * 10000 < TWO128 ->
  wc_stake_bps (vs_weight_config vs) + wc_score_bps (vs_weight_config vs) <= 10000 ->
  (forall v, v ∈ active -> 1 <= av_weight v <= 10000)
  /\ vs_total_weight (recalculate_active stakes reputation slashing height vs) = lsum av_weight active
  /\ lsum av_weight active <= 210000.
Proof.
  intros Htot Hbps.
  assert (forall v, v ∈ active -> 1 <= av_weight v <= 10000) as Hw.
  { intros v Hv. destruct (decide (cands = [])) as [Hc|Hc].
    - subst active. rewrite recalculate_active_fallback in Hv by done.
      destruct (last (addr_entries stakes)) as [[a n]|]; [| by apply not_elem_of_nil in Hv].
      apply list_elem_of_singleton in Hv as ->. simpl. lia.
    - subst active. rewrite recalculate_active_candidates in Hv by done. apply elem_of_take_incl in Hv.
      rewrite elem_of_sort_by in Hv. apply elem_of_candidates in Hv as (a & n & Ha & _ & ->). simpl.
      destruct (aggregate_agent_scores reputation !! a) as [sc|] eqn:Hs; simpl.
      + apply aggregate_scores_le in Hs as [? ?]. by eapply compute_weight_bounds.
      + by eapply compute_weight_bounds; eauto; lia. }
  assert (lsum av_weight active <= 210000) as Hsum.
  { assert (length active <= MAX_VALIDATORS)%nat as Hlen.
    { destruct (decide (cands = [])) as [Hc|Hc].
      - subst active. rewrite recalculate_active_fallback by done.
        destruct (last (addr_entries stakes)) as [[a n]|]; simpl; unfold MAX_VALIDATORS; lia.
      - subst active. rewrite recalculate_active_candidates, length_take by done. lia. }
    etrans; [apply (lsum_mono _ (fun _ => 10000)); intros v Hv; by apply Hw |].
    rewrite lsum_const. unfold MAX_VALIDATORS in Hlen. lia. }
  split_and!; [done | apply wsum_exact; fold active; lia | done].
Qed.

(** Consensus weights are bounded.  When the weight ratios add up to at
    most 100% and the stakes times 10000 fit in 128 bits, every active weight is
    between 1 and 10000, so the summed weight cannot wrap. *)
Theorem active_weights_bounded :
  map_total stakes * 10000 < TWO128 ->
  wc_stake_bps (vs_weight_config vs) + wc_score_bps (vs_weight_config vs) <= 10000 ->
  (forall v, v ∈ active -> 1 <= av_weight v <= 10000)
  /\ vs_total_weight (recalculate_active stakes reputation slashing height vs) = lsum av_weight active
  /\ lsum av_weight active <= 210000.
Proof. apply active_weights_bounds. Qed.
End recalc_facts.

(** ** Witnesses *)

#[local] Existing Instance toy_blake3.

Definition jailed_both : SlashingState :=
  mkSlashingState {[toy_addr 1 := 90; toy_addr 2 := 90]} [] ∅ ∅ ∅.

(** When every validator is jailed the one kept is the last in address
    order, not the one with the highest stake that the comment announces. *)
Theorem last_resort_not_highest_stake :
  exists stakes slashing v u amount,
    vs_active (recalculate_active stakes [] (Some slashing) 7 ValidatorSet_new) = [v]
    /\ stakes !! u = Some amount /\ av_stake v < amount.
Proof.
  exists toy_stakes, jailed_both, (mkActiveValidator (toy_addr 2) 20000000000000 0 1), (toy_addr 1),
    100000000000000.
  split_and!; vm_compute; reflexivity.
Qed.

Lemma recalculate_active_spec_witness :
  (1 <= length (vs_active (recalculate_active toy_stakes [] None 7 ValidatorSet_new)) <= 21)%nat.
Proof.
  apply (proj1 (recalculate_active_spec toy_stakes [] None 7 ValidatorSet_new)). vm_compute. discriminate.
Defined.

Lemma active_weights_bounded_witness :
  lsum av_weight (vs_active (recalculate_active toy_stakes [] None 7 ValidatorSet_new)) <= 210000.
Proof.
  destruct (active_weights_bounded toy_stakes [] None 7 ValidatorSet_new) as (_ & _ & Hs).
  - vm_compute; reflexivity.
  - vm_compute. discriminate.
  - exact Hs.
Defined.
