(* ===== verification/Utf8.v ===== *)
(** * Strings of the Rust standard library

    [String::from_utf8], [String::from_utf8_lossy], and the string searches and
    trimming that the virtual machine applies to error messages.  A [string] holds
    the bytes of a Rust string. *)

From S2P Require Import Prelude Interfaces Types.

Definition string_of_bytes (bs : bytes) : string := String.string_of_list_byte bs.

(** ** UTF-8 *)

Definition between (lo hi : N) (b : byte) : bool := (lo <=? Byte.to_N b) && (Byte.to_N b <=? hi).
Definition continuation : byte -> bool := between 128 191.

(** The range of the second byte of a sequence that starts with [b]. *)
Definition second_byte (b : byte) : byte -> bool :=
  if between 224 224 b then between 160 191
  else if between 237 237 b then between 128 159
  else if between 240 240 b then between 144 191
  else if between 244 244 b then between 128 143
  else continuation.

(** The length of a sequence by its first byte, 0 for a byte that starts none. *)
Definition sequence_width (b : byte) : nat :=
  if between 0 127 b then 1
  else if between 194 223 b then 2
  else if between 224 239 b then 3
  else if between 240 244 b then 4
  else 0.

(** Looks at the front of a non-empty input: the bytes of the character there, or
    the number of bytes of the ill-formed part. *)
Definition next_char (b : byte) (rest : bytes) : nat + nat :=
  match sequence_width b with
  | O => inr 1%nat
  | S O => inl 1%nat
  | S n =>
      match rest with
      | [] => inr 1%nat
      | c :: rest =>
          if negb (second_byte b c) then inr 1%nat
          else
            let tail := take (n - 1) rest in
            let ok := filter (fun d => continuation d = true) tail in
            if bool_decide (length tail = (n - 1)%nat) && bool_decide (ok = tail) then inl (S n)
            else inr (2 + length (match tail with d :: _ => if continuation d then [d] else [] | [] => [] end))%nat
      end
  end.

(** U+FFFD. *)
Definition replacement : bytes := [xef; xbf; xbd].

Fixpoint utf8_chunks (fuel : nat) (bs : bytes) : list (bool * bytes) :=
  match fuel, bs with
  | S fuel, b :: rest =>
      match next_char b rest with
      | inl n => (true, take n bs) :: utf8_chunks fuel (drop n bs)
      | inr n => (false, take n bs) :: utf8_chunks fuel (drop n bs)
      end
  | _, _ => []
  end.

Definition chunks (bs : bytes) : list (bool * bytes) := utf8_chunks (length bs) bs.

(** [String::from_utf8(bytes).ok()]. *)
Definition from_utf8 (bs : bytes) : option string :=
  if forallb fst (chunks bs) then Some (string_of_bytes bs) else None.

Definition from_utf8_lossy (bs : bytes) : string :=
  string_of_bytes (mjoin ((fun c : bool * bytes => if c.1 then c.2 else replacement) <$> chunks bs)).

(** ** Searching and trimming *)

Definition prefix_of (p s : bytes) : bool := bool_decide (take (length p) s = p).

(** The part before the first occurrence of [p], and the part after it. *)
Fixpoint split_once (p s : bytes) : option (bytes * bytes) :=
  if prefix_of p s then Some ([], drop (length p) s)
  else match s with
       | [] => None
       | b :: s => (fun r => (b :: r.1, r.2)) <$> split_once p s
       end.

(** [s.split(p).nth(1)]. *)
Definition split_nth1 (p s : bytes) : option bytes :=
  match split_once p s with
  | None => None
  | Some (_, after) => Some (from_option fst after (split_once p after))
  end.

(** The encodings of the characters with the property White_Space. *)
Definition white_spaces : list bytes :=
  [[x09]; [x0a]; [x0b]; [x0c]; [x0d]; [x20]; [xc2; x85]; [xc2; xa0]; [xe1; x9a; x80];
   [xe2; x80; x80]; [xe2; x80; x81]; [xe2; x80; x82]; [xe2; x80; x83]; [xe2; x80; x84]; [xe2; x80; x85];
   [xe2; x80; x86]; [xe2; x80; x87]; [xe2; x80; x88]; [xe2; x80; x89]; [xe2; x80; x8a];
   [xe2; x80; xa8]; [xe2; x80; xa9]; [xe2; x80; xaf]; [xe2; x81; x9f]; [xe3; x80; x80]].

Fixpoint trim_start_with (spaces : list bytes) (fuel : nat) (s : bytes) : bytes :=
  match fuel with
  | O => s
  | S fuel =>
      match List.find (fun w => prefix_of w s) spaces with
      | Some w => trim_start_with spaces fuel (drop (length w) s)
      | None => s
      end
  end.

(** [s.trim()]. *)
Definition trim (s : bytes) : bytes :=
  let s := trim_start_with white_spaces (length s) s in
  reverse (trim_start_with (reverse <$> white_spaces) (length s) (reverse s)).

(** ** Facts *)
Lemma next_char_pos b rest n : next_char b rest = inl n \/ next_char b rest = inr n -> (0 < n)%nat.
Proof.
  unfold next_char. destruct (sequence_width b) as [|[|w]]; [intros [[=]|[=]]; lia.. |].
  destruct rest as [| c rest]; [intros [[=]|[=]]; lia |].
  destruct (negb _); [intros [[=]|[=]]; lia |]. cbv zeta.
  destruct (_ && _); intros [[=]|[=]]; lia.
Qed.

(** The chunks of an input put together give it back: none of it is dropped. *)
Lemma chunks_join fuel : forall bs, (length bs <= fuel)%nat -> mjoin (utf8_chunks fuel bs).*2 = bs.
Proof.
  induction fuel as [| fuel IH]; intros [| b rest] Hf; simpl in *; [done | lia | done |].
  destruct (next_char b rest) as [n|n] eqn:Hn; simpl;
    (rewrite IH; [by rewrite take_drop | rewrite length_drop; simpl]);
    pose proof (next_char_pos b rest n); destruct n; try (exfalso; naive_solver lia); simpl; lia.
Qed.

Lemma lossy_valid bs s : from_utf8 bs = Some s -> from_utf8_lossy bs = s /\ s = string_of_bytes bs.
Proof.
  unfold from_utf8, from_utf8_lossy. destruct (forallb fst (chunks bs)) eqn:Hall; [| done]. intros [= <-].
  split; [| done]. f_equal. rewrite <- (chunks_join (length bs) bs) at 2 by done. f_equal.
  fold (chunks bs). induction (chunks bs) as [| [v c] l IH]; [done |]. simpl in *.
  apply andb_true_iff in Hall as [-> Hl]. f_equal. by apply IH.
Qed.
