(* ===== verification/Version.v ===== *)
(** * Version checks ([node/src/version_check.rs])

    Whether a node has to be upgraded, from a manifest of versions.  Fetching the
    manifest is network I/O. *)

From S2P Require Import Prelude Interfaces Types Utf8.

Record VersionManifest : Type := mkVersionManifest {
  vm_latest : string;
  vm_minimum : string;
  vm_critical_minimum : option string;
  vm_release_url : string;
  vm_changelog : string;
  vm_announcement : option string;
  vm_halt_height : option N;
  vm_halt_message : option string;
  vm_plugin_latest : option string;
  vm_plugin_minimum : option string;
  vm_plugin_changelog : option string;
  vm_updated_at : string;
}.

Inductive UpgradeLevel : Type := UpToDate | Recommended | Required | Critical.

Definition level_as_str (l : UpgradeLevel) : string :=
  match l with
  | UpToDate => "up_to_date" | Recommended => "recommended" | Required => "required" | Critical => "critical"
  end.

(** [s.split(c)]: the parts between the separators, at least one. *)
Fixpoint split_on (c : byte) (bs : bytes) : list bytes :=
  match bs with
  | [] => [[]]
  | b :: bs =>
      match split_on c bs with
      | part :: parts => if decide (b = c) then [] :: part :: parts else (b :: part) :: parts
      | [] => [[b]]
      end
  end.

Definition digit (b : byte) : option N :=
  let n := Byte.to_N b in if (48 <=? n) && (n <=? 57) then Some (n - 48) else None.

(** [s.parse::<u32>()]: an optional plus sign, then digits that fit. *)
Fixpoint parse_digits (bs : bytes) (acc : N) : option N :=
  match bs with
  | [] => Some acc
  | b :: bs =>
      match digit b with
      | Some d => let acc := acc * 10 + d in if acc <? TWO32 then parse_digits bs acc else None
      | None => None
      end
  end.

Definition parse_u32 (bs : bytes) : option N :=
  let digits := match bs with b :: rest => if decide (b = x2b) then rest else bs | [] => bs end in
  if bool_decide (digits = []) then None else parse_digits digits 0.

(** [s.split('.').filter_map(|s| s.parse().ok())]: parts that are not numbers are
    left out. *)
Definition version_parts (s : string) : list N := omap parse_u32 (split_on x2e (as_bytes s)).

(** The loop over the longer of the two, a missing part counting as 0. *)
Fixpoint parts_less (n : nat) (l r : list N) : bool :=
  match n with
  | O => false
  | S n =>
      let a := default 0 (head l) in
      let b := default 0 (head r) in
      if a <? b then true else if b <? a then false else parts_less n (tail l) (tail r)
  end.

Definition version_less_than (lhs rhs : string) : bool :=
  let lhs_parts := version_parts lhs in
  let rhs_parts := version_parts rhs in
  parts_less (Nat.max (length lhs_parts) (length rhs_parts)) lhs_parts rhs_parts.

Definition check_version (current : string) (manifest : VersionManifest) (current_height : option N)
    : UpgradeLevel :=
  if match vm_critical_minimum manifest with Some critical => version_less_than current critical | None => false end
  then Critical
  else if match vm_halt_height manifest, current_height with
          | Some halt_height, Some height => halt_height <=? height
          | _, _ => false
          end then Critical
  else if version_less_than current (vm_minimum manifest) then Required
  else if version_less_than current (vm_latest manifest) then Recommended
  else UpToDate.

(** [pkg] is the version the node was built as. *)
Definition format_upgrade_message (pkg : string) (level : UpgradeLevel) (manifest : VersionManifest) : string :=
  match level with
  | UpToDate => "Node is up to date."
  | Recommended =>
      "Update available: " +:+ vm_latest manifest +:+ " (current: " +:+ pkg +:+ "). " +:+ vm_changelog manifest
        +:+ " Download: " +:+ vm_release_url manifest
  | Required =>
      "Upgrade required: minimum version " +:+ vm_minimum manifest +:+ ". Current: " +:+ pkg +:+ ". "
        +:+ vm_changelog manifest +:+ ". Download: " +:+ vm_release_url manifest
  | Critical =>
      let reason := match vm_critical_minimum manifest, vm_halt_height manifest with
                    | Some crit, _ => "Critical update required. Minimum version: " +:+ crit +:+ ". Current: " +:+ pkg +:+ "."
                    | None, Some _ => "Node has reached halt height. Upgrade required to continue. Download: "
                                        +:+ vm_release_url manifest
                    | None, None => "Critical update required"
                    end in
      reason +:+ ". Changelog: " +:+ vm_changelog manifest +:+ ". " +:+ vm_release_url manifest
  end%string.

(** ** The order of versions *)

(** Part [i] of a version, 0 from its end on. *)
Definition part (l : list N) (i : nat) : N := default 0 (l !! i).

(** [l] is less than [r] at the first part in which they differ. *)
Definition less_at (l r : list N) (i : nat) : Prop :=
  part l i < part r i /\ forall j, (j < i)%nat -> part l j = part r j.

Lemma part_head l : default 0 (head l) = part l 0.
Proof. by destruct l. Qed.
Lemma part_tail l i : part (tail l) i = part l (S i).
Proof. by destruct l. Qed.
Lemma part_end l i : (length l <= i)%nat -> part l i = 0.
Proof. intros Hi. unfold part. by rewrite lookup_ge_None_2. Qed.

Lemma parts_less_spec n l r :
  parts_less n l r = true <-> exists i, (i < n)%nat /\ less_at l r i.
Proof.
  revert l r. induction n as [|n IH]; intros l r; simpl; [split; [done | intros (i & Hi & _); lia] |].
  rewrite !part_head. destruct (N.ltb_spec (part l 0) (part r 0)) as [Hlt|Hge].
  { split; [intros _ | done]. exists 0%nat. split; [lia |]. split; [done | lia]. }
  destruct (N.ltb_spec (part r 0) (part l 0)) as [Hgt|Hle].
  { split; [done |]. intros (i & _ & Hi & Heq). destruct i as [|i]; [lia |]. specialize (Heq 0%nat ltac:(lia)). lia. }
  rewrite IH. split.
  - intros (i & Hi & Hp & Heq). rewrite !part_tail in Hp. exists (S i). split; [lia |]. split; [done |].
    intros [|j] Hj; [lia |]. rewrite <- !part_tail. apply Heq. lia.
  - intros (i & Hi & Hp & Heq). destruct i as [|i]; [lia |]. exists i. split; [lia |]. unfold less_at.
    rewrite !part_tail. split; [done |]. intros j Hj. rewrite !part_tail. apply Heq. lia.
Qed.

Lemma version_less_spec lhs rhs :
  version_less_than lhs rhs = true <-> exists i, less_at (version_parts lhs) (version_parts rhs) i.
Proof.
  unfold version_less_than. rewrite parts_less_spec. split; [intros (i & _ & Hi); eauto |].
  intros (i & Hi). exists i. split; [| done]. destruct Hi as [Hi _].
  destruct (decide (i < Nat.max (length (version_parts lhs)) (length (version_parts rhs)))%nat) as [|Hge]; [done |].
  rewrite !part_end in Hi by lia. lia.
Qed.

Lemma version_less_trans a b c :
  version_less_than a b = true -> version_less_than b c = true -> version_less_than a c = true.
Proof.
  rewrite !version_less_spec. intros (i & Hi & Hei) (j & Hj & Hej). exists (Nat.min i j). split.
  - destruct (Nat.lt_trichotomy i j) as [Hlt | [-> | Hlt]].
    + rewrite Nat.min_l by lia. rewrite <- Hej by done. done.
    + rewrite Nat.min_id. lia.
    + rewrite Nat.min_r by lia. rewrite Hei by done. done.
  - intros k Hk. rewrite Hei, Hej by lia. done.
Qed.

Lemma version_less_irrefl a : version_less_than a a = false.
Proof.
  destruct (version_less_than a a) eqn:H; [| done]. apply version_less_spec in H as (i & Hi & _). lia.
Qed.

Definition severity (l : UpgradeLevel) : N :=
  match l with UpToDate => 0 | Recommended => 1 | Required => 2 | Critical => 3 end.

(** Versions are compared like numbers, part by part, and an older node is never told
    to be in a better state than a newer one. *)
Theorem older_is_no_milder older newer manifest height :
  version_less_than older newer = true ->
  severity (check_version newer manifest height) <= severity (check_version older manifest height).
Proof.
  intros Hlt.
  assert (forall v, version_less_than newer v = true -> version_less_than older v = true) as Hm
    by (intros v; by apply version_less_trans).
  unfold check_version. destruct (vm_critical_minimum manifest) as [crit|].
  - destruct (version_less_than older crit) eqn:Ho; [by repeat case_match; simpl |].
    destruct (version_less_than newer crit) eqn:Hn; [apply Hm in Hn; congruence |].
    repeat case_match; simpl; try lia;
      repeat match goal with H : version_less_than newer _ = true |- _ => apply Hm in H end; congruence.
  - repeat case_match; simpl; try lia;
      repeat match goal with H : version_less_than newer _ = true |- _ => apply Hm in H end; congruence.
Qed.

Lemma older_is_no_milder_witness :
  let m := mkVersionManifest "0.5.9" "0.5.0" None "" "" None None None None None None "" in
  severity (check_version "0.5.10" m None) <= severity (check_version "0.5.9" m None).
Proof. intros m. apply (older_is_no_milder "0.5.9" "0.5.10" m None). vm_compute. reflexivity. Defined.

(** Parts that are not numbers are dropped, so a release candidate counts as newer
    than its release. *)
Lemma candidate_above_release : version_less_than "1.0.0" "1.0.0-rc.5" = true.
Proof. reflexivity. Qed.
