(* ===== verification/Vm.v ===== *)
(** * The contract VM's interface ([claw-node/crates/vm])

    The data that crosses the boundary between the state machine and the VM,
    the VM's limits, its error type with its messages, the bytecode checks and
    the contract address derivation.  [ChainState] is the trait through which a
    running contract sees the chain, [VmEngine] what the transaction handlers
    use of an engine. *)

From S2P Require Import Prelude Interfaces Types.
From stdpp Require Import pretty.
#[local] Open Scope N_scope.

(** ** Limits ([vm/src/constants.rs]) *)

Definition MAX_CONTRACT_CODE_SIZE : N := 524288.
Definition DEFAULT_FUEL_LIMIT : N := 10000000.
Definition VIEW_CALL_FUEL_LIMIT : N := 5000000.
Definition STORAGE_READ_FUEL : N := 10000.
Definition STORAGE_WRITE_FUEL : N := 50000.
Definition STORAGE_DELETE_FUEL : N := 10000.
Definition HOST_CALL_BASE_FUEL : N := 5000.
Definition TOKEN_TRANSFER_FUEL : N := 100000.
Definition AGENT_QUERY_FUEL : N := 10000.
Definition EVENT_EMIT_FUEL : N := 20000.
Definition MAX_EVENTS_PER_EXECUTION : N := 50.
Definition MAX_EVENT_DATA_SIZE : N := 4096.
Definition MAX_CALL_DEPTH : N := 4.
Definition CROSS_CALL_BASE_FUEL : N := 200000.
Definition MAX_CROSS_CALL_RETURN_SIZE : N := 16384.
Definition MAX_WASM_MEMORY_PAGES : N := 256.

(** ** Data ([vm/src/types.rs]) *)

Record PendingUpgrade : Type := mkPendingUpgrade {
  pu_new_code_hash : bytes;
  pu_announced_at : N;
  pu_ready_at : N;
}.

Record ContractInstance : Type := mkContractInstance {
  ci_address : bytes;
  ci_code_hash : bytes;
  ci_creator : bytes;
  ci_deployed_at : N;
  ci_admin : bytes;
  ci_previous_code_hash : option bytes;
  ci_upgrade_height : option N;
  ci_pending_upgrade : option PendingUpgrade;
}.

Definition eta_ContractInstance (i : ContractInstance) : ContractInstance :=
  mkContractInstance (ci_address i) (ci_code_hash i) (ci_creator i) (ci_deployed_at i) (ci_admin i)
    (ci_previous_code_hash i) (ci_upgrade_height i) (ci_pending_upgrade i).

#[export] Instance upd_ci_code_hash : Update ci_code_hash := ltac:(solve_update eta_ContractInstance ci_code_hash).
#[export] Instance upd_ci_previous_code_hash : Update ci_previous_code_hash := ltac:(solve_update eta_ContractInstance ci_previous_code_hash).
#[export] Instance upd_ci_upgrade_height : Update ci_upgrade_height := ltac:(solve_update eta_ContractInstance ci_upgrade_height).
#[export] Instance upd_ci_pending_upgrade : Update ci_pending_upgrade := ltac:(solve_update eta_ContractInstance ci_pending_upgrade).

Record ContractEvent : Type := mkContractEvent {
  ce_topic : string;
  ce_data : bytes;
}.

Record ExecutionResult : Type := mkExecutionResult {
  er_return_data : bytes;
  er_fuel_consumed : N;
  er_storage_changes : list (bytes * option bytes);
  er_logs : list string;
  er_transfers : list (bytes * N);
  er_events : list ContractEvent;
}.

Record ExecutionContext : Type := mkExecutionContext {
  ec_caller : bytes;
  ec_contract_address : bytes;
  ec_block_height : N;
  ec_block_timestamp : N;
  ec_value : N;
  ec_fuel_limit : N;
  ec_read_only : bool;
  ec_call_depth : N;
  ec_executing_contracts : gset bytes;
}.

Definition new_top_level (caller contract_address : bytes) (block_height block_timestamp value
    fuel_limit : N) (read_only : bool) : ExecutionContext :=
  mkExecutionContext caller contract_address block_height block_timestamp value fuel_limit
    read_only 0 {[ contract_address ]}.

(** [trait ChainState]. *)
Record ChainState : Type := mkChainState {
  cs_get_balance : bytes -> N;
  cs_get_agent_score : bytes -> N;
  cs_get_agent_registered : bytes -> bool;
  cs_get_contract_storage : bytes -> bytes -> option bytes;
  cs_get_contract_code : bytes -> option bytes;
}.

(** ** Errors ([vm/src/error.rs]) and their [Display] *)

Inductive VmError : Type :=
  | CompilationFailed (msg : string)
  | InstantiationFailed (msg : string)
  | ExecutionFailed (msg : string)
  | OutOfFuel (used limit : N)
  | InvalidModule (msg : string)
  | MemoryError (msg : string)
  | HostError (msg : string)
  | MethodNotFound (msg : string)
  | CodeTooLarge (size max : N)
  | ContractAbort (reason : string) (fuel_consumed : N)
  | MemoryLimitExceeded (pages max : N).

Definition vm_error_to_string (e : VmError) : string :=
  match e with
  | CompilationFailed m => "compilation failed: " +:+ m
  | InstantiationFailed m => "instantiation failed: " +:+ m
  | ExecutionFailed m => "execution failed: " +:+ m
  | OutOfFuel used limit => "out of fuel: used " +:+ pretty used +:+ ", limit " +:+ pretty limit
  | InvalidModule m => "invalid wasm module: " +:+ m
  | MemoryError m => "memory access error: " +:+ m
  | HostError m => "host function error: " +:+ m
  | MethodNotFound m => "method not found: " +:+ m
  | CodeTooLarge size max =>
      "wasm code too large: " +:+ pretty size +:+ " bytes (max " +:+ pretty max +:+ ")"
  | ContractAbort reason fuel =>
      "contract aborted: " +:+ reason +:+ " (fuel consumed: " +:+ pretty fuel +:+ ")"
  | MemoryLimitExceeded pages max =>
      "wasm memory limit exceeded: " +:+ pretty pages +:+ " pages requested (max "
        +:+ pretty max +:+ ")"
  end%string.

(** ** Bytecode checks and addresses *)

(** [validate_contract_code] ([vm/src/validate.rs]). *)
Definition validate_contract_code (code : bytes) : result unit VmError :=
  if bool_decide (code = []) then Err (InvalidModule "empty wasm bytecode")
  else if MAX_CONTRACT_CODE_SIZE <? blen code then
    Err (CodeTooLarge (blen code) MAX_CONTRACT_CODE_SIZE)
  else if (blen code <? 4) || negb (bool_decide (take 4 code = x00 :: lit "asm")) then
    Err (InvalidModule "invalid wasm magic number")
  else Ok tt.

(** [VmEngine::derive_contract_address]. *)
Definition derive_contract_address `{Blake3} (deployer : bytes) (nonce : N) : bytes :=
  blake3 (lit "claw_contract_v1:" ++ deployer ++ le64 nonce).

(** ** What the handlers use of an engine *)

Class VmEngine : Type := {
  vm_validate : bytes -> result unit VmError;
  execute_with_cross_calls :
    bytes -> string -> bytes -> ExecutionContext -> gmap bytes bytes -> ChainState ->
    gmap bytes bytes -> result ExecutionResult VmError;
}.

Lemma derive_contract_address_preimage `{Blake3} d1 n1 d2 n2 :
  length d1 = 32%nat -> length d2 = 32%nat -> n1 < TWO64 -> n2 < TWO64 ->
  derive_contract_address d1 n1 = derive_contract_address d2 n2 ->
  (d1 = d2 /\ n1 = n2) \/
  exists m1 m2, m1 <> m2 /\ blake3 m1 = blake3 m2.
Proof.
  intros Hd1 Hd2 Hn1 Hn2 Heq. unfold derive_contract_address in Heq.
  destruct (decide (lit "claw_contract_v1:" ++ d1 ++ le64 n1
                    = lit "claw_contract_v1:" ++ d2 ++ le64 n2)) as [E|E]; [left | by right; eauto].
  apply app_inv_head in E. apply app_inj_1 in E as [-> E]; [| by rewrite Hd1, Hd2].
  split; [done |]. by apply le_bytes_inj in E.
Qed.
