(* ===== verification/Host.v ===== *)
(** * The host functions of the virtual machine ([vm/src/host.rs])

    What a contract can do besides computing: a host function charges fuel, reads
    its arguments from the guest's memory, and reads or changes the environment of
    the execution.  An error traps the guest. *)

From stdpp Require Import pretty.
From S2P Require Import Prelude Interfaces Types Utf8 Vm.

(** ** Machine integers of the WebAssembly interface *)

(** [n as i32], [n as i64], [z as u64]. *)
Definition as_i32 (n : N) : Z :=
  let m := n mod TWO32 in if m <? 2 ^ 31 then Z.of_N m else (Z.of_N m - 2 ^ 32)%Z.
Definition as_i64 (n : N) : Z :=
  let m := n mod TWO64 in if m <? 2 ^ 63 then Z.of_N m else (Z.of_N m - 2 ^ 64)%Z.
Definition as_u64 (z : Z) : N := Z.to_N (z mod 2 ^ 64)%Z.
Definition as_u32 (z : Z) : N := Z.to_N (z mod 2 ^ 32)%Z.

Definition low64 (x : N) : N := N.land x 18446744073709551615.
(** [(lo as u64 as u128) | ((hi as u64 as u128) << 64)]. *)
Definition join64 (lo hi : Z) : N := N.lor (as_u64 lo) (N.shiftl (as_u64 hi) 64).

(** ** The guest's side

    [Memory] is the memory and the globals of a running instance; reads and
    writes fail outside of it. *)
Class GuestMemory : Type := {
  Memory : Type;
  mem_read : Memory -> N -> N -> result bytes string;
  mem_write : Memory -> N -> bytes -> result Memory string;
}.

Definition MAX_HOST_BUFFER_SIZE : N := 65536.

Section host_env.
Context `{GM : GuestMemory}.

Record HostEnv : Type := mkHostEnv {
  he_context : ExecutionContext;
  he_storage : gmap bytes bytes;
  he_storage_changes : list (bytes * option bytes);
  he_logs : list string;
  he_transfers : list (bytes * N);
  he_return_data : bytes;
  he_events : list ContractEvent;
  he_balances : gmap bytes N;
  he_agent_scores : gmap bytes N;
  he_registered_agents : gset bytes;
  he_memory : bool;
  he_guest : Memory;
  he_fuel_remaining : N;
  he_fuel_consumed : N;
  he_fuel_limit : N;
  he_chain_state : option ChainState;
  he_contract_code : gmap bytes bytes;
  he_last_cross_call_return : bytes;
  he_call_depth : N;
  he_executing_contracts : gset bytes;
}.

Definition eta_HostEnv (e : HostEnv) : HostEnv :=
  mkHostEnv (he_context e) (he_storage e) (he_storage_changes e) (he_logs e) (he_transfers e) (he_return_data e)
    (he_events e) (he_balances e) (he_agent_scores e) (he_registered_agents e) (he_memory e) (he_guest e)
    (he_fuel_remaining e) (he_fuel_consumed e) (he_fuel_limit e) (he_chain_state e) (he_contract_code e)
    (he_last_cross_call_return e) (he_call_depth e) (he_executing_contracts e).
#[export] Instance upd_he_storage : Update he_storage := ltac:(solve_update eta_HostEnv he_storage).
#[export] Instance upd_he_storage_changes : Update he_storage_changes := ltac:(solve_update eta_HostEnv he_storage_changes).
#[export] Instance upd_he_logs : Update he_logs := ltac:(solve_update eta_HostEnv he_logs).
#[export] Instance upd_he_transfers : Update he_transfers := ltac:(solve_update eta_HostEnv he_transfers).
#[export] Instance upd_he_return_data : Update he_return_data := ltac:(solve_update eta_HostEnv he_return_data).
#[export] Instance upd_he_events : Update he_events := ltac:(solve_update eta_HostEnv he_events).
#[export] Instance upd_he_memory : Update he_memory := ltac:(solve_update eta_HostEnv he_memory).
#[export] Instance upd_he_guest : Update he_guest := ltac:(solve_update eta_HostEnv he_guest).
#[export] Instance upd_he_fuel_remaining : Update he_fuel_remaining := ltac:(solve_update eta_HostEnv he_fuel_remaining).
#[export] Instance upd_he_fuel_consumed : Update he_fuel_consumed := ltac:(solve_update eta_HostEnv he_fuel_consumed).
#[export] Instance upd_he_last_cross_call_return : Update he_last_cross_call_return := ltac:(solve_update eta_HostEnv he_last_cross_call_return).
#[export] Instance upd_he_executing_contracts : Update he_executing_contracts := ltac:(solve_update eta_HostEnv he_executing_contracts).
End host_env.

(** ** Fuel and memory *)

Section host_functions.
Context `{GM : GuestMemory}.
Implicit Types (env : HostEnv).

(** A host function: an error is the message of the trap. *)
Abbreviation host := (ST HostEnv string).

Definition consume_fuel (fuel_remaining fuel_consumed cost fuel_limit : N) : result (N * N) string :=
  if fuel_remaining <? cost then
    Err ("fuel exhausted: used " +:+ pretty (u64_add fuel_consumed fuel_remaining) +:+ ", limit " +:+ pretty fuel_limit)%string
  else Ok (fuel_remaining - cost, u64_add fuel_consumed cost).

Definition check_fuel (cost : N) : host unit :=
  env ← st_get;
  '(remaining, consumed) ← map_err
    (consume_fuel (he_fuel_remaining env) (he_fuel_consumed env) cost (he_fuel_limit env))
    (fun msg => ("out of fuel: " +:+ msg)%string);
  st_modify (fun env => env <| he_fuel_remaining := remaining |> <| he_fuel_consumed := consumed |>).

Definition read_bytes env (ptr len : N) : result bytes VmError :=
  if MAX_HOST_BUFFER_SIZE <? len then
    Err (MemoryError ("guest requested " +:+ pretty len +:+ " bytes, max is " +:+ pretty MAX_HOST_BUFFER_SIZE)%string)
  else if negb (he_memory env) then Err (MemoryError "memory not set")
  else match mem_read (he_guest env) ptr len with Ok buf => Ok buf | Err e => Err (MemoryError e) end.

Definition write_bytes env (ptr : N) (data : bytes) : result HostEnv VmError :=
  if negb (he_memory env) then Err (MemoryError "memory not set")
  else match mem_write (he_guest env) ptr data with
       | Ok m => Ok (env <| he_guest := m |>)
       | Err e => Err (MemoryError e)
       end.

(** A buffer that cannot be read makes the function return [dflt]. *)
Definition read_or {A} (dflt : A) (ptr len : N) (k : bytes -> host A) : host A :=
  env ← st_get;
  match read_bytes env ptr len with Ok buf => k buf | Err _ => mret dflt end.

(** [let _ = write_bytes(..)]. *)
Definition write_ignored (ptr : N) (data : bytes) : host unit :=
  st_modify (fun env => match write_bytes env ptr data with Ok env' => env' | Err _ => env end).

Definition READ_ONLY_TRAP : string := "write operation not allowed in read-only (view) call".
Definition not_read_only (msg : string) : host unit :=
  env ← st_get; fail_if (ec_read_only (he_context env)) msg.

(** ** Storage *)

Definition host_storage_read (key_ptr key_len val_ptr : N) : host Z :=
  check_fuel STORAGE_READ_FUEL;;
  read_or (-1)%Z key_ptr key_len (fun key =>
    env ← st_get;
    match he_storage env !! key with
    | Some val =>
        match write_bytes env val_ptr val with
        | Ok env' => st_modify (fun _ => env');; mret (as_i32 (blen val))
        | Err _ => mret (-1)%Z
        end
    | None => mret (-1)%Z
    end).

Definition host_storage_write (key_ptr key_len val_ptr val_len : N) : host unit :=
  check_fuel STORAGE_WRITE_FUEL;;
  not_read_only READ_ONLY_TRAP;;
  read_or tt key_ptr key_len (fun key =>
  read_or tt val_ptr val_len (fun val =>
    st_modify (fun env => env <| he_storage ::= <[key := val]> |>
                              <| he_storage_changes ::= fun l => l ++ [(key, Some val)] |>))).

Definition host_storage_has (key_ptr key_len : N) : host Z :=
  check_fuel STORAGE_READ_FUEL;;
  read_or 0%Z key_ptr key_len (fun key =>
    st_gets (fun env => if he_storage env !! key is Some _ then 1%Z else 0%Z)).

Definition host_storage_delete (key_ptr key_len : N) : host unit :=
  check_fuel STORAGE_DELETE_FUEL;;
  not_read_only READ_ONLY_TRAP;;
  read_or tt key_ptr key_len (fun key =>
    st_modify (fun env => env <| he_storage ::= delete key |>
                              <| he_storage_changes ::= fun l => l ++ [(key, None)] |>)).

(** ** Context *)

Definition host_caller (out_ptr : N) : host unit :=
  check_fuel HOST_CALL_BASE_FUEL;;
  env ← st_get;
  write_ignored out_ptr (ec_caller (he_context env)).

Definition host_block_height : host Z :=
  check_fuel HOST_CALL_BASE_FUEL;; st_gets (fun env => as_i64 (ec_block_height (he_context env))).

Definition host_block_timestamp : host Z :=
  check_fuel HOST_CALL_BASE_FUEL;; st_gets (fun env => as_i64 (ec_block_timestamp (he_context env))).

Definition host_contract_address (out_ptr : N) : host unit :=
  check_fuel HOST_CALL_BASE_FUEL;;
  env ← st_get;
  write_ignored out_ptr (ec_contract_address (he_context env)).

Definition host_value_lo : host Z :=
  check_fuel HOST_CALL_BASE_FUEL;; st_gets (fun env => as_i64 (low64 (ec_value (he_context env)))).

Definition host_value_hi : host Z :=
  check_fuel HOST_CALL_BASE_FUEL;; st_gets (fun env => as_i64 (N.shiftr (ec_value (he_context env)) 64)).

(** ** Agents and tokens *)

Definition host_agent_get_score (addr_ptr : N) : host Z :=
  check_fuel AGENT_QUERY_FUEL;;
  read_or 0%Z addr_ptr 32 (fun addr => st_gets (fun env => as_i64 (default 0 (he_agent_scores env !! addr)))).

Definition host_agent_is_registered (addr_ptr : N) : host Z :=
  check_fuel AGENT_QUERY_FUEL;;
  read_or 0%Z addr_ptr 32 (fun addr =>
    st_gets (fun env => if bool_decide (addr ∈ he_registered_agents env) then 1%Z else 0%Z)).

Definition host_token_balance (addr_ptr : N) : host Z :=
  check_fuel HOST_CALL_BASE_FUEL;;
  read_or 0%Z addr_ptr 32 (fun addr => st_gets (fun env => as_i64 (low64 (default 0 (he_balances env !! addr))))).

Definition host_token_balance_hi (addr_ptr : N) : host Z :=
  check_fuel HOST_CALL_BASE_FUEL;;
  read_or 0%Z addr_ptr 32 (fun addr =>
    st_gets (fun env => as_i64 (N.shiftr (default 0 (he_balances env !! addr)) 64))).

(** 0 on success, -1 on failure; the balance is not looked at. *)
Definition host_token_transfer (to_ptr : N) (amount_lo amount_hi : Z) : host Z :=
  check_fuel TOKEN_TRANSFER_FUEL;;
  not_read_only READ_ONLY_TRAP;;
  read_or (-1)%Z to_ptr 32 (fun to =>
    let amount := join64 amount_lo amount_hi in
    if amount =? 0 then mret (-1)%Z
    else st_modify (fun env => env <| he_transfers ::= fun l => l ++ [(to, amount)] |>);; mret 0%Z).

(** ** Logs, return data, abort and events *)

Definition MAX_LOG_ENTRIES : N := 100.

Definition host_log (ptr len : N) : host unit :=
  check_fuel HOST_CALL_BASE_FUEL;;
  read_or tt ptr len (fun buf =>
    env ← st_get;
    if MAX_LOG_ENTRIES <=? N.of_nat (length (he_logs env)) then mret tt
    else st_modify (fun env => env <| he_logs ::= fun l => l ++ [from_utf8_lossy buf] |>)).

Definition host_return_data (ptr len : N) : host unit :=
  check_fuel HOST_CALL_BASE_FUEL;;
  read_or tt ptr len (fun buf => st_modify (fun env => env <| he_return_data := buf |>)).

Definition host_abort (ptr len : N) : host unit :=
  env ← st_get;
  let buf := match read_bytes env ptr len with Ok buf => buf | Err _ => [] end in
  st_throw ("contract abort: " +:+ from_utf8_lossy buf)%string.

Definition read_or_trap (what : string) (ptr len : N) : host bytes :=
  env ← st_get;
  map_err (read_bytes env ptr len) (fun e => (what +:+ vm_error_to_string e)%string).

Definition host_emit_event (topic_ptr topic_len data_ptr data_len : N) : host unit :=
  check_fuel EVENT_EMIT_FUEL;;
  fail_if (topic_len =? 0) "emit_event: topic must not be empty"%string;;
  fail_if (256 <? topic_len)
    ("emit_event: topic length " +:+ pretty topic_len +:+ " exceeds 256 byte limit")%string;;
  fail_if (MAX_EVENT_DATA_SIZE <? data_len)
    ("emit_event: data length " +:+ pretty data_len +:+ " exceeds " +:+ pretty MAX_EVENT_DATA_SIZE +:+ " byte limit")%string;;
  topic_bytes ← read_or_trap "emit_event: failed to read topic: " topic_ptr topic_len;
  topic ← ok_or (from_utf8 topic_bytes) "emit_event: topic is not valid UTF-8"%string;
  data ← (if data_len =? 0 then mret [] else read_or_trap "emit_event: failed to read data: " data_ptr data_len);
  env ← st_get;
  fail_if (MAX_EVENTS_PER_EXECUTION <=? N.of_nat (length (he_events env)))
    ("emit_event: max event limit (" +:+ pretty MAX_EVENTS_PER_EXECUTION +:+ ") exceeded")%string;;
  st_modify (fun env => env <| he_events ::= fun l => l ++ [mkContractEvent topic data] |>).
End host_functions.
Abbreviation host := (ST HostEnv string).

(** ** Cross-contract calls *)

Section cross_calls.
Context `{GM : GuestMemory}.
(** The engine that runs the callee, and whether it answers within ten seconds. *)
Context (execute_child : bytes -> string -> bytes -> ExecutionContext -> gmap bytes bytes -> ChainState ->
                         result ExecutionResult VmError).
Context (child_in_time : ExecutionContext -> bool).
Implicit Types (env : HostEnv).

(** Fuel the callee used, taken from the caller as far as it has any. *)
Definition charge_child (used : N) env : HostEnv :=
  env <| he_fuel_remaining ::= fun remaining => remaining - N.min used remaining |>
      <| he_fuel_consumed ::= fun consumed => u64_add consumed used |>.

(** The callee's effects, appended to the caller's. *)
Definition merge_child (r : ExecutionResult) env : HostEnv :=
  env <| he_storage_changes ::= fun l => l ++ er_storage_changes r |>
      <| he_transfers ::= fun l => l ++ er_transfers r |>
      <| he_events ::= fun l => l ++ er_events r |>
      <| he_last_cross_call_return := er_return_data r |>.

Definition child_context env (target_addr : bytes) (value : N) : ExecutionContext :=
  let ctx := he_context env in
  mkExecutionContext (ec_contract_address ctx) target_addr (ec_block_height ctx) (ec_block_timestamp ctx) value
    (he_fuel_remaining env) false (u32_add (he_call_depth env) 1) (he_executing_contracts env).

Definition run_child (target_addr code : bytes) (method : string) (args : bytes) (value : N) (cs : ChainState)
    : host Z :=
  env ← st_get;
  let child_ctx := child_context env target_addr value in
  let child_result := if child_in_time child_ctx then execute_child code method args child_ctx ∅ cs
                      else Err (ExecutionFailed "cross-contract call timed out") in
  st_modify (fun env => env <| he_executing_contracts ::= fun x => x ∖ {[ target_addr ]} |>);;
  match child_result with
  | Ok r =>
      st_modify (charge_child (er_fuel_consumed r));;
      st_modify (merge_child r);;
      mret 0%Z
  | Err e =>
      (if e is OutOfFuel used _ then st_modify (charge_child used) else mret tt);;
      st_modify (fun env => env <| he_last_cross_call_return := [] |>);;
      mret (-1)%Z
  end.

Definition host_call_contract (addr_ptr method_ptr method_len args_ptr args_len : N) (value_lo value_hi : Z)
    : host Z :=
  check_fuel CROSS_CALL_BASE_FUEL;;
  not_read_only "cross-contract call not allowed in read-only (view) call";;
  target_addr ← read_or_trap "call_contract: bad address: " addr_ptr 32;
  env ← st_get;
  if MAX_CALL_DEPTH <=? he_call_depth env then mret (-3)%Z
  else if bool_decide (target_addr ∈ he_executing_contracts env) then mret (-2)%Z
  else
    method_bytes ← read_or_trap "call_contract: bad method: " method_ptr method_len;
    method ← ok_or (from_utf8 method_bytes) "call_contract: method name is not valid UTF-8"%string;
    args ← (if 0 <? args_len then read_or_trap "call_contract: bad args: " args_ptr args_len else mret []);
    let value := join64 value_lo value_hi in
    match he_contract_code env !! target_addr with
    | None => mret (-1)%Z
    | Some code =>
        st_modify (fun env => env <| he_executing_contracts ::= union {[ target_addr ]} |>);;
        match he_chain_state env with
        | None =>
            st_modify (fun env => env <| he_executing_contracts ::= fun x => x ∖ {[ target_addr ]} |>);;
            mret (-1)%Z
        | Some cs => run_child target_addr code method args value cs
        end
    end.

Definition host_cross_call_return_data (out_ptr : N) : host Z :=
  check_fuel HOST_CALL_BASE_FUEL;;
  env ← st_get;
  let data := he_last_cross_call_return env in
  if bool_decide (data = []) then mret 0%Z
  else if MAX_CROSS_CALL_RETURN_SIZE <? blen data then mret (-1)%Z
  else match write_bytes env out_ptr data with
       | Ok env' => st_modify (fun _ => env');; mret (as_i32 (blen data))
       | Err _ => mret (-1)%Z
       end.

(** ** The import object

    The functions a module can import, by their names in the table of
    [VmEngine::execute]. *)
Inductive import : Type :=
  | storage_read (key_ptr key_len val_ptr : N)
  | storage_write (key_ptr key_len val_ptr val_len : N)
  | storage_has (key_ptr key_len : N)
  | storage_delete (key_ptr key_len : N)
  | caller (out_ptr : N)
  | block_height
  | block_timestamp
  | contract_address (out_ptr : N)
  | value_lo
  | value_hi
  | agent_get_score (addr_ptr : N)
  | agent_is_registered (addr_ptr : N)
  | token_balance (addr_ptr : N)
  | token_balance_hi (addr_ptr : N)
  | token_transfer (to_ptr : N) (amount_lo amount_hi : Z)
  | log_msg (ptr len : N)
  | return_data (ptr len : N)
  | abort (ptr len : N)
  | emit_event (topic_ptr topic_len data_ptr data_len : N)
  | call_contract (addr_ptr method_ptr method_len args_ptr args_len : N) (value_lo value_hi : Z)
  | cross_call_return_data (out_ptr : N).

Definition no_result (m : host unit) : host Z := m;; mret 0%Z.

Definition run_import (i : import) : host Z :=
  match i with
  | storage_read kp kl vp => host_storage_read kp kl vp
  | storage_write kp kl vp vl => no_result (host_storage_write kp kl vp vl)
  | storage_has kp kl => host_storage_has kp kl
  | storage_delete kp kl => no_result (host_storage_delete kp kl)
  | caller p => no_result (host_caller p)
  | block_height => host_block_height
  | block_timestamp => host_block_timestamp
  | contract_address p => no_result (host_contract_address p)
  | value_lo => host_value_lo
  | value_hi => host_value_hi
  | agent_get_score p => host_agent_get_score p
  | agent_is_registered p => host_agent_is_registered p
  | token_balance p => host_token_balance p
  | token_balance_hi p => host_token_balance_hi p
  | token_transfer p lo hi => host_token_transfer p lo hi
  | log_msg p l => no_result (host_log p l)
  | return_data p l => no_result (host_return_data p l)
  | abort p l => no_result (host_abort p l)
  | emit_event tp tl dp dl => no_result (host_emit_event tp tl dp dl)
  | call_contract ap mp ml gp gl lo hi => host_call_contract ap mp ml gp gl lo hi
  | cross_call_return_data p => host_cross_call_return_data p
  end.

(** ** Guests

    What a running instance does: it changes its own memory, calls imports and
    goes on with their results, returns, or traps.  The tree is finite: a run that
    does not end is cut by the time-out around the engine. *)
Inductive guest : Type :=
  | g_return (z : Z)
  | g_trap (msg : string)
  | g_compute (f : Memory -> Memory) (k : Memory -> guest)
  | g_import (i : import) (k : Z -> guest).

Fixpoint run_guest (g : guest) : host Z :=
  match g with
  | g_return z => mret z
  | g_trap msg => st_throw msg
  | g_compute f k => fun env => let m := f (he_guest env) in run_guest (k m) (env <| he_guest := m |>)
  | g_import i k => z ← run_import i; run_guest (k z)
  end.
End cross_calls.
