(* ===== verification/Engine.v ===== *)
(** * The execution engine ([vm/src/engine.rs])

    The cache of compiled modules, the checks of a module, and the execution of a
    contract's method in a host environment built from the chain state.  Wasmer,
    which compiles and runs modules, is the class [Wasmer]; with it the engine is
    an instance of [VmEngine]. *)

From stdpp Require Import pretty.
From S2P Require Import Prelude Interfaces Types Utf8 Vm Host.

(** ** The cache of compiled modules *)

Definition MODULE_CACHE_CAPACITY : nat := 64.

Record ModuleCache : Type := mkModuleCache {
  mc_entries : gmap bytes bytes;
  mc_order : list bytes;
  mc_capacity : nat;
}.

Definition ModuleCache_new (capacity : nat) : ModuleCache := mkModuleCache ∅ [] capacity.

(** [order.retain(|k| k != key); order.push_back(key)]. *)
Definition touch (key : bytes) (order : list bytes) : list bytes := filter (fun k => k <> key) order ++ [key].

Definition cache_get (key : bytes) (c : ModuleCache) : option bytes * ModuleCache :=
  match mc_entries c !! key with
  | Some v => (Some v, mkModuleCache (mc_entries c) (touch key (mc_order c)) (mc_capacity c))
  | None => (None, c)
  end.

Definition cache_put (key value : bytes) (c : ModuleCache) : ModuleCache :=
  let '(entries, order) :=
    if bool_decide (is_Some (mc_entries c !! key)) then
      (mc_entries c, filter (fun k => k <> key) (mc_order c))
    else if (mc_capacity c <=? size (mc_entries c))%nat then
      match mc_order c with
      | evicted :: order => (delete evicted (mc_entries c), order)
      | [] => (mc_entries c, [])
      end
    else (mc_entries c, mc_order c) in
  mkModuleCache (<[key := value]> entries) (order ++ [key]) (mc_capacity c).

(** ** Wasmer

    [wasm_link] resolves the imports of a module: the memory and globals its
    instance starts with, and its start function; [wasm_call] is the behaviour of
    a call of an export, [wasm_export] its number of parameters. *)
Class Wasmer : Type := {
  wasm_memory :: GuestMemory;
  Module_ : Type;
  wasm_compile : bytes -> result Module_ string;
  wasm_serialize : Module_ -> result bytes string;
  wasm_deserialize : bytes -> result Module_ string;
  wasm_memories : Module_ -> list (N * option N);
  wasm_link : Module_ -> result (Memory * guest) string;
  wasm_get_memory : Module_ -> result unit string;
  wasm_export : Module_ -> string -> option N;
  wasm_call : Module_ -> string -> list Z -> guest;
  runtime_error : string -> string;
  child_in_time : ExecutionContext -> bool;
}.

Section engine.
Context `{HB : Blake3} `{WM : Wasmer}.

Definition load_module (code : bytes) : ST ModuleCache VmError Module_ := fun c =>
  let code_hash := blake3 code in
  match cache_get code_hash c with
  | (Some serialized, c) =>
      (match wasm_deserialize serialized with
       | Ok m => Ok m
       | Err e => Err (CompilationFailed ("cache deserialize: " +:+ e)%string)
       end, c)
  | (None, c) =>
      match wasm_compile code with
      | Err e => (Err (CompilationFailed e), c)
      | Ok m => (Ok m, match wasm_serialize m with Ok s => cache_put code_hash s c | Err _ => c end)
      end
  end.

Fixpoint check_memory_limits (memories : list (N * option N)) : result unit VmError :=
  match memories with
  | [] => Ok tt
  | (initial, max) :: memories =>
      if MAX_WASM_MEMORY_PAGES <? initial then Err (MemoryLimitExceeded initial MAX_WASM_MEMORY_PAGES)
      else match max with
           | Some max => if MAX_WASM_MEMORY_PAGES <? max then Err (MemoryLimitExceeded max MAX_WASM_MEMORY_PAGES)
                         else check_memory_limits memories
           | None => check_memory_limits memories
           end
  end.

Definition validate (code : bytes) : result unit VmError :=
  if MAX_CONTRACT_CODE_SIZE <? blen code then Err (CodeTooLarge (blen code) MAX_CONTRACT_CODE_SIZE)
  else match wasm_compile code with
       | Err e => Err (InvalidModule e)
       | Ok m => check_memory_limits (wasm_memories m)
       end.

(** ** Execution *)

(** The environment of an execution: only the caller and the contract itself are
    in the snapshots of balances, scores and registrations. *)
Definition host_env (m : Memory) (ctx : ExecutionContext) (storage : gmap bytes bytes) (cs : ChainState)
    (chain_state : option ChainState) (contract_code : gmap bytes bytes) : HostEnv :=
  let all_addresses := [ec_caller ctx; ec_contract_address ctx] in
  mkHostEnv ctx storage [] [] [] [] []
    (foldl (fun b a => <[a := cs_get_balance cs a]> b) ∅ all_addresses)
    (foldl (fun b a => <[a := cs_get_agent_score cs a]> b) ∅ all_addresses)
    (foldl (fun r a => if cs_get_agent_registered cs a then {[a]} ∪ r else r) ∅ all_addresses)
    false m (ec_fuel_limit ctx) 0 (ec_fuel_limit ctx) chain_state contract_code []
    (ec_call_depth ctx) (ec_executing_contracts ctx).

(** What a trap of the method means. *)
Definition call_error (env : HostEnv) (trap : string) : VmError :=
  let msg := as_bytes (runtime_error trap) in
  let consumed := he_fuel_consumed env in
  if bool_decide (is_Some (split_once (lit "out of fuel") msg))
     || bool_decide (is_Some (split_once (lit "fuel exhausted") msg)) then OutOfFuel consumed (he_fuel_limit env)
  else match split_nth1 (lit "contract abort:") msg with
       | Some reason => ContractAbort (string_of_bytes (trim reason)) consumed
       | None => ExecutionFailed (runtime_error trap +:+ " (fuel consumed: " +:+ pretty consumed +:+ ")")%string
       end.

Definition collect_result (env : HostEnv) : ExecutionResult :=
  mkExecutionResult (he_return_data env) (he_fuel_consumed env) (he_storage_changes env) (he_logs env)
    (he_transfers env) (he_events env).

Section run.
Context (execute_child : bytes -> string -> bytes -> ExecutionContext -> gmap bytes bytes -> ChainState ->
                         result ExecutionResult VmError).

Abbreviation run := (run_guest execute_child child_in_time).

(** Copies the arguments into the guest's memory, through its own [alloc]. *)
Definition write_args (m : Module_) (args : bytes) : ST HostEnv VmError (option N) :=
  if bool_decide (args = []) then mret None
  else match wasm_export m "alloc" with
       | None => mret None
       | Some _ => fun env =>
           match run (wasm_call m "alloc" [as_i32 (blen args)]) env with
           | (Err e, env) => (Err (ExecutionFailed ("alloc failed: " +:+ runtime_error e)%string), env)
           | (Ok z, env) =>
               match mem_write (he_guest env) (as_u32 z) args with
               | Err e => (Err (MemoryError e), env)
               | Ok mem => (Ok (Some (as_u32 z)), env <| he_guest := mem |>)
               end
           end
       end.

Definition call_args (nparams : N) (args_ptr : option N) (args : bytes) : list Z :=
  if nparams =? 2 then
    match args_ptr with
    | Some ptr => [as_i32 ptr; as_i32 (blen args)]
    | None => [0%Z; 0%Z]
    end
  else [].

Definition call_export (m : Module_) (method : string) (zs : list Z) : ST HostEnv VmError ExecutionResult := fun env =>
  match run (wasm_call m method zs) env with
  | (Err trap, env) => (Err (call_error env trap), env)
  | (Ok _, env) => (Ok (collect_result env), env)
  end.

Definition call_method (m : Module_) (method : string) (args : bytes) : ST HostEnv VmError ExecutionResult :=
  map_err (wasm_get_memory m) MemoryError;;
  st_modify (fun env => env <| he_memory := true |>);;
  args_ptr ← write_args m args;
  nparams ← ok_or (wasm_export m method) (MethodNotFound method);
  call_export m method (call_args nparams args_ptr args).

Definition run_engine (code : bytes) (method : string) (args : bytes) (ctx : ExecutionContext)
    (storage : gmap bytes bytes) (cs : ChainState) (chain_state : option ChainState) (contract_code : gmap bytes bytes)
    : ST ModuleCache VmError ExecutionResult :=
  m ← load_module code;
  map_err (check_memory_limits (wasm_memories m)) id;;
  '(mem, start) ← map_err (wasm_link m) InstantiationFailed;
  match run start (host_env mem ctx storage cs chain_state contract_code) with
  | (Err e, _) => st_throw (InstantiationFailed (runtime_error e))
  | (Ok _, env) => map_err (call_method m method args env).1 id
  end.
End run.

(** [VmEngine::execute]: no chain state and no code for cross-contract calls, so
    nothing is ever run below it. *)
Definition execute (code : bytes) (method : string) (args : bytes) (ctx : ExecutionContext)
    (storage : gmap bytes bytes) (cs : ChainState) : result ExecutionResult VmError :=
  (run_engine (fun _ _ _ _ _ _ => Err (ExecutionFailed "")) code method args ctx storage cs None ∅
     (ModuleCache_new MODULE_CACHE_CAPACITY)).1.

Definition engine_with_cross_calls (code : bytes) (method : string) (args : bytes) (ctx : ExecutionContext)
    (storage : gmap bytes bytes) (cs : ChainState) (contract_code : gmap bytes bytes)
    : result ExecutionResult VmError :=
  (run_engine execute code method args ctx storage cs (Some cs) contract_code
     (ModuleCache_new MODULE_CACHE_CAPACITY)).1.

(** The engine that the handlers call: a new one, with an empty cache, each time. *)
Definition wasm_engine : VmEngine := {|
  vm_validate := validate;
  execute_with_cross_calls := engine_with_cross_calls;
|}.
End engine.
