(* ===== verification/World.v ===== *)
(** * The world state ([claw-node/crates/state/src/world.rs], [error.rs])

    [WorldState] with the two older snapshot layouts and their migration, the
    state errors, the Merkle state root, and the native supply.  The
    transaction dispatcher [apply_tx] is in [ApplyTx]. *)

From stdpp Require Import pretty.
From S2P Require Import Prelude Interfaces Types Crypto Vm.

(** ** Errors ([state/src/error.rs]) *)

Inductive StateError : Type :=
  | InvalidSignature
  | InvalidNonce (expected got : N)
  | InsufficientBalance (need have : N)
  | AgentAlreadyRegistered
  | AgentNotRegistered
  | TokenAlreadyExists
  | TokenNotFound
  | SelfAttestation
  | ScoreOutOfRange (score : Z)
  | ZeroAmount
  | NameTooLong (len max : N)
  | NativeTokenIdForCustom
  | PayloadDeserialize (msg : string)
  | ZeroSupply
  | PayloadTooLarge (len max : N)
  | BalanceOverflow (amount balance : N)
  | DescriptionTooLong (len max : N)
  | SymbolTooLong (len max : N)
  | EndpointTooLong (len max : N)
  | MetadataTooLarge (len max : N)
  | MemoTooLong (len max : N)
  | AttestationLimitReached (max : N)
  | ContractNotFound (msg : string)
  | ContractExecutionFailed (msg : string)
  | ContractCodeTooLarge (size max : N)
  | InvalidContractMethod (msg : string)
  | ContractAlreadyExists
  | StakeError (msg : string)
  | NoClaimableUnbonding
  | PlatformStakeTooLow (need have : N)
  | PlatformReportAlreadySubmitted
  | ActionTypeTooLong (len max : N)
  | TooManyActivityEntries (len max : N)
  | DuplicateAgentInReport (msg : string)
  | ActionCountTooHigh (count max : N)
  | ContractTransferInsufficientBalance (need have : N)
  | SelfApproval
  | BurnExceedsSupply (burn supply : N)
  | MinerAlreadyRegistered
  | MinerNotRegistered
  | MinerNameTooLong (len max : N)
  | SubnetLimitReached (max : N)
  | HeartbeatTooEarly (next_allowed current : N)
  | HeartbeatDeprecated
  | InvalidMinerTier (tier : N)
  | InvalidIpLength (len : N)
  | VmConcurrencyLimitReached
  | Unauthorized
  | NoPendingUpgrade
  | UpgradeNotReady (current ready_at : N)
  | UpgradeCodeHashMismatch.

(** The [thiserror] messages. *)
Definition state_error_to_string (e : StateError) : string :=
  match e with
  | InvalidSignature => "invalid signature"
  | InvalidNonce expected got =>
      "invalid nonce: expected " +:+ pretty expected +:+ ", got " +:+ pretty got
  | InsufficientBalance need have =>
      "insufficient balance: need " +:+ pretty need +:+ ", have " +:+ pretty have
  | AgentAlreadyRegistered => "agent already registered"
  | AgentNotRegistered => "agent not registered"
  | TokenAlreadyExists => "token already exists"
  | TokenNotFound => "token not found"
  | SelfAttestation => "cannot attest to self"
  | ScoreOutOfRange score => "score out of range: " +:+ pretty score +:+ " (must be -100..=100)"
  | ZeroAmount => "amount must be greater than zero"
  | NameTooLong len max =>
      "name too long: " +:+ pretty len +:+ " bytes (max " +:+ pretty max +:+ ")"
  | NativeTokenIdForCustom => "cannot use native token ID for custom token transfer"
  | PayloadDeserialize msg => "payload deserialization failed: " +:+ msg
  | ZeroSupply => "total supply must be greater than zero"
  | PayloadTooLarge len max =>
      "transaction payload too large: " +:+ pretty len +:+ " bytes (max " +:+ pretty max +:+ ")"
  | BalanceOverflow amount balance =>
      "balance overflow: adding " +:+ pretty amount +:+ " to " +:+ pretty balance +:+ " would exceed u128::MAX"
  | DescriptionTooLong len max =>
      "description too long: " +:+ pretty len +:+ " bytes (max " +:+ pretty max +:+ ")"
  | SymbolTooLong len max =>
      "symbol too long: " +:+ pretty len +:+ " bytes (max " +:+ pretty max +:+ ")"
  | EndpointTooLong len max =>
      "endpoint too long: " +:+ pretty len +:+ " bytes (max " +:+ pretty max +:+ ")"
  | MetadataTooLarge len max =>
      "metadata too large: " +:+ pretty len +:+ " entries (max " +:+ pretty max +:+ ")"
  | MemoTooLong len max =>
      "memo too long: " +:+ pretty len +:+ " bytes (max " +:+ pretty max +:+ ")"
  | AttestationLimitReached max =>
      "attestation limit reached: maximum " +:+ pretty max +:+ " attestations per attester-target pair"
  | ContractNotFound msg => "contract not found: " +:+ msg
  | ContractExecutionFailed msg => "contract execution failed: " +:+ msg
  | ContractCodeTooLarge size max =>
      "contract code too large: " +:+ pretty size +:+ " bytes (max " +:+ pretty max +:+ ")"
  | InvalidContractMethod msg => "invalid contract method: " +:+ msg
  | ContractAlreadyExists => "contract already exists at address"
  | StakeError msg => "staking error: " +:+ msg
  | NoClaimableUnbonding => "no claimable unbonding entries"
  | PlatformStakeTooLow need have =>
      "platform agent stake too low: need " +:+ pretty need +:+ ", have " +:+ pretty have
  | PlatformReportAlreadySubmitted => "platform agent already reported this epoch"
  | ActionTypeTooLong len max =>
      "action_type too long: " +:+ pretty len +:+ " bytes (max " +:+ pretty max +:+ ")"
  | TooManyActivityEntries len max =>
      "too many activity entries: " +:+ pretty len +:+ " (max " +:+ pretty max +:+ ")"
  | DuplicateAgentInReport msg => "duplicate agent in platform activity report: " +:+ msg
  | ActionCountTooHigh count max =>
      "action_count " +:+ pretty count +:+ " exceeds maximum allowed per entry (" +:+ pretty max +:+ ")"
  | ContractTransferInsufficientBalance need have =>
      "contract transfer failed: insufficient balance (need " +:+ pretty need +:+ ", have " +:+ pretty have +:+ ")"
  | SelfApproval => "cannot approve self as spender"
  | BurnExceedsSupply burn supply =>
      "burn amount " +:+ pretty burn +:+ " exceeds total supply " +:+ pretty supply
  | MinerAlreadyRegistered => "miner already registered"
  | MinerNotRegistered => "miner not registered"
  | MinerNameTooLong len max =>
      "miner name too long: " +:+ pretty len +:+ " bytes (max " +:+ pretty max +:+ ")"
  | SubnetLimitReached max =>
      "subnet limit reached: maximum " +:+ pretty max +:+ " miners per /24 subnet"
  | HeartbeatTooEarly next_allowed current =>
      "heartbeat too early: next allowed at block " +:+ pretty next_allowed +:+ ", current " +:+ pretty current
  | HeartbeatDeprecated =>
      "MinerHeartbeat transaction deprecated after V3 activation — use P2P checkin"
  | InvalidMinerTier tier => "invalid miner tier: " +:+ pretty tier
  | InvalidIpLength len =>
      "invalid IP address length: " +:+ pretty len +:+ " bytes (expected 4 or 16)"
  | VmConcurrencyLimitReached =>
      "VM concurrency limit reached: maximum concurrent executions exceeded"
  | Unauthorized => "unauthorized: caller is not the contract admin"
  | NoPendingUpgrade => "no pending upgrade: must announce before executing"
  | UpgradeNotReady current ready_at =>
      "upgrade not ready: current block " +:+ pretty current +:+ " < ready_at " +:+ pretty ready_at
  | UpgradeCodeHashMismatch =>
      "upgrade code hash mismatch: submitted code does not match announced hash"
  end%string.

(** ** Safety constants *)

Definition MAX_TX_PAYLOAD_SIZE : N := 524288.
Definition MAX_NAME_LEN : N := 64.
Definition MAX_SYMBOL_LEN : N := 16.
Definition MAX_DESCRIPTION_LEN : N := 1024.
Definition MAX_ENDPOINT_LEN : N := 512.
Definition MAX_METADATA_ENTRIES : N := 32.
Definition MAX_MEMO_LEN : N := 256.
Definition MAX_CATEGORY_LEN : N := 64.

(** ** The state *)

Record WorldState : Type := mkWorldState {
  ws_balances : gmap bytes N;
  ws_token_balances : gmap (bytes * bytes) N;
  ws_nonces : gmap bytes N;
  ws_agents : gmap bytes AgentIdentity;
  ws_tokens : gmap bytes TokenDef;
  ws_reputation : list ReputationAttestation;
  ws_services : gmap (bytes * string) ServiceEntry;
  ws_block_height : N;
  ws_block_timestamp : N;
  ws_contracts : gmap bytes ContractInstance;
  ws_contract_storage : gmap (bytes * bytes) bytes;
  ws_contract_code : gmap bytes bytes;
  ws_stakes : gmap bytes N;
  ws_unbonding_queue : list UnbondingEntry;
  ws_activity_stats : gmap bytes ActivityStats;
  ws_validator_uptime : gmap bytes ValidatorUptime;
  ws_platform_activity : gmap bytes PlatformActivityAgg;
  ws_platform_report_tracker : gmap (bytes * N) bool;
  ws_stake_delegations : gmap bytes bytes;
  ws_stake_commissions : gmap bytes N;
  ws_token_allowances : gmap (bytes * bytes * bytes) N;
  ws_jailed_validators : gmap bytes N;
  ws_validator_missed_slots : gmap bytes N;
  ws_validator_assigned_slots : gmap bytes N;
  ws_processed_evidence : gset bytes;
  ws_miners : gmap bytes MinerInfo;
  ws_miner_heartbeat_tracker : gmap (bytes * N) bool;
  ws_epoch_checkins : gmap bytes bool;
  ws_epoch_reward_bucket : N;
  ws_receipts : gmap bytes TransactionReceipt;
  ws_user_delegations : gmap bytes (gmap bytes N);
}.

Definition eta_WorldState (s : WorldState) : WorldState :=
  mkWorldState
    (ws_balances s) (ws_token_balances s) (ws_nonces s) (ws_agents s) (ws_tokens s) (ws_reputation
    s) (ws_services s) (ws_block_height s) (ws_block_timestamp s) (ws_contracts s)
    (ws_contract_storage s) (ws_contract_code s) (ws_stakes s) (ws_unbonding_queue s)
    (ws_activity_stats s) (ws_validator_uptime s) (ws_platform_activity s)
    (ws_platform_report_tracker s) (ws_stake_delegations s) (ws_stake_commissions s)
    (ws_token_allowances s) (ws_jailed_validators s) (ws_validator_missed_slots s)
    (ws_validator_assigned_slots s) (ws_processed_evidence s) (ws_miners s)
    (ws_miner_heartbeat_tracker s) (ws_epoch_checkins s) (ws_epoch_reward_bucket s) (ws_receipts
    s) (ws_user_delegations s).

#[export] Instance upd_ws_balances : Update ws_balances := ltac:(solve_update eta_WorldState ws_balances).
#[export] Instance upd_ws_token_balances : Update ws_token_balances := ltac:(solve_update eta_WorldState ws_token_balances).
#[export] Instance upd_ws_nonces : Update ws_nonces := ltac:(solve_update eta_WorldState ws_nonces).
#[export] Instance upd_ws_agents : Update ws_agents := ltac:(solve_update eta_WorldState ws_agents).
#[export] Instance upd_ws_tokens : Update ws_tokens := ltac:(solve_update eta_WorldState ws_tokens).
#[export] Instance upd_ws_reputation : Update ws_reputation := ltac:(solve_update eta_WorldState ws_reputation).
#[export] Instance upd_ws_services : Update ws_services := ltac:(solve_update eta_WorldState ws_services).
#[export] Instance upd_ws_block_height : Update ws_block_height := ltac:(solve_update eta_WorldState ws_block_height).
#[export] Instance upd_ws_block_timestamp : Update ws_block_timestamp := ltac:(solve_update eta_WorldState ws_block_timestamp).
#[export] Instance upd_ws_contracts : Update ws_contracts := ltac:(solve_update eta_WorldState ws_contracts).
#[export] Instance upd_ws_contract_storage : Update ws_contract_storage := ltac:(solve_update eta_WorldState ws_contract_storage).
#[export] Instance upd_ws_contract_code : Update ws_contract_code := ltac:(solve_update eta_WorldState ws_contract_code).
#[export] Instance upd_ws_stakes : Update ws_stakes := ltac:(solve_update eta_WorldState ws_stakes).
#[export] Instance upd_ws_unbonding_queue : Update ws_unbonding_queue := ltac:(solve_update eta_WorldState ws_unbonding_queue).
#[export] Instance upd_ws_activity_stats : Update ws_activity_stats := ltac:(solve_update eta_WorldState ws_activity_stats).
#[export] Instance upd_ws_validator_uptime : Update ws_validator_uptime := ltac:(solve_update eta_WorldState ws_validator_uptime).
#[export] Instance upd_ws_platform_activity : Update ws_platform_activity := ltac:(solve_update eta_WorldState ws_platform_activity).
#[export] Instance upd_ws_platform_report_tracker : Update ws_platform_report_tracker := ltac:(solve_update eta_WorldState ws_platform_report_tracker).
#[export] Instance upd_ws_stake_delegations : Update ws_stake_delegations := ltac:(solve_update eta_WorldState ws_stake_delegations).
#[export] Instance upd_ws_stake_commissions : Update ws_stake_commissions := ltac:(solve_update eta_WorldState ws_stake_commissions).
#[export] Instance upd_ws_token_allowances : Update ws_token_allowances := ltac:(solve_update eta_WorldState ws_token_allowances).
#[export] Instance upd_ws_jailed_validators : Update ws_jailed_validators := ltac:(solve_update eta_WorldState ws_jailed_validators).
#[export] Instance upd_ws_validator_missed_slots : Update ws_validator_missed_slots := ltac:(solve_update eta_WorldState ws_validator_missed_slots).
#[export] Instance upd_ws_validator_assigned_slots : Update ws_validator_assigned_slots := ltac:(solve_update eta_WorldState ws_validator_assigned_slots).
#[export] Instance upd_ws_processed_evidence : Update ws_processed_evidence := ltac:(solve_update eta_WorldState ws_processed_evidence).
#[export] Instance upd_ws_miners : Update ws_miners := ltac:(solve_update eta_WorldState ws_miners).
#[export] Instance upd_ws_miner_heartbeat_tracker : Update ws_miner_heartbeat_tracker := ltac:(solve_update eta_WorldState ws_miner_heartbeat_tracker).
#[export] Instance upd_ws_epoch_checkins : Update ws_epoch_checkins := ltac:(solve_update eta_WorldState ws_epoch_checkins).
#[export] Instance upd_ws_epoch_reward_bucket : Update ws_epoch_reward_bucket := ltac:(solve_update eta_WorldState ws_epoch_reward_bucket).
#[export] Instance upd_ws_receipts : Update ws_receipts := ltac:(solve_update eta_WorldState ws_receipts).
#[export] Instance upd_ws_user_delegations : Update ws_user_delegations := ltac:(solve_update eta_WorldState ws_user_delegations).

(** [WorldState::default()]. *)
Definition default_WorldState : WorldState :=
  {| ws_balances := ∅; ws_token_balances := ∅; ws_nonces := ∅; ws_agents := ∅; ws_tokens := ∅;
     ws_reputation := []; ws_services := ∅; ws_block_height := 0; ws_block_timestamp := 0;
     ws_contracts := ∅; ws_contract_storage := ∅; ws_contract_code := ∅; ws_stakes := ∅;
     ws_unbonding_queue := []; ws_activity_stats := ∅; ws_validator_uptime := ∅;
     ws_platform_activity := ∅; ws_platform_report_tracker := ∅; ws_stake_delegations := ∅;
     ws_stake_commissions := ∅; ws_token_allowances := ∅; ws_jailed_validators := ∅;
     ws_validator_missed_slots := ∅; ws_validator_assigned_slots := ∅; ws_processed_evidence := ∅;
     ws_miners := ∅; ws_miner_heartbeat_tracker := ∅; ws_epoch_checkins := ∅;
     ws_epoch_reward_bucket := 0; ws_receipts := ∅; ws_user_delegations := ∅ |}.

(** The layout between the V2 and V3 activations. *)
Record WorldStateV2 : Type := mkWorldStateV2 {
  w2_balances : gmap bytes N;
  w2_token_balances : gmap (bytes * bytes) N;
  w2_nonces : gmap bytes N;
  w2_agents : gmap bytes AgentIdentity;
  w2_tokens : gmap bytes TokenDef;
  w2_reputation : list ReputationAttestation;
  w2_services : gmap (bytes * string) ServiceEntry;
  w2_block_height : N;
  w2_block_timestamp : N;
  w2_contracts : gmap bytes ContractInstance;
  w2_contract_storage : gmap (bytes * bytes) bytes;
  w2_contract_code : gmap bytes bytes;
  w2_stakes : gmap bytes N;
  w2_unbonding_queue : list UnbondingEntry;
  w2_activity_stats : gmap bytes ActivityStats;
  w2_validator_uptime : gmap bytes ValidatorUptime;
  w2_platform_activity : gmap bytes PlatformActivityAgg;
  w2_platform_report_tracker : gmap (bytes * N) bool;
  w2_stake_delegations : gmap bytes bytes;
  w2_stake_commissions : gmap bytes N;
  w2_token_allowances : gmap (bytes * bytes * bytes) N;
  w2_jailed_validators : gmap bytes N;
  w2_validator_missed_slots : gmap bytes N;
  w2_validator_assigned_slots : gmap bytes N;
  w2_processed_evidence : gset bytes;
  w2_miners : gmap bytes MinerInfoV2;
  w2_miner_heartbeat_tracker : gmap (bytes * N) bool;
  w2_epoch_reward_bucket : N;
}.

(** The layout before the V2 activation. *)
Record WorldStateV1 : Type := mkWorldStateV1 {
  w1_balances : gmap bytes N;
  w1_token_balances : gmap (bytes * bytes) N;
  w1_nonces : gmap bytes N;
  w1_agents : gmap bytes AgentIdentity;
  w1_tokens : gmap bytes TokenDef;
  w1_reputation : list ReputationAttestation;
  w1_services : gmap (bytes * string) ServiceEntry;
  w1_block_height : N;
  w1_block_timestamp : N;
  w1_contracts : gmap bytes ContractInstance;
  w1_contract_storage : gmap (bytes * bytes) bytes;
  w1_contract_code : gmap bytes bytes;
  w1_stakes : gmap bytes N;
  w1_unbonding_queue : list UnbondingEntry;
  w1_activity_stats : gmap bytes ActivityStats;
  w1_validator_uptime : gmap bytes ValidatorUptime;
  w1_platform_activity : gmap bytes PlatformActivityAgg;
  w1_platform_report_tracker : gmap (bytes * N) bool;
  w1_stake_delegations : gmap bytes bytes;
  w1_stake_commissions : gmap bytes N;
  w1_token_allowances : gmap (bytes * bytes * bytes) N;
  w1_jailed_validators : gmap bytes N;
  w1_validator_missed_slots : gmap bytes N;
  w1_validator_assigned_slots : gmap bytes N;
  w1_processed_evidence : gset bytes;
  w1_miners : gmap bytes MinerInfoV1;
  w1_miner_heartbeat_tracker : gmap (bytes * N) bool;
}.

(** [WorldState::from_v2]. *)
Definition from_v2 (v : WorldStateV2) : WorldState :=
  {| ws_balances := w2_balances v;
     ws_token_balances := w2_token_balances v;
     ws_nonces := w2_nonces v;
     ws_agents := w2_agents v;
     ws_tokens := w2_tokens v;
     ws_reputation := w2_reputation v;
     ws_services := w2_services v;
     ws_block_height := w2_block_height v;
     ws_block_timestamp := w2_block_timestamp v;
     ws_contracts := w2_contracts v;
     ws_contract_storage := w2_contract_storage v;
     ws_contract_code := w2_contract_code v;
     ws_stakes := w2_stakes v;
     ws_unbonding_queue := w2_unbonding_queue v;
     ws_activity_stats := w2_activity_stats v;
     ws_validator_uptime := w2_validator_uptime v;
     ws_platform_activity := w2_platform_activity v;
     ws_platform_report_tracker := w2_platform_report_tracker v;
     ws_stake_delegations := w2_stake_delegations v;
     ws_stake_commissions := w2_stake_commissions v;
     ws_token_allowances := w2_token_allowances v;
     ws_jailed_validators := w2_jailed_validators v;
     ws_validator_missed_slots := w2_validator_missed_slots v;
     ws_validator_assigned_slots := w2_validator_assigned_slots v;
     ws_processed_evidence := w2_processed_evidence v;
     ws_miners := into_v3 <$> w2_miners v;
     ws_miner_heartbeat_tracker := w2_miner_heartbeat_tracker v;
     ws_epoch_checkins := ∅;
     ws_epoch_reward_bucket := w2_epoch_reward_bucket v;
     ws_receipts := ∅;
     ws_user_delegations := ∅ |}.

(** [WorldState::from_v1]. *)
Definition from_v1 (v : WorldStateV1) : WorldState :=
  {| ws_balances := w1_balances v;
     ws_token_balances := w1_token_balances v;
     ws_nonces := w1_nonces v;
     ws_agents := w1_agents v;
     ws_tokens := w1_tokens v;
     ws_reputation := w1_reputation v;
     ws_services := w1_services v;
     ws_block_height := w1_block_height v;
     ws_block_timestamp := w1_block_timestamp v;
     ws_contracts := w1_contracts v;
     ws_contract_storage := w1_contract_storage v;
     ws_contract_code := w1_contract_code v;
     ws_stakes := w1_stakes v;
     ws_unbonding_queue := w1_unbonding_queue v;
     ws_activity_stats := w1_activity_stats v;
     ws_validator_uptime := w1_validator_uptime v;
     ws_platform_activity := w1_platform_activity v;
     ws_platform_report_tracker := w1_platform_report_tracker v;
     ws_stake_delegations := w1_stake_delegations v;
     ws_stake_commissions := w1_stake_commissions v;
     ws_token_allowances := w1_token_allowances v;
     ws_jailed_validators := w1_jailed_validators v;
     ws_validator_missed_slots := w1_validator_missed_slots v;
     ws_validator_assigned_slots := w1_validator_assigned_slots v;
     ws_processed_evidence := w1_processed_evidence v;
     ws_miners := MinerInfo_from_v1 <$> w1_miners v;
     ws_miner_heartbeat_tracker := w1_miner_heartbeat_tracker v;
     ws_epoch_checkins := ∅;
     ws_epoch_reward_bucket := 0;
     ws_receipts := ∅;
     ws_user_delegations := ∅ |}.

(** [WorldState::from_snapshot_bytes]: the current layout, then V2, then V1. *)
Definition from_snapshot_bytes
    `{!Borsh WorldState, !Borsh WorldStateV2, !Borsh WorldStateV1} (bs : bytes)
    : result WorldState string :=
  match try_from_slice (A:=WorldState) bs with
  | Ok state => Ok state
  | Err _ =>
      match try_from_slice (A:=WorldStateV2) bs with
      | Ok v2 => Ok (from_v2 v2)
      | Err _ =>
          match try_from_slice (A:=WorldStateV1) bs with
          | Ok v1 => Ok (from_v1 v1)
          | Err e => Err e
          end
      end
  end.

(** ** Reading the state *)

Definition get_balance (s : WorldState) (addr : bytes) : N := default 0 (ws_balances s !! addr).
Definition get_token_balance (s : WorldState) (addr token_id : bytes) : N :=
  default 0 (ws_token_balances s !! (addr, token_id)).
Definition get_nonce (s : WorldState) (addr : bytes) : N := default 0 (ws_nonces s !! addr).
Definition get_token_allowance (s : WorldState) (owner spender token_id : bytes) : N :=
  default 0 (ws_token_allowances s !! (owner, spender, token_id)).

(** [HashMap::contains_key]. *)
Definition contains_key {K V} `{Countable K} (m : gmap K V) (k : K) : bool :=
  if m !! k is Some _ then true else false.

(** ** The native supply *)

(** [WorldState::total_supply], with the wrapping sums of the release build. *)
Definition total_supply (s : WorldState) : N :=
  let total_balances := wsum TWO128 snd (map_to_list (ws_balances s)) in
  let total_stakes := wsum TWO128 snd (map_to_list (ws_stakes s)) in
  let total_unbonding := wsum TWO128 ub_amount (ws_unbonding_queue s) in
  let pending_mining :=
    u128_add (ws_epoch_reward_bucket s)
      (wsum TWO128 (fun p => mi_pending_rewards p.2) (map_to_list (ws_miners s))) in
  u128_add (u128_add (u128_add total_balances total_stakes) total_unbonding) pending_mining.

(** The same sum without a machine width: what the supply really is. *)
Definition supply (s : WorldState) : N :=
  map_total (ws_balances s) + map_total (ws_stakes s) + lsum ub_amount (ws_unbonding_queue s)
    + (ws_epoch_reward_bucket s + msum mi_pending_rewards (ws_miners s)).

(** ** The state root *)

(** The borsh encodings that the state root hashes. *)
Class StateCodec : Type := {
  codec_agent :: Borsh AgentIdentity;
  codec_token :: Borsh TokenDef;
  codec_reputation :: Borsh ReputationAttestation;
  codec_service :: Borsh ServiceEntry;
  codec_activity :: Borsh ActivityStats;
  codec_uptime :: Borsh ValidatorUptime;
  codec_platform :: Borsh PlatformActivityAgg;
  codec_miner :: Borsh MinerInfo;
  codec_prims :: BorshPrims;
}.

Section state_root.
Context `{HB : Blake3} `{SC : StateCodec}.
Implicit Types (s : WorldState).

(** One leaf per entry of a map: the hash of a tagged byte string. *)
Definition map_entries {K V} `{Countable K} (tag : bytes) (f : K -> V -> bytes) (m : gmap K V)
    : list bytes :=
  (fun p => tag ++ f p.1 p.2) <$> map_to_list m.

Definition account_entries s : list bytes :=
  map_entries (lit "bal:") (fun addr bal => addr ++ le128 bal) (ws_balances s)
  ++ map_entries (lit "tbal:") (fun k bal => k.1 ++ k.2 ++ le128 bal) (ws_token_balances s)
  ++ map_entries (lit "nonce:") (fun addr nonce => addr ++ le64 nonce) (ws_nonces s)
  ++ map_entries (lit "agent:") (fun addr agent => addr ++ to_vec agent) (ws_agents s)
  ++ map_entries (lit "token:") (fun id token => id ++ to_vec token) (ws_tokens s).

(** Only the number of attestations and the last one are committed. *)
Definition reputation_entry s : bytes :=
  lit "rep_count:" ++ le64 (N.of_nat (length (ws_reputation s)))
    ++ (if last (ws_reputation s) is Some r then to_vec r else []).

Definition contract_entries s : list bytes :=
  map_entries (lit "svc:") (fun k svc => k.1 ++ as_bytes k.2 ++ to_vec svc) (ws_services s)
  ++ map_entries (lit "contract:")
       (fun addr i => addr ++ ci_code_hash i ++ ci_creator i ++ le64 (ci_deployed_at i))
       (ws_contracts s)
  ++ map_entries (lit "cstore:") (fun k value => k.1 ++ k.2 ++ value) (ws_contract_storage s)
  ++ map_entries (lit "ccode:") (fun addr code => addr ++ blake3 code) (ws_contract_code s).

Definition stake_entries s : list bytes :=
  map_entries (lit "stake:") (fun addr amount => addr ++ le128 amount) (ws_stakes s)
  ++ ((fun e => lit "unbond:" ++ ub_address e ++ le128 (ub_amount e) ++ le64 (ub_release_height e))
        <$> ws_unbonding_queue s).

Definition activity_entries s : list bytes :=
  map_entries (lit "activity:") (fun addr stats => addr ++ to_vec stats) (ws_activity_stats s)
  ++ map_entries (lit "uptime:") (fun addr u => addr ++ to_vec u) (ws_validator_uptime s)
  ++ map_entries (lit "platact:") (fun addr agg => addr ++ to_vec agg) (ws_platform_activity s)
  ++ map_entries (lit "plattrack:") (fun k _ => k.1 ++ le64 k.2) (ws_platform_report_tracker s).

Definition delegation_entries s : list bytes :=
  map_entries (lit "deleg:") (fun validator owner => validator ++ owner) (ws_stake_delegations s)
  ++ map_entries (lit "commission:") (fun validator bps => validator ++ le16 bps)
       (ws_stake_commissions s)
  ++ map_entries (lit "tallowance:") (fun k amount => k.1.1 ++ k.1.2 ++ k.2 ++ le128 amount)
       (ws_token_allowances s).

Definition slashing_entries s : list bytes :=
  map_entries (lit "jailed:") (fun addr until => addr ++ le64 until) (ws_jailed_validators s)
  ++ map_entries (lit "missed:") (fun addr n => addr ++ le64 n) (ws_validator_missed_slots s)
  ++ map_entries (lit "assigned:") (fun addr n => addr ++ le64 n) (ws_validator_assigned_slots s)
  ++ ((fun h => lit "evidence:" ++ h) <$> elements (ws_processed_evidence s)).

(** The miners' encoding follows the activation heights, the heartbeat tracker
    is committed before V3 only, the reward bucket from V2 on. *)
Definition miner_entries s : list bytes :=
  let v2_active := HEARTBEAT_V2_HEIGHT <=? ws_block_height s in
  let v3_active := CHECKIN_V3_HEIGHT <=? ws_block_height s in
  map_entries (lit "miner:")
    (fun addr m => addr ++ (if v3_active then to_vec m
                            else if v2_active then borsh_v2 m else borsh_v1 m)) (ws_miners s)
  ++ (if v3_active then []
      else map_entries (lit "minerbeat:") (fun k _ => k.1 ++ le64 k.2)
             (ws_miner_heartbeat_tracker s))
  ++ (if v2_active && (0 <? ws_epoch_reward_bucket s)
      then [lit "epochbucket:" ++ le128 (ws_epoch_reward_bucket s)] else []).

Definition state_entries s : list bytes :=
  account_entries s ++ [reputation_entry s] ++ contract_entries s ++ stake_entries s
    ++ activity_entries s ++ delegation_entries s ++ slashing_entries s ++ miner_entries s.

(** [WorldState::state_root].  The leaves are sorted before the tree is built,
    so the order in which the maps are walked does not matter. *)
Definition state_root s : bytes := merkle_root (sort_by bytes_leb (blake3 <$> state_entries s)).
End state_root.

(** ** Facts *)
Lemma contains_key_true {K V} `{Countable K} (m : gmap K V) k :
  contains_key m k = true <-> is_Some (m !! k).
Proof. unfold contains_key. destruct (m !! k); split; intros Hk; try done; by destruct Hk. Qed.

Lemma contains_key_false {K V} `{Countable K} (m : gmap K V) k :
  contains_key m k = false <-> m !! k = None.
Proof. unfold contains_key. by destruct (m !! k). Qed.

Lemma get_balance_amount s a : get_balance s a = amount_of (ws_balances s) a.
Proof. unfold get_balance. by rewrite amount_of_default. Qed.

(** The audited supply is the real one as long as the real one fits. *)
Lemma total_supply_exact s : supply s < TWO128 -> total_supply s = supply s.
Proof.
  unfold supply, total_supply. intros Hs.
  change (map_total (ws_balances s)) with (lsum snd (map_to_list (ws_balances s))) in *.
  change (map_total (ws_stakes s)) with (lsum snd (map_to_list (ws_stakes s))) in *.
  unfold msum in *.
  rewrite !wsum_exact by lia. revert Hs.
  generalize (lsum snd (map_to_list (ws_balances s))) (lsum snd (map_to_list (ws_stakes s)))
    (lsum ub_amount (ws_unbonding_queue s)) (ws_epoch_reward_bucket s).
  intros b k u e. generalize (lsum (fun p : bytes * MinerInfo => mi_pending_rewards p.2)
    (map_to_list (ws_miners s))). intros m Hs.
  rewrite (wadd_small _ b k), (wadd_small _ e m) by lia.
  rewrite (wadd_small _ _ u) by lia. apply wadd_small. lia.
Qed.

(** In general they agree modulo the machine width. *)
Lemma wsum_mod {A} M (f : A -> N) l : M <> 0 -> wsum M f l = lsum f l mod M.
Proof.
  intros HM. unfold wsum.
  assert (forall acc, acc < M ->
    foldl (fun acc x => wadd M acc (f x)) acc l = (acc + lsum f l) mod M) as Hg.
  { induction l as [|x l IH]; intros acc Hacc; simpl.
    - by rewrite N.add_0_r, N.mod_small.
    - rewrite IH by (apply wadd_lt; lia). unfold wadd. rewrite N.Div0.add_mod_idemp_l.
      f_equal. lia. }
  rewrite Hg by lia. done.
Qed.
