(* ===== verification/Score.v ===== *)
(** * Agent scores ([claw-node/crates/state/src/score.rs])

    The five sub-scores of an agent, their weighted mean, its decay with the
    agent's age, and the view of the chain that a contract gets
    ([impl ChainState for WorldState]). *)

From S2P Require Import Prelude Interfaces Types Vm World.

Record AgentScoreDetail : Type := mkAgentScoreDetail {
  sd_total : N;
  sd_activity : N;
  sd_uptime : N;
  sd_block_production : N;
  sd_economic : N;
  sd_platform : N;
  sd_decay_factor : N;
}.

Section score.
Implicit Types (state : WorldState) (address : bytes).

Definition weighted_activity (s : ActivityStats) : N :=
  u64_add (u64_add (u64_add (u64_add (as_tx_count s) (u64_mul (as_contract_deploys s) 10))
    (u64_mul (as_contract_calls s) 3)) (u64_mul (as_tokens_created s) 5))
    (u64_mul (as_services_registered s) 5).

(** [m.values().map(f).max().unwrap_or(1).max(1)]. *)
Definition max_value {K V} `{Countable K} (f : V -> N) (m : gmap K V) : N :=
  N.max (max_list (f <$> (map_to_list m).*2)) 1.

Definition compute_activity_score state address : N :=
  match ws_activity_stats state !! address with
  | None => 0
  | Some stats =>
      u64_mul (weighted_activity stats) 10000
        / max_value weighted_activity (ws_activity_stats state)
  end.

Definition compute_uptime_score state address : N :=
  match ws_validator_uptime state !! address with
  | None => 0
  | Some uptime =>
      if vu_expected_blocks uptime =? 0 then 0
      else N.min (u64_mul (vu_signed_blocks uptime) 10000 / vu_expected_blocks uptime) 10000
  end.

Definition compute_block_production_score state address : N :=
  match ws_validator_uptime state !! address with
  | None => 0
  | Some uptime =>
      if vu_expected_blocks uptime =? 0 then 0
      else N.min (u64_mul (vu_produced_blocks uptime) 10000 / vu_expected_blocks uptime) 10000
  end.

(** [(x / 1_000_000_000) as u64]. *)
Definition whole_units (x : N) : N := (x / 1000000000) mod TWO64.

Definition economic_value state address : N :=
  let stake := default 0 (ws_stakes state !! address) in
  let balance := default 0 (ws_balances state !! address) in
  let gas := from_option as_gas_consumed 0 (ws_activity_stats state !! address) in
  u64_add (u64_add (u64_mul (whole_units stake) 3) (whole_units balance))
    (u64_mul (gas / 1000000) 2).

(** The economic value is measured against the stakers only. *)
Definition compute_economic_score state address : N :=
  let max_value := N.max (max_list (economic_value state <$> (map_to_list (ws_stakes state)).*1)) 1 in
  u64_mul (economic_value state address) 10000 / max_value.

Definition platform_value (a : PlatformActivityAgg) : N :=
  u64_add (pa_total_actions a) (u64_mul (pa_platform_count a) 100).

Definition compute_platform_score state address : N :=
  match ws_platform_activity state !! address with
  | None => 0
  | Some agg =>
      u64_mul (platform_value agg) 10000 / max_value platform_value (ws_platform_activity state)
  end.

Definition decay_at (age_epochs : N) : N :=
  if age_epochs =? 0 then 10000
  else
    let half_lives := age_epochs / 2880 in
    let remainder := age_epochs mod 2880 in
    let base := if 10 <=? half_lives then 10 else N.shiftr 10000 half_lives in
    let interpolated := base * (2880 * 2 - remainder) / (2880 * 2) in
    N.max interpolated 1.

Definition compute_decay_factor state address : N :=
  match ws_agents state !! address with
  | None => 10000
  | Some agent =>
      let current_epoch := ws_block_height state / 100 in
      let registered_epoch := ai_registered_at agent / 100 in
      decay_at (sat_sub current_epoch registered_epoch)
  end.

(** The products and sums below stay far under [2^64]: see [agent_score_bounds]. *)
Definition compute_agent_score state address : AgentScoreDetail :=
  let decay := compute_decay_factor state address in
  let activity := N.min (compute_activity_score state address) 10000 in
  let uptime := N.min (compute_uptime_score state address) 10000 in
  let block_prod := N.min (compute_block_production_score state address) 10000 in
  let economic := N.min (compute_economic_score state address) 10000 in
  let platform := N.min (compute_platform_score state address) 10000 in
  let is_validator := 10000000000000 <=? default 0 (ws_stakes state !! address) in
  let raw_total :=
    if is_validator
    then (activity * 30 + uptime * 25 + block_prod * 20 + economic * 15 + platform * 10) / 100
    else (activity * 55 + economic * 27 + platform * 18) / 100 in
  let decayed := raw_total * decay / 10000 in
  let total := N.min decayed 10000 in
  mkAgentScoreDetail total activity uptime block_prod economic platform decay.

(** [r.score as u64] of an [i16]: sign extension. *)
Definition i16_as_u64 (z : Z) : N := Z.to_N (z mod 18446744073709551616)%Z.

(** [<WorldState as ChainState>::get_agent_score]. *)
Definition get_agent_score state address : N :=
  let has_activity_data :=
    contains_key (ws_activity_stats state) address
    || contains_key (ws_validator_uptime state) address
    || contains_key (ws_platform_activity state) address in
  if has_activity_data then N.min (sd_total (compute_agent_score state address) / 100) 100
  else
    N.min (wsum TWO64 (fun r => i16_as_u64 (ra_score r))
             (filter (fun r => ra_to r = address) (ws_reputation state))) 100.

Definition world_chain_state state : ChainState := {|
  cs_get_balance address := default 0 (ws_balances state !! address);
  cs_get_agent_score := get_agent_score state;
  cs_get_agent_registered address := contains_key (ws_agents state) address;
  cs_get_contract_storage contract key := ws_contract_storage state !! (contract, key);
  cs_get_contract_code contract := ws_contract_code state !! contract;
|}.
End score.

(** ** Bounds *)
Lemma div_mul_le a b c : a <= b -> 0 < b -> a * c / b <= c.
Proof. intros. apply N.Div0.div_le_upper_bound. nia. Qed.

(** The decay factor stays between 1 and 10000 basis points. *)
Lemma decay_at_bounds age : 1 <= decay_at age <= 10000.
Proof.
  unfold decay_at. destruct (N.eqb_spec age 0); [lia |]. split; [lia |].
  apply N.max_lub; [| lia]. apply N.Div0.div_le_upper_bound.
  set (base := if 10 <=? age / 2880 then 10 else N.shiftr 10000 (age / 2880)).
  assert (base <= 10000) as Hb.
  { subst base. destruct (10 <=? age / 2880); [lia |]. rewrite N.shiftr_div_pow2.
    etrans; [apply N.Div0.div_le_upper_bound with (q := 10000) |]; [| lia].
    assert (2 ^ (age / 2880) <> 0) by (apply N.pow_nonzero; lia). nia. }
  generalize dependent base. intros base Hb.
  pose proof (N.le_sub_l (2880 * 2) (age mod 2880)). nia.
Qed.

Lemma compute_decay_factor_bounds state a : 1 <= compute_decay_factor state a <= 10000.
Proof.
  unfold compute_decay_factor. destruct (_ !! a); [apply decay_at_bounds | lia].
Qed.

(** For every state, however its counters have wrapped, the composite
    score and each sub-score of any address are between 0 and 10000, the
    weighted mean the code computes in [u64] is that of the unbounded
    integers, and the score a contract sees is between 0 and 100. *)
Theorem agent_score_bounds state a :
  let d := compute_agent_score state a in
  sd_total d <= 10000 /\ sd_activity d <= 10000 /\ sd_uptime d <= 10000
  /\ sd_block_production d <= 10000 /\ sd_economic d <= 10000 /\ sd_platform d <= 10000
  /\ 1 <= sd_decay_factor d <= 10000
  /\ sd_activity d * 30 + sd_uptime d * 25 + sd_block_production d * 20 + sd_economic d * 15
     + sd_platform d * 10 < TWO64
  /\ cs_get_agent_score (world_chain_state state) a <= 100.
Proof.
  pose proof (compute_decay_factor_bounds state a). unfold compute_agent_score.
  cbn [sd_total sd_activity sd_uptime sd_block_production sd_economic sd_platform sd_decay_factor].
  split_and!; try lia. cbn [world_chain_state cs_get_agent_score]. unfold get_agent_score.
  destruct (_ || _); lia.
Qed.

(** ** The shape of the decay *)
Lemma decay_steps_down :
  all_from (fun age => decay_at (N.succ age) <=? decay_at age) (N.to_nat 28799) 0 = true.
Proof. vm_compute. reflexivity. Qed.

Lemma decay_step age : age < 28799 -> decay_at (N.succ age) <= decay_at age.
Proof.
  intros Ha. apply N.leb_le.
  refine (all_from_spec _ _ _ age decay_steps_down _). lia.
Qed.

(** During the first ten half-lives (28800 epochs) the decay factor never
    rises and it is exactly halved, rounded down, at each half-life; afterwards
    it is back at 10 at every multiple of 2880 epochs, so an agent's factor goes
    up from 9 to 10 when it reaches ten half-lives. *)
Theorem decay_shape a b :
  a <= b -> b < 28800 ->
  decay_at b <= decay_at a
  /\ (forall k, k < 10 -> decay_at (k * 2880) = 10000 / 2 ^ k)
  /\ (forall k, 10 <= k -> decay_at (k * 2880) = 10)
  /\ decay_at 28799 = 9.
Proof.
  intros Hab Hb. split_and!.
  - clear -Hab Hb. replace b with (a + (b - a)) in * by lia. generalize dependent (b - a).
    intros d _. induction d as [|d IH] using N.peano_ind; intros Hd; [by rewrite N.add_0_r |].
    rewrite N.add_succ_r in *. etrans; [apply decay_step; lia | apply IH; lia].
  - intros k Hk.
    assert (k ∈ seqN 0 10) as Hin by (apply elem_of_seqN; lia).
    assert (forallb (fun k => decay_at (k * 2880) =? 10000 / 2 ^ k) (seqN 0 10) = true) as Hall
      by (vm_compute; reflexivity).
    rewrite forallb_forall in Hall. apply N.eqb_eq, Hall, list_elem_of_In, Hin.
  - intros k Hk. unfold decay_at. destruct (N.eqb_spec (k * 2880) 0); [lia |].
    rewrite N.div_mul by lia. rewrite N.Div0.mod_mul.
    destruct (N.leb_spec 10 k); [done | lia].
  - done.
Qed.

Lemma decay_shape_witness :
  decay_at 200 <= decay_at 100 /\ (forall k, k < 10 -> decay_at (k * 2880) = 10000 / 2 ^ k)
  /\ (forall k, 10 <= k -> decay_at (k * 2880) = 10) /\ decay_at 28799 = 9.
Proof. apply (decay_shape 100 200); lia. Defined.

(** An address without activity data whose only attestation is negative is
    given the highest legacy score: the [i16] is widened with its sign and then
    capped at 100. *)
Theorem negative_attestation_scores_high state a r :
  ws_activity_stats state !! a = None -> ws_validator_uptime state !! a = None ->
  ws_platform_activity state !! a = None ->
  filter (fun r => ra_to r = a) (ws_reputation state) = [r] ->
  (-100 <= ra_score r < 0)%Z -> get_agent_score state a = 100.
Proof.
  intros H1 H2 H3 Hr Hs. unfold get_agent_score, contains_key. rewrite H1, H2, H3. simpl.
  rewrite Hr. unfold wsum. simpl. unfold i16_as_u64.
  rewrite <- (Z_mod_plus_full _ 1), Z.mod_small by lia.
  rewrite wadd_small; lia.
Qed.

Definition toy_attested : WorldState :=
  default_WorldState <| ws_reputation :=
    [mkReputationAttestation [x01] [x02] "trust" (-80) "arena" "scam" 7] |>.

Lemma negative_attestation_scores_high_witness : get_agent_score toy_attested [x02] = 100.
Proof.
  apply (negative_attestation_scores_high _ _
    (mkReputationAttestation [x01] [x02] "trust" (-80) "arena" "scam" 7)); done.
Defined.
