(* ===== verification/ConcreteState.v ===== *)
(** * Concrete encodings of the state records

    Stand-ins for the borsh encodings of the state records, used only to
    evaluate the development at concrete inputs. *)

From S2P Require Import Prelude Interfaces Types Concrete Vm World.

Definition toy_borsh (A : Type) : Borsh A := {|
  to_vec _ := [];
  try_from_slice _ := Err "toy"%string;
|}.

Definition toy_prims : BorshPrims := {|
  ser_array b := b;
  ser_tier _ := [x01];
  ser_string s := le_bytes 4 (slen s) ++ as_bytes s;
  ser_vec_u8 b := le_bytes 4 (blen b) ++ b;
  ser_bool b := [if b then x01 else x00];
  ser_u16 := le16;
  ser_u64 := le64;
  ser_u128 := le128;
|}.

Definition toy_codec : StateCodec := {|
  codec_agent := toy_borsh _;
  codec_token := toy_borsh _;
  codec_reputation := toy_borsh _;
  codec_service := toy_borsh _;
  codec_activity := toy_borsh _;
  codec_uptime := toy_borsh _;
  codec_platform := toy_borsh _;
  codec_miner := toy_borsh _;
  codec_prims := toy_prims;
|}.
