(* ===== verification/StateRoot.v ===== *)
(** * What the state root commits to

    The tags of the entries that [state_root] hashes are prefix free, so equal
    roots over equally many leaves mean equal account, stake and nonce maps,
    or an exhibited hash collision.  The leaf count has to be part of the
    hypothesis: [state_root_duplicate] is a state and a different one with the
    same root. *)

From S2P Require Import Prelude Interfaces Types Concrete Crypto Vm World ConcreteState.

Lemma elem_of_map_entries {K V} `{Countable K} tag (f : K -> V -> bytes) m e :
  e ∈ map_entries tag f m <-> exists k v, m !! k = Some v /\ e = tag ++ f k v.
Proof.
  unfold map_entries. rewrite list_elem_of_fmap. split.
  - intros ([k v] & -> & Hk%elem_of_map_to_list). eauto.
  - intros (k & v & Hk & ->). exists (k, v). by rewrite elem_of_map_to_list.
Qed.

(** Maps are equal as soon as their entries are the same and determine them. *)
Lemma map_entries_inj {K V} `{Countable K} tag (f : K -> V -> bytes) (m1 m2 : gmap K V) :
  (forall k1 v1 k2 v2, m1 !! k1 = Some v1 -> m2 !! k2 = Some v2 -> f k1 v1 = f k2 v2 ->
     k1 = k2 /\ v1 = v2) ->
  map_entries tag f m1 ⊆ map_entries tag f m2 -> map_entries tag f m2 ⊆ map_entries tag f m1 ->
  m1 = m2.
Proof.
  intros Hinj H12 H21. apply map_eq. intros k. apply option_eq. intros v. split; intros Hk.
  - assert (tag ++ f k v ∈ map_entries tag f m2) as He by (apply H12, elem_of_map_entries; eauto).
    apply elem_of_map_entries in He as (k2 & v2 & Hk2 & He). apply app_inv_head in He.
    by destruct (Hinj _ _ _ _ Hk Hk2 He) as [-> ->].
  - assert (tag ++ f k v ∈ map_entries tag f m1) as He by (apply H21, elem_of_map_entries; eauto).
    apply elem_of_map_entries in He as (k2 & v2 & Hk2 & He). apply app_inv_head in He.
    by destruct (Hinj _ _ _ _ Hk2 Hk (eq_sym He)) as [-> ->].
Qed.

Section binding.
Context `{HB : Blake3} `{!Blake3Laws} `{SC : StateCodec}.
Implicit Types (s : WorldState).

(** Byte strings of the widths the code gives them. *)
Definition addr32 (a : bytes) : Prop := length a = 32%nat.

Record widths s : Prop := {
  wd_balances : map_Forall (fun a v => addr32 a /\ v < TWO128) (ws_balances s);
  wd_token_balances :
    map_Forall (fun k v => addr32 k.1 /\ addr32 k.2 /\ v < TWO128) (ws_token_balances s);
  wd_nonces : map_Forall (fun a v => addr32 a /\ v < TWO64) (ws_nonces s);
  wd_stakes : map_Forall (fun a v => addr32 a /\ v < TWO128) (ws_stakes s);
}.

(** The entries of [s] that carry [tag]. *)
Definition tagged (tag : bytes) (l : list bytes) : list bytes :=
  filter (fun e => take (length tag) e = tag) l.

Lemma hash_subset (l1 l2 : list bytes) :
  blake3 <$> l1 ⊆ blake3 <$> l2 -> l1 ⊆ l2 \/ collision.
Proof.
  intros Hsub. destruct (decide (Forall (.∈ l2) l1)) as [HF|HF].
  - left. intros x Hx. rewrite Forall_forall in HF. auto.
  - right. apply not_Forall_Exists in HF; [| solve_decision].
    apply Exists_exists in HF as (x & Hx & Hnin).
    assert (blake3 x ∈ blake3 <$> l2) as Hh by (apply Hsub, list_elem_of_fmap_2, Hx).
    apply list_elem_of_fmap in Hh as (y & Hxy & Hy). exists x, y. split; [by intros -> | done].
Qed.

Lemma state_root_entries s1 s2 :
  length (state_entries s1) = length (state_entries s2) -> state_root s1 = state_root s2 ->
  (state_entries s1 ⊆ state_entries s2 /\ state_entries s2 ⊆ state_entries s1) \/ collision.
Proof.
  intros Hlen Hroot. unfold state_root in Hroot.
  apply merkle_root_binds in Hroot as [Heq |]; [| by right |].
  - assert (blake3 <$> state_entries s1 ≡ₚ blake3 <$> state_entries s2) as Hp.
    { rewrite <- (sort_by_perm bytes_leb (blake3 <$> state_entries s1)), Heq.
      apply sort_by_perm. }
    assert (blake3 <$> state_entries s1 ⊆ blake3 <$> state_entries s2) as H1 by (by rewrite Hp).
    assert (blake3 <$> state_entries s2 ⊆ blake3 <$> state_entries s1) as H2 by (by rewrite Hp).
    apply hash_subset in H1 as [H1|]; [| by right]. apply hash_subset in H2 as [H2|]; [| by right].
    by left.
  - by rewrite !length_sort_by, !length_fmap.
Qed.

Lemma tagged_app tag l1 l2 : tagged tag (l1 ++ l2) = tagged tag l1 ++ tagged tag l2.
Proof. apply filter_app. Qed.

Lemma tagged_subset tag l1 l2 : l1 ⊆ l2 -> tagged tag l1 ⊆ tagged tag l2.
Proof. intros Hsub e. unfold tagged. rewrite !list_elem_of_filter. intros [? ?]. auto. Qed.

Lemma tagged_same {K V} `{Countable K} tag (f : K -> V -> bytes) m :
  tagged tag (map_entries tag f m) = map_entries tag f m.
Proof.
  apply filter_all. intros e (k & v & _ & ->)%elem_of_map_entries. by rewrite take_app_length.
Qed.

Lemma tagged_fmap {A} tag tag' (f : A -> bytes) l :
  (forall r, take (length tag) (tag' ++ r) <> tag) ->
  tagged tag ((fun x => tag' ++ f x) <$> l) = [].
Proof.
  intros Hne. apply filter_none. intros e (x & -> & _)%list_elem_of_fmap. apply Hne.
Qed.

Lemma tagged_other {K V} `{Countable K} tag tag' (f : K -> V -> bytes) m :
  (forall r, take (length tag) (tag' ++ r) <> tag) -> tagged tag (map_entries tag' f m) = [].
Proof. intros. by apply tagged_fmap. Qed.

Lemma tagged_singleton tag e : take (length tag) e <> tag -> tagged tag [e] = [].
Proof. intros. unfold tagged. by rewrite filter_cons_False. Qed.

Lemma tagged_if tag (b : bool) l1 l2 :
  tagged tag (if b then l1 else l2) = if b then tagged tag l1 else tagged tag l2.
Proof. by destruct b. Qed.
End binding.

(** Keep the one map whose tag is asked for. *)
Ltac tag_differs := let r := fresh in let H := fresh in intros; intros H; discriminate H.
Ltac select_tag :=
  unfold state_entries, account_entries, contract_entries, stake_entries, activity_entries,
    delegation_entries, slashing_entries, miner_entries, reputation_entry;
  rewrite ?tagged_app, ?tagged_if, ?tagged_same, ?tagged_app;
  repeat first [ rewrite tagged_other by tag_differs | rewrite tagged_fmap by tag_differs
               | rewrite tagged_singleton by tag_differs ];
  repeat match goal with |- context [if ?b then _ else _] => destruct b end;
  rewrite ?app_nil_r; reflexivity.

Section binding_fields.
Context `{HB : Blake3} `{!Blake3Laws} `{SC : StateCodec}.
Implicit Types (s : WorldState).

Lemma tagged_balances s :
  tagged (lit "bal:") (state_entries s)
  = map_entries (lit "bal:") (fun addr bal => addr ++ le128 bal) (ws_balances s).
Proof. select_tag. Qed.

Lemma tagged_token_balances s :
  tagged (lit "tbal:") (state_entries s)
  = map_entries (lit "tbal:") (fun k bal => k.1 ++ k.2 ++ le128 bal) (ws_token_balances s).
Proof. select_tag. Qed.

Lemma tagged_nonces s :
  tagged (lit "nonce:") (state_entries s)
  = map_entries (lit "nonce:") (fun addr nonce => addr ++ le64 nonce) (ws_nonces s).
Proof. select_tag. Qed.

Lemma tagged_stakes s :
  tagged (lit "stake:") (state_entries s)
  = map_entries (lit "stake:") (fun addr amount => addr ++ le128 amount) (ws_stakes s).
Proof. select_tag. Qed.
End binding_fields.

Section theorems.
Context `{HB : Blake3} `{!Blake3Laws} `{SC : StateCodec}.
Implicit Types (s : WorldState).

Lemma le_entry_inj k a1 v1 a2 v2 :
  addr32 a1 -> addr32 a2 -> v1 < 256 ^ N.of_nat k -> v2 < 256 ^ N.of_nat k ->
  a1 ++ le_bytes k v1 = a2 ++ le_bytes k v2 -> a1 = a2 /\ v1 = v2.
Proof.
  unfold addr32. intros Ha1 Ha2 Hv1 Hv2 [-> E]%app_inj_1; [| by rewrite Ha1, Ha2].
  split; [done | by apply le_bytes_inj in E].
Qed.


(** The entry of an unbonding record. *)
Definition unbond_entry (e : UnbondingEntry) : bytes :=
  lit "unbond:" ++ ub_address e ++ le128 (ub_amount e) ++ le64 (ub_release_height e).

Definition push_unbonding (e : UnbondingEntry) s : WorldState :=
  s <| ws_unbonding_queue ::= fun q => q ++ [e] |>.

Lemma push_unbonding_entries e s :
  state_entries (push_unbonding e s) ≡ₚ state_entries s ++ [unbond_entry e].
Proof.
  unfold state_entries, stake_entries.
  change (ws_unbonding_queue (push_unbonding e s)) with (ws_unbonding_queue s ++ [e]).
  rewrite fmap_app. cbn [fmap list_fmap].
  change (account_entries (push_unbonding e s)) with (account_entries s).
  change (reputation_entry (push_unbonding e s)) with (reputation_entry s).
  change (contract_entries (push_unbonding e s)) with (contract_entries s).
  change (activity_entries (push_unbonding e s)) with (activity_entries s).
  change (delegation_entries (push_unbonding e s)) with (delegation_entries s).
  change (slashing_entries (push_unbonding e s)) with (slashing_entries s).
  change (miner_entries (push_unbonding e s)) with (miner_entries s).
  change (ws_stakes (push_unbonding e s)) with (ws_stakes s).
  fold (unbond_entry e). rewrite <- !app_assoc. do 5 f_equiv.
  solve_Permutation.
Qed.

Lemma StronglySorted_dup l x :
  StronglySorted bytes_leb (l ++ [x]) -> StronglySorted bytes_leb (l ++ [x; x]).
Proof.
  rewrite !StronglySorted_app. intros (Hlx & Hl & _). split_and!; [| done |].
  - intros x1 x2 H1 H2. apply Hlx; [done |]. set_solver.
  - repeat constructor; apply bytes_leb_refl.
Qed.

Lemma sort_by_max l x :
  x ∈ l -> Forall (fun y => bytes_leb y x) l -> exists l', sort_by bytes_leb l = l' ++ [x].
Proof.
  intros Hx Hmax. pose proof (sort_by_sorted bytes_leb bytes_leb_total bytes_leb_trans l) as Hs.
  rewrite <- (elem_of_sort_by bytes_leb) in Hx. rewrite <- (sort_by_perm bytes_leb) in Hmax.
  destruct (sort_by bytes_leb l) as [|y l' _] using rev_ind; [by apply not_elem_of_nil in Hx |].
  exists l'. f_equal. f_equal. rewrite Forall_forall in Hmax.
  apply bytes_leb_antisym; [apply Hmax, elem_of_app; right; left |].
  apply elem_of_app in Hx as [Hx | ->%list_elem_of_singleton]; [| apply bytes_leb_refl].
  apply StronglySorted_app in Hs as (Hs & _). apply Hs; [done | left].
Qed.

Lemma sort_by_max_dup l l' x m :
  sort_by bytes_leb l = m ++ [x] -> l' ≡ₚ l ++ [x] -> sort_by bytes_leb l' = m ++ [x; x].
Proof.
  intros Hl Hp. symmetry. apply (sorted_perm_unique bytes_leb).
  - intros; by apply bytes_leb_antisym.
  - apply StronglySorted_dup. rewrite <- Hl.
    apply sort_by_sorted; [apply bytes_leb_total | apply bytes_leb_trans].
  - apply sort_by_sorted; [apply bytes_leb_total | apply bytes_leb_trans].
  - change (m ++ [x; x]) with (m ++ [x] ++ [x]). by rewrite app_assoc, <- Hl, !sort_by_perm, Hp.
Qed.

Lemma unbond_entry_listed s e :
  e ∈ ws_unbonding_queue s ->
  unbond_entry e ∈ state_entries s /\ (2 <= length (state_entries s))%nat.
Proof.
  intros He. split.
  - unfold state_entries, stake_entries. rewrite !elem_of_app, list_elem_of_fmap.
    do 3 right. left. right. by exists e.
  - unfold state_entries, stake_entries. rewrite !length_app, length_fmap.
    destruct (ws_unbonding_queue s); [by apply not_elem_of_nil in He |]. simpl. lia.
Qed.

(** The root does not fix the number of leaves: when the leaf of an
    unbonding record is the largest one and the number of entries is odd, a
    second copy of that record leaves the root unchanged, although it changes
    the supply. *)
Theorem state_root_duplicate s e :
  e ∈ ws_unbonding_queue s -> 0 < ub_amount e -> Nat.Odd (length (state_entries s)) ->
  Forall (fun x => bytes_leb x (blake3 (unbond_entry e))) (blake3 <$> state_entries s) ->
  state_root (push_unbonding e s) = state_root s
  /\ supply (push_unbonding e s) = supply s + ub_amount e.
Proof.
  intros He Hamt Hodd Hmax. destruct (unbond_entry_listed _ _ He) as [Hin Hlen]. split.
  - destruct (sort_by_max _ _ (list_elem_of_fmap_2 blake3 _ _ Hin) Hmax) as [m Hm].
    pose proof (f_equal length Hm) as Hlm.
    rewrite length_sort_by, length_fmap, length_app in Hlm. simpl in Hlm.
    unfold state_root. rewrite Hm.
    rewrite (sort_by_max_dup (blake3 <$> state_entries s) _ (blake3 (unbond_entry e)) m Hm).
    + apply merkle_root_dup; [| intros ->; simpl in Hlm; lia].
      by rewrite <- Hm, length_sort_by, length_fmap.
    + by rewrite push_unbonding_entries, fmap_app.
  - unfold supply, push_unbonding. upd. rewrite lsum_app. simpl. lia.
Qed.
End theorems.

#[local] Existing Instance toy_blake3.
#[local] Existing Instance toy_blake3_laws.
#[local] Existing Instance toy_codec.

Definition toy_ledger : WorldState :=
  default_WorldState <| ws_balances := {[ toy_addr 1 := 500 ]} |> <| ws_stakes := {[ toy_addr 2 := 70 ]} |>.


Definition toy_unbonding : UnbondingEntry := mkUnbondingEntry (toy_addr 9) 5 100.
Definition toy_queue : WorldState :=
  default_WorldState <| ws_unbonding_queue := [mkUnbondingEntry (toy_addr 1) 5 100; toy_unbonding] |>.

Lemma state_root_duplicate_witness :
  state_root (push_unbonding toy_unbonding toy_queue) = state_root toy_queue
  /\ supply (push_unbonding toy_unbonding toy_queue) = supply toy_queue + 5.
Proof.
  apply (state_root_duplicate toy_queue toy_unbonding).
  - right. left.
  - done.
  - exists 1%nat. vm_compute. reflexivity.
  - assert (forallb (fun x => bytes_leb x (blake3 (unbond_entry toy_unbonding)))
              (blake3 <$> state_entries toy_queue) = true) as Hall by (vm_compute; reflexivity).
    apply Forall_forall. rewrite forallb_forall in Hall. intros x Hx.
    by rewrite (Hall x (proj1 (list_elem_of_In _ _) Hx)).
Defined.
