(* ===== verification/HandlerBase.v ===== *)
(** * The transaction handlers' common ground ([claw-node/crates/state/src/handlers.rs])

    A handler is a method on [&mut WorldState] that returns a [Result]: here a
    computation in the state-and-error monad, whose state survives an error.
    This file holds payload decoding, the balance updates the handlers share,
    and the facts about the native supply that their proofs use. *)

From S2P Require Import Prelude Interfaces Types Vm World.

Abbreviation handler := (ST WorldState StateError).

(** The borsh decoders of the payloads. *)
Class TxCodec : Type := {
  codec_tx :: Borsh Transaction;
  codec_agent_register :: Borsh AgentRegisterPayload;
  codec_token_transfer :: Borsh TokenTransferPayload;
  codec_token_create :: Borsh TokenCreatePayload;
  codec_token_mint_transfer :: Borsh TokenMintTransferPayload;
  codec_service_register :: Borsh ServiceRegisterPayload;
  codec_contract_deploy :: Borsh ContractDeployPayload;
  codec_contract_call :: Borsh ContractCallPayload;
  codec_stake_deposit :: Borsh StakeDepositPayload;
  codec_stake_deposit_legacy :: Borsh (N * bytes);
  codec_stake_withdraw :: Borsh StakeWithdrawPayload;
  codec_stake_claim :: Borsh StakeClaimPayload;
  codec_token_approve :: Borsh TokenApprovePayload;
  codec_token_burn :: Borsh TokenBurnPayload;
  codec_change_delegation :: Borsh ChangeDelegationPayload;
  codec_activity_report :: Borsh PlatformActivityReportPayload;
  codec_miner_register :: Borsh MinerRegisterPayload;
  codec_miner_heartbeat :: Borsh MinerHeartbeatPayload;
  codec_upgrade_announce :: Borsh ContractUpgradeAnnouncePayload;
  codec_upgrade_execute :: Borsh ContractUpgradeExecutePayload;
}.

(** A decoded [u128] is one. *)
Class TxCodecLaws `{TxCodec} : Prop := {
  decoded_total_supply : forall bs p,
    try_from_slice (A:=TokenCreatePayload) bs = Ok p -> tcp_total_supply p < TWO128;
}.

(** [T::try_from_slice(..).map_err(|e| StateError::PayloadDeserialize(e.to_string()))?]. *)
Definition decode_bytes (A : Type) `{!Borsh A} (bs : bytes) : handler A :=
  map_err (try_from_slice bs) PayloadDeserialize.
Definition decode (A : Type) `{!Borsh A} (tx : Transaction) : handler A :=
  decode_bytes A (tx_payload tx).

(** [*state.balances.entry(a).or_insert(0) -= x] and [+= x]. *)
Definition debit (a : bytes) (x : N) : handler unit :=
  st_modify (fun s => s <| ws_balances ::= entry_sub TWO128 a x |>).
Definition credit (a : bytes) (x : N) : handler unit :=
  st_modify (fun s => s <| ws_balances ::= entry_add TWO128 a x |>).

(** [safe_add]. *)
Definition safe_add (balance amount : N) : handler N :=
  ok_or (checked_add TWO128 balance amount) (BalanceOverflow amount balance).

(** ** Monadic facts *)
Lemma readonly_decode_bytes A `{!Borsh A} bs : readonly (decode_bytes A bs).
Proof. apply readonly_map_err. Qed.
Lemma readonly_decode A `{!Borsh A} tx : readonly (decode A tx).
Proof. apply readonly_map_err. Qed.
Lemma readonly_safe_add b x : readonly (safe_add b x).
Proof. apply readonly_ok_or. Qed.
Lemma readonly_for_each {A} (f : A -> handler unit) l :
  (forall x, readonly (f x)) -> readonly (for_each f l).
Proof. intros Hf. induction l; simpl; auto with claw. Qed.
Lemma infallible_for_each {A} (f : A -> handler unit) l :
  (forall x, infallible (f x)) -> infallible (for_each f l).
Proof. intros Hf. induction l; simpl; auto with claw. Qed.
Lemma infallible_debit a x : infallible (debit a x).
Proof. apply infallible_modify. Qed.
Lemma infallible_credit a x : infallible (credit a x).
Proof. apply infallible_modify. Qed.

#[export] Hint Resolve readonly_decode_bytes readonly_decode readonly_safe_add readonly_for_each
  infallible_for_each infallible_debit infallible_credit : claw.

(** Prove [readonly], [infallible] or [atomic] of a handler by following its code. *)
Ltac atomic_step :=
  match goal with
  | |- atomic _ => solve [apply atomic_readonly; auto 20 with claw
                         | apply atomic_infallible; auto 20 with claw]
  | |- atomic (mbind _ _) => apply atomic_bind; [solve [auto 20 with claw] | intros ?]
  | |- atomic (match ?x with _ => _ end) => destruct x
  | |- atomic (let '_ := ?x in _) => destruct x
  end.
Ltac atomic_tac := repeat (cbv beta zeta; atomic_step).

(** ** The supply *)

(** A supply below [2^127], which no [u128] computation of the node can wrap;
    the network's supply is [CLAW_TOTAL_SUPPLY], about [2^60]. *)
Definition supply_fits (s : WorldState) : Prop := 2 * supply s < TWO128.

Lemma balance_le_supply s a : amount_of (ws_balances s) a <= supply s.
Proof. unfold supply. pose proof (amount_le_total (ws_balances s) a). lia. Qed.

Lemma stake_le_supply s a : amount_of (ws_stakes s) a <= supply s.
Proof. unfold supply. pose proof (amount_le_total (ws_stakes s) a). lia. Qed.

(** The part of the state that the supply reads. *)
Definition same_funds (s s' : WorldState) : Prop :=
  ws_balances s' = ws_balances s /\ ws_stakes s' = ws_stakes s
  /\ ws_unbonding_queue s' = ws_unbonding_queue s
  /\ ws_epoch_reward_bucket s' = ws_epoch_reward_bucket s
  /\ msum mi_pending_rewards (ws_miners s') = msum mi_pending_rewards (ws_miners s).

Lemma same_funds_supply s s' : same_funds s s' -> supply s' = supply s.
Proof. unfold same_funds, supply. by intros (-> & -> & -> & -> & ->). Qed.

Lemma same_funds_refl s : same_funds s s.
Proof. by split_and!. Qed.

Lemma same_funds_trans s1 s2 s3 : same_funds s1 s2 -> same_funds s2 s3 -> same_funds s1 s3.
Proof.
  intros (H1 & H2 & H3 & H4 & H5) (J1 & J2 & J3 & J4 & J5). split_and!; congruence.
Qed.

Section funds.
Implicit Types (s : WorldState) (a : bytes) (x : N).

Lemma supply_debit s a x :
  supply s < TWO128 -> x <= amount_of (ws_balances s) a ->
  supply (s <| ws_balances ::= entry_sub TWO128 a x |>) = supply s - x.
Proof.
  intros Hs Hx. pose proof (amount_le_total (ws_balances s) a). unfold supply in *. upd.
  rewrite total_entry_sub by lia. lia.
Qed.

Lemma supply_credit s a x :
  supply s + x < TWO128 ->
  supply (s <| ws_balances ::= entry_add TWO128 a x |>) = supply s + x.
Proof.
  intros Hs. unfold supply in *. upd. rewrite total_entry_add by lia. lia.
Qed.

(** Moving [x] from [a] to [b]. *)
Lemma supply_move s a b x :
  supply s < TWO128 -> x <= amount_of (ws_balances s) a ->
  supply (s <| ws_balances ::= entry_sub TWO128 a x |> <| ws_balances ::= entry_add TWO128 b x |>)
  = supply s.
Proof.
  intros Hs Hx. pose proof (balance_le_supply s a).
  rewrite supply_credit; rewrite supply_debit by done; lia.
Qed.
End funds.

(** ** Frames

    [keeps proj m]: whatever its outcome, [m] leaves [proj] of the state as it
    was.  [keeps_tac] follows the code of [m]. *)

Definition keeps {T A} (proj : WorldState -> T) (m : handler A) : Prop :=
  forall s r s', m s = (r, s') -> proj s' = proj s.

Section keeps.
Context {T : Type} (proj : WorldState -> T).

Lemma keeps_readonly {A} (m : handler A) : readonly m -> keeps proj m.
Proof. intros Hm s r s' Hr. by rewrite (Hm _ _ _ Hr). Qed.

Lemma keeps_modify f : (forall s, proj (f s) = proj s) -> keeps proj (st_modify f).
Proof. intros Hf s r s' [= _ <-]. apply Hf. Qed.

Lemma keeps_bind {A B} (m : handler A) (f : A -> handler B) :
  keeps proj m -> (forall a, keeps proj (f a)) -> keeps proj (m ≫= f).
Proof.
  intros Hm Hf s r s'. unfold mbind, ST_bind. destruct (m s) as [[a|e] s1] eqn:Em.
  - intros Hr. rewrite (Hf _ _ _ _ Hr). by apply Hm in Em.
  - intros [= _ <-]. by apply Hm in Em.
Qed.

Lemma keeps_for_each {A} (f : A -> handler unit) l :
  (forall x, keeps proj (f x)) -> keeps proj (for_each f l).
Proof.
  intros Hf. induction l; simpl; [apply keeps_readonly; auto with claw | by apply keeps_bind].
Qed.
End keeps.

Ltac keeps_step :=
  match goal with
  | |- keeps _ (mbind _ _) => apply keeps_bind; [| intros ?]
  | |- keeps _ (st_modify _) => apply keeps_modify; intros ?; reflexivity
  | |- keeps _ (debit _ _) => apply keeps_modify; intros ?; reflexivity
  | |- keeps _ (credit _ _) => apply keeps_modify; intros ?; reflexivity
  | |- keeps _ (for_each _ _) => apply keeps_for_each; intros ?
  | |- keeps _ (match ?x with _ => _ end) => destruct x
  | |- keeps _ _ => apply keeps_readonly; solve [auto 20 with claw]
  end.
Ltac keeps_tac := repeat (cbv beta zeta; keeps_step).

Section stake_funds.
Implicit Types (s : WorldState).

Lemma supply_stake_insert s v x :
  supply (s <| ws_stakes ::= <[v := x]> |>) + amount_of (ws_stakes s) v = supply s + x.
Proof. unfold supply. upd. pose proof (total_insert (ws_stakes s) v x). lia. Qed.

Lemma supply_stake_delete s v :
  supply (s <| ws_stakes ::= delete v |>) + amount_of (ws_stakes s) v = supply s.
Proof. unfold supply. upd. pose proof (msum_delete (fun x : N => x) (ws_stakes s) v). lia. Qed.

Lemma supply_push_unbonding s e :
  supply (s <| ws_unbonding_queue ::= fun q => q ++ [e] |>) = supply s + ub_amount e.
Proof. unfold supply. upd. rewrite lsum_app. simpl. lia. Qed.

(** The balance a debit leaves, in terms of [get_balance]. *)
Lemma balance_debit s a x b :
  supply s < TWO128 -> x <= get_balance s a ->
  get_balance (s <| ws_balances ::= entry_sub TWO128 a x |>) b
  = get_balance s b - (if decide (a = b) then x else 0).
Proof.
  rewrite !get_balance_amount. intros Hs Hx. upd.
  apply amount_entry_sub; [unfold supply in Hs; lia | done].
Qed.

Lemma balance_credit s a x b :
  supply s + x < TWO128 ->
  get_balance (s <| ws_balances ::= entry_add TWO128 a x |>) b
  = get_balance s b + (if decide (a = b) then x else 0).
Proof.
  rewrite !get_balance_amount. intros Hs. upd.
  apply amount_entry_add. unfold supply in Hs. lia.
Qed.
End stake_funds.
