(* ===== verification/ConcreteTx.v ===== *)
(** * Concrete payload decoders

    Little-endian, length-prefixed decoders of the payloads, used only to
    evaluate the handlers at concrete inputs. *)

From S2P Require Import Prelude Interfaces Types Concrete Vm World ConcreteState HandlerBase.

Definition toy_parser (A : Type) : Type := bytes -> option (A * bytes).

#[local] Instance toy_parser_ret : MRet toy_parser := fun A a bs => Some (a, bs).
#[local] Instance toy_parser_bind : MBind toy_parser := fun A B f m bs =>
  match m bs with Some (a, bs) => f a bs | None => None end.

Definition p_take (n : nat) : toy_parser bytes := fun bs =>
  if (n <=? length bs)%nat then Some (take n bs, drop n bs) else None.
Definition p_num (n : nat) : toy_parser N := b ← p_take n; mret (le_value b).
Definition p_vec : toy_parser bytes := n ← p_num 4; p_take (N.to_nat n).
Definition p_str : toy_parser string := b ← p_vec; mret (String.string_of_list_byte b).
Definition p_opt {A} (p : toy_parser A) : toy_parser (option A) :=
  t ← p_num 1; if t =? 0 then mret None else a ← p; mret (Some a).

(** All input has to be consumed. *)
Definition toy_decoder {A} (p : toy_parser A) : Borsh A := {|
  to_vec _ := [];
  try_from_slice bs :=
    match p bs with
    | Some (a, []) => Ok a
    | _ => Err "Unexpected length of input"%string
    end;
|}.

Definition toy_tx_codec : TxCodec := {|
  codec_tx := {|
    to_vec tx := [byte_of_N (tx_type_u8 (tx_type tx))] ++ tx_from tx ++ le64 (tx_nonce tx)
                   ++ tx_payload tx ++ tx_signature tx;
    try_from_slice _ := Err "unused"%string |};
  codec_agent_register := toy_decoder (n ← p_str; mret (mkAgentRegisterPayload n ∅));
  codec_token_transfer := toy_decoder (a ← p_take 32; x ← p_num 16; mret (mkTokenTransferPayload a x));
  codec_token_create :=
    toy_decoder (n ← p_str; s ← p_str; d ← p_num 1; x ← p_num 16; mret (mkTokenCreatePayload n s d (x mod TWO128)));
  codec_token_mint_transfer :=
    toy_decoder (i ← p_take 32; a ← p_take 32; x ← p_num 16; mret (mkTokenMintTransferPayload i a x));
  codec_service_register := toy_decoder (fun _ => None);
  codec_contract_deploy :=
    toy_decoder (c ← p_vec; m ← p_str; a ← p_vec; mret (mkContractDeployPayload c m a));
  codec_contract_call :=
    toy_decoder (c ← p_take 32; m ← p_str; a ← p_vec; x ← p_num 16; mret (mkContractCallPayload c m a x));
  codec_stake_deposit :=
    toy_decoder (x ← p_num 16; v ← p_take 32; c ← p_num 2; mret (mkStakeDepositPayload x v c));
  codec_stake_deposit_legacy := toy_decoder (x ← p_num 16; v ← p_take 32; mret (x, v));
  codec_stake_withdraw := toy_decoder (x ← p_num 16; v ← p_take 32; mret (mkStakeWithdrawPayload x v));
  codec_stake_claim := toy_decoder (mret mkStakeClaimPayload);
  codec_token_approve :=
    toy_decoder (i ← p_take 32; a ← p_take 32; x ← p_num 16; mret (mkTokenApprovePayload i a x));
  codec_token_burn := toy_decoder (i ← p_take 32; x ← p_num 16; mret (mkTokenBurnPayload i x));
  codec_change_delegation :=
    toy_decoder (v ← p_take 32; o ← p_take 32; c ← p_num 2; mret (mkChangeDelegationPayload v o c));
  codec_activity_report := toy_decoder (fun _ => None);
  codec_miner_register :=
    toy_decoder (t ← p_num 1; ip ← p_vec; n ← p_str; mret (mkMinerRegisterPayload t ip n));
  codec_miner_heartbeat := toy_decoder (h ← p_take 32; x ← p_num 8; mret (mkMinerHeartbeatPayload h x));
  codec_upgrade_announce :=
    toy_decoder (c ← p_take 32; h ← p_take 32; mret (mkContractUpgradeAnnouncePayload c h));
  codec_upgrade_execute :=
    toy_decoder (c ← p_take 32; code ← p_vec; m ← p_opt p_str; a ← p_vec;
                 mret (mkContractUpgradeExecutePayload c code m a));
|}.

Lemma toy_tx_codec_laws : @TxCodecLaws toy_tx_codec.
Proof.
  constructor. intros bs p. simpl. unfold mbind, toy_parser_bind, mret, toy_parser_ret.
  repeat match goal with
  | |- match match ?x with _ => _ end with _ => _ end = _ -> _ => destruct x as [[? ?]|]; [| done]
  end.
  match goal with |- match ?l with _ => _ end = _ -> _ => destruct l; [| done] end.
  intros [= <-]. simpl. apply N.mod_lt. done.
Qed.

(** Encoders of the payloads the examples use. *)
Definition enc_vec (b : bytes) : bytes := le_bytes 4 (blen b) ++ b.
Definition enc_str (s : string) : bytes := enc_vec (as_bytes s).

(** A transaction with the given contents. *)
Definition toy_tx (t : TxType) (from : bytes) (nonce : N) (payload : bytes) : Transaction :=
  mkTransaction t from nonce payload [].

Definition toy_hex : Hex := fun _ => "hex"%string.

(** An engine whose contracts pay 5 to the caller and count in one cell. *)
Definition toy_vm : VmEngine := {|
  vm_validate := validate_contract_code;
  execute_with_cross_calls code method args ctx storage cs codes :=
    if bool_decide (method = "fail"%string) then Err (ContractAbort "no" 10)
    else Ok (mkExecutionResult [x01] 60000 [([x00], Some args)] [] [(ec_caller ctx, 5)]
               [mkContractEvent "paid" []]);
|}.
