(* ===== verification/Tokens.v ===== *)
(** * Native and custom token transactions

    [handle_token_transfer], [handle_token_create],
    [handle_token_mint_transfer], [handle_token_approve] and
    [handle_token_burn], and the conservation of custom tokens. *)

From S2P Require Import Prelude Interfaces Types Concrete Vm World HandlerBase ConcreteTx.

Section token_handlers.
Context `{HB : Blake3} `{TC : TxCodec}.
Implicit Types (tx : Transaction).

Definition handle_token_transfer tx : handler unit :=
  payload ← decode TokenTransferPayload tx;
  fail_if (ttp_amount payload =? 0) ZeroAmount;;
  sender_bal ← st_gets (fun s => get_balance s (tx_from tx));
  fail_if (sender_bal <? ttp_amount payload) (InsufficientBalance (ttp_amount payload) sender_bal);;
  recipient_bal ← st_gets (fun s => get_balance s (ttp_to payload));
  safe_add recipient_bal (ttp_amount payload);;
  debit (tx_from tx) (ttp_amount payload);;
  credit (ttp_to payload) (ttp_amount payload).

Definition token_id_of tx (name : string) : bytes :=
  blake3 (tx_from tx ++ as_bytes name ++ le64 (tx_nonce tx)).

Definition handle_token_create tx : handler unit :=
  payload ← decode TokenCreatePayload tx;
  registered ← st_gets (fun s => contains_key (ws_agents s) (tx_from tx));
  fail_if (negb registered) AgentNotRegistered;;
  fail_if (tcp_total_supply payload =? 0) ZeroSupply;;
  fail_if ((slen (tcp_name payload) =? 0) || (MAX_NAME_LEN <? slen (tcp_name payload)))
    (NameTooLong (slen (tcp_name payload)) MAX_NAME_LEN);;
  fail_if ((slen (tcp_symbol payload) =? 0) || (MAX_SYMBOL_LEN <? slen (tcp_symbol payload)))
    (SymbolTooLong (slen (tcp_symbol payload)) MAX_SYMBOL_LEN);;
  let token_id := token_id_of tx (tcp_name payload) in
  exists_already ← st_gets (fun s => contains_key (ws_tokens s) token_id);
  fail_if exists_already TokenAlreadyExists;;
  st_modify (fun s => s <| ws_tokens ::= <[token_id :=
    mkTokenDef token_id (tcp_name payload) (tcp_symbol payload) (tcp_decimals payload)
      (tcp_total_supply payload) (tx_from tx)]> |>);;
  st_modify (fun s => s <| ws_token_balances ::= <[(tx_from tx, token_id) := tcp_total_supply payload]> |>).

Definition handle_token_mint_transfer tx : handler unit :=
  payload ← decode TokenMintTransferPayload tx;
  let id := tmp_token_id payload in
  let amount := tmp_amount payload in
  fail_if (amount =? 0) ZeroAmount;;
  fail_if (bool_decide (id = NATIVE_TOKEN_ID)) NativeTokenIdForCustom;;
  known ← st_gets (fun s => contains_key (ws_tokens s) id);
  fail_if (negb known) TokenNotFound;;
  sender_bal ← st_gets (fun s => get_token_balance s (tx_from tx) id);
  fail_if (sender_bal <? amount) (InsufficientBalance amount sender_bal);;
  recipient_bal ← st_gets (fun s => get_token_balance s (tmp_to payload) id);
  safe_add recipient_bal amount;;
  st_modify (fun s => s <| ws_token_balances ::= entry_sub TWO128 (tx_from tx, id) amount |>);;
  st_modify (fun s => s <| ws_token_balances ::= entry_add TWO128 (tmp_to payload, id) amount |>).

Definition handle_token_approve tx : handler unit :=
  payload ← decode TokenApprovePayload tx;
  fail_if (bool_decide (tap_token_id payload = NATIVE_TOKEN_ID)) NativeTokenIdForCustom;;
  known ← st_gets (fun s => contains_key (ws_tokens s) (tap_token_id payload));
  fail_if (negb known) TokenNotFound;;
  fail_if (bool_decide (tap_spender payload = tx_from tx)) SelfApproval;;
  let key := (tx_from tx, tap_spender payload, tap_token_id payload) in
  if tap_amount payload =? 0
  then st_modify (fun s => s <| ws_token_allowances ::= delete key |>)
  else st_modify (fun s => s <| ws_token_allowances ::= <[key := tap_amount payload]> |>).

Definition set_total_supply (x : N) (t : TokenDef) : TokenDef :=
  mkTokenDef (td_id t) (td_name t) (td_symbol t) (td_decimals t) x (td_issuer t).

Definition handle_token_burn tx : handler unit :=
  payload ← decode TokenBurnPayload tx;
  let id := tbp_token_id payload in
  let amount := tbp_amount payload in
  fail_if (amount =? 0) ZeroAmount;;
  fail_if (bool_decide (id = NATIVE_TOKEN_ID)) NativeTokenIdForCustom;;
  found ← st_gets (fun s => ws_tokens s !! id);
  token ← ok_or found TokenNotFound;
  sender_bal ← st_gets (fun s => get_token_balance s (tx_from tx) id);
  fail_if (sender_bal <? amount) (InsufficientBalance amount sender_bal);;
  fail_if (td_total_supply token <? amount) (BurnExceedsSupply amount (td_total_supply token));;
  st_modify (fun s => s <| ws_token_balances ::= entry_sub TWO128 (tx_from tx, id) amount |>);;
  st_modify (fun s => s <| ws_tokens ::=
    alter (fun t => set_total_supply (u128_sub (td_total_supply t) amount) t) id |>).
End token_handlers.

(** ** Native transfers *)

Section native.
Context `{HB : Blake3} `{TC : TxCodec}.
Implicit Types (tx : Transaction) (s : WorldState).

Definition transfer_effect (p : TokenTransferPayload) tx s : WorldState :=
  s <| ws_balances ::= entry_sub TWO128 (tx_from tx) (ttp_amount p) |>
    <| ws_balances ::= entry_add TWO128 (ttp_to p) (ttp_amount p) |>.

Lemma token_transfer_atomic tx : atomic (handle_token_transfer tx).
Proof. unfold handle_token_transfer. atomic_tac. Qed.

Lemma token_transfer_outcome tx s :
  supply_fits s ->
  match handle_token_transfer tx s with
  | (Ok _, s') =>
      exists p, try_from_slice (tx_payload tx) = Ok p /\ 0 < ttp_amount p
        /\ ttp_amount p <= get_balance s (tx_from tx) /\ s' = transfer_effect p tx s
        /\ supply s' = supply s
        /\ forall a, get_balance s' a + (if decide (a = tx_from tx) then ttp_amount p else 0)
                     = get_balance s a + (if decide (a = ttp_to p) then ttp_amount p else 0)
  | (Err e, s') =>
      s' = s /\ forall p, try_from_slice (tx_payload tx) = Ok p ->
        ttp_amount p = 0 \/ get_balance s (tx_from tx) < ttp_amount p
  end.
Proof.
  unfold supply_fits. intros Hs.
  destruct (handle_token_transfer tx s) as [[[]|e] s'] eqn:Hrun; unfold handle_token_transfer in Hrun.
  - unfold decode, decode_bytes in Hrun. st_inv. bools.
    match goal with H : try_from_slice _ = Ok ?q |- _ => exists q; rename q into p end.
    unfold safe_add, debit, credit in *. st_inv.
    assert (ttp_amount p <= amount_of (ws_balances s) (tx_from tx)) as Hb
      by (rewrite <- get_balance_amount; lia).
    pose proof (balance_le_supply s (tx_from tx)).
    split_and!; [done | lia | lia | done | by rewrite supply_move by lia |].
    intros a. rewrite !get_balance_amount. upd.
    assert (map_total (ws_balances s) <= supply s) by (unfold supply; lia).
    pose proof (amount_le_total (ws_balances s) (tx_from tx)).
    rewrite amount_entry_add by (rewrite total_entry_sub by lia; lia).
    rewrite amount_entry_sub by lia.
    repeat case_decide; subst; try done; lia.
  - split; [by apply (token_transfer_atomic tx) in Hrun |]. intros p Hp.
    destruct (decide (ttp_amount p = 0)); [by left | right].
    apply N.lt_nge. intros Hge. rewrite get_balance_amount in Hge.
    unfold handle_token_transfer, decode, decode_bytes in Hrun. rewrite Hp in Hrun.
    st_run Hrun.
    pose proof (balance_le_supply s (tx_from tx)). pose proof (balance_le_supply s (ttp_to p)).
    rewrite !get_balance_amount in Hrun.
    destruct (N.eqb_spec (ttp_amount p) 0); [done |].
    destruct (N.ltb_spec (amount_of (ws_balances s) (tx_from tx)) (ttp_amount p)); [lia |].
    unfold safe_add, checked_add in Hrun.
    destruct (N.ltb_spec (amount_of (ws_balances s) (ttp_to p) + ttp_amount p) TWO128);
      [done | lia].
Qed.

(** On a supply that fits in [u128], a native transfer succeeds exactly
    when its payload decodes to a positive amount that the sender holds; it
    then subtracts the amount from the sender and adds it to the recipient
    (which cancels for a transfer to oneself) and leaves every other balance,
    and the supply, as they were; otherwise the state is unchanged. *)
Theorem token_transfer_correct tx s :
  supply_fits s ->
  match handle_token_transfer tx s with
  | (Ok _, s') =>
      exists p, try_from_slice (tx_payload tx) = Ok p /\ 0 < ttp_amount p
        /\ ttp_amount p <= get_balance s (tx_from tx) /\ s' = transfer_effect p tx s
        /\ supply s' = supply s
        /\ forall a, get_balance s' a + (if decide (a = tx_from tx) then ttp_amount p else 0)
                     = get_balance s a + (if decide (a = ttp_to p) then ttp_amount p else 0)
  | (Err e, s') =>
      s' = s /\ forall p, try_from_slice (tx_payload tx) = Ok p ->
        ttp_amount p = 0 \/ get_balance s (tx_from tx) < ttp_amount p
  end.
Proof. exact (token_transfer_outcome tx s). Qed.
End native.

(** ** The custom token ledger *)

(** The sum of all holdings of token [id]. *)
Definition holdings (id : bytes) (m : gmap (bytes * bytes) N) : gmap (bytes * bytes) N :=
  filter (fun p => p.1.2 = id) m.
Definition token_total (s : WorldState) (id : bytes) : N := map_total (holdings id (ws_token_balances s)).
Definition declared_supply (s : WorldState) (id : bytes) : N :=
  from_option td_total_supply 0 (ws_tokens s !! id).

(** Every token's declared supply is what its holders own together. *)
Definition tokens_backed (s : WorldState) : Prop :=
  forall id, token_total s id = declared_supply s id /\ declared_supply s id < TWO128.

Section ledger.
Context `{HB : Blake3} `{TC : TxCodec}.
Implicit Types (tx : Transaction) (s : WorldState) (m : gmap (bytes * bytes) N).

Lemma holdings_lookup id m a : holdings id m !! (a, id) = m !! (a, id).
Proof.
  unfold holdings. apply option_eq. intros v. rewrite map_lookup_filter_Some. naive_solver.
Qed.

Lemma holdings_insert id m a id' v :
  holdings id (<[(a, id') := v]> m)
  = if decide (id' = id) then <[(a, id') := v]> (holdings id m) else holdings id m.
Proof.
  unfold holdings. case_decide as Hid.
  - by rewrite map_filter_insert_True.
  - by rewrite map_filter_insert_not by (simpl; congruence).
Qed.

Lemma holdings_update id m a id' (f : N -> N) :
  holdings id (<[(a, id') := f (default 0 (m !! (a, id')))]> m)
  = if decide (id' = id)
    then <[(a, id') := f (default 0 (holdings id m !! (a, id')))]> (holdings id m)
    else holdings id m.
Proof.
  rewrite holdings_insert. case_decide; [subst; by rewrite holdings_lookup | done].
Qed.

Lemma amount_le_holdings m a id : amount_of m (a, id) <= map_total (holdings id m).
Proof.
  rewrite amount_of_default, <- (holdings_lookup id), <- amount_of_default. apply amount_le_total.
Qed.

(** A transfer of token [id] between two holders. *)
Lemma token_move_total m a b id id' x :
  (forall i, map_total (holdings i m) < TWO128) -> x <= amount_of m (a, id) ->
  map_total (holdings id' (entry_add TWO128 (b, id) x (entry_sub TWO128 (a, id) x m)))
  = map_total (holdings id' m).
Proof.
  intros Hm Hx. unfold entry_add, entry_sub.
  rewrite (holdings_update _ _ _ _ (fun v => wadd TWO128 v x)).
  rewrite (holdings_update _ _ _ _ (fun v => wsub TWO128 v x)).
  pose proof (Hm id') as Hlt. pose proof (amount_le_holdings m a id).
  case_decide as Hid; [subst id' | done].
  change (map_total (entry_add TWO128 (b, id) x (entry_sub TWO128 (a, id) x (holdings id m)))
          = map_total (holdings id m)).
  assert (x <= amount_of (holdings id m) (a, id))
    by (by rewrite amount_of_default, holdings_lookup, <- amount_of_default).
  rewrite total_entry_add; rewrite total_entry_sub by lia; lia.
Qed.

(** Burning [x] of token [id]. *)
Lemma token_burn_total m a id id' x :
  (forall i, map_total (holdings i m) < TWO128) -> x <= amount_of m (a, id) ->
  map_total (holdings id' (entry_sub TWO128 (a, id) x m))
  = map_total (holdings id' m) - (if decide (id = id') then x else 0).
Proof.
  intros Hm Hx. unfold entry_sub. rewrite (holdings_update _ _ _ _ (fun v => wsub TWO128 v x)).
  case_decide as Hid; [subst id' | lia].
  change (map_total (entry_sub TWO128 (a, id) x (holdings id m)) = map_total (holdings id m) - x).
  apply total_entry_sub; [apply Hm |].
  by rewrite amount_of_default, holdings_lookup, <- amount_of_default.
Qed.

Lemma get_token_balance_amount s a id :
  get_token_balance s a id = amount_of (ws_token_balances s) (a, id).
Proof. unfold get_token_balance. by rewrite amount_of_default. Qed.

Lemma backed_totals s : tokens_backed s -> forall i, map_total (holdings i (ws_token_balances s)) < TWO128.
Proof. intros Hb i. destruct (Hb i) as [Ht Hd]. unfold token_total in Ht. lia. Qed.

Lemma mint_transfer_backed tx s r s' :
  tokens_backed s -> handle_token_mint_transfer tx s = (r, s') -> tokens_backed s'.
Proof.
  intros Hb Hrun. destruct r as [[]|e].
  - unfold handle_token_mint_transfer, decode, decode_bytes, safe_add in Hrun. st_inv. bools.
    intros i. unfold token_total, declared_supply. upd.
    rewrite token_move_total; [apply Hb | by apply backed_totals |].
    by rewrite <- get_token_balance_amount.
  - assert (atomic (handle_token_mint_transfer tx)) as Hat
      by (unfold handle_token_mint_transfer; atomic_tac).
    by rewrite (Hat _ _ _ Hrun).
Qed.

Lemma token_burn_backed tx s r s' :
  tokens_backed s -> handle_token_burn tx s = (r, s') -> tokens_backed s'.
Proof.
  intros Hb Hrun. destruct r as [[]|e].
  - unfold handle_token_burn, decode, decode_bytes in Hrun. st_inv. bools.
    match goal with H : ws_tokens s !! _ = Some ?t |- _ => rename t into t0, H into Ht0 end.
    intros i. unfold token_total, declared_supply. upd.
    rewrite token_burn_total; [| by apply backed_totals | by rewrite <- get_token_balance_amount].
    destruct (Hb i) as [Htot Hlt]. unfold token_total, declared_supply in *.
    case_decide as Hid.
    + subst i. rewrite lookup_alter_eq, Ht0 in *. simpl in *. rewrite wsub_small by lia. lia.
    + rewrite lookup_alter_ne by done. lia.
  - assert (atomic (handle_token_burn tx)) as Hat by (unfold handle_token_burn; atomic_tac).
    by rewrite (Hat _ _ _ Hrun).
Qed.

Lemma token_create_backed `{!TxCodecLaws} tx s r s' :
  tokens_backed s -> handle_token_create tx s = (r, s') -> tokens_backed s'.
Proof.
  intros Hb Hrun. destruct r as [[]|e].
  - unfold handle_token_create, decode, decode_bytes in Hrun. st_inv. bools.
    match goal with H : try_from_slice _ = Ok ?q |- _ =>
      rename q into p; pose proof (decoded_total_supply _ _ H) end.
    match goal with H : contains_key (ws_tokens s) _ = false |- _ =>
      apply contains_key_false in H as Hnew end.
    intros i. unfold token_total, declared_supply. upd. rewrite holdings_insert.
    destruct (Hb i) as [Htot Hlt]. unfold token_total, declared_supply in *.
    case_decide as Hid.
    + subst i. rewrite lookup_insert_eq, Hnew in *. simpl in *. split; [| done].
      match goal with |- map_total (<[?k := ?v]> ?m) = _ => pose proof (total_insert m k v);
        pose proof (amount_le_total m k) end. lia.
    + by rewrite lookup_insert_ne.
  - assert (atomic (handle_token_create tx)) as Hat by (unfold handle_token_create; atomic_tac).
    by rewrite (Hat _ _ _ Hrun).
Qed.
End ledger.

#[local] Existing Instance toy_tx_codec.
#[local] Existing Instance toy_blake3.

Definition toy_transfer : Transaction :=
  toy_tx TokenTransfer (toy_addr 1) 1 (toy_addr 2 ++ le128 30).
Definition toy_funded : WorldState :=
  default_WorldState <| ws_balances := {[ toy_addr 1 := 100 ]} |>.

Lemma token_transfer_correct_witness :
  match handle_token_transfer toy_transfer toy_funded with
  | (Ok _, s') =>
      exists p, try_from_slice (tx_payload toy_transfer) = Ok p /\ 0 < ttp_amount p
        /\ ttp_amount p <= get_balance toy_funded (toy_addr 1)
        /\ s' = transfer_effect p toy_transfer toy_funded
        /\ supply s' = supply toy_funded
        /\ forall a, get_balance s' a + (if decide (a = toy_addr 1) then ttp_amount p else 0)
                     = get_balance toy_funded a + (if decide (a = ttp_to p) then ttp_amount p else 0)
  | (Err e, s') =>
      s' = toy_funded /\ forall p, try_from_slice (tx_payload toy_transfer) = Ok p ->
        ttp_amount p = 0 \/ get_balance toy_funded (toy_addr 1) < ttp_amount p
  end.
Proof. apply (token_transfer_correct toy_transfer toy_funded). unfold supply_fits. vm_compute. done. Defined.
