(* ===== verification/Agents.v ===== *)
(** * Agents, services and platform activity

    [handle_agent_register], [handle_reputation_attest],
    [handle_service_register] and [handle_platform_activity_report]. *)

From S2P Require Import Prelude Interfaces Types Concrete Vm World HandlerBase ConcreteTx.

Definition STATE_EPOCH_LENGTH : N := 100.
Definition MAX_ACTION_COUNT_PER_ENTRY : N := 10000.

Section agent_handlers.
Context `{TC : TxCodec} `{HX : Hex}.
Implicit Types (tx : Transaction).

Definition handle_agent_register tx : handler unit :=
  payload ← decode AgentRegisterPayload tx;
  registered ← st_gets (fun s => contains_key (ws_agents s) (tx_from tx));
  fail_if registered AgentAlreadyRegistered;;
  fail_if ((slen (arp_name payload) =? 0) || (MAX_NAME_LEN <? slen (arp_name payload)))
    (NameTooLong (slen (arp_name payload)) MAX_NAME_LEN);;
  let entries := N.of_nat (size (arp_metadata payload)) in
  fail_if (MAX_METADATA_ENTRIES <? entries) (MetadataTooLarge entries MAX_METADATA_ENTRIES);;
  st_modify (fun s => s <| ws_agents ::= <[tx_from tx :=
    mkAgentIdentity (tx_from tx) (arp_name payload) (arp_metadata payload) (ws_block_height s)]> |>).

Definition handle_reputation_attest tx : handler unit :=
  st_throw (StakeError "ReputationAttest is deprecated — use PlatformActivityReport").

Definition handle_service_register tx : handler unit :=
  payload ← decode ServiceRegisterPayload tx;
  registered ← st_gets (fun s => contains_key (ws_agents s) (tx_from tx));
  fail_if (negb registered) AgentNotRegistered;;
  let stype := srp_service_type payload in
  fail_if ((slen stype =? 0) || (MAX_NAME_LEN <? slen stype))
    (NameTooLong (slen stype) MAX_NAME_LEN);;
  fail_if (MAX_DESCRIPTION_LEN <? slen (srp_description payload))
    (DescriptionTooLong (slen (srp_description payload)) MAX_DESCRIPTION_LEN);;
  fail_if (MAX_ENDPOINT_LEN <? slen (srp_endpoint payload))
    (EndpointTooLong (slen (srp_endpoint payload)) MAX_ENDPOINT_LEN);;
  st_modify (fun s => s <| ws_services ::= <[(tx_from tx, stype) :=
    mkServiceEntry (tx_from tx) stype (srp_description payload) (srp_price_token payload)
      (srp_price_amount payload) (srp_endpoint payload) (srp_active payload)]> |>).

(** The duplicate check, with the set of agents seen so far. *)
Fixpoint check_duplicates (seen : gset bytes) (reports : list ActivityEntry) : handler unit :=
  match reports with
  | [] => mret tt
  | entry :: reports =>
      fail_if (bool_decide (ae_agent entry ∈ seen)) (DuplicateAgentInReport (hex_encode (ae_agent entry)));;
      check_duplicates ({[ae_agent entry]} ∪ seen) reports
  end.

Definition validate_entry (entry : ActivityEntry) : handler unit :=
  fail_if (MAX_ACTION_TYPE_LEN <? slen (ae_action_type entry))
    (ActionTypeTooLong (slen (ae_action_type entry)) MAX_ACTION_TYPE_LEN);;
  fail_if (MAX_ACTION_COUNT_PER_ENTRY <? ae_action_count entry)
    (ActionCountTooHigh (ae_action_count entry) MAX_ACTION_COUNT_PER_ENTRY);;
  registered ← st_gets (fun s => contains_key (ws_agents s) (ae_agent entry));
  fail_if (negb registered) AgentNotRegistered.

Definition aggregate_entry (entry : ActivityEntry) (m : gmap bytes PlatformActivityAgg)
    : gmap bytes PlatformActivityAgg :=
  let agg := default default_PlatformActivityAgg (m !! ae_agent entry) in
  <[ae_agent entry := mkPlatformActivityAgg (sat_add TWO64 (pa_total_actions agg) (ae_action_count entry))
                        (sat_add TWO32 (pa_platform_count agg) 1)]> m.

Definition handle_platform_activity_report tx : handler unit :=
  payload ← decode PlatformActivityReportPayload tx;
  registered ← st_gets (fun s => contains_key (ws_agents s) (tx_from tx));
  fail_if (negb registered) AgentNotRegistered;;
  stake ← st_gets (fun s => default 0 (ws_stakes s !! tx_from tx));
  fail_if (stake <? PLATFORM_AGENT_MIN_STAKE) (PlatformStakeTooLow PLATFORM_AGENT_MIN_STAKE stake);;
  let entries := N.of_nat (length (par_reports payload)) in
  fail_if (MAX_ACTIVITY_ENTRIES <? entries) (TooManyActivityEntries entries MAX_ACTIVITY_ENTRIES);;
  height ← st_gets ws_block_height;
  let current_epoch := height / STATE_EPOCH_LENGTH in
  reported ← st_gets (fun s => contains_key (ws_platform_report_tracker s) (tx_from tx, current_epoch));
  fail_if reported PlatformReportAlreadySubmitted;;
  check_duplicates ∅ (par_reports payload);;
  for_each validate_entry (par_reports payload);;
  for_each (fun entry => st_modify (fun s => s <| ws_platform_activity ::= aggregate_entry entry |>))
    (par_reports payload);;
  st_modify (fun s => s <| ws_platform_report_tracker ::= <[(tx_from tx, current_epoch) := true]> |>).
End agent_handlers.

(** ** Properties *)

Section agent_facts.
Context `{TC : TxCodec} `{HX : Hex}.
Implicit Types (tx : Transaction) (s : WorldState).

Lemma readonly_check_duplicates seen l : readonly (check_duplicates seen l).
Proof. revert seen. induction l; intros seen; simpl; auto with claw. Qed.
Lemma readonly_validate_entry e : readonly (validate_entry e).
Proof. unfold validate_entry. auto 10 with claw. Qed.
Hint Resolve readonly_check_duplicates readonly_validate_entry : claw.

Lemma agent_register_atomic tx : atomic (handle_agent_register tx).
Proof. unfold handle_agent_register. atomic_tac. Qed.
Lemma service_register_atomic tx : atomic (handle_service_register tx).
Proof. unfold handle_service_register. atomic_tac. Qed.
Lemma activity_report_atomic tx : atomic (handle_platform_activity_report tx).
Proof. unfold handle_platform_activity_report. atomic_tac. Qed.

Lemma check_duplicates_Ok seen l s u s' :
  check_duplicates seen l s = (Ok u, s') ->
  s' = s /\ NoDup (ae_agent <$> l) /\ forall e, e ∈ l -> ae_agent e ∉ seen.
Proof.
  revert seen s. induction l as [|e l IH]; intros seen s Hrun; simpl in Hrun.
  - st_inv. split_and!; [done | constructor | set_solver].
  - st_inv. bools. apply IH in Hrun as (-> & Hnd & Hseen). split_and!; [done | |].
    + apply NoDup_cons_2; [| done].
      rewrite list_elem_of_fmap. intros (e' & He & Hin). apply (Hseen _ Hin). set_solver.
    + intros e' [-> | Hin]%elem_of_cons; [done |]. specialize (Hseen _ Hin). set_solver.
Qed.

Lemma validate_entries_Ok l s u s' :
  for_each validate_entry l s = (Ok u, s') ->
  s' = s /\ Forall (fun e => slen (ae_action_type e) <= MAX_ACTION_TYPE_LEN
                    /\ ae_action_count e <= MAX_ACTION_COUNT_PER_ENTRY
                    /\ is_Some (ws_agents s !! ae_agent e)) l.
Proof.
  revert s. induction l as [|e l IH]; intros s Hrun; simpl in Hrun.
  - st_inv. by split.
  - st_inv. match goal with H : validate_entry e _ = _ |- _ => unfold validate_entry in H end.
    st_inv. bools. apply IH in Hrun as [-> Hl].
    split; [done |]. constructor; [| done]. split_and!; [done | done |].
    match goal with H : contains_key _ _ = true |- _ => by apply contains_key_true in H end.
Qed.

Lemma aggregate_run l s :
  for_each (E:=StateError) (fun e => st_modify (fun s => s <| ws_platform_activity ::= aggregate_entry e |>)) l s
  = (Ok tt, s <| ws_platform_activity ::= fun m => foldl (fun m e => aggregate_entry e m) m l |>).
Proof.
  revert s. induction l as [|e l IH]; intros s; simpl; [by destruct s |].
  unfold mbind, ST_bind, st_modify. by rewrite IH.
Qed.

(** With distinct agents, each report entry is counted exactly once. *)
Lemma aggregate_entries l m a :
  NoDup (ae_agent <$> l) ->
  foldl (fun m e => aggregate_entry e m) m l !! a
  = match list_find (fun e => ae_agent e = a) l with
    | Some (_, e) =>
        let agg := default default_PlatformActivityAgg (m !! a) in
        Some (mkPlatformActivityAgg (sat_add TWO64 (pa_total_actions agg) (ae_action_count e))
                (sat_add TWO32 (pa_platform_count agg) 1))
    | None => m !! a
    end.
Proof.
  revert m. induction l as [|e l IH]; intros m Hnd; [done |].
  rewrite fmap_cons in Hnd. apply NoDup_cons in Hnd as [Hnin Hnd].
  cbn [foldl list_find]. rewrite IH by done. unfold aggregate_entry.
  destruct (decide (ae_agent e = a)) as [<-|Hne].
  - replace (list_find (fun e0 => ae_agent e0 = ae_agent e) l) with (@None (nat * ActivityEntry)).
    + by rewrite lookup_insert_eq.
    + symmetry. apply list_find_None. apply Forall_forall. intros e' Hin Heq.
      apply Hnin. rewrite <- Heq. by apply list_elem_of_fmap_2.
  - rewrite lookup_insert_ne by done. by destruct (list_find _ l) as [[]|].
Qed.

(** An accepted platform report comes from a registered agent with the
    platform stake that had not reported in this epoch, names at most 100
    distinct registered agents with at most 10000 actions each, adds every
    named agent's count once to its aggregate, and bars the reporter from
    reporting again in the epoch; a rejected one changes nothing. *)
Theorem platform_report_correct tx s :
  match handle_platform_activity_report tx s with
  | (Ok _, s') =>
      exists p, try_from_slice (tx_payload tx) = Ok p
      /\ is_Some (ws_agents s !! tx_from tx)
      /\ PLATFORM_AGENT_MIN_STAKE <= amount_of (ws_stakes s) (tx_from tx)
      /\ (length (par_reports p) <= 100)%nat /\ NoDup (ae_agent <$> par_reports p)
      /\ Forall (fun e => ae_action_count e <= 10000 /\ is_Some (ws_agents s !! ae_agent e))
           (par_reports p)
      /\ (forall a, ws_platform_activity s' !! a
            = match list_find (fun e => ae_agent e = a) (par_reports p) with
              | Some (_, e) =>
                  let agg := default default_PlatformActivityAgg (ws_platform_activity s !! a) in
                  Some (mkPlatformActivityAgg
                          (sat_add TWO64 (pa_total_actions agg) (ae_action_count e))
                          (sat_add TWO32 (pa_platform_count agg) 1))
              | None => ws_platform_activity s !! a
              end)
      /\ ws_platform_report_tracker s !! (tx_from tx, ws_block_height s / 100) = None
      /\ (handle_platform_activity_report tx s').1 = Err PlatformReportAlreadySubmitted
  | (Err _, s') => s' = s
  end.
Proof.
  destruct (handle_platform_activity_report tx s) as [[[]|e] s'] eqn:Hrun;
    [| by apply activity_report_atomic in Hrun].
  unfold handle_platform_activity_report, decode, decode_bytes in Hrun. st_inv. bools.
  match goal with H : try_from_slice _ = Ok ?q |- _ => rename q into p, H into Hp end.
  match goal with H : check_duplicates _ _ _ = _ |- _ => apply check_duplicates_Ok in H as (-> & Hnd & _) end.
  match goal with H : for_each validate_entry _ _ = _ |- _ => apply validate_entries_Ok in H as (-> & Hval) end.
  match goal with H : for_each _ _ _ = _ |- _ => rewrite aggregate_run in H; injection H as _ <- end.
  match goal with H : contains_key (ws_platform_report_tracker _) _ = _ |- _ =>
    rename H into Htrack; pose proof (proj1 (contains_key_false _ _) Htrack) as Hnew end.
  match goal with H : contains_key (ws_agents _) (tx_from tx) = _ |- _ => rename H into Hreg end.
  exists p. upd. unfold STATE_EPOCH_LENGTH, MAX_ACTIVITY_ENTRIES in *.
  split_and!; try done.
  - by apply contains_key_true.
  - lia.
  - eapply Forall_impl; [exact Hval |]. unfold MAX_ACTION_COUNT_PER_ENTRY. naive_solver.
  - intros a. by apply aggregate_entries.
  - unfold handle_platform_activity_report, decode, decode_bytes.
    cbv [mbind ST_bind st_gets fail_if map_err]. rewrite Hp. upd. rewrite Hreg. simpl.
    destruct (N.ltb_spec (default 0 (ws_stakes s !! tx_from tx)) PLATFORM_AGENT_MIN_STAKE); [lia |].
    unfold MAX_ACTIVITY_ENTRIES.
    destruct (N.ltb_spec 100 (N.of_nat (length (par_reports p)))); [lia |].
    unfold contains_key. by rewrite lookup_insert_eq.
Qed.
End agent_facts.
