(* ===== verification/Staking.v ===== *)
(** * Staking transactions

    [handle_stake_deposit], [handle_change_delegation],
    [handle_stake_withdraw] and [handle_stake_claim]: stake moves from the
    balances to the stakes, from there to the unbonding queue, and from there
    back to a balance. *)

From S2P Require Import Prelude Interfaces Types Concrete Vm World HandlerBase ConcreteTx.
From stdpp Require Import pretty.
#[local] Open Scope N_scope.

(** [MIN_STAKE] of [handlers.rs]. *)
Definition HANDLERS_MIN_STAKE : N := 10000000000000.
Definition MAX_UNBONDING_PER_ADDRESS : N := 100.

Section stake_handlers.
Context `{TC : TxCodec}.
Implicit Types (tx : Transaction).

(** The two payload layouts: 48 bytes without a commission, or the current one. *)
Definition decode_stake_deposit tx : handler (N * bytes * N) :=
  if blen (tx_payload tx) =? 48 then
    '(amount, validator) ← decode (N * bytes) tx;
    mret (amount, validator, 10000)
  else
    payload ← decode StakeDepositPayload tx;
    mret (sdp_amount payload, sdp_validator payload, sdp_commission_bps payload).

Definition commission_error (bps : N) : StateError :=
  StakeError ("commission_bps " +:+ pretty bps +:+ " exceeds maximum 10000").

Definition handle_stake_deposit tx : handler unit :=
  '(amount, validator, commission_bps) ← decode_stake_deposit tx;
  fail_if (amount =? 0) ZeroAmount;;
  fail_if (10000 <? commission_bps) (commission_error commission_bps);;
  sender_bal ← st_gets (fun s => get_balance s (tx_from tx));
  fail_if (sender_bal <? amount) (InsufficientBalance amount sender_bal);;
  let validator_addr := if bool_decide (validator = zeros32) then tx_from tx else validator in
  current_stake ← st_gets (fun s => default 0 (ws_stakes s !! validator_addr));
  new_stake ← ok_or (checked_add TWO128 current_stake amount) (StakeError "stake overflow");
  fail_if ((current_stake =? 0) && (new_stake <? HANDLERS_MIN_STAKE))
    (StakeError ("initial stake " +:+ pretty new_stake +:+ " below minimum "
                   +:+ pretty HANDLERS_MIN_STAKE));;
  debit (tx_from tx) amount;;
  st_modify (fun s => s <| ws_stakes ::= <[validator_addr := new_stake]> |>);;
  existing_owner ← st_gets (fun s => ws_stake_delegations s !! validator_addr);
  (if existing_owner is Some owner then
     if negb (bool_decide (tx_from tx = owner)) && negb (bool_decide (tx_from tx = validator_addr)) then
       credit (tx_from tx) amount;;
       st_modify (fun s => s <| ws_stakes ::= <[validator_addr := current_stake]> |>);;
       st_throw (StakeError "validator already has a different delegation owner")
     else mret tt
   else mret tt);;
  st_modify (fun s => s <| ws_stake_delegations ::=
    <[validator_addr := default (tx_from tx) existing_owner]> |>);;
  (if bool_decide (tx_from tx = validator_addr) || bool_decide (existing_owner = None)
      || bool_decide (existing_owner = Some (tx_from tx))
   then st_modify (fun s => s <| ws_stake_commissions ::= <[validator_addr := commission_bps]> |>)
   else mret tt);;
  st_modify (fun s => s <| ws_user_delegations ::= fun m =>
    let user_entry := default ∅ (m !! tx_from tx) in
    let prev_user_stake := default 0 (user_entry !! validator_addr) in
    <[tx_from tx := <[validator_addr := u128_add prev_user_stake amount]> user_entry]> m |>).

Definition handle_change_delegation tx : handler unit :=
  payload ← decode ChangeDelegationPayload tx;
  let validator := chp_validator payload in
  fail_if (10000 <? chp_commission_bps payload) (commission_error (chp_commission_bps payload));;
  fail_if (bool_decide (chp_new_owner payload = validator))
    (StakeError "new_owner cannot be the same as validator (use self-stake instead)");;
  stake ← st_gets (fun s => default 0 (ws_stakes s !! validator));
  fail_if (stake =? 0) (StakeError "validator has no active stake");;
  current_delegator ← st_gets (fun s => default validator (ws_stake_delegations s !! validator));
  let is_self_stake := bool_decide (current_delegator = validator) in
  fail_if (negb (bool_decide (tx_from tx = current_delegator))
           && negb (is_self_stake && bool_decide (tx_from tx = validator)))
    (StakeError "not authorized: only the current delegator can change delegation");;
  st_modify (fun s => s <| ws_stake_delegations ::= <[validator := chp_new_owner payload]> |>);;
  st_modify (fun s => s <| ws_stake_commissions ::= <[validator := chp_commission_bps payload]> |>).

(** A 16-byte payload is an amount only. *)
Definition decode_stake_withdraw tx : handler StakeWithdrawPayload :=
  if blen (tx_payload tx) =? 16 then mret (mkStakeWithdrawPayload (le_value (tx_payload tx)) zeros32)
  else decode StakeWithdrawPayload tx.

(** Whose stake to withdraw from: the named validator if the sender may, else
    the sender's own stake, else the first one delegated by the sender. *)
Definition withdraw_validator (payload : StakeWithdrawPayload) tx : handler bytes :=
  let validator := swp_validator payload in
  if negb (bool_decide (validator = zeros32)) then
    owner ← st_gets (fun s => ws_stake_delegations s !! validator);
    fail_if (negb (bool_decide (owner = Some (tx_from tx))) && negb (bool_decide (validator = tx_from tx)))
      (StakeError "not authorized to unstake from this validator");;
    mret validator
  else
    own ← st_gets (fun s => default 0 (ws_stakes s !! tx_from tx));
    if 0 <? own then mret (tx_from tx)
    else
      delegated ← st_gets (fun s =>
        list_find (fun p => p.2 = tx_from tx) (addr_entries (ws_stake_delegations s)));
      ok_or ((fun p => p.2.1) <$> delegated)
        (StakeError "no stake found for this address (neither direct nor delegated)").

Definition drop_user_delegation (from validator : bytes) (amount : N)
    (m : gmap bytes (gmap bytes N)) : gmap bytes (gmap bytes N) :=
  match m !! from with
  | None => m
  | Some user_entry =>
      let prev := default 0 (user_entry !! validator) in
      let user_remaining := sat_sub prev amount in
      if user_remaining =? 0 then
        let user_entry := delete validator user_entry in
        if bool_decide (user_entry = ∅) then delete from m else <[from := user_entry]> m
      else <[from := <[validator := user_remaining]> user_entry]> m
  end.

Definition handle_stake_withdraw tx : handler unit :=
  payload ← decode_stake_withdraw tx;
  let amount := swp_amount payload in
  fail_if (amount =? 0) ZeroAmount;;
  validator_addr ← withdraw_validator payload tx;
  current_stake ← st_gets (fun s => default 0 (ws_stakes s !! validator_addr));
  fail_if (current_stake <? amount)
    (StakeError ("unstake " +:+ pretty amount +:+ " exceeds staked amount " +:+ pretty current_stake));;
  let remaining := current_stake - amount in
  fail_if ((0 <? remaining) && (remaining <? HANDLERS_MIN_STAKE))
    (StakeError ("remaining stake " +:+ pretty remaining +:+ " would be below minimum "
      +:+ pretty HANDLERS_MIN_STAKE +:+ "; withdraw all or leave at least " +:+ pretty HANDLERS_MIN_STAKE));;
  (if remaining =? 0 then
     st_modify (fun s => s <| ws_stakes ::= delete validator_addr |>
                           <| ws_stake_delegations ::= delete validator_addr |>
                           <| ws_stake_commissions ::= delete validator_addr |>)
   else st_modify (fun s => s <| ws_stakes ::= <[validator_addr := remaining]> |>));;
  st_modify (fun s => s <| ws_user_delegations ::= drop_user_delegation (tx_from tx) validator_addr amount |>);;
  pending ← st_gets (fun s =>
    N.of_nat (length (filter (fun e => ub_address e = validator_addr) (ws_unbonding_queue s))));
  fail_if (MAX_UNBONDING_PER_ADDRESS <=? pending) (StakeError "too many pending unbonding entries");;
  height ← st_gets ws_block_height;
  let release_height := u64_add height UNBONDING_PERIOD_BLOCKS in
  st_modify (fun s => s <| ws_unbonding_queue ::= fun q =>
    q ++ [mkUnbondingEntry (tx_from tx) amount release_height] |>).

Definition claimable (from : bytes) (height : N) (e : UnbondingEntry) : bool :=
  bool_decide (ub_address e = from) && (ub_release_height e <=? height).

(** The loop over the taken queue: total claimed and entries kept. *)
Fixpoint claim_loop (from : bytes) (height : N) (queue : list UnbondingEntry) (total_claimed : N)
    (remaining_queue : list UnbondingEntry) : handler (N * list UnbondingEntry) :=
  match queue with
  | [] => mret (total_claimed, remaining_queue)
  | entry :: queue =>
      if claimable from height entry then
        total ← ok_or (checked_add TWO128 total_claimed (ub_amount entry)) (StakeError "claim overflow");
        claim_loop from height queue total remaining_queue
      else claim_loop from height queue total_claimed (remaining_queue ++ [entry])
  end.

(** [std::mem::take] empties the queue before the loop. *)
Definition handle_stake_claim tx : handler unit :=
  _ ← decode StakeClaimPayload tx;
  current_height ← st_gets ws_block_height;
  queue ← st_gets ws_unbonding_queue;
  st_modify (fun s => s <| ws_unbonding_queue := [] |>);;
  '(total_claimed, remaining_queue) ← claim_loop (tx_from tx) current_height queue 0 [];
  fail_if (total_claimed =? 0) NoClaimableUnbonding;;
  st_modify (fun s => s <| ws_unbonding_queue := remaining_queue |>);;
  credit (tx_from tx) total_claimed.
End stake_handlers.

(** ** Properties *)

Section stake_facts.
Context `{TC : TxCodec}.
Implicit Types (tx : Transaction) (s : WorldState).

Lemma readonly_decode_stake_deposit tx : readonly (decode_stake_deposit tx).
Proof.
  unfold decode_stake_deposit. destruct (_ =? 48); [| auto with claw].
  apply readonly_bind; [auto with claw |]. intros []. auto with claw.
Qed.
Lemma readonly_decode_stake_withdraw tx : readonly (decode_stake_withdraw tx).
Proof. unfold decode_stake_withdraw. destruct (_ =? 16); auto with claw. Qed.
Lemma readonly_withdraw_validator p tx : readonly (withdraw_validator p tx).
Proof.
  unfold withdraw_validator. destruct (negb _); [auto 10 with claw |].
  apply readonly_bind; [auto with claw |]. intros own. destruct (0 <? own); auto with claw.
Qed.
Hint Resolve readonly_decode_stake_deposit readonly_decode_stake_withdraw
  readonly_withdraw_validator : claw.

(** The address a deposit stakes for. *)
Definition deposit_validator tx (validator : bytes) : bytes :=
  if bool_decide (validator = zeros32) then tx_from tx else validator.

(** The funds after a deposit, whatever it did to the delegation records. *)
Lemma deposit_funds s s' from v amount n :
  2 * supply s < TWO128 -> amount <= get_balance s from ->
  checked_add TWO128 (default 0 (ws_stakes s !! v)) amount = Some n ->
  ws_balances s' = entry_sub TWO128 from amount (ws_balances s) ->
  ws_stakes s' = <[v := n]> (ws_stakes s) ->
  ws_unbonding_queue s' = ws_unbonding_queue s ->
  ws_epoch_reward_bucket s' = ws_epoch_reward_bucket s -> ws_miners s' = ws_miners s ->
  (forall a, get_balance s' a = get_balance s a - (if decide (from = a) then amount else 0))
  /\ ws_stakes s' = <[v := amount_of (ws_stakes s) v + amount]> (ws_stakes s)
  /\ supply s' = supply s.
Proof.
  intros Hs Hle [Hn _]%checked_add_Some Hbal Hst Hq Hb Hm.
  rewrite <- amount_of_default in Hn. subst n. split_and!.
  - intros a. rewrite <- balance_debit by (done || lia).
    rewrite !get_balance_amount, Hbal. by upd.
  - done.
  - pose proof (balance_le_supply s from). rewrite get_balance_amount in Hle.
    pose proof (supply_stake_insert s v (amount_of (ws_stakes s) v + amount)) as H1.
    pose proof (total_entry_sub TWO128 (ws_balances s) from amount).
    pose proof (amount_le_total (ws_balances s) from).
    unfold supply in *. rewrite Hbal, Hst, Hq, Hb, Hm. upd. lia.
Qed.

(** Undoing it. *)
Lemma deposit_refund s from v amount n :
  2 * supply s < TWO128 -> 0 < amount -> amount <= get_balance s from ->
  let s' := s <| ws_balances ::= entry_sub TWO128 from amount |> <| ws_stakes ::= <[v := n]> |>
              <| ws_balances ::= entry_add TWO128 from amount |>
              <| ws_stakes ::= <[v := default 0 (ws_stakes s !! v)]> |> in
  (forall a, get_balance s' a = get_balance s a)
  /\ (forall u, amount_of (ws_stakes s') u = amount_of (ws_stakes s) u) /\ supply s' = supply s.
Proof.
  intros Hs Hpos Hle s'. rewrite get_balance_amount in Hle.
  pose proof (balance_le_supply s from).
  assert (ws_balances s' = ws_balances s) as Hbal.
  { subst s'. upd. apply entry_add_sub; [| lia | done].
    rewrite amount_of_default in Hle. destruct (ws_balances s !! from); [done | simpl in Hle; lia]. }
  assert (forall u, amount_of (ws_stakes s') u = amount_of (ws_stakes s) u) as Hst.
  { intros u. subst s'. upd. rewrite insert_insert_eq.
    destruct (decide (v = u)) as [-> |]; [| by rewrite mval_insert_ne].
    by rewrite mval_insert_eq, amount_of_default. }
  split_and!; [| done |].
  - intros a. by rewrite !get_balance_amount, Hbal.
  - assert (map_total (ws_stakes s') = map_total (ws_stakes s)) as Htot.
    { subst s'. upd. rewrite insert_insert_eq.
      pose proof (total_insert (ws_stakes s) v (default 0 (ws_stakes s !! v))) as H1.
      rewrite <- amount_of_default in H1. rewrite <- amount_of_default. lia. }
    unfold supply. rewrite Hbal, Htot. subst s'. by upd.
Qed.

Lemma deposit_owner s tx v l :
  ws_stake_delegations s !! v = l ->
  negb (bool_decide (tx_from tx = default (tx_from tx) l)) && negb (bool_decide (tx_from tx = v)) = false ->
  ws_stake_delegations s !! v = None \/ ws_stake_delegations s !! v = Some (tx_from tx)
  \/ tx_from tx = v.
Proof.
  intros -> Hc. destruct l as [o|]; [right | by left]. simpl in Hc.
  destruct (decide (tx_from tx = v)); [by right | left].
  rewrite (bool_decide_eq_false_2 (tx_from tx = v)), andb_true_r in Hc by done.
  apply negb_false_iff, bool_decide_eq_true in Hc. by rewrite Hc.
Qed.

(** What a deposit promises of its outcome. *)
Definition deposit_spec tx s (out : result unit StateError * WorldState) : Prop :=
  match out with
  | (Ok _, s') =>
      exists amount validator bps, decode_stake_deposit tx s = (Ok (amount, validator, bps), s)
      /\ let v := deposit_validator tx validator in
         0 < amount /\ amount <= get_balance s (tx_from tx) /\ bps <= 10000
         /\ (forall a, get_balance s' a = get_balance s a - (if decide (tx_from tx = a) then amount else 0))
         /\ ws_stakes s' = <[v := amount_of (ws_stakes s) v + amount]> (ws_stakes s)
         /\ supply s' = supply s
         /\ (ws_stake_delegations s !! v = None \/ ws_stake_delegations s !! v = Some (tx_from tx)
             \/ tx_from tx = v)
         /\ ws_stake_delegations s' !! v = Some (default (tx_from tx) (ws_stake_delegations s !! v))
         /\ (amount_of (ws_stakes s) v = 0 -> HANDLERS_MIN_STAKE <= amount)
  | (Err _, s') =>
      (forall a, get_balance s' a = get_balance s a)
      /\ (forall v, amount_of (ws_stakes s') v = amount_of (ws_stakes s) v)
      /\ supply s' = supply s
  end.

Lemma stake_deposit_outcome tx s :
  supply_fits s -> deposit_spec tx s (handle_stake_deposit tx s).
Proof.
  unfold supply_fits, deposit_spec. intros Hs.
  destruct (handle_stake_deposit tx s) as [r s'] eqn:Hrun. unfold handle_stake_deposit in Hrun.
  rewrite bind_readonly in Hrun by auto with claw.
  destruct (decode_stake_deposit tx s) as [[[[amount validator] bps]|e] s1] eqn:Hdec;
    [| by injection Hrun as <- <-].
  apply readonly_decode_stake_deposit in Hdec as ->.
  unfold debit, credit in Hrun. cbn [fst] in Hrun. fold (deposit_validator tx validator) in Hrun.
  st_exec Hrun; try (by split_and!); bools.
  all: st_exec Hrun.
  1: apply deposit_refund; try done; lia.
  all: exists amount, validator, bps.
  all: match goal with H : checked_add _ _ _ = Some ?n |- _ =>
         pose proof H as Hn; apply checked_add_Some in Hn as [-> _]; rename H into Hadd end.
  all: split; [done |]; cbv zeta; set (v := deposit_validator tx validator) in *.
  all: match goal with |- context [supply ?s1 = _] =>
         destruct (deposit_funds s s1 (tx_from tx) v amount _ Hs ltac:(lia) Hadd) as (Hb & Hst & Hsup);
           [done .. |] end.
  all: split_and!; try done; try lia; clear Hb Hst Hsup.
  all: try (left; assumption).
  all: try (eapply deposit_owner; eassumption).
  all: try (upd_goal; rewrite lookup_insert_eq; do 2 f_equal; symmetry; assumption).
  all: rewrite amount_of_default; intros Hz; rewrite Hz, N.eqb_refl in *; simpl andb in *; bools; lia.
Qed.

(** A successful deposit moves a positive amount the sender holds from its
    balance to the stake of the named validator (itself when none is named),
    leaves every other balance and stake alone, keeps the supply, is made
    either by the validator's recorded owner, by the validator, or for a
    validator without an owner, who then is the sender, and brings a validator
    without stake to at least the minimum stake.  A failed one leaves every
    balance and every stake as they were. *)
Theorem stake_deposit_correct tx s :
  supply_fits s -> deposit_spec tx s (handle_stake_deposit tx s).
Proof. exact (stake_deposit_outcome tx s). Qed.

(** Only the validator or its recorded owner may withdraw. *)
Lemma withdraw_validator_auth p tx s v s' :
  withdraw_validator p tx s = (Ok v, s') ->
  s' = s /\ (tx_from tx = v \/ ws_stake_delegations s !! v = Some (tx_from tx)).
Proof.
  intros Hrun. pose proof (readonly_withdraw_validator _ _ _ _ _ Hrun) as ->. split; [done |].
  unfold withdraw_validator in Hrun. destruct (negb (bool_decide (swp_validator p = zeros32))).
  - st_inv. match goal with H : _ && _ = false |- _ => rename H into Hc end.
    apply andb_false_iff in Hc as [Hc | Hc]; bools; [by right | by left].
  - rewrite bind_gets in Hrun. destruct (0 <? default 0 (ws_stakes s !! tx_from tx)).
    { st_inv. by left. }
    st_inv. right. destruct (list_find _ _) as [[i [v' o']]|] eqn:Hf; simplify_eq/=.
    apply list_find_Some in Hf as (Hf & Ho & _). simpl in Ho. subst o'.
    apply list_elem_of_lookup_2 in Hf. by apply elem_of_sorted_entries in Hf.
Qed.

Definition pending_of (s : WorldState) (v : bytes) : N :=
  N.of_nat (length (filter (fun e => ub_address e = v) (ws_unbonding_queue s))).

(** The stakes after taking [amount] from [v]. *)
Lemma withdraw_stakes (m : gmap bytes N) v amount u :
  amount <= default 0 (m !! v) ->
  amount_of (if default 0 (m !! v) - amount =? 0 then delete v m
             else <[v := default 0 (m !! v) - amount]> m) u
  = amount_of m u - (if decide (v = u) then amount else 0).
Proof.
  rewrite <- amount_of_default. intros Hle. destruct (N.eqb_spec (amount_of m v - amount) 0).
  - unfold mval. case_decide; subst; [rewrite lookup_delete_eq; unfold mval in *; simpl; lia |].
    rewrite lookup_delete_ne by done. lia.
  - case_decide; subst; [by rewrite mval_insert_eq | rewrite mval_insert_ne by done; lia].
Qed.

Lemma withdraw_stakes_total (m : gmap bytes N) v amount :
  amount <= default 0 (m !! v) ->
  map_total (if default 0 (m !! v) - amount =? 0 then delete v m
             else <[v := default 0 (m !! v) - amount]> m) + amount = map_total m.
Proof.
  rewrite <- amount_of_default. intros Hle. pose proof (amount_le_total m v).
  destruct (N.eqb_spec (amount_of m v - amount) 0).
  - pose proof (msum_delete (fun x : N => x) m v). lia.
  - pose proof (total_insert m v (amount_of m v - amount)). lia.
Qed.
End stake_facts.

Section withdraw.
Context `{TC : TxCodec}.
Implicit Types (tx : Transaction) (s : WorldState).

Lemma withdraw_funds s s' v amount pushed :
  amount <= default 0 (ws_stakes s !! v) ->
  ws_stakes s' = (if default 0 (ws_stakes s !! v) - amount =? 0 then delete v (ws_stakes s)
                  else <[v := default 0 (ws_stakes s !! v) - amount]> (ws_stakes s)) ->
  ws_unbonding_queue s' = ws_unbonding_queue s ++ pushed ->
  ws_balances s' = ws_balances s ->
  ws_epoch_reward_bucket s' = ws_epoch_reward_bucket s -> ws_miners s' = ws_miners s ->
  (forall u, amount_of (ws_stakes s') u
     = amount_of (ws_stakes s) u - (if decide (v = u) then amount else 0))
  /\ supply s' + amount = supply s + lsum ub_amount pushed.
Proof.
  intros Hle Hst Hq Hbal Hb Hm. split.
  - intros u. rewrite Hst. by apply withdraw_stakes.
  - pose proof (withdraw_stakes_total _ _ _ Hle) as Htot. rewrite <- Hst in Htot.
    unfold supply. rewrite Hq, Hbal, Hb, Hm, lsum_app. lia.
Qed.

Lemma stake_withdraw_outcome tx s :
  match handle_stake_withdraw tx s with
  | (Ok _, s') =>
      exists p v, decode_stake_withdraw tx s = (Ok p, s) /\ withdraw_validator p tx s = (Ok v, s)
      /\ (tx_from tx = v \/ ws_stake_delegations s !! v = Some (tx_from tx))
      /\ let amount := swp_amount p in
         0 < amount /\ amount <= amount_of (ws_stakes s) v
         /\ (amount = amount_of (ws_stakes s) v
             \/ HANDLERS_MIN_STAKE <= amount_of (ws_stakes s) v - amount)
         /\ (forall u, amount_of (ws_stakes s') u
               = amount_of (ws_stakes s) u - (if decide (v = u) then amount else 0))
         /\ ws_unbonding_queue s'
            = ws_unbonding_queue s
              ++ [mkUnbondingEntry (tx_from tx) amount
                    (u64_add (ws_block_height s) UNBONDING_PERIOD_BLOCKS)]
         /\ ws_balances s' = ws_balances s /\ supply s' = supply s
  | (Err _, s') =>
      s' = s
      \/ exists p v, decode_stake_withdraw tx s = (Ok p, s) /\ withdraw_validator p tx s = (Ok v, s)
           /\ 100 <= pending_of s v /\ 0 < swp_amount p
           /\ supply s' + swp_amount p = supply s
  end.
Proof.
  destruct (handle_stake_withdraw tx s) as [r s'] eqn:Hrun. unfold handle_stake_withdraw in Hrun.
  rewrite bind_readonly in Hrun by apply readonly_decode_stake_withdraw.
  destruct (decode_stake_withdraw tx s) as [[p|e] s1] eqn:Hdec;
    [| injection Hrun as <- <-; by left].
  apply readonly_decode_stake_withdraw in Hdec as ->. cbn [fst] in Hrun. cbv beta zeta in Hrun.
  rewrite bind_fail_if in Hrun. destruct (swp_amount p =? 0) eqn:Hpos; [injection Hrun as <- <-; by left |].
  rewrite bind_readonly in Hrun by apply readonly_withdraw_validator.
  destruct (withdraw_validator p tx s) as [[v|e] s1] eqn:Hval; [| injection Hrun as <- <-; by left].
  apply withdraw_validator_auth in Hval as Hauth. destruct Hauth as [-> Hauth]. cbn [fst] in Hrun.
  set (amount := swp_amount p) in *.
  st_exec Hrun; try (by left); bools.
  all: match goal with
    | H : default 0 _ - _ = 0 |- _ =>
        rename H into Hrem; assert ((default 0 (ws_stakes s !! v) - amount =? 0) = true) as Hcase
          by (by apply N.eqb_eq)
    | H : default 0 _ - _ <> 0 |- _ =>
        rename H into Hrem; assert ((default 0 (ws_stakes s !! v) - amount =? 0) = false) as Hcase
          by (by apply N.eqb_neq)
    end.
  all: pose proof (fun s' pushed => withdraw_funds s s' v amount pushed ltac:(assumption)) as Hfunds;
    rewrite Hcase in Hfunds.
  1, 3: right; exists p, v; split_and!; try done; [lia |];
    match goal with |- supply ?s1 + _ = _ =>
      destruct (Hfunds s1 []) as [_ Hsup]; [done | by rewrite app_nil_r | done .. |] end;
    simpl in Hsup; lia.
  all: exists p, v; split_and!; try done; cbv zeta; fold amount; rewrite (amount_of_default _ v).
  all: match goal with |- context [ws_balances ?s1 = ws_balances _] =>
         destruct (Hfunds s1 [mkUnbondingEntry (tx_from tx) amount
                    (u64_add (ws_block_height s) UNBONDING_PERIOD_BLOCKS)]) as [Hu Hsup];
           [done .. |] end; clear Hfunds.
  all: split_and!; [lia | lia | | exact Hu | done | done |].
  2, 4: apply (N.add_cancel_r _ _ amount); simpl in Hsup; rewrite N.add_0_r in Hsup; exact Hsup.
  - left. lia.
  - right. bools. destruct (N.ltb_spec 0 (default 0 (ws_stakes s !! v) - amount)); [| lia].
    simpl in Heqb0. bools. done.
Qed.

(** A successful withdrawal is made by the validator or its recorded owner
    for a positive amount of that validator's stake that leaves either nothing
    or at least the minimum; it takes exactly that amount from the stake and
    appends one unbonding entry of it for the sender, released 201600 blocks
    later; balances and supply stay.  A failed one changes nothing, or else the
    validator had 100 pending entries, and then the amount has left the supply. *)
Theorem stake_withdraw_correct tx s :
  match handle_stake_withdraw tx s with
  | (Ok _, s') =>
      exists p v, decode_stake_withdraw tx s = (Ok p, s) /\ withdraw_validator p tx s = (Ok v, s)
      /\ (tx_from tx = v \/ ws_stake_delegations s !! v = Some (tx_from tx))
      /\ let amount := swp_amount p in
         0 < amount /\ amount <= amount_of (ws_stakes s) v
         /\ (amount = amount_of (ws_stakes s) v
             \/ HANDLERS_MIN_STAKE <= amount_of (ws_stakes s) v - amount)
         /\ (forall u, amount_of (ws_stakes s') u
               = amount_of (ws_stakes s) u - (if decide (v = u) then amount else 0))
         /\ ws_unbonding_queue s'
            = ws_unbonding_queue s
              ++ [mkUnbondingEntry (tx_from tx) amount
                    (u64_add (ws_block_height s) UNBONDING_PERIOD_BLOCKS)]
         /\ ws_balances s' = ws_balances s /\ supply s' = supply s
  | (Err _, s') =>
      s' = s
      \/ exists p v, decode_stake_withdraw tx s = (Ok p, s) /\ withdraw_validator p tx s = (Ok v, s)
           /\ 100 <= pending_of s v /\ 0 < swp_amount p
           /\ supply s' + swp_amount p = supply s
  end.
Proof. exact (stake_withdraw_outcome tx s). Qed.
End withdraw.

Section claim.
Context `{TC : TxCodec}.
Implicit Types (tx : Transaction) (s : WorldState) (q : list UnbondingEntry).

Definition claimed (from : bytes) (height : N) q : list UnbondingEntry :=
  filter (fun e => claimable from height e = true) q.
Definition kept (from : bytes) (height : N) q : list UnbondingEntry :=
  filter (fun e => claimable from height e = false) q.

Lemma claim_loop_run from height q tot rem s :
  tot + lsum ub_amount (claimed from height q) < TWO128 ->
  claim_loop from height q tot rem s
  = (Ok (tot + lsum ub_amount (claimed from height q), rem ++ kept from height q), s).
Proof.
  revert tot rem. induction q as [|e q IH]; intros tot rem; simpl.
  - intros _. by rewrite N.add_0_r, app_nil_r.
  - unfold claimed, kept. destruct (claimable from height e) eqn:Hc.
    + rewrite filter_cons_True, filter_cons_False by congruence. simpl. intros Hlt.
      unfold ok_or, checked_add. destruct (N.ltb_spec (tot + ub_amount e) TWO128); [| lia].
      unfold mbind, ST_bind. rewrite IH; [| unfold claimed; lia].
      unfold claimed, kept. do 3 f_equal. lia.
    + rewrite filter_cons_False, filter_cons_True by congruence. intros Hlt.
      rewrite IH by done. by rewrite <- app_assoc.
Qed.

Lemma claimed_kept_sum from height q :
  lsum ub_amount (claimed from height q) + lsum ub_amount (kept from height q) = lsum ub_amount q.
Proof.
  induction q as [|e q IH]; [done |]. unfold claimed, kept in *.
  destruct (claimable from height e) eqn:Hc.
  - rewrite filter_cons_True, (filter_cons_False (fun e => _ = false)) by congruence. simpl. lia.
  - rewrite filter_cons_False, (filter_cons_True (fun e => _ = false)) by congruence. simpl. lia.
Qed.

(** The whole handler on a supply that fits. *)
Lemma stake_claim_run tx s :
  supply_fits s ->
  let total := lsum ub_amount (claimed (tx_from tx) (ws_block_height s) (ws_unbonding_queue s)) in
  handle_stake_claim tx s =
  match try_from_slice (A:=StakeClaimPayload) (tx_payload tx) with
  | Err e => (Err (PayloadDeserialize e), s)
  | Ok _ =>
      if total =? 0 then (Err NoClaimableUnbonding, s <| ws_unbonding_queue := [] |>)
      else (Ok tt, s <| ws_unbonding_queue := kept (tx_from tx) (ws_block_height s) (ws_unbonding_queue s) |>
                     <| ws_balances ::= entry_add TWO128 (tx_from tx) total |>)
  end.
Proof.
  intros Hs total. unfold supply_fits in Hs. unfold handle_stake_claim, decode, decode_bytes.
  rewrite bind_map_err. destruct (try_from_slice _) as [p|e]; [| done].
  rewrite !bind_gets, bind_modify.
  pose proof (claimed_kept_sum (tx_from tx) (ws_block_height s) (ws_unbonding_queue s)).
  assert (lsum ub_amount (ws_unbonding_queue s) <= supply s) by (unfold supply; lia).
  assert (0 + total < TWO128) as Hlt by (unfold total; lia).
  rewrite (bind_run _ _ _ _ _ (claim_loop_run _ _ _ 0 [] _ Hlt)).
  cbv beta iota. rewrite N.add_0_l, app_nil_l. fold total. rewrite bind_fail_if.
  by destruct (total =? 0).
Qed.

(** A claim credits the sender with exactly its mature unbonding entries,
    of which there must be a positive amount, and removes exactly these from
    the queue, in order; nobody's immature entry, and nobody else's entry, is
    touched, and the supply is unchanged. *)
Theorem stake_claim_correct tx s s' :
  supply_fits s -> handle_stake_claim tx s = (Ok tt, s') ->
  let q := ws_unbonding_queue s in
  let total := lsum ub_amount (claimed (tx_from tx) (ws_block_height s) q) in
  0 < total
  /\ (forall e, e ∈ q -> claimable (tx_from tx) (ws_block_height s) e = true ->
        ub_address e = tx_from tx /\ ub_release_height e <= ws_block_height s)
  /\ ws_unbonding_queue s' = kept (tx_from tx) (ws_block_height s) q
  /\ (forall a, get_balance s' a = get_balance s a + (if decide (tx_from tx = a) then total else 0))
  /\ ws_stakes s' = ws_stakes s /\ supply s' = supply s.
Proof.
  intros Hs Hrun q total. rewrite (stake_claim_run tx s Hs) in Hrun. fold q total in Hrun.
  destruct (try_from_slice _) as [p|]; [| done]. destruct (N.eqb_spec total 0); [done |].
  injection Hrun as <-. unfold supply_fits in Hs.
  pose proof (claimed_kept_sum (tx_from tx) (ws_block_height s) q) as Hsum. fold total in Hsum.
  split_and!; [lia | | done | | done |].
  - intros e _ Hc. unfold claimable in Hc. by bools.
  - intros a. rewrite balance_credit; [done |]. unfold supply in *. upd. subst q. lia.
  - rewrite supply_credit; unfold supply in *; upd; subst q; lia.
Qed.

(** A claim that finds nothing mature fails, and the emptied queue is not
    put back: every pending withdrawal of every account is gone, and the supply
    has shrunk by all of them. *)
Theorem stake_claim_failure_wipes_queue tx s p :
  supply_fits s -> try_from_slice (A:=StakeClaimPayload) (tx_payload tx) = Ok p ->
  lsum ub_amount (claimed (tx_from tx) (ws_block_height s) (ws_unbonding_queue s)) = 0 ->
  exists s', handle_stake_claim tx s = (Err NoClaimableUnbonding, s')
    /\ ws_unbonding_queue s' = []
    /\ supply s' + lsum ub_amount (ws_unbonding_queue s) = supply s.
Proof.
  intros Hs Hp Hz. eexists. rewrite (stake_claim_run tx s Hs), Hp, Hz. simpl.
  split_and!; [done | done |]. unfold supply. upd. simpl. lia.
Qed.

(** With 100 entries pending under the validator's address, an otherwise
    valid withdrawal fails after the stake was already reduced: the amount is in
    neither the stakes nor the unbonding queue any more. *)
Theorem stake_withdraw_cap_burns tx s p v :
  decode_stake_withdraw tx s = (Ok p, s) -> withdraw_validator p tx s = (Ok v, s) ->
  0 < swp_amount p -> swp_amount p = amount_of (ws_stakes s) v -> 100 <= pending_of s v ->
  exists e s', handle_stake_withdraw tx s = (Err e, s')
    /\ ws_stakes s' !! v = None /\ ws_unbonding_queue s' = ws_unbonding_queue s
    /\ supply s' + swp_amount p = supply s.
Proof.
  intros Hdec Hval Hpos Hall Hpend. rewrite amount_of_default in Hall.
  unfold handle_stake_withdraw. rewrite (bind_run _ _ _ _ _ Hdec). cbv beta zeta iota.
  rewrite bind_fail_if. destruct (N.eqb_spec (swp_amount p) 0); [lia |].
  rewrite (bind_run _ _ _ _ _ Hval). cbv beta zeta iota. rewrite bind_gets, bind_fail_if.
  rewrite <- Hall, N.ltb_irrefl, N.sub_diag. rewrite bind_fail_if. simpl andb. cbv iota.
  rewrite N.eqb_refl, !bind_modify, bind_gets, bind_fail_if.
  match goal with |- context [if ?b then _ else _] => replace b with true end.
  - do 2 eexists. split; [reflexivity |]. upd. split_and!; [apply lookup_delete_eq | done |].
    unfold supply. upd. pose proof (msum_delete (fun x : N => x) (ws_stakes s) v) as Hd.
    rewrite amount_of_default, <- Hall in Hd. lia.
  - symmetry. apply N.leb_le. exact Hpend.
Qed.
End claim.

(** ** Witnesses *)

#[local] Existing Instance toy_tx_codec.

Definition toy_rich : WorldState :=
  default_WorldState <| ws_balances := {[ toy_addr 1 := 20000000000000 ]} |> <| ws_block_height := 7 |>.
Definition toy_deposit : Transaction :=
  toy_tx StakeDeposit (toy_addr 1) 1 (le128 10000000000000 ++ toy_addr 2 ++ le16 500).

Lemma stake_deposit_correct_witness :
  is_ok (handle_stake_deposit toy_deposit toy_rich).1 = true
  /\ deposit_spec toy_deposit toy_rich (handle_stake_deposit toy_deposit toy_rich).
Proof.
  split; [vm_compute; reflexivity |]. apply (stake_deposit_correct toy_deposit toy_rich).
  unfold supply_fits. vm_compute. done.
Defined.

Definition toy_maturing : WorldState :=
  default_WorldState <| ws_block_height := 300000 |>
    <| ws_unbonding_queue := [mkUnbondingEntry (toy_addr 1) 40 250000;
                              mkUnbondingEntry (toy_addr 2) 9 250000;
                              mkUnbondingEntry (toy_addr 1) 60 900000] |>.

Definition toy_claim : Transaction := toy_tx StakeClaim (toy_addr 1) 1 [].

Lemma stake_claim_correct_witness :
  let s' := (handle_stake_claim toy_claim toy_maturing).2 in
  handle_stake_claim toy_claim toy_maturing = (Ok tt, s')
  /\ ws_unbonding_queue s' = kept (toy_addr 1) 300000 (ws_unbonding_queue toy_maturing)
  /\ supply s' = supply toy_maturing.
Proof.
  assert (handle_stake_claim toy_claim toy_maturing
          = (Ok tt, (handle_stake_claim toy_claim toy_maturing).2)) as Hrun
    by (apply run_eq; vm_compute; reflexivity).
  split; [exact Hrun |].
  destruct (stake_claim_correct toy_claim toy_maturing _ ltac:(unfold supply_fits; vm_compute; done) Hrun)
    as (_ & _ & Hq & _ & _ & Hs).
  split; [exact Hq | exact Hs].
Defined.

Lemma stake_claim_failure_wipes_queue_witness :
  exists s', handle_stake_claim (toy_tx StakeClaim (toy_addr 7) 1 []) toy_maturing
             = (Err NoClaimableUnbonding, s')
    /\ ws_unbonding_queue s' = [] /\ supply s' + 109 = supply toy_maturing.
Proof.
  apply (stake_claim_failure_wipes_queue _ toy_maturing mkStakeClaimPayload);
    [unfold supply_fits; vm_compute; done | vm_compute; reflexivity | vm_compute; reflexivity].
Defined.

Definition toy_capped : WorldState :=
  default_WorldState <| ws_stakes := {[ toy_addr 1 := 10000000000000 ]} |>
    <| ws_unbonding_queue := replicate 100 (mkUnbondingEntry (toy_addr 1) 1 900000) |>.

Lemma stake_withdraw_cap_burns_witness :
  exists e s', handle_stake_withdraw (toy_tx StakeWithdraw (toy_addr 1) 1 (le128 10000000000000)) toy_capped
               = (Err e, s')
    /\ ws_stakes s' !! toy_addr 1 = None /\ ws_unbonding_queue s' = ws_unbonding_queue toy_capped
    /\ supply s' + 10000000000000 = supply toy_capped.
Proof.
  apply (stake_withdraw_cap_burns _ toy_capped (mkStakeWithdrawPayload 10000000000000 zeros32) (toy_addr 1)).
  - apply run_eq. vm_compute. reflexivity.
  - apply run_eq. vm_compute. reflexivity.
  - done.
  - vm_compute. reflexivity.
  - vm_compute. done.
Defined.
