(* ===== verification/Mining.v ===== *)
(** * Miner transactions

    [handle_miner_register] and [handle_miner_heartbeat]: registration with the
    per-subnet limit, and the three generations of heartbeats. *)

From S2P Require Import Prelude Interfaces Types Concrete Vm World HandlerBase ConcreteTx.

Section miner_handlers.
Context `{TC : TxCodec}.
Implicit Types (tx : Transaction).

Definition same_subnet (ip_prefix : bytes) (m : gmap bytes MinerInfo) : list (bytes * MinerInfo) :=
  filter (fun p => mi_ip_prefix p.2 = ip_prefix) (map_to_list m).

Definition handle_miner_register tx : handler unit :=
  payload ← decode MinerRegisterPayload tx;
  registered ← st_gets (fun s => contains_key (ws_miners s) (tx_from tx));
  fail_if registered MinerAlreadyRegistered;;
  fail_if (negb (mrp_tier payload =? 1)) (InvalidMinerTier (mrp_tier payload));;
  fail_if ((slen (mrp_name payload) =? 0) || (MAX_NAME_LEN <? slen (mrp_name payload)))
    (MinerNameTooLong (slen (mrp_name payload)) MAX_NAME_LEN);;
  fail_if (negb (blen (mrp_ip_addr payload) =? 4) && negb (blen (mrp_ip_addr payload) =? 16))
    (InvalidIpLength (blen (mrp_ip_addr payload)));;
  let ip_prefix := take 3 (mrp_ip_addr payload) in
  same_subnet_count ← st_gets (fun s => N.of_nat (length (same_subnet ip_prefix (ws_miners s))));
  fail_if (MAX_MINERS_PER_SUBNET <=? same_subnet_count) (SubnetLimitReached MAX_MINERS_PER_SUBNET);;
  height ← st_gets ws_block_height;
  let v3_active := CHECKIN_V3_HEIGHT <=? height in
  st_modify (fun s => s <| ws_miners ::= <[tx_from tx :=
    {| mi_address := tx_from tx;
       mi_tier := Online;
       mi_name := mrp_name payload;
       mi_registered_at := height;
       mi_last_heartbeat := if v3_active then 0 else height;
       mi_ip_prefix := ip_prefix;
       mi_active := negb v3_active;
       mi_reputation_bps := REPUTATION_NEWCOMER_BPS;
       mi_pending_rewards := 0;
       mi_pending_epoch := 0;
       mi_epoch_attendance := 0;
       mi_consecutive_misses := 0;
       mi_last_checkin_epoch := 0 |}]> |>).

(** The V2 branch: one heartbeat per epoch. *)
Definition heartbeat_v2 tx (miner : MinerInfo) : handler unit :=
  height ← st_gets ws_block_height;
  let current_epoch := height / MINER_EPOCH_LENGTH in
  let last_epoch := mi_last_heartbeat miner / MINER_EPOCH_LENGTH in
  let too_early := HeartbeatTooEarly (u64_mul (u64_add current_epoch 1) MINER_EPOCH_LENGTH) height in
  fail_if (current_epoch <=? last_epoch) too_early;;
  checked_in ← st_gets (fun s => contains_key (ws_epoch_checkins s) (tx_from tx));
  fail_if checked_in too_early;;
  st_modify (fun s => s <| ws_miners ::= alter (fun m => m <| mi_last_heartbeat := height |>) (tx_from tx) |>);;
  st_modify (fun s => s <| ws_epoch_checkins ::= <[tx_from tx := true]> |>);;
  let v1_window := height / MINER_HEARTBEAT_INTERVAL_V1 in
  st_modify (fun s => s <| ws_miner_heartbeat_tracker ::= <[(tx_from tx, v1_window) := true]> |>).

Definition reputation_at (age : N) : N :=
  if BLOCKS_30_DAYS <=? age then REPUTATION_VETERAN_BPS
  else if BLOCKS_7_DAYS <=? age then REPUTATION_ESTABLISHED_BPS
  else REPUTATION_NEWCOMER_BPS.

(** The V1 branch: a fixed interval, and the reputation follows the age. *)
Definition heartbeat_v1 tx (miner : MinerInfo) : handler unit :=
  height ← st_gets ws_block_height;
  let next_allowed := u64_add (mi_last_heartbeat miner) MINER_HEARTBEAT_INTERVAL_V1 in
  fail_if (height <? next_allowed) (HeartbeatTooEarly next_allowed height);;
  let window := height / MINER_HEARTBEAT_INTERVAL_V1 in
  beaten ← st_gets (fun s => contains_key (ws_miner_heartbeat_tracker s) (tx_from tx, window));
  fail_if beaten (HeartbeatTooEarly next_allowed height);;
  let age := sat_sub height (mi_registered_at miner) in
  let new_reputation := reputation_at age in
  st_modify (fun s => s <| ws_miners ::= alter (fun m =>
    m <| mi_last_heartbeat := height |> <| mi_active := true |> <| mi_reputation_bps := new_reputation |>)
    (tx_from tx) |>);;
  st_modify (fun s => s <| ws_miner_heartbeat_tracker ::= <[(tx_from tx, window) := true]> |>).

Definition handle_miner_heartbeat tx : handler unit :=
  height ← st_gets ws_block_height;
  fail_if (CHECKIN_V3_HEIGHT <=? height) HeartbeatDeprecated;;
  _ ← decode MinerHeartbeatPayload tx;
  found ← st_gets (fun s => ws_miners s !! tx_from tx);
  miner ← ok_or found MinerNotRegistered;
  if HEARTBEAT_V2_HEIGHT <=? height then heartbeat_v2 tx miner else heartbeat_v1 tx miner.
End miner_handlers.

(** ** Properties *)

(** No /24 prefix is shared by more than three registered miners. *)
Definition subnets_limited (m : gmap bytes MinerInfo) : Prop :=
  forall prefix, N.of_nat (length (same_subnet prefix m)) <= MAX_MINERS_PER_SUBNET.

Section miner_facts.
Context `{TC : TxCodec}.
Implicit Types (tx : Transaction) (s : WorldState).

Lemma miner_register_atomic tx : atomic (handle_miner_register tx).
Proof. unfold handle_miner_register. atomic_tac. Qed.
Lemma miner_heartbeat_atomic tx : atomic (handle_miner_heartbeat tx).
Proof. unfold handle_miner_heartbeat, heartbeat_v1, heartbeat_v2. atomic_tac. Qed.

Lemma same_subnet_insert prefix m a i :
  m !! a = None ->
  length (same_subnet prefix (<[a := i]> m))
  = ((if decide (mi_ip_prefix i = prefix) then 1 else 0) + length (same_subnet prefix m))%nat.
Proof.
  intros Ha. unfold same_subnet. rewrite map_to_list_insert by done.
  destruct (decide (mi_ip_prefix i = prefix)).
  - by rewrite filter_cons_True.
  - by rewrite filter_cons_False.
Qed.

(** A miner's prefix never changes once it is registered. *)
Lemma same_subnet_alter prefix m a f :
  (forall i, mi_ip_prefix (f i) = mi_ip_prefix i) ->
  length (same_subnet prefix (alter f a m)) = length (same_subnet prefix m).
Proof.
  intros Hf. destruct (m !! a) as [i|] eqn:Ha.
  - rewrite <- (insert_delete_id m a i) at 2 by done.
    replace (alter f a m) with (<[a := f i]> (delete a m)).
    + rewrite !same_subnet_insert by apply lookup_delete_eq. by rewrite Hf.
    + apply map_eq. intros k. destruct (decide (a = k)) as [<-|].
      * by rewrite lookup_insert_eq, lookup_alter_eq, Ha.
      * by rewrite lookup_insert_ne, lookup_delete_ne, lookup_alter_ne.
  - replace (alter f a m) with m; [done |]. apply map_eq. intros k.
    destruct (decide (a = k)) as [<-|]; [by rewrite lookup_alter_eq, Ha | by rewrite lookup_alter_ne].
Qed.

Lemma miner_register_limited tx s r s' :
  subnets_limited (ws_miners s) -> handle_miner_register tx s = (r, s') -> subnets_limited (ws_miners s').
Proof.
  intros Hlim Hrun. destruct r as [[]|e]; [| by rewrite (miner_register_atomic _ _ _ _ Hrun)].
  unfold handle_miner_register, decode, decode_bytes in Hrun. st_inv. bools.
  match goal with H : contains_key _ _ = false |- _ => apply contains_key_false in H as Hnew end.
  intros prefix. upd. rewrite same_subnet_insert by done. cbn [mi_ip_prefix].
  specialize (Hlim prefix). unfold MAX_MINERS_PER_SUBNET in *. case_decide; [subst; lia | lia].
Qed.

Lemma heartbeat_v2_limited tx miner s r s' :
  subnets_limited (ws_miners s) -> heartbeat_v2 tx miner s = (r, s') -> subnets_limited (ws_miners s').
Proof.
  intros Hlim Hrun. unfold heartbeat_v2 in Hrun. st_exec Hrun; try done.
  intros prefix. upd. rewrite same_subnet_alter; [apply Hlim | done].
Qed.

Lemma heartbeat_v1_limited tx miner s r s' :
  subnets_limited (ws_miners s) -> heartbeat_v1 tx miner s = (r, s') -> subnets_limited (ws_miners s').
Proof.
  intros Hlim Hrun. unfold heartbeat_v1 in Hrun. st_exec Hrun; try done.
  intros prefix. upd. rewrite same_subnet_alter; [apply Hlim | done].
Qed.

Lemma miner_heartbeat_limited tx s r s' :
  subnets_limited (ws_miners s) -> handle_miner_heartbeat tx s = (r, s') -> subnets_limited (ws_miners s').
Proof.
  intros Hlim Hrun. destruct r as [[]|e]; [| by rewrite (miner_heartbeat_atomic _ _ _ _ Hrun)].
  unfold handle_miner_heartbeat, decode, decode_bytes in Hrun.
  st_inv. destruct (HEARTBEAT_V2_HEIGHT <=? ws_block_height s).
  - by eapply heartbeat_v2_limited.
  - by eapply heartbeat_v1_limited.
Qed.

(** A miner's heartbeat is accepted at most once per epoch: a V2 heartbeat
    is accepted only if the last one was in an earlier epoch, it moves the last
    heartbeat to the current block, and from then on no heartbeat of that miner
    is accepted before the next epoch, even if the runtime check-in cache is
    lost; from the V3 height on every heartbeat is rejected. *)
Theorem heartbeat_once_per_epoch tx s s' :
  HEARTBEAT_V2_HEIGHT <= ws_block_height s -> handle_miner_heartbeat tx s = (Ok tt, s') ->
  (exists m, ws_miners s !! tx_from tx = Some m
     /\ mi_last_heartbeat m / MINER_EPOCH_LENGTH < ws_block_height s / MINER_EPOCH_LENGTH
     /\ ws_miners s' !! tx_from tx = Some (m <| mi_last_heartbeat := ws_block_height s |>))
  /\ ws_block_height s < CHECKIN_V3_HEIGHT
  /\ forall tx2 s2 s2', tx_from tx2 = tx_from tx ->
       ws_miners s2 = ws_miners s' -> ws_block_height s <= ws_block_height s2 ->
       handle_miner_heartbeat tx2 s2 = (Ok tt, s2') ->
       ws_block_height s / MINER_EPOCH_LENGTH < ws_block_height s2 / MINER_EPOCH_LENGTH.
Proof.
  assert (forall tx s s', HEARTBEAT_V2_HEIGHT <= ws_block_height s ->
    handle_miner_heartbeat tx s = (Ok tt, s') ->
    ws_block_height s < CHECKIN_V3_HEIGHT /\ exists m, ws_miners s !! tx_from tx = Some m
     /\ mi_last_heartbeat m / MINER_EPOCH_LENGTH < ws_block_height s / MINER_EPOCH_LENGTH
     /\ ws_miners s' !! tx_from tx = Some (m <| mi_last_heartbeat := ws_block_height s |>)) as Haux.
  { clear. intros tx s s' Hh Hrun. unfold handle_miner_heartbeat, decode, decode_bytes in Hrun.
    st_inv. destruct (N.leb_spec HEARTBEAT_V2_HEIGHT (ws_block_height s)); [| lia].
    unfold heartbeat_v2 in Hrun. st_inv. bools. split; [done |].
    match goal with H : ws_miners s !! _ = Some ?m |- _ => exists m; split_and!; [done | done |]; rename H into Hm end.
    upd. by rewrite lookup_alter_eq, Hm. }
  intros Hh Hrun. destruct (Haux _ _ _ Hh Hrun) as (Hv3 & m & Hm & Hlt & Hm'). split_and!; [eauto | done |].
  intros tx2 s2 s2' Hfrom Hmin Hle Hrun2.
  destruct (Haux tx2 s2 s2' ltac:(lia) Hrun2) as (_ & m2 & Hm2 & Hlt2 & _).
  rewrite Hfrom, Hmin, Hm' in Hm2. injection Hm2 as <-. exact Hlt2.
Qed.
End miner_facts.

#[local] Existing Instance toy_tx_codec.

Definition toy_miner : MinerInfo :=
  mkMinerInfo (toy_addr 1) Online "m" 225000 225910 [x0a; x00; x00] true 2000 0 0 0 0 0.
Definition toy_mining : WorldState :=
  default_WorldState <| ws_block_height := 226042 |> <| ws_miners := {[ toy_addr 1 := toy_miner ]} |>.
Definition toy_heartbeat : Transaction :=
  toy_tx MinerHeartbeat (toy_addr 1) 1 (zeros32 ++ le64 226041).

Lemma heartbeat_once_per_epoch_witness :
  let s' := (handle_miner_heartbeat toy_heartbeat toy_mining).2 in
  handle_miner_heartbeat toy_heartbeat toy_mining = (Ok tt, s')
  /\ ws_block_height toy_mining < CHECKIN_V3_HEIGHT.
Proof.
  assert (handle_miner_heartbeat toy_heartbeat toy_mining
          = (Ok tt, (handle_miner_heartbeat toy_heartbeat toy_mining).2)) as Hrun
    by (apply run_eq; vm_compute; reflexivity).
  split; [exact Hrun |].
  by destruct (heartbeat_once_per_epoch toy_heartbeat toy_mining _ ltac:(vm_compute; done) Hrun)
    as (_ & Hh & _).
Defined.
