(* ===== verification/Contracts.v ===== *)
(** * Contract transactions

    [handle_contract_deploy], [handle_contract_call],
    [handle_contract_upgrade_announce] and [handle_contract_upgrade_execute],
    with the snapshot of the chain a running contract sees and the bounded
    execution of the engine.  The engine itself is the interface [VmEngine]. *)

From S2P Require Import Prelude Interfaces Types Concrete Vm World Score ConcreteState HandlerBase ConcreteTx.

Definition UPGRADE_DELAY_BLOCKS : N := 720.
Definition VM_CONCURRENCY_LIMIT : N := 16.

(** What the process decides outside the chain state: how many VM threads run
    when an execution is requested, and whether it answers within five seconds. *)
Class VmSchedule : Type := {
  vm_running : WorldState -> ExecutionContext -> N;
  vm_in_time : WorldState -> ExecutionContext -> bool;
}.

Record ChainStateSnapshot : Type := mkChainStateSnapshot {
  sn_balances : gmap bytes N;
  sn_agent_scores : gmap bytes N;
  sn_registered_agents : gset bytes;
  sn_contract_storage : gmap bytes (gmap bytes bytes);
  sn_contract_code : gmap bytes bytes;
}.

(** [ChainStateSnapshot::capture]. *)
Definition capture (state : ChainState) (addresses : list bytes) : ChainStateSnapshot := {|
  sn_balances := ∅;
  sn_agent_scores := foldl (fun m a => <[a := cs_get_agent_score state a]> m) ∅ addresses;
  sn_registered_agents :=
    foldl (fun r a => if cs_get_agent_registered state a then {[a]} ∪ r else r) ∅ addresses;
  sn_contract_storage := ∅;
  sn_contract_code := ∅;
|}.

Definition capture_from_world (state : WorldState) (addresses : list bytes) : ChainStateSnapshot :=
  let snapshot := capture (world_chain_state state) addresses in
  mkChainStateSnapshot (ws_balances state) (sn_agent_scores snapshot)
    (sn_registered_agents snapshot) (sn_contract_storage snapshot) (ws_contract_code state).

(** [impl ChainState for ChainStateSnapshot]. *)
Definition snapshot_chain_state (sn : ChainStateSnapshot) : ChainState := {|
  cs_get_balance address := default 0 (sn_balances sn !! address);
  cs_get_agent_score address := default 0 (sn_agent_scores sn !! address);
  cs_get_agent_registered address := bool_decide (address ∈ sn_registered_agents sn);
  cs_get_contract_storage contract key := sn_contract_storage sn !! contract ≫= fun m => m !! key;
  cs_get_contract_code contract := sn_contract_code sn !! contract;
|}.

Section contract_handlers.
Context `{HB : Blake3} `{TC : TxCodec} `{HX : Hex} `{VM : VmEngine} `{VS : VmSchedule}.
Implicit Types (tx : Transaction).

Definition execute_with_timeout (code : bytes) (method : string) (args : bytes)
    (ctx : ExecutionContext) (storage : gmap bytes bytes) (world : WorldState)
    : result ExecutionResult VmError :=
  let snapshot := capture_from_world world [ec_caller ctx; ec_contract_address ctx] in
  if VM_CONCURRENCY_LIMIT <=? vm_running world ctx then
    Err (ExecutionFailed "VM concurrency limit reached")
  else if vm_in_time world ctx then
    execute_with_cross_calls code method args ctx storage (snapshot_chain_state snapshot)
      (sn_contract_code snapshot)
  else Err (ExecutionFailed "contract execution timed out after 5s").

(** The check of all transfers before any is made: the first one that the
    contract's balance does not cover, if any. *)
Fixpoint transfer_overrun (contract_bal cumulative_spend : N) (transfers : list (bytes * N))
    : option StateError :=
  match transfers with
  | [] => None
  | (_, amount) :: transfers =>
      let cumulative_spend := sat_add TWO128 cumulative_spend amount in
      if contract_bal <? cumulative_spend then
        Some (ContractTransferInsufficientBalance amount
                (sat_sub contract_bal (sat_sub cumulative_spend amount)))
      else transfer_overrun contract_bal cumulative_spend transfers
  end.

(** Storage writes and deletions, in order, under the contract's address. *)
Definition apply_storage_changes (contract : bytes) (changes : list (bytes * option bytes))
    : handler unit :=
  for_each (fun '(key, value) =>
    match value with
    | Some v => st_modify (fun s => s <| ws_contract_storage ::= <[(contract, key) := v]> |>)
    | None => st_modify (fun s => s <| ws_contract_storage ::= delete (contract, key) |>)
    end) changes.

Definition apply_transfers (contract : bytes) (transfers : list (bytes * N)) : handler unit :=
  for_each (fun '(to, amount) => debit contract amount;; credit to amount) transfers.

Definition receipt_events (events : list ContractEvent) : list ReceiptEvent :=
  (fun e => mkReceiptEvent (ce_topic e) (ce_data e)) <$> events.
Definition block_events (contract : bytes) (tx_index : N) (events : list ContractEvent)
    : list BlockEvent :=
  (fun e => ContractEventE contract tx_index (ce_topic e) (ce_data e)) <$> events.

Definition execution_receipt tx (r : ExecutionResult) : TransactionReceipt :=
  mkTransactionReceipt (tx_hash tx) true (er_fuel_consumed r) DEFAULT_FUEL_LIMIT
    (er_return_data r) None (receipt_events (er_events r)) (er_logs r).

Definition to_execution_error (e : VmError) : StateError :=
  ContractExecutionFailed (vm_error_to_string e).

Definition register_contract (contract_address : bytes) (i : ContractInstance) (code : bytes)
    : handler unit :=
  st_modify (fun s => s <| ws_contracts ::= <[contract_address := i]> |>);;
  st_modify (fun s => s <| ws_contract_code ::= <[contract_address := code]> |>).

Definition handle_contract_deploy tx (tx_index : N) : handler (list BlockEvent * TransactionReceipt) :=
  payload ← decode ContractDeployPayload tx;
  let code := cdp_code payload in
  fail_if (MAX_CONTRACT_CODE_SIZE <? blen code) (ContractCodeTooLarge (blen code) MAX_CONTRACT_CODE_SIZE);;
  nonce ← st_gets (fun s => get_nonce s (tx_from tx));
  let contract_address := derive_contract_address (tx_from tx) nonce in
  deployed ← st_gets (fun s => contains_key (ws_contracts s) contract_address);
  fail_if deployed ContractAlreadyExists;;
  map_err (vm_validate code) to_execution_error;;
  let code_hash := blake3 code in
  state ← st_get;
  let instance := mkContractInstance contract_address code_hash (tx_from tx) (ws_block_height state)
                    (tx_from tx) None None None in
  if negb (slen (cdp_init_method payload) =? 0) then
    let ctx := new_top_level (tx_from tx) contract_address (ws_block_height state)
                 (ws_block_timestamp state) 0 DEFAULT_FUEL_LIMIT false in
    result ← map_err (execute_with_timeout code (cdp_init_method payload) (cdp_init_args payload)
                        ctx ∅ state) to_execution_error;
    contract_bal ← st_gets (fun s => get_balance s contract_address);
    (if transfer_overrun contract_bal 0 (er_transfers result) is Some e then st_throw e else mret tt);;
    register_contract contract_address instance code;;
    apply_storage_changes contract_address (er_storage_changes result);;
    apply_transfers contract_address (er_transfers result);;
    mret (block_events contract_address tx_index (er_events result), execution_receipt tx result)
  else
    register_contract contract_address instance code;;
    mret ([], mkTransactionReceipt (tx_hash tx) true 0 0 [] None [] []).

(** The storage of one contract, keyed without its address. *)
Definition storage_of (contract : bytes) (m : gmap (bytes * bytes) bytes) : gmap bytes bytes :=
  list_to_map ((fun p => (p.1.2, p.2)) <$> filter (fun p => p.1.1 = contract) (map_to_list m)).

(** Take the call's value back from the contract. *)
Definition refund (contract from : bytes) (value : N) : handler unit :=
  if 0 <? value then debit contract value;; credit from value else mret tt.

Definition handle_contract_call tx (tx_index : N) : handler (list BlockEvent * TransactionReceipt) :=
  payload ← decode ContractCallPayload tx;
  let contract := ccp_contract payload in
  let value := ccp_value payload in
  known ← st_gets (fun s => contains_key (ws_contracts s) contract);
  fail_if (negb known) (ContractNotFound (hex_encode contract));;
  fail_if ((slen (ccp_method payload) =? 0) || (128 <? slen (ccp_method payload)))
    (InvalidContractMethod (ccp_method payload));;
  (if 0 <? value then
     caller_bal ← st_gets (fun s => get_balance s (tx_from tx));
     fail_if (caller_bal <? value) (InsufficientBalance value caller_bal);;
     debit (tx_from tx) value;;
     credit contract value
   else mret tt);;
  found ← st_gets (fun s => ws_contract_code s !! contract);
  code ← ok_or found (ContractNotFound (hex_encode contract));
  state ← st_get;
  let storage := storage_of contract (ws_contract_storage state) in
  let ctx := new_top_level (tx_from tx) contract (ws_block_height state)
               (ws_block_timestamp state) value DEFAULT_FUEL_LIMIT false in
  match execute_with_timeout code (ccp_method payload) (ccp_args payload) ctx storage state with
  | Err e =>
      refund contract (tx_from tx) value;;
      st_throw (to_execution_error e)
  | Ok result =>
      contract_bal ← st_gets (fun s => get_balance s contract);
      match transfer_overrun contract_bal 0 (er_transfers result) with
      | Some e =>
          refund contract (tx_from tx) value;;
          st_throw e
      | None =>
          apply_storage_changes contract (er_storage_changes result);;
          apply_transfers contract (er_transfers result);;
          mret (block_events contract tx_index (er_events result), execution_receipt tx result)
      end
  end.

Definition handle_contract_upgrade_announce tx : handler unit :=
  payload ← decode ContractUpgradeAnnouncePayload tx;
  let contract := cua_contract payload in
  found ← st_gets (fun s => ws_contracts s !! contract);
  instance ← ok_or found (ContractNotFound (hex_encode contract));
  fail_if (negb (bool_decide (tx_from tx = ci_admin instance))) Unauthorized;;
  announced_at ← st_gets ws_block_height;
  let pending := mkPendingUpgrade (cua_new_code_hash payload) announced_at
                   (u64_add announced_at UPGRADE_DELAY_BLOCKS) in
  st_modify (fun s => s <| ws_contracts ::= alter (fun i => i <| ci_pending_upgrade := Some pending |>) contract |>).

(** Migration results: block events, fuel, return data, receipt events, logs. *)
Definition run_migration tx (tx_index : N) (payload : ContractUpgradeExecutePayload)
    : handler (list BlockEvent * N * bytes * list ReceiptEvent * list string) :=
  match cue_migrate_method payload with
  | None => mret ([], 0, [], [], [])
  | Some migrate_method =>
      let contract := cue_contract payload in
      state ← st_get;
      let storage := storage_of contract (ws_contract_storage state) in
      let ctx := new_top_level (tx_from tx) contract (ws_block_height state)
                   (ws_block_timestamp state) 0 DEFAULT_FUEL_LIMIT false in
      result ← map_err (execute_with_timeout (cue_new_code payload) migrate_method
                          (cue_migrate_args payload) ctx storage state) to_execution_error;
      apply_storage_changes contract (er_storage_changes result);;
      mret (block_events contract tx_index (er_events result), er_fuel_consumed result,
            er_return_data result, receipt_events (er_events result), er_logs result)
  end.

Definition upgrade_instance (old_code_hash submitted_hash : bytes) (upgrade_height : N)
    (i : ContractInstance) : ContractInstance :=
  i <| ci_previous_code_hash := Some old_code_hash |> <| ci_code_hash := submitted_hash |>
    <| ci_upgrade_height := Some upgrade_height |> <| ci_pending_upgrade := None |>.

Definition handle_contract_upgrade_execute tx (tx_index : N)
    : handler (list BlockEvent * TransactionReceipt) :=
  payload ← decode ContractUpgradeExecutePayload tx;
  let contract := cue_contract payload in
  let new_code := cue_new_code payload in
  found ← st_gets (fun s => ws_contracts s !! contract);
  instance ← ok_or found (ContractNotFound (hex_encode contract));
  fail_if (negb (bool_decide (tx_from tx = ci_admin instance))) Unauthorized;;
  pending ← ok_or (ci_pending_upgrade instance) NoPendingUpgrade;
  height ← st_gets ws_block_height;
  fail_if (height <? pu_ready_at pending) (UpgradeNotReady height (pu_ready_at pending));;
  let submitted_hash := blake3 new_code in
  fail_if (negb (bool_decide (submitted_hash = pu_new_code_hash pending))) UpgradeCodeHashMismatch;;
  fail_if (MAX_CONTRACT_CODE_SIZE <? blen new_code)
    (ContractCodeTooLarge (blen new_code) MAX_CONTRACT_CODE_SIZE);;
  map_err (vm_validate new_code) to_execution_error;;
  let old_code_hash := ci_code_hash instance in
  '(migration_events, migration_fuel, migration_return, migration_receipt_events, migration_logs) ←
    run_migration tx tx_index payload;
  st_modify (fun s => s <| ws_contract_code ::= <[contract := new_code]> |>);;
  st_modify (fun s => s <| ws_contracts ::= alter (upgrade_instance old_code_hash submitted_hash height) contract |>);;
  mret (migration_events,
        mkTransactionReceipt (tx_hash tx) true migration_fuel DEFAULT_FUEL_LIMIT migration_return
          None migration_receipt_events migration_logs).
End contract_handlers.

(** ** Properties *)

(** [s'] differs from [s] at most in its balances (and the contract storage). *)
Definition only_balances (s s' : WorldState) : Prop := s' = s <| ws_balances := ws_balances s' |>.
Definition only_contract_effects (s s' : WorldState) : Prop :=
  s' = s <| ws_balances := ws_balances s' |> <| ws_contract_storage := ws_contract_storage s' |>.

Section contract_facts.
Context `{HB : Blake3} `{TC : TxCodec} `{HX : Hex} `{VM : VmEngine} `{VS : VmSchedule}.
Implicit Types (tx : Transaction) (s : WorldState).

Lemma infallible_storage_changes c l : infallible (apply_storage_changes c l).
Proof.
  apply infallible_for_each. intros [key [v|]]; apply infallible_modify.
Qed.
Lemma infallible_transfers c l : infallible (apply_transfers c l).
Proof. apply infallible_for_each. intros [to x]. auto with claw. Qed.

(** Passing the check means the balance covers the sum of all transfers. *)
Lemma overrun_None bal cum l :
  bal < TWO128 - 1 -> transfer_overrun bal cum l = None -> cum <= bal -> cum + lsum snd l <= bal.
Proof.
  intros Hbal. revert cum. induction l as [|[to x] l IH]; intros cum; simpl; [lia |].
  unfold sat_add. destruct (N.ltb_spec bal (N.min (cum + x) (TWO128 - 1))); [done |].
  intros Hl Hcum. apply IH in Hl; lia.
Qed.

Lemma apply_transfers_run c l s :
  2 * supply s < TWO128 -> lsum snd l <= amount_of (ws_balances s) c ->
  exists s', apply_transfers c l s = (Ok tt, s') /\ supply s' = supply s /\ only_balances s s'
    /\ amount_of (ws_balances s) c <= amount_of (ws_balances s') c + lsum snd l.
Proof.
  revert s. induction l as [|[to x] l IH]; intros s Hs Hl; cbn [apply_transfers for_each].
  { exists s. simpl. split_and!; [done | done | by destruct s | lia]. }
  rewrite lsum_cons in *. cbn [snd] in *. pose proof (balance_le_supply s c).
  set (s1 := s <| ws_balances ::= entry_sub TWO128 c x |> <| ws_balances ::= entry_add TWO128 to x |>).
  assert (supply s1 = supply s) as Hs1 by (apply supply_move; lia).
  assert (amount_of (ws_balances s) c <= amount_of (ws_balances s1) c + x) as Hc.
  { assert (map_total (ws_balances s) <= supply s) by (unfold supply; lia).
    pose proof (amount_le_total (ws_balances s) c). subst s1. upd.
    rewrite amount_entry_add by (rewrite total_entry_sub by lia; lia).
    rewrite amount_entry_sub by lia. repeat case_decide; done || lia. }
  destruct (IH s1) as (s' & Hrun & Hsup & Hob & Hbal); [lia | lia |].
  exists s'. split_and!; [exact Hrun | lia | | lia].
  unfold only_balances in *. rewrite Hob at 1. reflexivity.
Qed.

Lemma storage_changes_run c l s :
  exists s', apply_storage_changes c l s = (Ok tt, s')
    /\ s' = s <| ws_contract_storage := ws_contract_storage s' |>.
Proof.
  revert s. induction l as [|[key v] l IH]; intros s; cbn [apply_storage_changes for_each].
  { exists s. split; [done | by destruct s]. }
  destruct v as [v|].
  - destruct (IH (s <| ws_contract_storage ::= <[(c, key) := v]> |>)) as (s' & Hrun & Hs').
    exists s'. split; [exact Hrun | rewrite Hs' at 1; reflexivity].
  - destruct (IH (s <| ws_contract_storage ::= delete (c, key) |>)) as (s' & Hrun & Hs').
    exists s'. split; [exact Hrun | rewrite Hs' at 1; reflexivity].
Qed.

(** The effects of a successful execution, committed. *)
Lemma commit_effects_run {A} c (r : ExecutionResult) (a : A) s :
  2 * supply s < TWO128 -> lsum snd (er_transfers r) <= amount_of (ws_balances s) c ->
  exists s', (apply_storage_changes c (er_storage_changes r);;
              apply_transfers c (er_transfers r);; mret a) s = (Ok a, s')
    /\ supply s' = supply s /\ only_contract_effects s s'.
Proof.
  intros Hs Hl. destruct (storage_changes_run c (er_storage_changes r) s) as (s1 & H1 & Hs1).
  assert (ws_balances s1 = ws_balances s) as Hb1 by (by rewrite Hs1).
  assert (supply s1 = supply s) as Hsup1 by (by rewrite Hs1).
  destruct (apply_transfers_run c (er_transfers r) s1) as (s2 & H2 & Hsup2 & Hob & _);
    [lia | by rewrite Hb1 |].
  exists s2. rewrite (bind_run _ _ _ _ _ H1), (bind_run _ _ _ _ _ H2). split_and!; [done | lia |].
  unfold only_balances, only_contract_effects in *. rewrite Hob, Hs1. reflexivity.
Qed.

(** Sending [value] along with the call. *)
Definition paid c from value s : WorldState :=
  if 0 <? value
  then s <| ws_balances ::= entry_sub TWO128 from value |> <| ws_balances ::= entry_add TWO128 c value |>
  else s.

Lemma paid_facts c from value s :
  2 * supply s < TWO128 -> value <= get_balance s from ->
  supply (paid c from value s) = supply s /\ only_balances s (paid c from value s)
  /\ value <= amount_of (ws_balances (paid c from value s)) c
  /\ forall a, get_balance (paid c from value s) a + (if decide (from = a) then value else 0)
               = get_balance s a + (if decide (c = a) then value else 0).
Proof.
  intros Hs Hv. pose proof (balance_le_supply s from). rewrite get_balance_amount in Hv.
  assert (map_total (ws_balances s) <= supply s) as Hts by (unfold supply; lia).
  pose proof (amount_le_total (ws_balances s) from).
  unfold paid. destruct (N.ltb_spec 0 value).
  - assert (forall a, amount_of (entry_add TWO128 c value (entry_sub TWO128 from value (ws_balances s))) a
             + (if decide (from = a) then value else 0)
             = amount_of (ws_balances s) a + (if decide (c = a) then value else 0)) as Ha.
    { intros a. rewrite amount_entry_add by (rewrite total_entry_sub by lia; lia).
      rewrite amount_entry_sub by lia. repeat case_decide; subst; done || lia. }
    split_and!; [apply supply_move; lia | done | |].
    + specialize (Ha c). rewrite (decide_True (P:=c = c)) in Ha by done. upd.
      destruct (decide (from = c)) as [<- |]; lia.
    + intros a. rewrite !get_balance_amount. upd. apply Ha.
  - assert (value = 0) as -> by lia. split_and!; [done | by destruct s | lia |].
    intros a. by repeat case_decide.
Qed.

(** A refund undoes it, up to zero entries. *)
Lemma refund_run c from value s :
  2 * supply s < TWO128 -> value <= get_balance s from ->
  exists s', refund c from value (paid c from value s) = (Ok tt, s')
    /\ only_balances s s' /\ supply s' = supply s /\ forall a, get_balance s' a = get_balance s a.
Proof.
  intros Hs Hv. destruct (paid_facts c from value s Hs Hv) as (Hsup & Hob & Hc & Hbal).
  destruct (paid_facts from c value (paid c from value s)) as (Hsup2 & Hob2 & _ & Hbal2);
    [lia | by rewrite get_balance_amount |].
  exists (paid from c value (paid c from value s)). split_and!.
  - unfold refund, paid. by destruct (0 <? value).
  - unfold only_balances in *. rewrite Hob2 at 1. rewrite Hob at 1. reflexivity.
  - lia.
  - intros a. specialize (Hbal a). specialize (Hbal2 a). repeat case_decide; lia.
Qed.

(** What a contract call promises of its outcome. *)
Definition call_spec tx (tx_index : N) s
    (out : result (list BlockEvent * TransactionReceipt) StateError * WorldState) : Prop :=
  match out with
  | (Ok (events, receipt), s') =>
      exists p code r, try_from_slice (tx_payload tx) = Ok p
      /\ ws_contract_code s !! ccp_contract p = Some code
      /\ ccp_value p <= get_balance s (tx_from tx)
      /\ (let s1 := paid (ccp_contract p) (tx_from tx) (ccp_value p) s in
          let ctx := new_top_level (tx_from tx) (ccp_contract p) (ws_block_height s)
                       (ws_block_timestamp s) (ccp_value p) DEFAULT_FUEL_LIMIT false in
          execute_with_timeout code (ccp_method p) (ccp_args p) ctx
            (storage_of (ccp_contract p) (ws_contract_storage s)) s1 = Ok r
          /\ lsum snd (er_transfers r) <= get_balance s1 (ccp_contract p))
      /\ events = block_events (ccp_contract p) tx_index (er_events r)
      /\ receipt = execution_receipt tx r
      /\ supply s' = supply s /\ only_contract_effects s s'
  | (Err _, s') =>
      supply s' = supply s /\ only_balances s s'
      /\ ((forall c, is_Some (ws_contracts s !! c) -> is_Some (ws_contract_code s !! c)) ->
          forall a, get_balance s' a = get_balance s a)
  end.

Lemma pay_run {A} c from value (k : unit -> handler A) s :
  ((if 0 <? value then
      caller_bal ← st_gets (fun s => get_balance s from);
      fail_if (caller_bal <? value) (InsufficientBalance value caller_bal);;
      debit from value;; credit c value
    else mret tt) ≫= k) s
  = if get_balance s from <? value then (Err (InsufficientBalance value (get_balance s from)), s)
    else k tt (paid c from value s).
Proof.
  unfold paid. destruct (N.ltb_spec 0 value).
  - rewrite bind_assoc, bind_gets, bind_assoc, bind_fail_if. by destruct (_ <? value).
  - assert (value = 0) as -> by lia. rewrite bind_ret. by destruct (N.ltb_spec (get_balance s from) 0); [lia |].
Qed.

Lemma contract_call_outcome tx tx_index s :
  supply_fits s -> call_spec tx tx_index s (handle_contract_call tx tx_index s).
Proof.
  unfold supply_fits. intros Hs. destruct (handle_contract_call tx tx_index s) as [r s'] eqn:Hrun.
  unfold handle_contract_call, decode, decode_bytes in Hrun.
  assert (forall e, call_spec tx tx_index s (Err e, s)) as Hnone
    by (intros e; cbn; split_and!; [done | by destruct s | done]).
  rewrite bind_map_err in Hrun. destruct (try_from_slice _) as [p|e] eqn:Hp;
    [| injection Hrun as <- <-; apply Hnone].
  cbv zeta in Hrun. set (c := ccp_contract p) in *. set (value := ccp_value p) in *.
  rewrite bind_gets, bind_fail_if in Hrun.
  destruct (contains_key (ws_contracts s) c) eqn:Hknown; [| injection Hrun as <- <-; apply Hnone].
  cbn [negb] in Hrun. rewrite bind_fail_if in Hrun.
  destruct ((slen (ccp_method p) =? 0) || _); [injection Hrun as <- <-; apply Hnone |].
  rewrite pay_run in Hrun. destruct (N.ltb_spec (get_balance s (tx_from tx)) value) as [|Hv];
    [injection Hrun as <- <-; apply Hnone |].
  destruct (paid_facts c (tx_from tx) value s Hs Hv) as (Hsup & Hob & _ & _).
  destruct (refund_run c (tx_from tx) value s Hs Hv) as (sr & Hrefund & Hobr & Hsupr & Hbalr).
  set (s1 := paid c (tx_from tx) value s) in *.
  assert (ws_contract_code s1 = ws_contract_code s) as Hcode1 by (by rewrite Hob).
  rewrite bind_gets, bind_ok_or, Hcode1 in Hrun.
  destruct (ws_contract_code s !! c) as [code|] eqn:Hcode.
  2: { injection Hrun as <- <-. cbn. split_and!; [done | done |]. intros Hall.
       apply contains_key_true, Hall in Hknown. rewrite Hcode in Hknown. by destruct Hknown. }
  rewrite bind_get in Hrun. cbv beta in Hrun.
  replace (ws_contract_storage s1) with (ws_contract_storage s) in Hrun by (by rewrite Hob).
  replace (ws_block_height s1) with (ws_block_height s) in Hrun by (by rewrite Hob).
  replace (ws_block_timestamp s1) with (ws_block_timestamp s) in Hrun by (by rewrite Hob).
  destruct (execute_with_timeout _ _ _ _ _ s1) as [r0|e] eqn:Hexec.
  2: { rewrite (bind_run _ _ _ _ _ Hrefund) in Hrun. injection Hrun as <- <-. by split_and!. }
  rewrite bind_gets in Hrun. destruct (transfer_overrun _ _ _) as [e|] eqn:Hover.
  { rewrite (bind_run _ _ _ _ _ Hrefund) in Hrun. injection Hrun as <- <-. by split_and!. }
  apply overrun_None in Hover;
    [| pose proof (balance_le_supply s1 c); rewrite get_balance_amount; lia | lia].
  destruct (commit_effects_run c r0 (block_events c tx_index (er_events r0), execution_receipt tx r0) s1)
    as (s2 & Hcommit & Hsup2 & Heff); [lia | by rewrite <- get_balance_amount |].
  rewrite Hcommit in Hrun. injection Hrun as <- <-. cbn.
  exists p, code, r0. split_and!; try done; [lia |].
  unfold only_contract_effects, only_balances in *. rewrite Heff, Hob. reflexivity.
Qed.

(** A successful contract call pays out at most what the contract holds
    after receiving the call's value, applies the execution's storage changes
    and transfers and nothing else, and keeps the supply.  A failed one touches
    nothing but balances, keeps the supply, and refunds the caller: every
    balance reads as before (given that every contract has its code). *)
Theorem contract_call_correct tx tx_index s :
  supply_fits s -> call_spec tx tx_index s (handle_contract_call tx tx_index s).
Proof. exact (contract_call_outcome tx tx_index s). Qed.
End contract_facts.

(** ** Deployment and upgrades *)

Section upgrade_facts.
Context `{HB : Blake3} `{TC : TxCodec} `{HX : Hex} `{VM : VmEngine} `{VS : VmSchedule}.
Implicit Types (tx : Transaction) (s : WorldState).

(** The contract registered by a deployment. *)
Definition deployed_instance tx s code : ContractInstance :=
  mkContractInstance (derive_contract_address (tx_from tx) (get_nonce s (tx_from tx)))
    (blake3 code) (tx_from tx) (ws_block_height s) (tx_from tx) None None None.
Definition with_contract (c : bytes) (i : ContractInstance) (code : bytes) s : WorldState :=
  s <| ws_contracts ::= <[c := i]> |> <| ws_contract_code ::= <[c := code]> |>.

(** A deployment registers its code under a fresh address and keeps the supply;
    a failed one changes nothing. *)
Lemma contract_deploy_outcome tx tx_index s r s' :
  2 * supply s < TWO128 -> handle_contract_deploy tx tx_index s = (r, s') ->
  match r with
  | Ok _ => exists p, try_from_slice (tx_payload tx) = Ok p /\
      let c := derive_contract_address (tx_from tx) (get_nonce s (tx_from tx)) in
      ws_contracts s !! c = None /\ supply s' = supply s
      /\ only_contract_effects (with_contract c (deployed_instance tx s (cdp_code p)) (cdp_code p) s) s'
  | Err _ => s' = s
  end.
Proof.
  intros Hs Hrun. unfold handle_contract_deploy, decode, decode_bytes in Hrun.
  rewrite bind_map_err in Hrun. destruct (try_from_slice _) as [p|e] eqn:Hp; [| by injection Hrun as <- <-].
  cbv zeta in Hrun. rewrite bind_fail_if in Hrun.
  destruct (_ <? blen (cdp_code p)); [by injection Hrun as <- <- |].
  rewrite !bind_gets, bind_fail_if in Hrun.
  destruct (contains_key (ws_contracts s) _) eqn:Hnew; [by injection Hrun as <- <- |].
  apply contains_key_false in Hnew. rewrite bind_map_err in Hrun.
  destruct (vm_validate (cdp_code p)); [| by injection Hrun as <- <-].
  rewrite bind_get in Hrun. fold (deployed_instance tx s (cdp_code p)) in Hrun.
  set (c := derive_contract_address _ _) in *.
  assert (supply (with_contract c (deployed_instance tx s (cdp_code p)) (cdp_code p) s) = supply s) as Hsw by done.
  destruct (negb _).
  - rewrite bind_map_err in Hrun.
    destruct (execute_with_timeout _ _ _ _ _ s) as [r0|e] eqn:Hexec; [| by injection Hrun as <- <-].
    rewrite bind_gets in Hrun. destruct (transfer_overrun _ _ _) as [e|] eqn:Hover;
      [by injection Hrun as <- <- |]. rewrite bind_ret in Hrun.
    pose proof (balance_le_supply s c).
    apply overrun_None in Hover; [| rewrite get_balance_amount; lia | lia].
    unfold register_contract in Hrun. rewrite bind_assoc, !bind_modify in Hrun.
    destruct (commit_effects_run c r0 (block_events c tx_index (er_events r0), execution_receipt tx r0)
      (with_contract c (deployed_instance tx s (cdp_code p)) (cdp_code p) s)) as (s2 & Hcommit & Hsup2 & Heff);
      [lia | unfold with_contract; upd; rewrite get_balance_amount in Hover; lia |].
    unfold with_contract in Hcommit. rewrite Hcommit in Hrun. injection Hrun as <- <-.
    exists p. cbv zeta. by split_and!; [| | lia |].
  - unfold register_contract in Hrun. rewrite bind_assoc, !bind_modify in Hrun. injection Hrun as <- <-.
    exists p. cbv zeta. by split_and!.
Qed.

Lemma migration_run tx tx_index p s a s' :
  run_migration tx tx_index p s = (Ok a, s') ->
  s' = s <| ws_contract_storage := ws_contract_storage s' |>.
Proof.
  unfold run_migration. destruct (cue_migrate_method p) as [m|].
  - rewrite bind_get, bind_map_err. destruct (execute_with_timeout _ _ _ _ _ _) as [r|]; [| done].
    destruct (storage_changes_run (cue_contract p) (er_storage_changes r) s) as (s1 & H1 & Hs1).
    rewrite (bind_run _ _ _ _ _ H1). by intros [= <- <-].
  - intros [= <- <-]. by destruct s.
Qed.

Lemma migration_atomic tx tx_index p : atomic (run_migration tx tx_index p).
Proof.
  unfold run_migration. destruct (cue_migrate_method p); [| atomic_tac].
  repeat (apply atomic_bind; [solve [auto with claw] | intros ?]).
  apply atomic_infallible, infallible_bind; [apply infallible_storage_changes | auto with claw].
Qed.

Lemma upgrade_execute_atomic tx tx_index : atomic (handle_contract_upgrade_execute tx tx_index).
Proof.
  unfold handle_contract_upgrade_execute.
  repeat (cbv zeta; apply atomic_bind; [solve [auto with claw] | intros ?]).
  intros s e s' [Hm | ([[[[ev f] rd] re] lg] & s1 & Hm & Hrest)]%bind_Err; [by apply migration_atomic in Hm |].
  rewrite !bind_modify in Hrest. done.
Qed.

Lemma upgrade_announce_atomic tx : atomic (handle_contract_upgrade_announce tx).
Proof. unfold handle_contract_upgrade_announce. atomic_tac. Qed.

Lemma upgrade_execute_outcome tx tx_index s :
  match handle_contract_upgrade_execute tx tx_index s with
  | (Ok _, s') =>
      exists p i u, try_from_slice (tx_payload tx) = Ok p
      /\ ws_contracts s !! cue_contract p = Some i /\ ci_admin i = tx_from tx
      /\ ci_pending_upgrade i = Some u /\ pu_ready_at u <= ws_block_height s
      /\ blake3 (cue_new_code p) = pu_new_code_hash u /\ vm_validate (cue_new_code p) = Ok tt
      /\ s' = s <| ws_contract_storage := ws_contract_storage s' |>
                <| ws_contract_code ::= <[cue_contract p := cue_new_code p]> |>
                <| ws_contracts ::= <[cue_contract p :=
                     upgrade_instance (ci_code_hash i) (blake3 (cue_new_code p)) (ws_block_height s) i]> |>
  | (Err _, s') => s' = s
  end.
Proof.
  destruct (handle_contract_upgrade_execute tx tx_index s) as [[out|e] s'] eqn:Hrun;
    [| by apply upgrade_execute_atomic in Hrun].
  unfold handle_contract_upgrade_execute, decode, decode_bytes in Hrun.
  apply bind_Ok in Hrun as (p & s1 & Hp & Hrun). st_inv. bools.
  repeat match goal with H : _ * _ |- _ => destruct H end. st_inv. bools.
  match goal with H : run_migration _ _ _ _ = _ |- _ => apply migration_run in H as Hm end.
  match goal with H : ws_contracts _ !! _ = Some ?i, H2 : ci_pending_upgrade _ = Some ?u |- _ =>
    exists p, i, u; rename H into Hi end.
  repeat match goal with u : () |- _ => destruct u end. split_and!; try done.
  set (f := upgrade_instance _ _ _). set (c := cue_contract p) in *.
  match goal with |- ?s2 <| ws_contract_code ::= _ |> <| ws_contracts ::= _ |> = _ =>
    transitivity (s <| ws_contract_storage := ws_contract_storage s2 |>
      <| ws_contract_code ::= <[c := cue_new_code p]> |> <| ws_contracts := alter f c (ws_contracts s) |>);
      [rewrite Hm at 1; reflexivity |] end.
  by rewrite (alter_as_insert f _ _ _ Hi).
Qed.

(** An upgrade is executed only by the contract's admin, only when an
    upgrade is pending whose waiting time has passed, and only with code that
    has the announced hash and that the engine validates; the contract then has
    the new code, remembers the old hash and has no upgrade pending.  Apart from
    the contract's own entries only its storage may have changed, and a failed
    upgrade changes nothing, even when its migration has run. *)
Theorem upgrade_execute_correct tx tx_index s :
  match handle_contract_upgrade_execute tx tx_index s with
  | (Ok _, s') =>
      exists p i u, try_from_slice (tx_payload tx) = Ok p
      /\ ws_contracts s !! cue_contract p = Some i /\ ci_admin i = tx_from tx
      /\ ci_pending_upgrade i = Some u /\ pu_ready_at u <= ws_block_height s
      /\ blake3 (cue_new_code p) = pu_new_code_hash u /\ vm_validate (cue_new_code p) = Ok tt
      /\ s' = s <| ws_contract_storage := ws_contract_storage s' |>
                <| ws_contract_code ::= <[cue_contract p := cue_new_code p]> |>
                <| ws_contracts ::= <[cue_contract p :=
                     upgrade_instance (ci_code_hash i) (blake3 (cue_new_code p)) (ws_block_height s) i]> |>
  | (Err _, s') => s' = s
  end.
Proof. exact (upgrade_execute_outcome tx tx_index s). Qed.

(** An announcement starts the waiting time of its contract. *)
Lemma upgrade_announce_outcome tx s s' :
  handle_contract_upgrade_announce tx s = (Ok tt, s') ->
  exists p i, try_from_slice (tx_payload tx) = Ok p
    /\ ws_contracts s !! cua_contract p = Some i /\ ci_admin i = tx_from tx
    /\ s' = s <| ws_contracts ::= <[cua_contract p := i <| ci_pending_upgrade :=
               Some (mkPendingUpgrade (cua_new_code_hash p) (ws_block_height s)
                       (u64_add (ws_block_height s) UPGRADE_DELAY_BLOCKS)) |>]> |>.
Proof.
  intros Hrun. unfold handle_contract_upgrade_announce, decode, decode_bytes in Hrun. st_inv. bools.
  match goal with H : try_from_slice _ = Ok ?p, H2 : ws_contracts _ !! _ = Some ?i |- _ =>
    exists p, i; rename H2 into Hi end.
  split_and!; try done.
  match goal with |- _ <| ws_contracts ::= alter ?f ?c |> = _ =>
    transitivity (s <| ws_contracts := alter f c (ws_contracts s) |>); [reflexivity |] end.
  by rewrite (alter_as_insert _ _ _ _ Hi).
Qed.
End upgrade_facts.

(** ** Witness *)

#[local] Existing Instance toy_blake3.
#[local] Existing Instance toy_tx_codec.
#[local] Existing Instance toy_hex.
#[local] Existing Instance toy_vm.

Definition toy_schedule : VmSchedule := {| vm_running _ _ := 0; vm_in_time _ _ := true |}.
#[local] Existing Instance toy_schedule.

Definition toy_contract : bytes := toy_addr 8.
Definition toy_deployed : WorldState :=
  with_contract toy_contract (mkContractInstance toy_contract zeros32 (toy_addr 1) 3 (toy_addr 1) None None None)
    (x00 :: lit "asm") default_WorldState <| ws_balances := {[ toy_addr 1 := 50 ]} |>.
Definition toy_call : Transaction :=
  toy_tx ContractCall (toy_addr 1) 1 (toy_contract ++ enc_str "pay" ++ enc_vec [x07] ++ le128 20).

Lemma contract_call_correct_witness :
  is_ok (handle_contract_call toy_call 0 toy_deployed).1 = true
  /\ call_spec toy_call 0 toy_deployed (handle_contract_call toy_call 0 toy_deployed).
Proof.
  split; [vm_compute; reflexivity |]. apply (contract_call_correct toy_call 0 toy_deployed).
  unfold supply_fits. vm_compute. done.
Defined.
