(* ===== verification/TestEnv.v ===== *)
(** * The contract test framework ([test-framework/src/lib.rs])

    An environment in memory in which contracts are deployed and called through
    the execution engine, without a node.  A method on [&mut self] that fails keeps
    the state it has reached. *)

From stdpp Require Import pretty.
From S2P Require Import Prelude Interfaces Types Utf8 Vm Host Engine World HandlerBase Contracts.

Record CallResult : Type := mkCallResult {
  cr_return_data : bytes;
  cr_events : list ContractEvent;
  cr_fuel_consumed : N;
}.

Definition from_execution_result (r : ExecutionResult) : CallResult :=
  mkCallResult (er_return_data r) (er_events r) (er_fuel_consumed r).

Record TestEnv : Type := mkTestEnv {
  te_balances : gmap bytes N;
  te_contract_code : gmap bytes bytes;
  te_storage : gmap (bytes * bytes) bytes;
  te_block_height : N;
  te_block_timestamp : N;
  te_deploy_nonces : gmap bytes N;
}.

Definition eta_TestEnv (e : TestEnv) : TestEnv :=
  mkTestEnv (te_balances e) (te_contract_code e) (te_storage e) (te_block_height e) (te_block_timestamp e)
    (te_deploy_nonces e).
#[export] Instance upd_te_balances : Update te_balances := ltac:(solve_update eta_TestEnv te_balances).
#[export] Instance upd_te_contract_code : Update te_contract_code := ltac:(solve_update eta_TestEnv te_contract_code).
#[export] Instance upd_te_storage : Update te_storage := ltac:(solve_update eta_TestEnv te_storage).
#[export] Instance upd_te_block_height : Update te_block_height := ltac:(solve_update eta_TestEnv te_block_height).
#[export] Instance upd_te_block_timestamp : Update te_block_timestamp := ltac:(solve_update eta_TestEnv te_block_timestamp).
#[export] Instance upd_te_deploy_nonces : Update te_deploy_nonces := ltac:(solve_update eta_TestEnv te_deploy_nonces).

Definition TestEnv_new : TestEnv := mkTestEnv ∅ ∅ ∅ 0 0 ∅.

Section test_env.
Context `{HB : Blake3} `{WM : Wasmer}.
Implicit Types (env : TestEnv).

(** ** Balances, time and storage *)

Definition te_set_balance (address : bytes) (amount : N) env : TestEnv := env <| te_balances ::= <[address := amount]> |>.
Definition te_get_balance (address : bytes) env : N := default 0 (te_balances env !! address).
Definition te_advance_block env : TestEnv := env <| te_block_height ::= fun h => u64_add h 1 |>.
Definition te_advance_blocks (n : N) env : TestEnv := env <| te_block_height ::= fun h => u64_add h n |>.
Definition te_set_timestamp (ts : N) env : TestEnv := env <| te_block_timestamp := ts |>.
Definition te_get_storage (contract key : bytes) env : option bytes := te_storage env !! (contract, key).

(** [TestChainState]: balances only. *)
Definition test_chain_state (balances : gmap bytes N) : ChainState := {|
  cs_get_balance address := default 0 (balances !! address);
  cs_get_agent_score _ := 0;
  cs_get_agent_registered _ := false;
  cs_get_contract_storage _ _ := None;
  cs_get_contract_code _ := None;
|}.

Definition te_storage_snapshot (contract : bytes) env : gmap bytes bytes := storage_of contract (te_storage env).

Definition te_change (contract : bytes) (s : gmap (bytes * bytes) bytes) (c : bytes * option bytes)
    : gmap (bytes * bytes) bytes :=
  match c.2 with Some v => <[(contract, c.1) := v]> s | None => delete (contract, c.1) s end.

Definition te_apply_storage_changes (contract : bytes) (changes : list (bytes * option bytes)) env : TestEnv :=
  env <| te_storage ::= fun s => foldl (te_change contract) s changes |>.

(** A transfer that the contract cannot pay is skipped. *)
Definition te_transfer (from : bytes) (b : gmap bytes N) (t : bytes * N) : gmap bytes N :=
  if t.2 <=? default 0 (b !! from) then entry_add TWO128 t.1 t.2 (entry_sub TWO128 from t.2 b) else b.

Definition te_apply_transfers (from : bytes) (transfers : list (bytes * N)) env : TestEnv :=
  env <| te_balances ::= fun b => foldl (te_transfer from) b transfers |>.

(** ** Deployments and calls *)

Definition te_deploy (deployer wasm : bytes) (init_method : string) (init_args : bytes) : ST TestEnv string bytes :=
  fail_if (bool_decide (wasm = [])) "deploy: wasm is empty"%string;;
  map_err (validate wasm) (fun e => ("deploy: validation failed: " +:+ vm_error_to_string e)%string);;
  env ← st_get;
  let nonce := default 0 (te_deploy_nonces env !! deployer) in
  let contract_address := derive_contract_address deployer nonce in
  let context := new_top_level deployer contract_address (te_block_height env) (te_block_timestamp env) 0
                   DEFAULT_FUEL_LIMIT false in
  result ← map_err (execute wasm init_method init_args context (te_storage_snapshot contract_address env)
                      (test_chain_state (te_balances env)))
             (fun e => ("deploy: init execution failed: " +:+ vm_error_to_string e)%string);
  st_modify (te_apply_storage_changes contract_address (er_storage_changes result));;
  st_modify (te_apply_transfers contract_address (er_transfers result));;
  st_modify (fun env => env <| te_contract_code ::= <[contract_address := wasm]> |>
                            <| te_deploy_nonces ::= <[deployer := u64_add nonce 1]> |>);;
  mret contract_address.

(** [{:?}] of an address. *)
Definition debug_bytes (b : bytes) : string :=
  ("[" +:+ match b with
           | [] => ""
           | x :: b => foldl (fun s x => s +:+ ", " +:+ pretty (Byte.to_N x)) (pretty (Byte.to_N x)) b
           end +:+ "]")%string.

(** The value goes from the caller to the contract before the execution. *)
Definition te_pay (caller contract : bytes) (value : N) : ST TestEnv string unit :=
  if 0 <? value then
    caller_bal ← st_gets (te_get_balance caller);
    fail_if (caller_bal <? value)
      ("call: insufficient balance (have " +:+ pretty caller_bal +:+ ", need " +:+ pretty value +:+ ")")%string;;
    st_modify (fun env => env <| te_balances ::= entry_sub TWO128 caller value |>);;
    st_modify (fun env => env <| te_balances ::= entry_add TWO128 contract value |>)
  else mret tt.

Definition te_context (caller contract : bytes) (value : N) env : ExecutionContext :=
  new_top_level caller contract (te_block_height env) (te_block_timestamp env) value DEFAULT_FUEL_LIMIT false.

Definition te_execute (wasm : bytes) (method : string) (args caller contract : bytes) (value : N) env
    : result ExecutionResult VmError :=
  execute wasm method args (te_context caller contract value env) (te_storage_snapshot contract env)
    (test_chain_state (te_balances env)).

Definition te_call (caller contract : bytes) (method : string) (args : bytes) (value : N)
    : ST TestEnv string CallResult :=
  env ← st_get;
  wasm ← ok_or (te_contract_code env !! contract) ("call: contract " +:+ debug_bytes contract +:+ " not deployed")%string;
  te_pay caller contract value;;
  env ← st_get;
  result ← map_err (te_execute wasm method args caller contract value env)
             (fun e => ("call: execution failed: " +:+ vm_error_to_string e)%string);
  st_modify (te_apply_storage_changes contract (er_storage_changes result));;
  st_modify (te_apply_transfers contract (er_transfers result));;
  mret (from_execution_result result).

(** ** Balances *)
Lemma te_transfer_total from b t :
  2 * map_total b < TWO128 -> map_total (te_transfer from b t) = map_total b.
Proof.
  intros Hb. unfold te_transfer. destruct (N.leb_spec t.2 (default 0 (b !! from))) as [Hle|]; [| done].
  rewrite <- amount_of_default in Hle. pose proof (amount_le_total b from).
  rewrite total_entry_add; rewrite total_entry_sub by lia; lia.
Qed.

Lemma te_transfers_total from ts b :
  2 * map_total b < TWO128 -> map_total (foldl (te_transfer from) b ts) = map_total b.
Proof.
  revert b. induction ts as [|t ts IH]; intros b Hb; simpl; [done |].
  rewrite IH; rewrite te_transfer_total; done.
Qed.

(** The environment after the value was paid. *)
Definition te_paid (caller contract : bytes) (value : N) env : TestEnv :=
  if 0 <? value then env <| te_balances ::= fun b => entry_add TWO128 contract value (entry_sub TWO128 caller value b) |>
  else env.

Lemma te_pay_run caller contract value env :
  te_pay caller contract value env
  = if te_get_balance caller env <? value
    then (Err ("call: insufficient balance (have " +:+ pretty (te_get_balance caller env) +:+ ", need " +:+ pretty value +:+ ")")%string, env)
    else (Ok tt, te_paid caller contract value env).
Proof.
  unfold te_pay, te_paid. destruct (N.ltb_spec 0 value) as [Hv|Hv].
  - rewrite bind_gets, bind_fail_if. destruct (_ <? value); [done |]. by rewrite bind_modify.
  - by rewrite (proj2 (N.ltb_ge _ _)) by lia.
Qed.

Lemma te_paid_total caller contract value env :
  2 * map_total (te_balances env) < TWO128 -> value <= te_get_balance caller env ->
  map_total (te_balances (te_paid caller contract value env)) = map_total (te_balances env).
Proof.
  intros Hb Hv. unfold te_paid. destruct (0 <? value); [| done].
  unfold te_get_balance in Hv. rewrite <- amount_of_default in Hv. pose proof (amount_le_total (te_balances env) caller).
  change (map_total (entry_add TWO128 contract value (entry_sub TWO128 caller value (te_balances env))) = map_total (te_balances env)).
  rewrite total_entry_add; rewrite total_entry_sub by lia; lia.
Qed.

(** The environment after an execution's effects. *)
Definition effected (contract : bytes) (r : ExecutionResult) env : TestEnv :=
  te_apply_transfers contract (er_transfers r) (te_apply_storage_changes contract (er_storage_changes r) env).

Lemma te_call_run caller contract method args value env wasm :
  te_contract_code env !! contract = Some wasm -> value <= te_get_balance caller env ->
  let env1 := te_paid caller contract value env in
  te_call caller contract method args value env
  = match te_execute wasm method args caller contract value env1 with
    | Ok r => (Ok (from_execution_result r), effected contract r env1)
    | Err e => (Err ("call: execution failed: " +:+ vm_error_to_string e)%string, env1)
    end.
Proof.
  intros Hcode Hv env1. unfold te_call. rewrite bind_get, bind_ok_or, Hcode.
  pose proof (te_pay_run caller contract value env) as Hpay. rewrite (proj2 (N.ltb_ge _ _)) in Hpay by done.
  rewrite (bind_run _ _ _ _ _ Hpay), bind_get, bind_map_err. fold env1.
  destruct (te_execute _ _ _ _ _ _ env1); [| done]. by rewrite !bind_modify.
Qed.

(** No call makes or loses money: whatever the contract does, and whether the call
    succeeds or not, the balances add up to what they did. *)
Theorem te_call_conserves caller contract method args value env :
  2 * map_total (te_balances env) < TWO128 ->
  map_total (te_balances (te_call caller contract method args value env).2) = map_total (te_balances env).
Proof.
  intros Hb. destruct (te_contract_code env !! contract) as [wasm|] eqn:Hcode.
  2: { unfold te_call. by rewrite bind_get, bind_ok_or, Hcode. }
  destruct (N.le_gt_cases value (te_get_balance caller env)) as [Hv|Hv].
  - rewrite (te_call_run _ _ _ _ _ _ _ Hcode Hv). pose proof (te_paid_total caller contract value env Hb Hv) as Ht.
    destruct (te_execute _ _ _ _ _ _ _) as [r|e]; [| exact Ht]. cbn [snd]. set (env1 := te_paid _ _ _ _) in *.
    change (map_total (foldl (te_transfer contract) (te_balances env1) (er_transfers r)) = map_total (te_balances env)).
    rewrite te_transfers_total; rewrite Ht; done.
  - unfold te_call. rewrite bind_get, bind_ok_or, Hcode. pose proof (te_pay_run caller contract value env) as Hpay.
    rewrite (proj2 (N.ltb_lt _ _)) in Hpay by done. by rewrite (bind_run _ _ _ _ _ Hpay).
Qed.
End test_env.

(** ** Against the chain *)

Section chain.
Context `{HB : Blake3} `{TC : TxCodec} `{HX : Hex} `{VM : VmEngine} `{VS : VmSchedule} `{WM : Wasmer}.
Implicit Types (env : TestEnv) (s : WorldState) (tx : Transaction).

(** The environment shows the contracts' part of the ledger. *)
Record mirrors env s : Prop := {
  mr_balances : te_balances env = ws_balances s;
  mr_code : te_contract_code env = ws_contract_code s;
  mr_storage : te_storage env = ws_contract_storage s;
  mr_height : te_block_height env = ws_block_height s;
  mr_time : te_block_timestamp env = ws_block_timestamp s;
}.

Lemma storage_changes_fold c l s :
  apply_storage_changes c l s = (Ok tt, s <| ws_contract_storage := foldl (te_change c) (ws_contract_storage s) l |>).
Proof.
  revert s. induction l as [|[key v] l IH]; intros s; cbn [apply_storage_changes for_each foldl].
  { by destruct s. }
  unfold apply_storage_changes in *. destruct v as [v|]; rewrite bind_modify, IH; by destruct s.
Qed.

Definition chain_transfer (from : bytes) (b : gmap bytes N) (t : bytes * N) : gmap bytes N :=
  entry_add TWO128 t.1 t.2 (entry_sub TWO128 from t.2 b).

Lemma transfers_fold c l s :
  apply_transfers c l s = (Ok tt, s <| ws_balances := foldl (chain_transfer c) (ws_balances s) l |>).
Proof.
  revert s. induction l as [|[to x] l IH]; intros s; cbn [apply_transfers for_each foldl]; [by destruct s |].
  unfold apply_transfers in *. rewrite bind_assoc. unfold debit, credit. rewrite !bind_modify, IH. by destruct s.
Qed.

(** Transfers that are covered are made alike. *)
Lemma transfers_agree c l b :
  2 * map_total b < TWO128 -> lsum snd l <= amount_of b c ->
  foldl (te_transfer c) b l = foldl (chain_transfer c) b l.
Proof.
  revert b. induction l as [|[to x] l IH]; intros b Hb Hl; [done |]. simpl in *.
  pose proof (amount_le_total b c). unfold te_transfer at 2. cbn [fst snd]. rewrite <- amount_of_default.
  rewrite (proj2 (N.leb_le _ _)) by lia. apply IH.
  - unfold chain_transfer. cbn [fst snd]. rewrite total_entry_add; rewrite total_entry_sub by lia; lia.
  - unfold chain_transfer. cbn [fst snd]. rewrite amount_entry_add, amount_entry_sub by (rewrite ?total_entry_sub by lia; lia).
    rewrite decide_True by done. lia.
Qed.

Lemma mirrors_paid env s caller c value :
  mirrors env s -> mirrors (te_paid caller c value env) (paid c caller value s).
Proof. intros [H1 H2 H3 H4 H5]. unfold te_paid, paid. destruct (0 <? value); [| done]. constructor; simpl; congruence. Qed.


(** A call whose execution fails keeps the value: the caller has paid, and nothing
    gives it back; the chain refunds it ([contract_call_correct]). *)
Theorem failed_test_call_keeps_value caller c method args value env wasm e :
  te_contract_code env !! c = Some wasm -> value <= te_get_balance caller env ->
  te_execute wasm method args caller c value (te_paid caller c value env) = Err e ->
  exists msg, te_call caller c method args value env = (Err msg, te_paid caller c value env).
Proof.
  intros Hcode Hv Hx. rewrite (te_call_run _ _ _ _ _ _ _ Hcode Hv), Hx. eexists. reflexivity.
Qed.
End chain.
