(* ===== verification/Store.v ===== *)
(** * Chain storage ([claw-node/crates/storage/src/store.rs])

    Blocks, the transaction and address indexes, receipts and the metadata, in
    tables of a [redb] database.  The database is an interface: a write
    transaction happens as a whole or not at all, and a read sees the last
    committed value. *)

From S2P Require Import Prelude Interfaces Types Concrete Vm World ConcreteState HandlerBase ConcreteTx.

(** ** The database *)

Inductive Table : Type := BLOCKS | META | TX_INDEX | ADDRESS_TX_INDEX | RECEIPTS.

#[export] Instance Table_eq_dec : EqDecision Table.
Proof. solve_decision. Defined.

(** One write of a transaction, [None] removes the key.  Number keys and values
    are stored as their eight bytes. *)
Record Write : Type := mkWrite { wr_table : Table; wr_key : bytes; wr_value : option bytes }.

(** [redb]: reads, the number keys of a range, and the commit of a transaction's
    writes, latest first. *)
Class Redb : Type := {
  Db : Type;
  redb_get : Db -> Table -> bytes -> result (option bytes) string;
  redb_range : Db -> Table -> N -> N -> result (list N) string;
  redb_commit : Db -> list Write -> result Db string;
}.

(** The last value written for a key, if the transaction wrote it. *)
Fixpoint last_write (ws : list Write) (t : Table) (k : bytes) : option (option bytes) :=
  match ws with
  | [] => None
  | w :: ws => if bool_decide (wr_table w = t /\ wr_key w = k) then Some (wr_value w) else last_write ws t k
  end.

Class RedbLaws `{Redb} : Prop := {
  redb_get_commit : forall db ws db' t k,
    redb_commit db ws = Ok db' ->
    redb_get db' t k = match last_write ws t k with Some v => Ok v | None => redb_get db t k end;
  redb_range_spec : forall db t lo hi ks n,
    redb_range db t lo hi = Ok ks ->
    n ∈ ks <-> lo <= n < hi /\ n < TWO64 /\ exists v, redb_get db t (le64 n) = Ok (Some v);
}.

Inductive StoreError : Type :=
  | Db_ (e : string)
  | BlockNotFound (height : N)
  | Serialize (e : string).

Definition META_LATEST_HEIGHT : bytes := lit "latest_height".
Definition META_STATE_SNAPSHOT : bytes := lit "state_snapshot".

(** The encodings that the store reads back. *)
Class StoreCodec : Type := {
  codec_block :: Borsh Block;
  codec_receipt :: Borsh TransactionReceipt;
  codec_entries :: Borsh (list (N * N));
  codec_attest :: Borsh ReputationAttestPayload;
}.

Section store.
Context `{RD : Redb} `{SC : StoreCodec} `{TC : TxCodec} `{HB : Blake3}.

(** ** Write transactions

    A transaction collects writes; a read inside it sees them. *)

Definition txn : Type -> Type := ST (list Write) StoreError.

Definition table_insert (t : Table) (k v : bytes) : txn unit :=
  st_modify (cons (mkWrite t k (Some v))).
Definition table_remove (t : Table) (k : bytes) : txn unit :=
  st_modify (cons (mkWrite t k None)).
Definition table_get (db : Db) (t : Table) (k : bytes) : txn (option bytes) :=
  ws ← st_get;
  match last_write ws t k with
  | Some v => mret v
  | None => map_err (redb_get db t k) Db_
  end.

(** [begin_write], the body, [commit]. *)
Definition write_txn {A} (body : Db -> txn A) : ST Db StoreError A := fun db =>
  match body db [] with
  | (Ok a, ws) =>
      match redb_commit db ws with
      | Ok db' => (Ok a, db')
      | Err e => (Err (Db_ e), db)
      end
  | (Err e, _) => (Err e, db)
  end.

(** [unwrap_or_default()]. *)
Definition or_default {E} (r : result (list (N * N)) E) : list (N * N) :=
  match r with Ok l => l | Err _ => [] end.

Definition append_address_entry (db : Db) (address : bytes) (entry : N * N) : txn unit :=
  found ← table_get db ADDRESS_TX_INDEX address;
  let entries := match found with Some data => or_default (try_from_slice data) | None => [] end in
  table_insert ADDRESS_TX_INDEX address (to_vec (entries ++ [entry])).

(** [.ok().map(f)]. *)
Definition ok_map {A B E} (f : A -> B) (r : result A E) : option B :=
  match r with Ok a => Some (f a) | Err _ => None end.

Definition extract_to_address (type : TxType) (payload : bytes) : option bytes :=
  match type with
  | TokenTransfer => ok_map ttp_to (try_from_slice (A:=TokenTransferPayload) payload)
  | TokenMintTransfer => ok_map tmp_to (try_from_slice (A:=TokenMintTransferPayload) payload)
  | ReputationAttest => ok_map rap_to (try_from_slice (A:=ReputationAttestPayload) payload)
  | ContractCall => ok_map ccp_contract (try_from_slice (A:=ContractCallPayload) payload)
  | _ => None
  end.

(** The index entries of one transaction of a block. *)
Definition index_tx (db : Db) (height : N) (p : N * Transaction) : txn unit :=
  let '(tx_idx, tx) := p in
  table_insert TX_INDEX (tx_hash tx) (le64 height);;
  let entry := (height, tx_idx mod TWO32) in
  append_address_entry db (tx_from tx) entry;;
  match extract_to_address (tx_type tx) (tx_payload tx) with
  | Some to_addr =>
      if negb (bool_decide (to_addr = tx_from tx)) then append_address_entry db to_addr entry else mret tt
  | None => mret tt
  end.

(** [iter().enumerate()]. *)
Fixpoint enumerate_from {A} (i : N) (l : list A) : list (N * A) :=
  match l with [] => [] | x :: l => (i, x) :: enumerate_from (i + 1) l end.

Definition write_block_tables (db : Db) (block : Block) (block_bytes : bytes) : txn unit :=
  table_insert BLOCKS (le64 (b_height block)) block_bytes;;
  for_each (index_tx db (b_height block)) (enumerate_from 0 (b_transactions block));;
  table_insert META META_LATEST_HEIGHT (le64 (b_height block)).

Definition put_block (block : Block) : ST Db StoreError unit :=
  write_txn (fun db => write_block_tables db block (to_vec block)).

Definition put_block_and_snapshot (block : Block) (snapshot : bytes) : ST Db StoreError unit :=
  write_txn (fun db =>
    write_block_tables db block (to_vec block);;
    table_insert META META_STATE_SNAPSHOT snapshot).

Definition put_receipts (receipts : list (bytes * TransactionReceipt)) : ST Db StoreError unit :=
  if bool_decide (receipts = []) then mret tt
  else write_txn (fun _ => for_each (fun p => table_insert RECEIPTS p.1 (to_vec p.2)) receipts).

Definition put_meta (key data : bytes) : ST Db StoreError unit :=
  write_txn (fun _ => table_insert META key data).
Definition put_state_snapshot := put_meta META_STATE_SNAPSHOT.
Definition put_user_delegations := put_meta (lit "user_delegations").
Definition put_offline_validators := put_meta (lit "offline_validators").

(** ** Reads *)

Definition read_table (db : Db) (t : Table) (k : bytes) : result (option bytes) StoreError :=
  match redb_get db t k with Ok v => Ok v | Err e => Err (Db_ e) end.

Definition get_block (height : N) (db : Db) : result (option Block) StoreError :=
  match read_table db BLOCKS (le64 height) with
  | Ok (Some data) =>
      match try_from_slice data with Ok b => Ok (Some b) | Err e => Err (Serialize e) end
  | Ok None => Ok None
  | Err e => Err e
  end.

(** [data.value().try_into().unwrap_or([0u8; 8])], then [from_le_bytes]. *)
Definition height_of_bytes (data : bytes) : N :=
  if (length data =? 8)%nat then le_value data else 0.

Definition get_latest_height (db : Db) : result (option N) StoreError :=
  match read_table db META META_LATEST_HEIGHT with
  | Ok (Some data) => Ok (Some (height_of_bytes data))
  | Ok None => Ok None
  | Err e => Err e
  end.

Definition get_tx_block_height (hash : bytes) (db : Db) : result (option N) StoreError :=
  match read_table db TX_INDEX hash with
  | Ok (Some data) => Ok (Some (le_value data))
  | Ok None => Ok None
  | Err e => Err e
  end.

Definition get_receipt (hash : bytes) (db : Db) : result (option TransactionReceipt) StoreError :=
  match read_table db RECEIPTS hash with
  | Ok (Some data) =>
      match try_from_slice data with Ok r => Ok (Some r) | Err e => Err (Serialize e) end
  | Ok None => Ok None
  | Err e => Err e
  end.

Definition get_state_snapshot (db : Db) : result (option bytes) StoreError :=
  read_table db META META_STATE_SNAPSHOT.
Definition get_user_delegations (db : Db) : result (option bytes) StoreError :=
  read_table db META (lit "user_delegations").
Definition get_offline_validators (db : Db) : result (option bytes) StoreError :=
  read_table db META (lit "offline_validators").

(** Newest first: by height, then by index. *)
Definition newer (a b : N * N) : bool :=
  if b.1 =? a.1 then b.2 <=? a.2 else b.1 <? a.1.

(** The blocks of the selected entries; the scan stops at a database error. *)
Fixpoint collect_transactions (db : Db) (l : list (N * N))
    : result (list (N * N * Transaction * N)) StoreError :=
  match l with
  | [] => Ok []
  | (height, tx_idx) :: l =>
      match read_table db BLOCKS (le64 height), collect_transactions db l with
      | Err e, _ => Err e
      | Ok _, Err e => Err e
      | Ok found, Ok results =>
          match found with
          | Some data =>
              match try_from_slice (A:=Block) data with
              | Ok block =>
                  match b_transactions block !! N.to_nat tx_idx with
                  | Some tx => Ok ((height, tx_idx, tx, b_timestamp block) :: results)
                  | None => Ok results
                  end
              | Err _ => Ok results
              end
          | None => Ok results
          end
      end
  end.

Definition get_transactions_by_address (address : bytes) (limit offset : N) (db : Db)
    : result (list (N * N * Transaction * N)) StoreError :=
  match read_table db ADDRESS_TX_INDEX address with
  | Err e => Err e
  | Ok None => Ok []
  | Ok (Some data) =>
      let entries := or_default (try_from_slice data) in
      collect_transactions db (take (N.to_nat limit) (drop (N.to_nat offset) (sort_by newer entries)))
  end.

(** [prune_blocks_below]: the count of removed blocks; any database error makes it
    0 and leaves the store as it was. *)
Definition prune_blocks_below (below_height : N) (db : Db) : N * Db :=
  if below_height <=? 1 then (0, db)
  else
    match redb_range db BLOCKS 1 below_height with
    | Err _ => (0, db)
    | Ok keys =>
        match redb_commit db (reverse ((fun k => mkWrite BLOCKS (le64 k) None) <$> keys)) with
        | Ok db' => (N.of_nat (length keys), db')
        | Err _ => (0, db)
        end
    end.
End store.

(** ** What a transaction writes *)

Section writes.
Context `{RD : Redb}.
Implicit Types (ws : list Write) (t : Table) (k : bytes).

(** [m] writes, wherever it succeeds, only tables of [ts]. *)
Definition writes_only {A} (ts : list Table) (m : txn A) : Prop :=
  forall ws a ws', m ws = (Ok a, ws') ->
    exists extra, ws' = extra ++ ws /\ Forall (fun w => wr_table w ∈ ts) extra.

Lemma writes_only_bind {A B} ts (m : txn A) (f : A -> txn B) :
  writes_only ts m -> (forall a, writes_only ts (f a)) -> writes_only ts (m ≫= f).
Proof.
  intros Hm Hf ws b ws' (a & ws1 & Ha & Hb)%bind_Ok.
  destruct (Hm _ _ _ Ha) as (e1 & -> & H1). destruct (Hf _ _ _ _ Hb) as (e2 & -> & H2).
  exists (e2 ++ e1). rewrite app_assoc. split; [done | by apply Forall_app].
Qed.

Lemma writes_only_readonly {A} ts (m : txn A) : readonly m -> writes_only ts m.
Proof. intros Hm ws a ws' H. exists []. by rewrite (Hm _ _ _ H). Qed.

Lemma writes_only_insert ts t k v : t ∈ ts -> writes_only ts (table_insert t k v).
Proof. intros Ht ws a ws' [= _ <-]. exists [mkWrite t k (Some v)]. split; [done | by repeat constructor]. Qed.

Lemma writes_only_for_each {A} ts (f : A -> txn unit) l :
  (forall x, writes_only ts (f x)) -> writes_only ts (for_each f l).
Proof.
  intros Hf. induction l as [|x l IH]; simpl; [by apply writes_only_readonly, readonly_ret |].
  by apply writes_only_bind.
Qed.

Lemma readonly_table_get db t k : readonly (table_get db t k).
Proof.
  unfold table_get. apply readonly_bind; [apply readonly_get |]. intros ws.
  destruct (last_write ws t k); [apply readonly_ret | apply readonly_map_err].
Qed.

Lemma last_write_app ws extra t k (ts : list Table) :
  Forall (fun w => wr_table w ∈ ts) extra -> t ∉ ts -> last_write (extra ++ ws) t k = last_write ws t k.
Proof.
  intros He Ht. induction He as [|w extra Hw _ IH]; simpl; [done |].
  rewrite bool_decide_eq_false_2 by (intros [<- _]; done). exact IH.
Qed.

Lemma last_write_here ws t k v : last_write (mkWrite t k v :: ws) t k = Some v.
Proof. simpl. by rewrite bool_decide_eq_true_2. Qed.

Lemma last_write_other ws t k v t' k' :
  t <> t' \/ k <> k' -> last_write (mkWrite t k v :: ws) t' k' = last_write ws t' k'.
Proof. intros Hne. simpl. by rewrite bool_decide_eq_false_2 by (simpl; tauto). Qed.

(** If every write of a key has the same value, that is the last one. *)
Lemma last_write_value ws t k v :
  Forall (fun w => wr_table w = t -> wr_value w = v) ws -> mkWrite t k v ∈ ws ->
  last_write ws t k = Some v.
Proof.
  induction ws as [|w ws IH]; intros Hall Hin; [by apply elem_of_nil in Hin |].
  apply Forall_cons in Hall as [Hw Hall]. simpl. case_bool_decide as Hd.
  - destruct Hd as [Ht _]. by rewrite Hw.
  - apply elem_of_cons in Hin as [<- | Hin]; [| by apply IH]. by destruct Hd.
Qed.
End writes.

Section store_facts.
Context `{RD : Redb} `{!RedbLaws} `{SC : StoreCodec} `{TC : TxCodec} `{HB : Blake3}.
Implicit Types (db : Db) (block : Block) (ws : list Write).

Lemma write_txn_atomic {A} (body : Db -> txn A) : atomic (write_txn body).
Proof. intros db e db'. unfold write_txn. destruct (body db []) as [[a|e1] ws]; [destruct (redb_commit db ws) |]; by intros [= _ <-]. Qed.

Lemma append_writes db a e : writes_only [ADDRESS_TX_INDEX] (append_address_entry db a e).
Proof.
  unfold append_address_entry. apply writes_only_bind; [apply writes_only_readonly, readonly_table_get |].
  intros found. apply writes_only_insert. left.
Qed.

Lemma writes_only_mono {A} ts ts' (m : txn A) : ts ⊆ ts' -> writes_only ts m -> writes_only ts' m.
Proof.
  intros Hsub Hm ws a ws' Hr. destruct (Hm _ _ _ Hr) as (e & -> & He). exists e. split; [done |].
  eapply Forall_impl; [exact He |]. intros w Hw. by apply Hsub.
Qed.

(** The index entries of a transaction besides its own hash. *)
Lemma index_tx_split db h i tx :
  exists m : txn unit, index_tx db h (i, tx) = (table_insert TX_INDEX (tx_hash tx) (le64 h);; m)
    /\ writes_only [ADDRESS_TX_INDEX] m.
Proof.
  eexists. split; [reflexivity |]. apply writes_only_bind; [apply append_writes |]. intros _.
  destruct (extract_to_address _ _) as [a|]; [| by apply writes_only_readonly, readonly_ret].
  destruct (negb _); [apply append_writes | by apply writes_only_readonly, readonly_ret].
Qed.

Lemma index_tx_writes db h p : writes_only [TX_INDEX; ADDRESS_TX_INDEX] (index_tx db h p).
Proof.
  destruct p as [i tx]. destruct (index_tx_split db h i tx) as (m & -> & Hm).
  apply writes_only_bind; [apply writes_only_insert; left |].
  intros _. eapply writes_only_mono; [| exact Hm]. by intros t Ht; right.
Qed.

Lemma elem_of_enumerate {A} (x : A) l j : x ∈ l -> exists i, (i, x) ∈ enumerate_from j l.
Proof.
  revert j. induction l as [|y l IH]; intros j Hin; [by apply elem_of_nil in Hin |].
  apply elem_of_cons in Hin as [-> | Hin]; [exists j; left |].
  destruct (IH (j + 1) Hin) as [i Hi]. exists i. by right.
Qed.

(** The hash of every indexed transaction gets the block's height. *)
Lemma index_all_tx db h l ws u ws' :
  Forall (fun w => wr_table w = TX_INDEX -> wr_value w = Some (le64 h)) ws ->
  for_each (index_tx db h) l ws = (Ok u, ws') ->
  Forall (fun w => wr_table w = TX_INDEX -> wr_value w = Some (le64 h)) ws'
  /\ (forall p, p ∈ l -> mkWrite TX_INDEX (tx_hash p.2) (Some (le64 h)) ∈ ws')
  /\ forall w, w ∈ ws -> w ∈ ws'.
Proof.
  revert ws. induction l as [|[i tx] l IH]; intros ws Hall Hrun; cbn [for_each] in Hrun.
  { apply ret_run in Hrun as [-> _]. split_and!; [done | by intros p Hp%elem_of_nil | done]. }
  apply bind_Ok in Hrun as (u1 & ws1 & Htx & Hl).
  destruct (index_tx_split db h i tx) as (m & E & Hm). rewrite E in Htx.
  apply bind_Ok in Htx as (u2 & ws2 & Hins & Hrest). injection Hins as _ <-.
  destruct (Hm _ _ _ Hrest) as (extra & -> & Hex).
  destruct (IH (extra ++ mkWrite TX_INDEX (tx_hash tx) (Some (le64 h)) :: ws)) as (H1 & H2 & H3); [| done |].
  { apply Forall_app. split; [| by apply Forall_cons].
    eapply Forall_impl; [exact Hex |]. intros w Hw Ht. cbv beta in Hw.
    rewrite Ht in Hw. by apply list_elem_of_singleton in Hw. }
  split_and!; [done | |].
  - intros p [-> | Hp]%elem_of_cons; [| by apply H2]. apply H3, elem_of_app. right. left.
  - intros w Hw. apply H3, elem_of_app. right. by right.
Qed.

(** The writes of a block: what they hold for each key the store reads. *)
Lemma block_writes db block data ws :
  b_height block < TWO64 ->
  write_block_tables db block data [] = (Ok tt, ws) ->
  last_write ws BLOCKS (le64 (b_height block)) = Some (Some data)
  /\ (forall h, h < TWO64 -> h <> b_height block -> last_write ws BLOCKS (le64 h) = None)
  /\ last_write ws META META_LATEST_HEIGHT = Some (Some (le64 (b_height block)))
  /\ (forall k, last_write ws RECEIPTS k = None)
  /\ forall tx, tx ∈ b_transactions block ->
       last_write ws TX_INDEX (tx_hash tx) = Some (Some (le64 (b_height block))).
Proof.
  intros Hh Hrun. unfold write_block_tables in Hrun.
  apply bind_Ok in Hrun as (u1 & ws1 & Hins & Hrun). injection Hins as _ <-.
  apply bind_Ok in Hrun as (u2 & ws2 & Hall & Hrun). injection Hrun as <-.
  destruct (writes_only_for_each _ _ _ (index_tx_writes db (b_height block)) _ _ _ Hall) as (extra & E & Hex).
  assert (forall t k, t ∉ [TX_INDEX; ADDRESS_TX_INDEX] -> t <> META ->
    last_write (mkWrite META META_LATEST_HEIGHT (Some (le64 (b_height block))) :: ws2) t k
    = last_write [mkWrite BLOCKS (le64 (b_height block)) (Some data)] t k) as Hother.
  { intros t k Ht Hm. rewrite last_write_other by auto. rewrite E. by eapply last_write_app. }
  assert (BLOCKS ∉ [TX_INDEX; ADDRESS_TX_INDEX]) as HB1 by (rewrite !not_elem_of_cons; split_and!; try done; apply not_elem_of_nil).
  assert (RECEIPTS ∉ [TX_INDEX; ADDRESS_TX_INDEX]) as HR1 by (rewrite !not_elem_of_cons; split_and!; try done; apply not_elem_of_nil).
  split_and!.
  - rewrite Hother by done. apply last_write_here.
  - intros h Hlt Hne. rewrite Hother by done. rewrite last_write_other; [done |]. right.
    intros Heq. apply Hne. symmetry. by apply (le_bytes_inj 8).
  - apply last_write_here.
  - intros k. rewrite Hother by done. by rewrite last_write_other by (left; done).
  - intros tx Hin. rewrite last_write_other by (left; done).
    apply index_all_tx in Hall as (H1 & H2 & _); [| by repeat constructor].
    apply last_write_value; [done |].
    destruct (elem_of_enumerate tx _ 0 Hin) as [i Hi]. by apply (H2 (i, tx)).
Qed.
End store_facts.

(** ** Properties *)

(** What a reader finds after a block and its snapshot were stored. *)
Record stored `{RD : Redb} `{SC : StoreCodec} `{TC : TxCodec} `{HB : Blake3}
    (block : Block) (snapshot : bytes) (db db' : Db) : Prop := {
  sd_block : get_block (b_height block) db' = Ok (Some block);
  sd_height : get_latest_height db' = Ok (Some (b_height block));
  sd_snapshot : get_state_snapshot db' = Ok (Some snapshot);
  sd_txs : forall tx, tx ∈ b_transactions block ->
    get_tx_block_height (tx_hash tx) db' = Ok (Some (b_height block));
  sd_blocks : forall h, h < TWO64 -> h <> b_height block -> get_block h db' = get_block h db;
  sd_receipts : forall hash, get_receipt hash db' = get_receipt hash db;
}.

Section store_properties.
Context `{RD : Redb} `{!RedbLaws} `{SC : StoreCodec} `{TC : TxCodec} `{HB : Blake3}.
Implicit Types (db : Db) (block : Block).

Lemma read_commit db ws db' t k :
  redb_commit db ws = Ok db' ->
  read_table db' t k = match last_write ws t k with Some v => Ok v | None => read_table db t k end.
Proof. intros Hc. unfold read_table. rewrite (redb_get_commit _ _ _ t k Hc). by destruct (last_write ws t k). Qed.

(** A transaction that writes other tables leaves every block. *)
Lemma write_txn_blocks {A} ts (body : Db -> txn A) db h :
  (forall db, writes_only ts (body db)) -> BLOCKS ∉ ts -> get_block h (write_txn body db).2 = get_block h db.
Proof.
  intros Hw Ht. unfold write_txn. destruct (body db []) as [[a|e] ws] eqn:Hrun; [| done].
  destruct (redb_commit db ws) as [db'|e] eqn:Hc; [| done]. simpl.
  destruct (Hw db _ _ _ Hrun) as (extra & -> & He). unfold get_block.
  by rewrite (read_commit _ _ _ _ _ Hc), (last_write_app [] extra BLOCKS _ ts).
Qed.

Lemma put_meta_blocks key data db h : get_block h (put_meta key data db).2 = get_block h db.
Proof.
  apply (write_txn_blocks [META]); [intros db'; apply writes_only_insert; left |].
  by intros Hin%list_elem_of_singleton.
Qed.

Lemma put_receipts_blocks receipts db h : get_block h (put_receipts receipts db).2 = get_block h db.
Proof.
  unfold put_receipts. case_bool_decide; [done |].
  apply (write_txn_blocks [RECEIPTS]); [| by intros Hin%list_elem_of_singleton].
  intros _. apply writes_only_for_each. intros p. apply writes_only_insert. left.
Qed.

Lemma put_stored block snapshot db :
  b_height block < TWO64 -> try_from_slice (to_vec block) = Ok block ->
  let '(r, db') := put_block_and_snapshot block snapshot db in
  match r with Ok _ => stored block snapshot db db' | Err _ => db' = db end.
Proof.
  intros Hh Hcodec. unfold put_block_and_snapshot, write_txn.
  destruct ((write_block_tables db block (to_vec block);; table_insert META META_STATE_SNAPSHOT snapshot) [])
    as [[u|e] ws] eqn:Hrun; [| done].
  destruct (redb_commit db ws) as [db'|e] eqn:Hc; [| done].
  apply bind_Ok in Hrun as ([] & ws1 & Hw & Hins). injection Hins as _ <-.
  destruct (block_writes _ _ _ _ Hh Hw) as (H1 & H2 & H3 & H4 & H5).
  assert (forall t k, t <> META \/ k <> META_STATE_SNAPSHOT ->
    last_write (mkWrite META META_STATE_SNAPSHOT (Some snapshot) :: ws1) t k = last_write ws1 t k) as Hne
    by (intros t k [Hk|Hk]; apply last_write_other; [left | right]; congruence).
  constructor.
  - unfold get_block. rewrite (read_commit _ _ _ _ _ Hc), Hne, H1 by (by left). by rewrite Hcodec.
  - unfold get_latest_height. rewrite (read_commit _ _ _ _ _ Hc), Hne, H3 by (by right).
    unfold height_of_bytes. rewrite length_le_bytes, Nat.eqb_refl. by rewrite le_value_le_bytes.
  - unfold get_state_snapshot. by rewrite (read_commit _ _ _ _ _ Hc), last_write_here.
  - intros tx Hin. unfold get_tx_block_height. rewrite (read_commit _ _ _ _ _ Hc), Hne, (H5 tx Hin) by (by left).
    by rewrite (le_value_le_bytes 8).
  - intros h Hlt Hn. unfold get_block. by rewrite (read_commit _ _ _ _ _ Hc), Hne, (H2 h Hlt Hn) by (by left).
  - intros hash. unfold get_receipt. by rewrite (read_commit _ _ _ _ _ Hc), Hne, H4 by (by left).
Qed.

(** C30. A block and its state snapshot are stored together or not at all: if the
    write fails the store is as before, and otherwise the block, the latest
    height, the snapshot and the height of each of its transactions are read back
    exactly, while every other block and every receipt reads as before. *)
Theorem store_atomic_roundtrip block snapshot db :
  b_height block < TWO64 -> try_from_slice (to_vec block) = Ok block ->
  let '(r, db') := put_block_and_snapshot block snapshot db in
  match r with Ok _ => stored block snapshot db db' | Err _ => db' = db end.
Proof. apply put_stored. Qed.

Lemma last_write_removed (keys : list N) h :
  h < TWO64 -> (forall k, k ∈ keys -> k < TWO64) ->
  last_write (reverse ((fun k => mkWrite BLOCKS (le64 k) None) <$> keys)) BLOCKS (le64 h)
  = if decide (h ∈ keys) then Some None else None.
Proof.
  intros Hh Hk. rewrite <- fmap_reverse.
  assert (forall k, k ∈ reverse keys -> k < TWO64) as Hk' by (intros k; rewrite elem_of_reverse; apply Hk).
  rewrite (decide_ext (h ∈ keys) (h ∈ reverse keys)) by (by rewrite elem_of_reverse).
  clear Hk. induction (reverse keys) as [|k l IH]; [by rewrite decide_False by apply not_elem_of_nil |].
  rewrite fmap_cons. simpl. case_bool_decide as Hd.
  - destruct Hd as [_ Hd]. apply (le_bytes_inj 8) in Hd; [| apply Hk'; left | done]. subst.
    by rewrite decide_True by left.
  - rewrite IH by (intros j Hj; apply Hk'; by right). apply decide_ext. rewrite elem_of_cons.
    split; [by right | intros [-> | Hin]; [by destruct Hd | done]].
Qed.

(** Pruning keeps the genesis block and everything from the given height on,
    and touches no other table; when it changes the store at all, no block in
    between can be read any more. *)
Theorem prune_keeps_recent below db n db' :
  prune_blocks_below below db = (n, db') ->
  (forall h, h < TWO64 -> h = 0 \/ below <= h -> get_block h db' = get_block h db)
  /\ (forall t k, t <> BLOCKS -> redb_get db' t k = redb_get db t k)
  /\ (db' = db \/ forall h, 1 <= h < below -> h < TWO64 ->
        get_block h db' = Ok None \/ exists e, redb_get db BLOCKS (le64 h) = Err e).
Proof.
  unfold prune_blocks_below. intros Hrun.
  destruct (N.leb_spec below 1); [injection Hrun as _ <-; by split_and!; [| | left] |].
  destruct (redb_range db BLOCKS 1 below) as [keys|e] eqn:Hr; [| injection Hrun as _ <-; by split_and!; [| | left]].
  set (ws := reverse _) in Hrun.
  destruct (redb_commit db ws) as [db1|e] eqn:Hc; injection Hrun as _ <-; [| by split_and!; [| | left]].
  assert (forall k, k ∈ keys <-> 1 <= k < below /\ k < TWO64 /\ exists v, redb_get db BLOCKS (le64 k) = Ok (Some v))
    as Hkeys by (intros k; by apply redb_range_spec).
  assert (forall h, h < TWO64 -> last_write ws BLOCKS (le64 h) = if decide (h ∈ keys) then Some None else None) as Hlw
    by (intros h Hh; apply last_write_removed; [done |]; intros k Hk%Hkeys; tauto).
  split_and!.
  - intros h Hh Hout. unfold get_block. rewrite (read_commit _ _ _ _ _ Hc), Hlw by done.
    rewrite decide_False; [done |]. rewrite Hkeys. lia.
  - intros t k Ht. rewrite (redb_get_commit _ _ _ t k Hc).
    replace ws with (ws ++ []) by apply app_nil_r. rewrite (last_write_app [] ws t k [BLOCKS]); [done | |].
    + unfold ws. apply Forall_reverse, Forall_fmap, Forall_true. intros k'. simpl. left.
    + by intros ->%list_elem_of_singleton.
  - right. intros h Hin Hh. unfold get_block. rewrite (read_commit _ _ _ _ _ Hc), Hlw by done.
    case_decide as Hk; [by left |]. rewrite Hkeys in Hk. unfold read_table.
    destruct (redb_get db BLOCKS (le64 h)) as [[v|]|e] eqn:Hg; [| by left | right; by eexists].
    destruct Hk. split_and!; [lia | lia | done | by eexists].
Qed.
End store_properties.

(** ** A concrete database *)

Definition table_no (t : Table) : N :=
  match t with BLOCKS => 0 | META => 1 | TX_INDEX => 2 | ADDRESS_TX_INDEX => 3 | RECEIPTS => 4 end.

Lemma table_no_inj t1 t2 : table_no t1 = table_no t2 -> t1 = t2.
Proof. by destruct t1, t2. Qed.

Definition toy_db : Type := gmap (N * bytes) bytes.

Definition toy_write (w : Write) (db : toy_db) : toy_db :=
  partial_alter (fun _ => wr_value w) (table_no (wr_table w), wr_key w) db.

(** The numbers whose key is in the table. *)
Definition toy_keys (db : toy_db) (t : Table) : list N :=
  omap (fun p : (N * bytes) * bytes =>
    let n := le_value p.1.2 in
    if bool_decide (p.1.1 = table_no t /\ p.1.2 = le64 n /\ n < TWO64) then Some n else None) (map_to_list db).

Definition toy_redb : Redb := {|
  Db := toy_db;
  redb_get db t k := Ok (db !! (table_no t, k));
  redb_range db t lo hi := Ok (filter (fun n => lo <= n < hi) (toy_keys db t));
  redb_commit db ws := Ok (foldr toy_write db ws);
|}.

#[local] Existing Instance toy_redb.
#[local] Existing Instance toy_blake3.
#[local] Existing Instance toy_tx_codec.

Lemma toy_redb_laws : RedbLaws.
Proof.
  constructor.
  - intros db ws db' t k [= <-]. simpl. induction ws as [|w ws IH]; [done |]. simpl.
    unfold toy_write. case_bool_decide as Hd.
    + destruct Hd as [<- <-]. f_equal. apply (lookup_partial_alter_eq (M:=gmap (N * bytes))).
    + rewrite <- IH. f_equal. apply (lookup_partial_alter_ne (M:=gmap (N * bytes))).
      intros [= Ht Hk]. apply Hd. by split; [apply table_no_inj |].
  - intros db t lo hi ks n [= <-]. rewrite list_elem_of_filter. simpl.
    assert (n ∈ toy_keys db t <-> n < TWO64 /\ exists v, (db : toy_db) !! (table_no t, le64 n) = Some v) as Hn.
    { unfold toy_keys. rewrite list_elem_of_omap. split.
      - intros ([[tn k] v] & Hin & Hd). cbv zeta in Hd. cbn [fst snd] in Hd.
        case_bool_decide as Hc; [| done]. injection Hd as <-. destruct Hc as (-> & Hk & Hlt).
        split; [done |]. exists v. rewrite <- Hk. by apply elem_of_map_to_list.
      - intros [Hlt [v Hv]]. exists (table_no t, le64 n, v). split; [by apply elem_of_map_to_list |].
        cbv zeta. cbn [fst snd]. rewrite le_value_le_bytes by done. by rewrite bool_decide_eq_true_2. }
    rewrite Hn. split; [intros (? & ? & v & Hv); split_and!; try lia; exists v; by rewrite Hv |].
    intros (Hr & Hlt & v & Hv). injection Hv as Hv. split; [done |]. eauto.
Qed.

Definition toy_block : Block := mkBlock 7 zeros32 100 (toy_addr 11) [toy_tx TokenTransfer (toy_addr 11) 1 (toy_addr 12 ++ le128 5)] zeros32 zeros32 [] [] [].

Fixpoint enc_entries (l : list (N * N)) : bytes :=
  match l with [] => [] | (h, i) :: l => le64 h ++ le64 i ++ enc_entries l end.
Fixpoint dec_entries (fuel : nat) (bs : bytes) : list (N * N) :=
  match fuel, bs with
  | O, _ | _, [] => []
  | S fuel, _ => (le_value (take 8 bs), le_value (take 8 (drop 8 bs))) :: dec_entries fuel (drop 16 bs)
  end.

Definition toy_store_codec : StoreCodec := {|
  codec_block := {| to_vec b := le64 (b_height b); try_from_slice _ := Ok toy_block |};
  codec_receipt := {| to_vec _ := []; try_from_slice _ := Err "unused"%string |};
  codec_entries := {| to_vec := enc_entries; try_from_slice bs := Ok (dec_entries (length bs) bs) |};
  codec_attest := toy_decoder (fun _ => None);
|}.
#[local] Existing Instance toy_store_codec.

Definition empty_db : @Db toy_redb := (∅ : toy_db).

Lemma store_atomic_roundtrip_witness :
  get_block 7 (put_block_and_snapshot toy_block (lit "state") empty_db).2 = Ok (Some toy_block).
Proof.
  pose proof toy_redb_laws as Hlaws.
  pose proof (store_atomic_roundtrip toy_block (lit "state") empty_db ltac:(done) ltac:(done)) as H.
  destruct (put_block_and_snapshot toy_block (lit "state") empty_db) as [r db'] eqn:E.
  assert (r = Ok tt) as -> by (apply (f_equal fst) in E; vm_compute in E; by symmetry).
  exact (sd_block _ _ _ _ H).
Defined.

Lemma prune_keeps_recent_witness :
  let db := (put_block toy_block empty_db).2 in
  get_block 7 (prune_blocks_below 7 db).2 = Ok (Some toy_block).
Proof.
  intros db. pose proof toy_redb_laws as Hlaws.
  assert (get_block 7 db = Ok (Some toy_block)) as Hdb by (vm_compute; reflexivity).
  rewrite <- Hdb.
  exact (proj1 (prune_keeps_recent 7 db _ _ (surjective_pairing (prune_blocks_below 7 db))) 7
    ltac:(done) ltac:(right; done)).
Defined.

(** Storing a block again, as the node does for every vote it accepts, repeats its
    entries in the address index: the same transaction is listed twice. *)
Lemma restored_block_listed_twice :
  let once := (put_block toy_block empty_db).2 in
  let twice := (put_block toy_block once).2 in
  let count db := match get_transactions_by_address (toy_addr 12) 10 0 db with Ok l => length l | Err _ => 0%nat end in
  count once = 1%nat /\ count twice = 2%nat.
Proof. vm_compute. by split. Qed.
