(* ===== verification/ApplyTx.v ===== *)
(** * The transaction dispatcher ([WorldState::apply_tx])

    Size, signature, nonce and gas checks, dispatch to the handlers, and the
    bookkeeping after them, with the properties that hold of every transaction
    type: conservation of the native supply, the nonce discipline, what a
    failed transaction leaves behind, and the invariants of the ledger. *)

From S2P Require Import Prelude Interfaces Types Concrete Crypto Vm World Score ConcreteState HandlerBase ConcreteTx Tokens Agents Staking Mining Contracts.

Section apply_tx.
Context `{HB : Blake3} `{HE : Ed25519} `{TC : TxCodec} `{HX : Hex} `{VM : VmEngine} `{VS : VmSchedule}.
Implicit Types (tx : Transaction).

(** Identity and mining transactions are free of gas. *)
Definition gas_free (t : TxType) : bool :=
  match t with
  | AgentRegister | MinerRegister | MinerHeartbeat => true
  | _ => false
  end.

Definition no_receipt (m : handler unit) : handler (list BlockEvent * option TransactionReceipt) :=
  m;; mret ([], None).
Definition with_receipt (m : handler (list BlockEvent * TransactionReceipt))
    : handler (list BlockEvent * option TransactionReceipt) :=
  '(events, receipt) ← m; mret (events, Some receipt).

Definition dispatch tx (tx_index : N) : handler (list BlockEvent * option TransactionReceipt) :=
  match tx_type tx with
  | ContractDeploy => with_receipt (handle_contract_deploy tx tx_index)
  | ContractCall => with_receipt (handle_contract_call tx tx_index)
  | AgentRegister => no_receipt (handle_agent_register tx)
  | TokenTransfer => no_receipt (handle_token_transfer tx)
  | TokenCreate => no_receipt (handle_token_create tx)
  | TokenMintTransfer => no_receipt (handle_token_mint_transfer tx)
  | ReputationAttest => no_receipt (handle_reputation_attest tx)
  | ServiceRegister => no_receipt (handle_service_register tx)
  | StakeDeposit => no_receipt (handle_stake_deposit tx)
  | StakeWithdraw => no_receipt (handle_stake_withdraw tx)
  | StakeClaim => no_receipt (handle_stake_claim tx)
  | PlatformActivityReport => no_receipt (handle_platform_activity_report tx)
  | TokenApprove => no_receipt (handle_token_approve tx)
  | TokenBurn => no_receipt (handle_token_burn tx)
  | ChangeDelegation => no_receipt (handle_change_delegation tx)
  | MinerRegister => no_receipt (handle_miner_register tx)
  | MinerHeartbeat => no_receipt (handle_miner_heartbeat tx)
  | ContractUpgradeAnnounce => no_receipt (handle_contract_upgrade_announce tx)
  | ContractUpgradeExecute => with_receipt (handle_contract_upgrade_execute tx tx_index)
  end.

(** The sender's counters after an accepted transaction. *)
Definition count_tx (t : TxType) (actual_fee : N) (a : ActivityStats) : ActivityStats := {|
  as_tx_count := u32_add (as_tx_count a) 1;
  as_contract_deploys :=
    if bool_decide (t = ContractDeploy) then u32_add (as_contract_deploys a) 1 else as_contract_deploys a;
  as_contract_calls :=
    if bool_decide (t = ContractCall) then u32_add (as_contract_calls a) 1 else as_contract_calls a;
  as_tokens_created :=
    if bool_decide (t = TokenCreate) then u32_add (as_tokens_created a) 1 else as_tokens_created a;
  as_services_registered :=
    if bool_decide (t = ServiceRegister) then u32_add (as_services_registered a) 1
    else as_services_registered a;
  as_gas_consumed := u64_add (as_gas_consumed a) (actual_fee mod TWO64);
|}.

(** What follows a successful handler. *)
Definition accept_tx tx (actual_fee : N) (receipt : option TransactionReceipt) (s : WorldState)
    : WorldState :=
  let s := s <| ws_nonces ::= <[tx_from tx := tx_nonce tx]> |> in
  let s := if receipt is Some r then s <| ws_receipts ::= <[tr_tx_hash r := r]> |> else s in
  s <| ws_activity_stats ::= fun m =>
    <[tx_from tx := count_tx (tx_type tx) actual_fee (default default_ActivityStats (m !! tx_from tx))]> m |>.

(** The checks and the gas deduction before the handler. *)
Definition precheck_tx tx : handler unit :=
  fail_if (MAX_TX_PAYLOAD_SIZE <? blen (tx_payload tx))
    (PayloadTooLarge (blen (tx_payload tx)) MAX_TX_PAYLOAD_SIZE);;
  map_err (verify_transaction tx) (fun _ => InvalidSignature);;
  current_nonce ← st_gets (fun s => get_nonce s (tx_from tx));
  let expected := u64_add current_nonce 1 in
  fail_if (negb (tx_nonce tx =? expected)) (InvalidNonce expected (tx_nonce tx));;
  if negb (gas_free (tx_type tx)) then
    balance ← st_gets (fun s => get_balance s (tx_from tx));
    fail_if (balance <? GAS_FEE) (InsufficientBalance GAS_FEE balance);;
    debit (tx_from tx) GAS_FEE
  else mret tt.

(** Dispatch, then either the bookkeeping or the gas refund. *)
Definition finish_tx tx (tx_index : N) : handler (N * list BlockEvent) := fun s =>
  let actual_fee := if gas_free (tx_type tx) then 0 else GAS_FEE in
  match dispatch tx tx_index s with
  | (Ok (contract_events, receipt), s) =>
      (Ok (actual_fee, contract_events), accept_tx tx actual_fee receipt s)
  | (Err e, s) =>
      (Err e, if negb (gas_free (tx_type tx))
              then s <| ws_balances ::= entry_add TWO128 (tx_from tx) GAS_FEE |> else s)
  end.

Definition apply_tx tx (tx_index : N) : handler (N * list BlockEvent) :=
  precheck_tx tx;; finish_tx tx tx_index.
End apply_tx.

(** ** What each handler does to the funds *)

(** The parts of the state that carry native funds, miners apart. *)
Definition funds (s : WorldState) : gmap bytes N * gmap bytes N * list UnbondingEntry * N * gmap bytes MinerInfo :=
  (ws_balances s, ws_stakes s, ws_unbonding_queue s, ws_epoch_reward_bucket s, ws_miners s).

(** Whatever its outcome, [m] keeps the supply. *)
Definition conserves {A} (m : handler A) : Prop :=
  forall s r s', supply_fits s -> m s = (r, s') -> supply s' = supply s.

Section conservation.
Context `{HB : Blake3} `{HE : Ed25519} `{TC : TxCodec} `{HX : Hex} `{VM : VmEngine} `{VS : VmSchedule}.
Implicit Types (tx : Transaction) (s : WorldState).

Lemma conserves_keeps {A} (m : handler A) : keeps funds m -> conserves m.
Proof.
  intros Hm s r s' _ Hrun. apply Hm in Hrun. unfold funds in Hrun.
  injection Hrun as H1 H2 H3 H4 H5. unfold supply. by rewrite H1, H2, H3, H4, H5.
Qed.

Lemma funds_agent_register tx : keeps funds (handle_agent_register tx).
Proof. unfold handle_agent_register. keeps_tac. Qed.
Lemma funds_token_create tx : keeps funds (handle_token_create tx).
Proof. unfold handle_token_create. keeps_tac. Qed.
Lemma funds_token_mint_transfer tx : keeps funds (handle_token_mint_transfer tx).
Proof. unfold handle_token_mint_transfer. keeps_tac. Qed.
Lemma funds_token_approve tx : keeps funds (handle_token_approve tx).
Proof. unfold handle_token_approve. keeps_tac. Qed.
Lemma funds_token_burn tx : keeps funds (handle_token_burn tx).
Proof. unfold handle_token_burn. keeps_tac. Qed.
Lemma funds_service_register tx : keeps funds (handle_service_register tx).
Proof. unfold handle_service_register. keeps_tac. Qed.
Lemma funds_reputation_attest tx : keeps funds (handle_reputation_attest tx).
Proof. unfold handle_reputation_attest. keeps_tac. Qed.
Lemma funds_activity_report tx : keeps funds (handle_platform_activity_report tx).
Proof.
  unfold handle_platform_activity_report, validate_entry.
  repeat first [ apply keeps_readonly, readonly_check_duplicates | cbv beta zeta; keeps_step ].
Qed.
Lemma funds_change_delegation tx : keeps funds (handle_change_delegation tx).
Proof. unfold handle_change_delegation. keeps_tac. Qed.
Lemma funds_upgrade_announce tx : keeps funds (handle_contract_upgrade_announce tx).
Proof. unfold handle_contract_upgrade_announce. keeps_tac. Qed.
Lemma funds_upgrade_execute tx i : keeps funds (handle_contract_upgrade_execute tx i).
Proof.
  unfold handle_contract_upgrade_execute, run_migration, apply_storage_changes. keeps_tac.
Qed.

Lemma conserves_token_transfer tx : conserves (handle_token_transfer tx).
Proof.
  intros s r s' Hs Hrun. pose proof (token_transfer_outcome tx s Hs) as H. rewrite Hrun in H.
  destruct r; [by destruct H as (? & ? & ? & ? & ? & ? & _) | by destruct H as [-> _]].
Qed.

Lemma conserves_stake_deposit tx : conserves (handle_stake_deposit tx).
Proof.
  intros s r s' Hs Hrun. pose proof (stake_deposit_outcome tx s Hs) as H. rewrite Hrun in H.
  destruct r; [by destruct H as (? & ? & ? & ? & ? & ? & ? & ? & ? & ? & _) | by destruct H as (? & ? & ?)].
Qed.

Lemma conserves_contract_call tx i : conserves (handle_contract_call tx i).
Proof.
  intros s r s' Hs Hrun. pose proof (contract_call_outcome tx i s Hs) as H. rewrite Hrun in H.
  destruct r as [[]|]; [by destruct H as (? & ? & ? & ? & ? & ? & ? & ? & ? & ? & _) | by destruct H as (? & ? & ?)].
Qed.

Lemma conserves_contract_deploy tx i : conserves (handle_contract_deploy tx i).
Proof.
  intros s r s' Hs Hrun. apply contract_deploy_outcome in Hrun; [| done].
  destruct r; [by destruct Hrun as (? & ? & ? & ? & _) | by subst].
Qed.

Lemma conserves_miners {A} (m : handler A) :
  keeps (fun s => (ws_balances s, ws_stakes s, ws_unbonding_queue s, ws_epoch_reward_bucket s)) m ->
  keeps (fun s => msum mi_pending_rewards (ws_miners s)) m -> conserves m.
Proof.
  intros H1 H2 s r s' _ Hrun. apply H1 in Hrun as Hf. apply H2 in Hrun as Hm.
  injection Hf as E1 E2 E3 E4. unfold supply. cbv beta in Hm. by rewrite E1, E2, E3, E4, Hm.
Qed.

Lemma msum_alter_same {K V} `{Countable K} (f : V -> N) (g : V -> V) (m : gmap K V) k :
  (forall v, f (g v) = f v) -> msum f (alter g k m) = msum f m.
Proof.
  intros Hg. destruct (m !! k) as [v|] eqn:Hk.
  - rewrite (alter_as_insert _ _ _ _ Hk). pose proof (msum_insert f m k (g v)) as Hi.
    rewrite (mval_Some _ _ _ _ Hk), Hg in Hi. lia.
  - f_equal. apply map_eq. intros j. destruct (decide (k = j)) as [<-|];
      [by rewrite lookup_alter_eq, Hk | by rewrite lookup_alter_ne].
Qed.

Lemma conserves_miner_register tx : conserves (handle_miner_register tx).
Proof.
  apply conserves_miners; [unfold handle_miner_register; keeps_tac |].
  intros s r s' Hrun. destruct r as [[]|e]; [| by rewrite (miner_register_atomic _ _ _ _ Hrun)].
  unfold handle_miner_register, decode, decode_bytes in Hrun. st_inv. upd.
  rewrite msum_insert_None; [done |]. by apply contains_key_false.
Qed.

Lemma conserves_miner_heartbeat tx : conserves (handle_miner_heartbeat tx).
Proof.
  apply conserves_miners; unfold handle_miner_heartbeat, heartbeat_v1, heartbeat_v2; [keeps_tac |].
  repeat first
    [ apply keeps_modify; intros ?; upd_goal; apply msum_alter_same; intros ?; upd_goal; reflexivity
    | cbv beta zeta; keeps_step ].
Qed.

(** The two handlers that can lose funds when they fail. *)
Definition lossy (t : TxType) : bool :=
  match t with StakeWithdraw | StakeClaim => true | _ => false end.

Definition handler_supply (t : TxType) {A} (m : handler A) : Prop :=
  forall s r s', supply_fits s -> m s = (r, s') ->
    supply s' <= supply s /\ (is_ok r = true \/ lossy t = false -> supply s' = supply s).

Lemma handler_supply_conserves t {A} (m : handler A) : conserves m -> handler_supply t m.
Proof. intros Hm s r s' Hs Hrun. rewrite (Hm _ _ _ Hs Hrun). lia. Qed.

Lemma handler_supply_withdraw tx : handler_supply StakeWithdraw (handle_stake_withdraw tx).
Proof.
  intros s r s' Hs Hrun. pose proof (stake_withdraw_outcome tx s) as H. rewrite Hrun in H.
  destruct r.
  - destruct H as (? & ? & ? & ? & ? & ? & ? & ? & ? & ? & ? & Hsup). lia.
  - destruct H as [-> | (? & ? & ? & ? & ? & ? & ?)]; [lia |]. split; [lia |]. by intros [|].
Qed.

Lemma handler_supply_claim tx : handler_supply StakeClaim (handle_stake_claim tx).
Proof.
  intros s r s' Hs Hrun. pose proof (stake_claim_run tx s Hs) as H. cbv zeta in H. rewrite Hrun in H.
  pose proof (claimed_kept_sum (tx_from tx) (ws_block_height s) (ws_unbonding_queue s)) as Hsum.
  unfold supply_fits in Hs.
  destruct (try_from_slice _) as [p|]; [| injection H as -> ->; lia].
  destruct (N.eqb_spec (lsum ub_amount (claimed (tx_from tx) (ws_block_height s) (ws_unbonding_queue s))) 0).
  - injection H as -> ->. split; [unfold supply; upd; simpl; lia | by intros [|]].
  - injection H as -> ->.
    rewrite supply_credit; unfold supply in *; upd; lia.
Qed.

Lemma handler_supply_no_receipt t m : handler_supply t m -> handler_supply t (no_receipt m).
Proof.
  intros Hm s r s' Hs Hrun. unfold no_receipt, mbind, ST_bind in Hrun.
  destruct (m s) as [[[]|e] s1] eqn:Em; injection Hrun as <- <-; by apply Hm in Em.
Qed.
Lemma handler_supply_with_receipt t m : handler_supply t m -> handler_supply t (with_receipt m).
Proof.
  intros Hm s r s' Hs Hrun. unfold with_receipt, mbind, ST_bind in Hrun.
  destruct (m s) as [[[]|e] s1] eqn:Em; injection Hrun as <- <-; by apply Hm in Em.
Qed.

Hint Resolve funds_agent_register funds_token_create funds_token_mint_transfer funds_token_approve
  funds_token_burn funds_service_register funds_reputation_attest funds_activity_report
  funds_change_delegation funds_upgrade_announce funds_upgrade_execute conserves_keeps
  conserves_token_transfer conserves_stake_deposit conserves_contract_call conserves_contract_deploy
  conserves_miner_register conserves_miner_heartbeat handler_supply_withdraw handler_supply_claim
  handler_supply_no_receipt handler_supply_with_receipt handler_supply_conserves : claw.

Lemma dispatch_supply tx i : handler_supply (tx_type tx) (dispatch tx i).
Proof. unfold dispatch. destruct (tx_type tx); auto with claw. Qed.

(** The state after the checks. *)
Definition charged tx s : WorldState :=
  if gas_free (tx_type tx) then s
  else s <| ws_balances ::= entry_sub TWO128 (tx_from tx) GAS_FEE |>.

Lemma precheck_run tx s r s1 :
  precheck_tx tx s = (r, s1) ->
  match r with
  | Ok _ => s1 = charged tx s /\ blen (tx_payload tx) <= MAX_TX_PAYLOAD_SIZE
            /\ verify_transaction tx = Ok tt /\ tx_nonce tx = u64_add (get_nonce s (tx_from tx)) 1
            /\ (gas_free (tx_type tx) = false -> GAS_FEE <= get_balance s (tx_from tx))
  | Err _ => s1 = s
  end.
Proof.
  intros Hrun. unfold precheck_tx in Hrun. rewrite bind_fail_if in Hrun.
  destruct (_ <? blen _) eqn:?; [by injection Hrun as <- <- |].
  rewrite bind_map_err in Hrun. destruct (verify_transaction tx) as [[]|] eqn:?; [| by injection Hrun as <- <-].
  rewrite bind_gets in Hrun. cbv zeta in Hrun. rewrite bind_fail_if in Hrun.
  destruct (negb (tx_nonce tx =? _)) eqn:?; [by injection Hrun as <- <- |]. bools.
  unfold charged. destruct (gas_free (tx_type tx)); cbn [negb] in Hrun.
  - injection Hrun as <- <-. by split_and!.
  - rewrite bind_gets, bind_fail_if in Hrun. destruct (_ <? GAS_FEE) eqn:?; [by injection Hrun as <- <- |].
    bools. injection Hrun as <- <-. by split_and!.
Qed.
End conservation.

(** ** Conservation, atomicity and the nonce discipline *)

Section apply_tx_facts.
Context `{HB : Blake3} `{HE : Ed25519} `{TC : TxCodec} `{HX : Hex} `{VM : VmEngine} `{VS : VmSchedule}.
Implicit Types (tx : Transaction) (s : WorldState).

Definition fee_of tx : N := if gas_free (tx_type tx) then 0 else GAS_FEE.

Lemma supply_charged tx s :
  supply_fits s -> (gas_free (tx_type tx) = false -> GAS_FEE <= get_balance s (tx_from tx)) ->
  supply (charged tx s) + fee_of tx = supply s.
Proof.
  unfold supply_fits, charged, fee_of. intros Hs Hg. destruct (gas_free (tx_type tx)); [lia |].
  specialize (Hg eq_refl). rewrite get_balance_amount in Hg. pose proof (balance_le_supply s (tx_from tx)).
  rewrite supply_debit by lia. lia.
Qed.

Lemma supply_accept tx fee receipt s : supply (accept_tx tx fee receipt s) = supply s.
Proof. unfold accept_tx. by destruct receipt. Qed.

(** The two ways a transaction can end. *)
Lemma apply_tx_inv tx i s r s' :
  apply_tx tx i s = (r, s') ->
  (exists e, r = Err e /\ s' = s)
  \/ (blen (tx_payload tx) <= MAX_TX_PAYLOAD_SIZE
      /\ verify_transaction tx = Ok tt /\ tx_nonce tx = u64_add (get_nonce s (tx_from tx)) 1
      /\ (gas_free (tx_type tx) = false -> GAS_FEE <= get_balance s (tx_from tx))
      /\ exists rd s1, dispatch tx i (charged tx s) = (rd, s1)
         /\ match rd with
            | Ok (evs, receipt) => r = Ok (fee_of tx, evs) /\ s' = accept_tx tx (fee_of tx) receipt s1
            | Err e => r = Err e
                /\ s' = if gas_free (tx_type tx) then s1
                        else s1 <| ws_balances ::= entry_add TWO128 (tx_from tx) GAS_FEE |>
            end).
Proof.
  unfold apply_tx, mbind, ST_bind. destruct (precheck_tx tx s) as [rp s1] eqn:Hpre.
  apply precheck_run in Hpre. destruct rp as [[]|e].
  - destruct Hpre as (-> & Hlen & Hsig & Hnonce & Hgas). unfold finish_tx. cbv zeta. intros Hrun. right.
    split_and!; try done. destruct (dispatch tx i (charged tx s)) as [[[evs receipt]|e] s2].
    + injection Hrun as <- <-. by exists (Ok (evs, receipt)), s2.
    + injection Hrun as <- <-. exists (Err e), s2. by destruct (gas_free (tx_type tx)).
  - subst s1. intros [= <- <-]. left. by exists e.
Qed.

(** What a transaction does to the native supply. *)
Definition supply_spec tx s (out : result (N * list BlockEvent) StateError * WorldState) : Prop :=
  match out with
  | (Ok (fee, _), s') => fee = fee_of tx /\ supply s' + fee = supply s
  | (Err _, s') => supply s' <= supply s /\ (lossy (tx_type tx) = false -> supply s' = supply s)
  end.

Lemma apply_tx_supply_run tx i s :
  supply_fits s -> supply_spec tx s (apply_tx tx i s).
Proof.
  unfold supply_spec. intros Hs. destruct (apply_tx tx i s) as [r s'] eqn:Hrun.
  destruct (apply_tx_inv _ _ _ _ _ Hrun) as [(e & -> & ->) | (_ & _ & _ & Hgas & rd & s1 & Hd & Hout)]; [lia |].
  pose proof (supply_charged tx s Hs Hgas) as Hc. unfold supply_fits in Hs.
  assert (supply_fits (charged tx s)) as Hsc by (unfold supply_fits; lia).
  destruct (dispatch_supply tx i _ _ _ Hsc Hd) as [Hle Heq]. destruct rd as [[evs receipt]|e].
  - destruct Hout as [-> ->]. split; [done |]. rewrite supply_accept, Heq by (by left). lia.
  - destruct Hout as [-> ->]. unfold fee_of in Hc. destruct (gas_free (tx_type tx)).
    + split; [lia | intros Hl; rewrite Heq by (by right); lia].
    + unfold GAS_FEE in *. rewrite supply_credit by lia.
      split; [lia | intros Hl; rewrite Heq by (by right); lia].
Qed.

(** C10. Every accepted transaction takes exactly its fee out of the native
    supply (zero for registrations and heartbeats, [GAS_FEE] otherwise), which
    the block then distributes; a rejected one leaves the supply as it was,
    unless it is a failed stake withdrawal or claim, which can only lose funds. *)
Theorem apply_tx_supply tx i s :
  supply_fits s -> supply_spec tx s (apply_tx tx i s).
Proof. apply apply_tx_supply_run. Qed.

(** The handlers that change nothing when they fail. *)
Definition rolls_back (t : TxType) : bool :=
  match t with
  | StakeWithdraw | StakeClaim | StakeDeposit | ContractCall => false
  | _ => true
  end.

Lemma atomic_no_receipt m : atomic m -> atomic (no_receipt m).
Proof.
  intros Hm s e s'. unfold no_receipt, mbind, ST_bind. destruct (m s) as [[[]|e0] s1] eqn:Em; [done |].
  intros [= <- <-]. by apply Hm in Em.
Qed.
Lemma atomic_with_receipt m : atomic m -> atomic (with_receipt m).
Proof.
  intros Hm s e s'. unfold with_receipt, mbind, ST_bind. destruct (m s) as [[[]|e0] s1] eqn:Em; [done |].
  intros [= <- <-]. by apply Hm in Em.
Qed.

Lemma contract_deploy_atomic tx i s e s' :
  supply_fits s -> handle_contract_deploy tx i s = (Err e, s') -> s' = s.
Proof. intros Hs Hrun. by apply contract_deploy_outcome in Hrun. Qed.

Lemma dispatch_atomic tx i s e s' :
  supply_fits s -> rolls_back (tx_type tx) = true -> dispatch tx i s = (Err e, s') -> s' = s.
Proof.
  intros Hs Hrb. unfold dispatch. destruct (tx_type tx); try done.
  all: try (apply atomic_no_receipt).
  1: apply agent_register_atomic. 1: apply token_transfer_atomic.
  all: try (unfold handle_token_create, handle_token_mint_transfer, handle_reputation_attest,
              handle_token_approve, handle_token_burn, handle_change_delegation; atomic_tac).
  - apply service_register_atomic.
  - unfold with_receipt, mbind, ST_bind.
    destruct (handle_contract_deploy tx i s) as [[[]|e0] s1] eqn:Em; [done |].
    intros [= <- <-]. by apply contract_deploy_atomic in Em.
  - apply activity_report_atomic.
  - apply miner_register_atomic.
  - apply miner_heartbeat_atomic.
  - apply upgrade_announce_atomic.
  - apply atomic_with_receipt, upgrade_execute_atomic.
Qed.

Lemma failed_balances tx i s e s' :
  supply_fits s ->
  (tx_type tx = StakeDeposit
   \/ tx_type tx = ContractCall
      /\ (forall c, is_Some (ws_contracts s !! c) -> is_Some (ws_contract_code s !! c))) ->
  dispatch tx i s = (Err e, s') -> (forall a, get_balance s' a = get_balance s a) /\ supply s' = supply s.
Proof.
  intros Hs Ht. unfold dispatch. destruct Ht as [-> | [-> Hcode]].
  - unfold no_receipt, mbind, ST_bind. pose proof (stake_deposit_outcome tx s Hs) as Ho.
    destruct (handle_stake_deposit tx s) as [[[]|e0] s1]; [done |]. intros [= <- <-].
    by destruct Ho as (? & _ & ?).
  - unfold with_receipt, mbind, ST_bind. pose proof (contract_call_outcome tx i s Hs) as Ho.
    destruct (handle_contract_call tx i s) as [[[]|e0] s1]; [done |]. intros [= <- <-].
    destruct Ho as (? & _ & Hb). by split; [apply Hb |].
Qed.

(** C13. A rejected transaction leaves the whole state as it was, gas included,
    for every type but contract calls, stake deposits, withdrawals and claims;
    for calls (of contracts that have their code) and deposits every balance
    still reads the same. *)
Theorem rejected_tx_rolls_back tx i s e s' :
  supply_fits s -> apply_tx tx i s = (Err e, s') ->
  (rolls_back (tx_type tx) = true -> s' = s)
  /\ ((tx_type tx = StakeDeposit
       \/ tx_type tx = ContractCall
          /\ (forall c, is_Some (ws_contracts s !! c) -> is_Some (ws_contract_code s !! c))) ->
      forall a, get_balance s' a = get_balance s a).
Proof.
  intros Hs Hrun.
  destruct (apply_tx_inv _ _ _ _ _ Hrun) as [(e0 & _ & ->) | (_ & _ & _ & Hgas & rd & s1 & Hd & Hout)]; [done |].
  destruct rd as [[evs receipt]|e0]; [by destruct Hout |]. destruct Hout as [_ ->].
  pose proof (supply_charged tx s Hs Hgas) as Hc. unfold supply_fits in Hs.
  assert (supply_fits (charged tx s)) as Hsc by (unfold supply_fits; lia).
  split.
  - intros Hrb. rewrite (dispatch_atomic _ _ _ _ _ Hsc Hrb Hd). unfold charged.
    destruct (gas_free (tx_type tx)); [done |]. specialize (Hgas eq_refl).
    rewrite get_balance_amount in Hgas. pose proof (balance_le_supply s (tx_from tx)).
    assert (entry_add TWO128 (tx_from tx) GAS_FEE (entry_sub TWO128 (tx_from tx) GAS_FEE (ws_balances s))
            = ws_balances s) as Hback.
    { apply entry_add_sub; [| lia | done]. rewrite amount_of_default in Hgas.
      destruct (ws_balances s !! tx_from tx); [done |]. unfold GAS_FEE in Hgas. simpl in Hgas. lia. }
    transitivity (s <| ws_balances := entry_add TWO128 (tx_from tx) GAS_FEE
      (entry_sub TWO128 (tx_from tx) GAS_FEE (ws_balances s)) |>); [reflexivity | rewrite Hback; by destruct s].
  - intros Ht. assert (tx_type tx = StakeDeposit \/ tx_type tx = ContractCall
        /\ (forall c, is_Some (ws_contracts (charged tx s) !! c) ->
              is_Some (ws_contract_code (charged tx s) !! c))) as Ht1
      by (unfold charged; by destruct (gas_free (tx_type tx))).
    destruct (failed_balances _ _ _ _ _ Hsc Ht1 Hd) as [Hb Hsup].
    assert (gas_free (tx_type tx) = false) as Hgf by (by destruct Ht as [-> | [-> _]]).
    rewrite Hgf. intros a. specialize (Hgas Hgf). unfold charged in *. rewrite Hgf in *.
    unfold GAS_FEE, fee_of in *. rewrite Hgf in Hc. unfold GAS_FEE in Hc.
    rewrite balance_credit by lia. rewrite Hb. pose proof Hgas as Hgas'. rewrite get_balance_amount in Hgas'.
    rewrite balance_debit by lia. case_decide; subst; lia.
Qed.
End apply_tx_facts.

(** ** Frames of the dispatcher *)

Section frames.
Context `{HB : Blake3} `{HE : Ed25519} `{TC : TxCodec} `{HX : Hex} `{VM : VmEngine} `{VS : VmSchedule}.
Implicit Types (tx : Transaction) (s : WorldState).

Lemma readonly_claim_loop from height q tot rem : readonly (claim_loop from height q tot rem).
Proof.
  revert tot rem. induction q as [|e q IH]; intros tot rem; simpl; [auto with claw |].
  destruct (claimable from height e); auto with claw.
Qed.
End frames.

#[export] Hint Resolve readonly_claim_loop readonly_check_duplicates readonly_decode_stake_deposit
  readonly_decode_stake_withdraw readonly_withdraw_validator : claw.

Ltac dispatch_keeps tx :=
  unfold dispatch, no_receipt, with_receipt; destruct (tx_type tx) eqn:?; try congruence;
  unfold handle_contract_deploy, handle_contract_call, handle_agent_register, handle_token_transfer,
    handle_token_create, handle_token_mint_transfer, handle_reputation_attest, handle_service_register,
    handle_stake_deposit, handle_stake_withdraw, handle_stake_claim, handle_platform_activity_report,
    validate_entry, handle_token_approve, handle_token_burn, handle_change_delegation,
    handle_miner_register, handle_miner_heartbeat, heartbeat_v1, heartbeat_v2,
    handle_contract_upgrade_announce, handle_contract_upgrade_execute, run_migration,
    apply_storage_changes, apply_transfers, register_contract, refund;
  keeps_tac.

Section nonces.
Context `{HB : Blake3} `{HE : Ed25519} `{TC : TxCodec} `{HX : Hex} `{VM : VmEngine} `{VS : VmSchedule}.
Implicit Types (tx : Transaction) (s : WorldState).

Lemma dispatch_nonces tx i : keeps ws_nonces (dispatch tx i).
Proof. dispatch_keeps tx. Qed.
Lemma dispatch_height tx i : keeps ws_block_height (dispatch tx i).
Proof. dispatch_keeps tx. Qed.

Lemma apply_tx_nonces tx i s r s' :
  apply_tx tx i s = (r, s') ->
  match r with
  | Ok _ => verify_transaction tx = Ok tt /\ tx_nonce tx = u64_add (get_nonce s (tx_from tx)) 1
            /\ ws_nonces s' = <[tx_from tx := tx_nonce tx]> (ws_nonces s)
  | Err _ => ws_nonces s' = ws_nonces s
  end.
Proof.
  intros Hrun.
  destruct (apply_tx_inv _ _ _ _ _ Hrun) as [(e & -> & ->) | (_ & Hsig & Hn & _ & rd & s1 & Hd & Hout)]; [done |].
  apply dispatch_nonces in Hd.
  assert (ws_nonces (charged tx s) = ws_nonces s) as Hc by (unfold charged; by destruct (gas_free _)).
  rewrite Hc in Hd. destruct rd as [[evs receipt]|e].
  - destruct Hout as [-> ->]. split_and!; [done | done |].
    unfold accept_tx. destruct receipt; upd; by rewrite Hd.
  - destruct Hout as [-> ->]. by destruct (gas_free _).
Qed.

(** The states reached by applying further transactions, accepted or not.  A
    sender that has used up all [2^64] nonces would start again at 0, so
    transactions with nonce 0 are left out. *)
Inductive later : WorldState -> WorldState -> Prop :=
  | later_refl s : later s s
  | later_step s1 s2 tx i r s3 :
      later s1 s2 -> tx_nonce tx <> 0 -> apply_tx tx i s2 = (r, s3) -> later s1 s3.

Lemma later_nonce s1 s2 a :
  later s1 s2 -> get_nonce s1 a < TWO64 ->
  get_nonce s1 a <= get_nonce s2 a /\ get_nonce s2 a < TWO64.
Proof.
  induction 1 as [s | s1 s2 tx i r s3 Hl IH Hnz Hrun]; intros Ha; [lia |].
  specialize (IH Ha). apply apply_tx_nonces in Hrun. destruct r.
  - destruct Hrun as (_ & Hn & Hset). unfold get_nonce in *. rewrite Hset.
    destruct (decide (tx_from tx = a)) as [<- |]; [| by rewrite lookup_insert_ne].
    rewrite lookup_insert_eq. simpl. unfold wadd in Hn.
    set (n := default 0 (ws_nonces s2 !! tx_from tx)) in *.
    destruct (decide (n + 1 < TWO64)); [rewrite N.mod_small in Hn by done; lia |].
    replace n with (TWO64 - 1) in Hn by lia. vm_compute in Hn. done.
  - unfold get_nonce in *. by rewrite Hrun.
Qed.

(** C12. A transaction is accepted at most once: after it was accepted, and
    whatever transactions followed, applying it again fails and changes
    nothing.  Accepted transactions carry a valid signature of their sender. *)
Theorem no_replay tx i s out s1 s2 j :
  tx_nonce tx <> 0 -> apply_tx tx i s = (Ok out, s1) -> later s1 s2 ->
  verify_transaction tx = Ok tt /\ exists e, apply_tx tx j s2 = (Err e, s2).
Proof.
  intros Hnz Hrun Hl. apply apply_tx_nonces in Hrun as (Hsig & Hn & Hset). split; [done |].
  assert (get_nonce s1 (tx_from tx) = tx_nonce tx) as H1
    by (unfold get_nonce; by rewrite Hset, lookup_insert_eq).
  assert (tx_nonce tx < TWO64) as Hlt by (rewrite Hn; by apply wadd_lt).
  pose proof (later_nonce _ _ (tx_from tx) Hl ltac:(lia)) as [Hge Hlt2].
  destruct (apply_tx tx j s2) as [r s3] eqn:Hagain.
  destruct (apply_tx_inv _ _ _ _ _ Hagain) as [(e & -> & ->) | (_ & _ & Hn2 & _)]; [by exists e | exfalso].
  unfold wadd in Hn2. set (n := get_nonce s2 (tx_from tx)) in *.
  destruct (decide (n + 1 < TWO64)); [rewrite N.mod_small in Hn2 by done; lia |].
  replace n with (TWO64 - 1) in Hn2 by lia. vm_compute in Hn2. done.
Qed.
End nonces.

(** ** Invariants of the ledger *)

(** Contracts and their code come together, and a pending upgrade was announced
    in the past and is ready [UPGRADE_DELAY_BLOCKS] after that. *)
Record contracts_ok `{Blake3} (s : WorldState) : Prop := {
  co_code : forall c, is_Some (ws_contracts s !! c) <-> is_Some (ws_contract_code s !! c);
  co_hash : forall c i code, ws_contracts s !! c = Some i -> ws_contract_code s !! c = Some code ->
    ci_code_hash i = blake3 code;
  co_pending : forall c i u, ws_contracts s !! c = Some i -> ci_pending_upgrade i = Some u ->
    pu_announced_at u <= ws_block_height s /\ pu_ready_at u = pu_announced_at u + UPGRADE_DELAY_BLOCKS;
}.

Record ledger_ok `{Blake3} (s : WorldState) : Prop := {
  lk_tokens : tokens_backed s;
  lk_subnets : subnets_limited (ws_miners s);
  lk_contracts : contracts_ok s;
}.

Definition preserves {A} (P : WorldState -> Prop) (m : handler A) : Prop :=
  forall s r s', P s -> m s = (r, s') -> P s'.

Section invariants.
Context `{HB : Blake3} `{HE : Ed25519} `{TC : TxCodec} `{HX : Hex} `{VM : VmEngine} `{VS : VmSchedule}.
Implicit Types (tx : Transaction) (s : WorldState) (P : WorldState -> Prop).

Lemma preserves_no_receipt P m : preserves P m -> preserves P (no_receipt m).
Proof.
  intros Hm s r s' Hs Hrun. unfold no_receipt, mbind, ST_bind in Hrun.
  destruct (m s) as [[[]|e] s1] eqn:Em; injection Hrun as <- <-; by eapply Hm.
Qed.
Lemma preserves_with_receipt P m : preserves P m -> preserves P (with_receipt m).
Proof.
  intros Hm s r s' Hs Hrun. unfold with_receipt, mbind, ST_bind in Hrun.
  destruct (m s) as [[[]|e] s1] eqn:Em; injection Hrun as <- <-; by eapply Hm.
Qed.
Lemma preserves_keeps {A T} (proj : WorldState -> T) P (m : handler A) :
  (forall s s', proj s' = proj s -> P s -> P s') -> keeps proj m -> preserves P m.
Proof. intros HP Hm s r s' Hs Hrun. apply Hm in Hrun. by eapply HP. Qed.

Definition token_ledger s := (ws_tokens s, ws_token_balances s).
Lemma tokens_backed_ext s s' : token_ledger s' = token_ledger s -> tokens_backed s -> tokens_backed s'.
Proof.
  unfold token_ledger. intros [= H1 H2] Hs id. specialize (Hs id).
  unfold token_total, declared_supply in *. by rewrite H1, H2.
Qed.

Definition contract_ledger s := (ws_contracts s, ws_contract_code s, ws_block_height s).
Lemma contracts_ok_ext s s' : contract_ledger s' = contract_ledger s -> contracts_ok s -> contracts_ok s'.
Proof.
  unfold contract_ledger. intros [= H1 H2 H3] [Hc Hh Hp]. constructor; rewrite H1, ?H2, ?H3; done.
Qed.

Lemma dispatch_tokens `{!TxCodecLaws} tx i : preserves tokens_backed (dispatch tx i).
Proof.
  destruct (decide (tx_type tx = TokenCreate)) as [E|]; [|
    destruct (decide (tx_type tx = TokenMintTransfer)) as [E|]; [|
      destruct (decide (tx_type tx = TokenBurn)) as [E|]]].
  - unfold dispatch. rewrite E. apply preserves_no_receipt. intros s r s'. by eapply token_create_backed.
  - unfold dispatch. rewrite E. apply preserves_no_receipt. intros s r s'. by eapply mint_transfer_backed.
  - unfold dispatch. rewrite E. apply preserves_no_receipt. intros s r s'. by eapply token_burn_backed.
  - apply (preserves_keeps token_ledger); [apply tokens_backed_ext |].
    dispatch_keeps tx.
Qed.

Lemma dispatch_subnets tx i : preserves (fun s => subnets_limited (ws_miners s)) (dispatch tx i).
Proof.
  destruct (decide (tx_type tx = MinerRegister)) as [E|]; [|
    destruct (decide (tx_type tx = MinerHeartbeat)) as [E|]].
  - unfold dispatch. rewrite E. apply preserves_no_receipt. intros s r s'. by eapply miner_register_limited.
  - unfold dispatch. rewrite E. apply preserves_no_receipt. intros s r s'. by eapply miner_heartbeat_limited.
  - apply (preserves_keeps ws_miners); [by intros s s' -> |]. dispatch_keeps tx.
Qed.

(** What a transaction can do to contracts and code: nothing, register a new
    contract, announce an upgrade, or execute an announced one. *)
Inductive contract_change tx s s' : Prop :=
  | cc_none : contract_ledger s' = contract_ledger s -> contract_change tx s s'
  | cc_deploy c i code :
      tx_type tx = ContractDeploy -> c = derive_contract_address (tx_from tx) (get_nonce s (tx_from tx)) ->
      ws_contracts s !! c = None -> ci_pending_upgrade i = None -> ci_code_hash i = blake3 code ->
      contract_ledger s' = (<[c := i]> (ws_contracts s), <[c := code]> (ws_contract_code s), ws_block_height s) ->
      contract_change tx s s'
  | cc_announce c i h :
      tx_type tx = ContractUpgradeAnnounce -> ws_contracts s !! c = Some i -> ci_admin i = tx_from tx ->
      contract_ledger s' =
        (<[c := i <| ci_pending_upgrade := Some (mkPendingUpgrade h (ws_block_height s)
            (u64_add (ws_block_height s) UPGRADE_DELAY_BLOCKS)) |>]> (ws_contracts s),
         ws_contract_code s, ws_block_height s) ->
      contract_change tx s s'
  | cc_execute c i u code i' :
      tx_type tx = ContractUpgradeExecute -> ws_contracts s !! c = Some i -> ci_admin i = tx_from tx ->
      ci_pending_upgrade i = Some u -> pu_ready_at u <= ws_block_height s ->
      blake3 code = pu_new_code_hash u -> ci_pending_upgrade i' = None -> ci_code_hash i' = blake3 code ->
      contract_ledger s' = (<[c := i']> (ws_contracts s), <[c := code]> (ws_contract_code s), ws_block_height s) ->
      contract_change tx s s'.

Lemma dispatch_contracts tx i s r s' :
  supply_fits s -> dispatch tx i s = (r, s') -> contract_change tx s s'.
Proof.
  intros Hs Hrun. destruct (decide (tx_type tx = ContractDeploy)) as [E|]; [|
    destruct (decide (tx_type tx = ContractUpgradeAnnounce)) as [E|]; [|
      destruct (decide (tx_type tx = ContractUpgradeExecute)) as [E|]]].
  - unfold dispatch, with_receipt, mbind, ST_bind in Hrun. rewrite E in Hrun.
    destruct (handle_contract_deploy tx i s) as [[[]|e] s1] eqn:Em; injection Hrun as <- <-;
      apply contract_deploy_outcome in Em; try done; [| subst; by apply cc_none].
    destruct Em as (p & _ & Hnew & _ & Heff).
    by eapply (cc_deploy _ _ _ _ _ _ E eq_refl Hnew); [| | unfold contract_ledger; rewrite Heff; reflexivity].
  - unfold dispatch, no_receipt, mbind, ST_bind in Hrun. rewrite E in Hrun.
    destruct (handle_contract_upgrade_announce tx s) as [[[]|e] s1] eqn:Em; injection Hrun as <- <-.
    + apply upgrade_announce_outcome in Em as (p & inst & _ & Hi & Hadm & ->).
      by eapply (cc_announce _ _ _ _ _ _ E Hi Hadm).
    + apply upgrade_announce_atomic in Em as ->. by apply cc_none.
  - unfold dispatch, with_receipt, mbind, ST_bind in Hrun. rewrite E in Hrun.
    pose proof (upgrade_execute_outcome tx i s) as Ho.
    destruct (handle_contract_upgrade_execute tx i s) as [[[]|e] s1] eqn:Em; injection Hrun as <- <-.
    + destruct Ho as (p & inst & u & _ & Hi & Hadm & Hu & Hready & Hhash & _ & Heff).
      by eapply (cc_execute _ _ _ _ _ _ _ _ E Hi Hadm Hu Hready Hhash);
        [| | unfold contract_ledger; rewrite Heff; reflexivity].
    + subst s1. by apply cc_none.
  - apply cc_none. revert Hrun. apply (fun H : keeps contract_ledger (dispatch tx i) => H s r s').
    dispatch_keeps tx.
Qed.

(** A rejected or accepted transaction, seen through a part of the state that
    the dispatcher itself does not touch. *)
Lemma apply_tx_frame {T} (proj : WorldState -> T) tx i s r s' :
  (forall s f, proj (s <| ws_balances ::= f |>) = proj s) ->
  (forall s fee rc, proj (accept_tx tx fee rc s) = proj s) ->
  supply_fits s -> apply_tx tx i s = (r, s') ->
  (s' = s /\ is_ok r = false)
  \/ exists rd s1, dispatch tx i (charged tx s) = (rd, s1) /\ supply_fits (charged tx s)
       /\ proj (charged tx s) = proj s /\ proj s' = proj s1 /\ is_ok r = is_ok rd.
Proof.
  intros Hbal Hacc Hs Hrun.
  destruct (apply_tx_inv _ _ _ _ _ Hrun) as [(e & -> & ->) | (_ & _ & _ & Hgas & rd & s1 & Hd & Hout)]; [by left |].
  right. exists rd, s1. pose proof (supply_charged tx s Hs Hgas) as Hc. unfold supply_fits in *.
  split_and!; [done | lia | unfold charged; by destruct (gas_free _) | |].
  - destruct rd as [[evs rc]|e]; destruct Hout as [_ ->]; [apply Hacc | by destruct (gas_free _)].
  - destruct rd as [[evs rc]|e]; by destruct Hout as [-> _].
Qed.

Lemma accept_token_ledger tx s fee rc : token_ledger (accept_tx tx fee rc s) = token_ledger s.
Proof. unfold accept_tx. by destruct rc. Qed.
Lemma accept_contract_ledger tx s fee rc : contract_ledger (accept_tx tx fee rc s) = contract_ledger s.
Proof. unfold accept_tx. by destruct rc. Qed.
Lemma accept_miners tx s fee rc : ws_miners (accept_tx tx fee rc s) = ws_miners s.
Proof. unfold accept_tx. by destruct rc. Qed.

Lemma apply_tx_contracts tx i s r s' :
  supply_fits s -> apply_tx tx i s = (r, s') -> contract_change tx s s'.
Proof.
  intros Hs Hrun.
  destruct (apply_tx_frame contract_ledger _ _ _ _ _ ltac:(done) (accept_contract_ledger tx) Hs Hrun)
    as [[-> _] | (rd & s1 & Hd & Hsc & Hc & Hs' & _)]; [by apply cc_none |].
  pose proof Hc as Hc'. unfold contract_ledger in Hc'. injection Hc' as E1 E2 E3.
  destruct (dispatch_contracts _ _ _ _ _ Hsc Hd)
    as [E | c i0 code Et Hcadr Hnew Hi Hih E | c i0 h Et Hi Hadm E | c i0 u code i' Et Hi Hadm Hu Hr Hhash Hi' Hih E];
    rewrite <- Hs' in E.
  - apply cc_none. congruence.
  - rewrite E1 in Hnew. rewrite E1, E2, E3 in E.
    assert (c = derive_contract_address (tx_from tx) (get_nonce s (tx_from tx))) as Ha
      by (rewrite Hcadr; unfold charged; by destruct (gas_free _)).
    exact (cc_deploy _ _ _ _ _ _ Et Ha Hnew Hi Hih E).
  - rewrite E1 in Hi. rewrite E1, E2, E3 in E. exact (cc_announce _ _ _ _ _ _ Et Hi Hadm E).
  - rewrite E1 in Hi. rewrite E3 in Hr. rewrite E1, E2, E3 in E.
    exact (cc_execute _ _ _ _ _ _ _ _ Et Hi Hadm Hu Hr Hhash Hi' Hih E).
Qed.

Lemma contracts_ok_change tx s s' :
  ws_block_height s + UPGRADE_DELAY_BLOCKS < TWO64 ->
  contracts_ok s -> contract_change tx s s' -> contracts_ok s'.
Proof.
  intros Hh [Hcode Hash Hpend] Hch.
  destruct Hch as [E | c i code _ _ Hnew Hi Hih E | c i h _ Hi Hadm E | c i u code i' _ Hi Hadm Hu Hr Hhash Hi' Hih E].
  - by apply (contracts_ok_ext s).
  - unfold contract_ledger in E. injection E as E1 E2 E3. constructor; rewrite E1, ?E2, ?E3.
    + intros k. rewrite !lookup_insert_is_Some. destruct (decide (c = k)); naive_solver.
    + intros k i0 cd [[<- <-] | [? Hk]]%lookup_insert_Some; [rewrite lookup_insert_eq | rewrite lookup_insert_ne by done];
        [congruence | by apply Hash].
    + intros k i0 u0 [[<- <-] | [_ Hk]]%lookup_insert_Some Hu0; [congruence | by eapply Hpend].
  - unfold contract_ledger in E. injection E as E1 E2 E3. constructor; rewrite E1, ?E2, ?E3.
    + intros k. rewrite lookup_insert_is_Some. destruct (decide (c = k)) as [<-|]; [| naive_solver].
      rewrite <- Hcode. naive_solver.
    + intros k i0 cd [[<- <-] | [? Hk]]%lookup_insert_Some; [by apply (Hash _ _ _ Hi) | by apply Hash].
    + intros k i0 u0 [[<- <-] | [_ Hk]]%lookup_insert_Some Hu0; [| by eapply Hpend].
      injection Hu0 as <-. cbn [pu_announced_at pu_ready_at]. by rewrite wadd_small.
  - unfold contract_ledger in E. injection E as E1 E2 E3. constructor; rewrite E1, ?E2, ?E3.
    + intros k. rewrite !lookup_insert_is_Some. destruct (decide (c = k)); naive_solver.
    + intros k i0 cd [[<- <-] | [? Hk]]%lookup_insert_Some; [rewrite lookup_insert_eq | rewrite lookup_insert_ne by done];
        [congruence | by apply Hash].
    + intros k i0 u0 [[<- <-] | [_ Hk]]%lookup_insert_Some Hu0; [congruence | by eapply Hpend].
Qed.

(** C11. Every transaction, accepted or not, preserves the ledger's invariants:
    each custom token's holdings add up to its declared supply, no /24 subnet
    has more than three miners, contracts and code come together, a contract
    carries the hash of its code, and every pending upgrade has its full
    waiting time. *)
Theorem apply_tx_ledger_ok `{!TxCodecLaws} tx i s r s' :
  supply_fits s -> ws_block_height s + UPGRADE_DELAY_BLOCKS < TWO64 ->
  ledger_ok s -> apply_tx tx i s = (r, s') -> ledger_ok s'.
Proof.
  intros Hs Hh [Ht Hm Hc] Hrun. constructor.
  - destruct (apply_tx_frame token_ledger _ _ _ _ _ ltac:(done) (accept_token_ledger tx) Hs Hrun)
      as [[-> _] | (rd & s1 & Hd & _ & Hch & Hs' & _)]; [done |].
    apply (tokens_backed_ext _ _ Hs'). eapply dispatch_tokens; [| exact Hd].
    by apply (tokens_backed_ext _ _ Hch).
  - destruct (apply_tx_frame ws_miners _ _ _ _ _ ltac:(done) (accept_miners tx) Hs Hrun)
      as [[-> _] | (rd & s1 & Hd & _ & Hch & Hs' & _)]; [done |].
    rewrite Hs'. eapply dispatch_subnets; [| exact Hd]. by rewrite Hch.
  - eapply contracts_ok_change; [exact Hh | exact Hc | by eapply apply_tx_contracts].
Qed.

(** C14. In a ledger that keeps its invariants, the code of a deployed contract
    changes only through an upgrade transaction of its admin, to code whose hash
    was announced at least 720 blocks earlier. *)
Theorem code_change_timelocked tx i s r s' c code :
  supply_fits s -> contracts_ok s -> apply_tx tx i s = (r, s') ->
  ws_contract_code s !! c = Some code -> ws_contract_code s' !! c <> Some code ->
  tx_type tx = ContractUpgradeExecute
  /\ exists inst u new_code, ws_contracts s !! c = Some inst /\ ci_admin inst = tx_from tx
    /\ ci_pending_upgrade inst = Some u /\ blake3 new_code = pu_new_code_hash u
    /\ pu_announced_at u + 720 <= ws_block_height s /\ ws_contract_code s' !! c = Some new_code.
Proof.
  intros Hs [Hcode _ Hpend] Hrun Hc Hne.
  destruct (apply_tx_contracts _ _ _ _ _ Hs Hrun)
    as [E | c0 i0 code0 _ _ Hnew _ _ E | c0 i0 h _ _ _ E | c0 i0 u code0 i' Et Hi Hadm Hu Hr Hhash _ _ E];
    unfold contract_ledger in E; injection E as E1 E2 E3; rewrite E2 in Hne; [by rewrite Hc in Hne | | by rewrite Hc in Hne |].
  - destruct (decide (c0 = c)) as [-> |]; [| by rewrite lookup_insert_ne, Hc in Hne].
    assert (is_Some (ws_contracts s !! c)) as [? Hsome] by (apply Hcode; eauto). by rewrite Hnew in Hsome.
  - destruct (decide (c0 = c)) as [-> |]; [| by rewrite lookup_insert_ne, Hc in Hne].
    split; [done |]. exists i0, u, code0. destruct (Hpend _ _ _ Hi Hu) as [_ Hready].
    unfold UPGRADE_DELAY_BLOCKS in Hready. split_and!; try done; [lia |].
    by rewrite E2, lookup_insert_eq.
Qed.
End invariants.

(** ** Witnesses *)

#[local] Existing Instance toy_blake3.
#[local] Existing Instance toy_ed25519.
#[local] Existing Instance toy_tx_codec.
#[local] Existing Instance toy_tx_codec_laws.
#[local] Existing Instance toy_hex.
#[local] Existing Instance toy_vm.
#[local] Existing Instance toy_schedule.

Definition toy_wallet : WorldState :=
  default_WorldState <| ws_balances := {[ toy_addr 1 := 5000000 ]} |>.
Definition toy_signed : Transaction := sign_transaction toy_transfer [x01].

Lemma toy_wallet_fits : supply_fits toy_wallet.
Proof. unfold supply_fits. vm_compute. done. Qed.

Lemma toy_signed_accepted : (apply_tx toy_signed 0 toy_wallet).1 = Ok (1000000, []).
Proof. vm_compute. reflexivity. Qed.

Lemma apply_tx_supply_witness : supply_spec toy_signed toy_wallet (apply_tx toy_signed 0 toy_wallet).
Proof. apply (apply_tx_supply toy_signed 0 toy_wallet). exact toy_wallet_fits. Defined.

(** A transfer of more than the balance. *)
Definition toy_overdraft : Transaction :=
  sign_transaction (toy_tx TokenTransfer (toy_addr 1) 1 (toy_addr 2 ++ le128 9000000)) [x01].

Lemma rejected_tx_rolls_back_witness :
  apply_tx toy_overdraft 0 toy_wallet = (Err (InsufficientBalance 9000000 4000000), toy_wallet).
Proof.
  assert (apply_tx toy_overdraft 0 toy_wallet
          = (Err (InsufficientBalance 9000000 4000000), (apply_tx toy_overdraft 0 toy_wallet).2)) as Hrun
    by (apply run_eq; vm_compute; reflexivity).
  destruct (rejected_tx_rolls_back toy_overdraft 0 toy_wallet _ _ toy_wallet_fits Hrun) as [Hs _].
  rewrite (Hs eq_refl) in Hrun. exact Hrun.
Defined.

Lemma no_replay_witness :
  let s1 := (apply_tx toy_signed 0 toy_wallet).2 in
  verify_transaction toy_signed = Ok tt /\ exists e, apply_tx toy_signed 1 s1 = (Err e, s1).
Proof.
  intros s1. apply (no_replay toy_signed 0 toy_wallet (1000000, []) s1 s1 1).
  - discriminate.
  - exact (run_eq (apply_tx toy_signed 0) toy_wallet _ toy_signed_accepted).
  - apply later_refl.
Defined.

Lemma toy_wallet_ok : ledger_ok toy_wallet.
Proof.
  constructor.
  - intros id. split; [by vm_compute | done].
  - intros p. done.
  - constructor; [| done | done]. intros c. split; intros [? Hk]; discriminate Hk.
Qed.

Lemma apply_tx_ledger_ok_witness : ledger_ok (apply_tx toy_signed 0 toy_wallet).2.
Proof.
  apply (apply_tx_ledger_ok toy_signed 0 toy_wallet (Ok (1000000, [])) (apply_tx toy_signed 0 toy_wallet).2
    toy_wallet_fits ltac:(done) toy_wallet_ok).
  exact (run_eq (apply_tx toy_signed 0) toy_wallet _ toy_signed_accepted).
Defined.

Lemma default_contracts c : ws_contracts default_WorldState !! c = None.
Proof. exact (lookup_empty c). Qed.
Lemma default_code c : ws_contract_code default_WorldState !! c = None.
Proof. exact (lookup_empty c). Qed.

(** Old and new code of a contract with an upgrade pending since block 5. *)
Definition toy_old_code : bytes := x00 :: lit "asm".
Definition toy_new_code : bytes := x00 :: lit "asm2".
Definition toy_upgradable : WorldState :=
  with_contract toy_contract
    (mkContractInstance toy_contract (blake3 toy_old_code) (toy_addr 1) 3 (toy_addr 1) None None
       (Some (mkPendingUpgrade (blake3 toy_new_code) 5 725)))
    toy_old_code default_WorldState
  <| ws_balances := {[ toy_addr 1 := 5000000 ]} |> <| ws_block_height := 800 |>.
Definition toy_upgrade : Transaction :=
  sign_transaction (toy_tx ContractUpgradeExecute (toy_addr 1) 1
    (toy_contract ++ enc_vec toy_new_code ++ [x00] ++ enc_vec [])) [x01].

Lemma toy_upgradable_ok : contracts_ok toy_upgradable.
Proof.
  constructor.
  - intros c. unfold toy_upgradable, with_contract. upd. rewrite !lookup_insert_is_Some.
    split; (intros [Hc | [_ [? Hk]]]; [left; exact Hc | rewrite ?default_contracts, ?default_code in Hk; discriminate Hk]).
  - intros c i code. unfold toy_upgradable, with_contract. upd.
    intros [[<- <-] | [_ Hk]]%lookup_insert_Some; [| rewrite default_contracts in Hk; discriminate Hk].
    rewrite lookup_insert_eq. by intros [= <-].
  - intros c i u. unfold toy_upgradable, with_contract. upd.
    intros [[_ <-] | [_ Hk]]%lookup_insert_Some Hu; [| rewrite default_contracts in Hk; discriminate Hk].
    injection Hu as <-. split; [discriminate | reflexivity].
Qed.

Lemma code_change_timelocked_witness :
  let s' := (apply_tx toy_upgrade 0 toy_upgradable).2 in
  is_ok (apply_tx toy_upgrade 0 toy_upgradable).1 = true
  /\ tx_type toy_upgrade = ContractUpgradeExecute
  /\ exists inst u new_code, ws_contracts toy_upgradable !! toy_contract = Some inst
      /\ ci_admin inst = tx_from toy_upgrade /\ ci_pending_upgrade inst = Some u
      /\ blake3 new_code = pu_new_code_hash u /\ pu_announced_at u + 720 <= 800
      /\ ws_contract_code s' !! toy_contract = Some new_code.
Proof.
  intros s'. split; [vm_compute; reflexivity |].
  assert (ws_contract_code s' !! toy_contract = Some toy_new_code) as Hnew by (vm_compute; reflexivity).
  apply (code_change_timelocked toy_upgrade 0 toy_upgradable (apply_tx toy_upgrade 0 toy_upgradable).1
    s' toy_contract toy_old_code).
  - unfold supply_fits. vm_compute. done.
  - exact toy_upgradable_ok.
  - apply surjective_pairing.
  - reflexivity.
  - rewrite Hnew. discriminate.
Defined.
