(* ===== verification/Rewards.v ===== *)
(** * Block rewards, fees and mining epochs ([claw-node/crates/state/src/rewards.rs])

    The reward schedule, the proportional payouts, the validators' block reward
    and the split of the transaction fees. *)

From S2P Require Import Prelude Interfaces Types Concrete Vm World HandlerBase.

Definition BLOCKS_PER_YEAR : N := 10512000.
Definition NODE_INCENTIVE_POOL_INDEX : N := 1.
Definition ECOSYSTEM_FUND_INDEX : N := 2.
Definition MINING_UPGRADE_HEIGHT : N := 2000.
Definition VALIDATOR_REWARD_BPS : N := 6500.
Definition MINING_REWARD_BPS : N := 3500.
Definition HALVING_PERIOD : N := 2 * BLOCKS_PER_YEAR.

Definition genesis_address (index : N) : bytes := byte_of_N index :: replicate 31 x00.
Abbreviation pool_addr := (genesis_address NODE_INCENTIVE_POOL_INDEX).
Abbreviation eco_addr := (genesis_address ECOSYSTEM_FUND_INDEX).

Definition reward_per_block (height : N) : N :=
  if height <? MINING_UPGRADE_HEIGHT then
    let year := height / BLOCKS_PER_YEAR in
    if year =? 0 then 10000000000
    else if year =? 1 then 8000000000
    else if year =? 2 then 6000000000
    else if year =? 3 then 4000000000
    else if (4 <=? year) && (year <=? 9) then 2000000000
    else 1000000000
  else
    let adjusted := height - MINING_UPGRADE_HEIGHT in
    let period := adjusted / HALVING_PERIOD in
    if period =? 0 then 8000000000
    else if period =? 1 then 4000000000
    else if period =? 2 then 2000000000
    else if period =? 3 then 1000000000
    else if period =? 4 then 500000000
    else 250000000.

(** ** Paying out *)

(** A computation that emits block events. *)
Definition emits : Type := WorldState -> list BlockEvent * WorldState.

Definition credit_world (a : bytes) (x : N) (w : WorldState) : WorldState :=
  w <| ws_balances ::= entry_add TWO128 a x |>.
Definition debit_world (a : bytes) (x : N) (w : WorldState) : WorldState :=
  w <| ws_balances ::= entry_sub TWO128 a x |>.

(** Credit [x] and report it, unless it is zero. *)
Definition pay (recipient : bytes) (x : N) (reward_type : string) : emits := fun w =>
  if 0 <? x then ([RewardDistributed recipient x reward_type], credit_world recipient x w) else ([], w).

Definition and_then (f g : emits) : emits := fun w =>
  let '(e1, w) := f w in let '(e2, w) := g w in (e1 ++ e2, w).

Fixpoint emit_all {A} (f : A -> emits) (l : list A) : emits :=
  match l with
  | [] => fun w => ([], w)
  | x :: l => and_then (f x) (emit_all f l)
  end.

(** The shares of a loop over [(address, weight)] pairs: proportional and rounded
    down, the last one takes what is left. *)
Fixpoint shares_of (reward total_weight distributed : N) (l : list (bytes * N)) : list (bytes * N) :=
  match l with
  | [] => []
  | (addr, weight) :: l =>
      let share := if bool_decide (l = []) then u128_sub reward distributed
                   else u128_mul reward weight / total_weight in
      (addr, share) :: shares_of reward total_weight (u128_add distributed share) l
  end.

(** A validator's income, split with the owner of a delegated stake. *)
Definition pay_split (commission delegator self : string) (addr : bytes) (share : N) : emits := fun w =>
  if 0 <? share then
    let reward_recipient := default addr (ws_stake_delegations w !! addr) in
    if negb (bool_decide (reward_recipient = addr)) then
      let commission_bps := default 8000 (ws_stake_commissions w !! addr) in
      let validator_share := u128_mul share commission_bps / 10000 in
      let delegator_share := u128_sub share validator_share in
      and_then (pay addr validator_share commission) (pay reward_recipient delegator_share delegator) w
    else pay addr share self w
  else ([], w).

(** After the upgrade the validators get 65% of the base reward. *)
Definition validator_reward_at (height : N) : N :=
  let base_reward := reward_per_block height in
  if MINING_UPGRADE_HEIGHT <=? height then base_reward * VALIDATOR_REWARD_BPS / 10000
  else base_reward.

(** The miners get the other 35%. *)
Definition mining_reward_at (height : N) : N := reward_per_block height * MINING_REWARD_BPS / 10000.

Definition distribute_block_reward (validators : list (bytes * N)) (height : N) : emits := fun w =>
  if bool_decide (validators = []) then ([], w)
  else
    let pool_balance := get_balance w pool_addr in
    if pool_balance =? 0 then ([], w)
    else
      let reward := N.min (validator_reward_at height) pool_balance in
      if reward =? 0 then ([], w)
      else
        let total_weight := foldl (fun acc p => sat_add TWO64 acc p.2) 0 validators in
        if total_weight =? 0 then ([], w)
        else
          emit_all (fun p => pay_split "validator_commission" "delegator_reward" "block_reward" p.1 p.2)
            (shares_of reward total_weight 0 validators) (debit_world pool_addr reward w).

Definition distribute_fees (proposer : bytes) (total_fees : N) : emits := fun w =>
  if total_fees =? 0 then ([], w)
  else
    let proposer_share := u128_mul total_fees 50 / 100 in
    let ecosystem_share := u128_mul total_fees 20 / 100 in
    let burned := u128_sub (u128_sub total_fees proposer_share) ecosystem_share in
    and_then (pay_split "proposer_fee_commission" "proposer_fee_delegator" "proposer_fee" proposer proposer_share)
      (and_then (pay eco_addr ecosystem_share "ecosystem_fee")
        (fun w => (if 0 <? burned then [RewardDistributed zeros32 burned "fee_burn"] else [], w))) w.

(** ** Accounting

    [credits f x]: wherever commissions are at most 100% and the supply leaves
    room, [f] adds [x] to it, reports [x], and touches balances only. *)

Definition commissions_ok (w : WorldState) : Prop :=
  map_Forall (fun _ c => c <= 10000) (ws_stake_commissions w).

Definition event_amount (e : BlockEvent) : N :=
  match e with RewardDistributed _ x _ => x | ContractEventE _ _ _ _ => 0 end.

(** Everything the payments leave alone. *)
Definition unpaid (w : WorldState) : WorldState := w <| ws_balances := ∅ |>.

Definition credits (f : emits) (x : N) : Prop :=
  forall w, commissions_ok w -> 2 * (supply w + x) < TWO128 ->
    supply (f w).2 = supply w + x /\ lsum event_amount (f w).1 = x /\ unpaid (f w).2 = unpaid w.

Lemma unpaid_commissions w w' : unpaid w' = unpaid w -> commissions_ok w -> commissions_ok w'.
Proof.
  intros Hu. apply (f_equal ws_stake_commissions) in Hu. unfold unpaid in Hu. upd.
  unfold commissions_ok. by rewrite Hu.
Qed.

Section credits.
Implicit Types (f g : emits) (w : WorldState).

Lemma credits_none : credits (fun w => ([], w)) 0.
Proof. intros w _ _. simpl. split_and!; [lia | done | done]. Qed.

Lemma credits_pay r x t : credits (pay r x t) x.
Proof.
  intros w Hw Hs. unfold pay. destruct (N.ltb_spec 0 x); [| simpl; split_and!; [lia | lia | done]].
  simpl. unfold credit_world. rewrite supply_credit by lia. split_and!; [done | lia | done].
Qed.

Lemma credits_then f g x y : credits f x -> credits g y -> credits (and_then f g) (x + y).
Proof.
  intros Hf Hg w Hw Hs. unfold and_then. destruct (f w) as [e1 w1] eqn:E1.
  destruct (Hf w Hw ltac:(lia)) as (H1 & H2 & H3). rewrite E1 in H1, H2, H3. simpl in *.
  destruct (g w1) as [e2 w2] eqn:E2.
  destruct (Hg w1 (unpaid_commissions _ _ H3 Hw) ltac:(lia)) as (H4 & H5 & H6).
  rewrite E2 in H4, H5, H6. simpl in *. rewrite lsum_app. split_and!; [lia | lia | congruence].
Qed.

Lemma credits_emit_all {A} (f : A -> emits) (h : A -> N) l :
  (forall p, p ∈ l -> credits (f p) (h p)) -> credits (emit_all f l) (lsum h l).
Proof.
  induction l as [|p l IH]; intros Hf; [apply credits_none |]. cbn [emit_all lsum foldr].
  apply credits_then; [apply Hf; left | apply IH; intros q Hq; apply Hf; by right].
Qed.

Lemma credits_ext f g x : (forall w, g w = f w) -> credits f x -> credits g x.
Proof. intros Hfg Hf w. rewrite Hfg. apply Hf. Qed.

(** A commission is a part of the share. *)
Lemma credits_split c d s a x : 10000 * x < TWO128 -> credits (pay_split c d s a x) x.
Proof.
  intros Hx w Hw Hs. unfold pay_split. destruct (N.ltb_spec 0 x); [| simpl; split_and!; [lia | lia | done]].
  set (r := default a (ws_stake_delegations w !! a)). case_bool_decide; cbv zeta; simpl negb; cbv iota.
  { by apply credits_pay. }
  assert (default 8000 (ws_stake_commissions w !! a) <= 10000) as Hc.
  { destruct (ws_stake_commissions w !! a) as [b|] eqn:Hb; simpl; [by apply (Hw a) | lia]. }
  set (bps := default 8000 _) in *.
  assert (x * bps < TWO128) by nia. rewrite wmul_small by done.
  assert (x * bps / 10000 <= x) by (apply N.Div0.div_le_upper_bound; nia).
  rewrite wsub_small by lia.
  destruct (credits_then _ _ _ _ (credits_pay a (x * bps / 10000) c)
    (credits_pay r (x - x * bps / 10000) d) w Hw ltac:(lia)) as (G1 & G2 & G3).
  split_and!; [rewrite G1; lia | rewrite G2; lia | exact G3].
Qed.
End credits.

(** ** Shares *)

Section shares.
Implicit Types (l : list (bytes * N)).

(** What is paid before a suffix [l] of the recipients never exceeds their part. *)
Definition paid_up (reward total distributed : N) l : Prop :=
  distributed <= reward /\ distributed * total + reward * lsum snd l <= reward * total.

Lemma paid_up_step reward total d a x l :
  total <> 0 -> paid_up reward total d ((a, x) :: l) ->
  paid_up reward total (d + reward * x / total) l.
Proof.
  unfold paid_up. cbn [lsum foldr snd]. intros Ht [Hd Hle]. fold (lsum (snd (A:=bytes)) l) in *.
  pose proof (N.Div0.mul_div_le (reward * x) total). split; nia.
Qed.

Lemma shares_of_sum reward total d l :
  reward < TWO128 -> reward * total < TWO128 -> total <> 0 -> l <> [] -> paid_up reward total d l ->
  d + lsum snd (shares_of reward total d l) = reward.
Proof.
  intros Hr Hrt Ht. revert d. induction l as [|[a x] l IH]; intros d Hne Hp; [done |].
  cbn [shares_of lsum foldr snd]. case_bool_decide as Hl.
  - subst l. cbn [shares_of foldr]. destruct Hp. rewrite wsub_small by lia. lia.
  - pose proof (paid_up_step _ _ _ _ _ _ Ht Hp) as Hp'. destruct Hp as [Hd Hle]. cbn [lsum foldr snd] in Hle.
    assert (reward * x < TWO128) by nia. rewrite wmul_small by done.
    destruct Hp' as [Hd' Hle']. rewrite wadd_small by lia.
    specialize (IH _ Hl (conj Hd' Hle')). unfold lsum in IH. lia.
Qed.

Lemma shares_of_keys reward total d l : (shares_of reward total d l).*1 = l.*1.
Proof. revert d. induction l as [|[a x] l IH]; intros d; [done |]. simpl. by rewrite IH. Qed.

(** Every recipient gets its proportional part rounded down, the last one at
    least that much. *)
Lemma shares_of_fair reward total d l a x :
  reward < TWO128 -> reward * total < TWO128 -> total <> 0 -> paid_up reward total d l ->
  forall i, l !! i = Some (a, x) ->
    exists s, shares_of reward total d l !! i = Some (a, s) /\ reward * x / total <= s
      /\ ((S i < length l)%nat -> s = reward * x / total).
Proof.
  intros Hr Hrt Ht. revert d. induction l as [|[b y] l IH]; intros d Hp i Hi; [done |].
  pose proof (paid_up_step _ _ _ _ _ _ Ht Hp) as Hp'. destruct Hp as [Hd Hle]. cbn [lsum foldr snd] in Hle.
  assert (reward * y < TWO128) by nia. cbn [shares_of]. destruct i as [|i]; simpl in Hi.
  - injection Hi as -> ->. simpl. eexists. split; [done |]. destruct Hp' as [Hd' Hle'].
    case_bool_decide as Hl.
    + subst l. rewrite wsub_small by lia. split; [lia | simpl; lia].
    + by rewrite wmul_small by done.
  - assert (l <> []) as Hl by (by intros ->). rewrite bool_decide_eq_false_2 by done.
    rewrite wmul_small, wadd_small by (try done; destruct Hp'; lia).
    destruct (IH _ Hp' i Hi) as (s & Hs & Hge & Hlt). exists s. simpl. split_and!; [done | done |].
    intros Hlen. apply Hlt. lia.
Qed.

Lemma paid_up_start reward l : paid_up reward (lsum snd l) 0 l.
Proof. unfold paid_up. lia. Qed.

Lemma in_shares_le reward total l p :
  reward < TWO128 -> reward * total < TWO128 -> total <> 0 -> l <> [] -> paid_up reward total 0 l ->
  p ∈ shares_of reward total 0 l -> p.2 <= reward.
Proof.
  intros Hr Hrt Ht Hne Hp Hin. pose proof (shares_of_sum _ _ _ _ Hr Hrt Ht Hne Hp).
  apply (lsum_le snd) in Hin. lia.
Qed.
End shares.

Lemma sat_fold_exact (l : list (bytes * N)) acc :
  acc + lsum snd l < TWO64 -> foldl (fun acc p => sat_add TWO64 acc p.2) acc l = acc + lsum snd l.
Proof.
  revert acc. induction l as [|[a x] l IH]; intros acc; cbn [foldl lsum foldr snd]; [lia |]. intros Hs.
  unfold sat_add at 2. rewrite N.min_l by lia. fold (lsum (snd (A:=bytes)) l) in *. rewrite IH by lia. lia.
Qed.

(** ** Block rewards and fees *)
Lemma reward_per_block_bounds height : 250000000 <= reward_per_block height <= 10000000000.
Proof. unfold reward_per_block. repeat case_match; lia. Qed.

Lemma validator_reward_bounds height : 0 < validator_reward_at height <= 10000000000.
Proof.
  unfold validator_reward_at, VALIDATOR_REWARD_BPS. pose proof (reward_per_block_bounds height).
  destruct (_ <=? _); [| lia]. split; [apply N.div_str_pos; lia | apply N.Div0.div_le_upper_bound; lia].
Qed.

Lemma mining_reward_bounds height : 0 < mining_reward_at height <= 10000000000.
Proof.
  unfold mining_reward_at, MINING_REWARD_BPS. pose proof (reward_per_block_bounds height).
  split; [apply N.div_str_pos; lia | apply N.Div0.div_le_upper_bound; lia].
Qed.

(** A reward leaves the pool and reaches the recipients in shares. *)
Lemma pool_payout (f : bytes * N -> emits) reward l w :
  supply_fits w -> commissions_ok w -> 0 < reward <= get_balance w pool_addr -> reward <= 10000000000 ->
  0 < lsum snd l -> lsum snd l * 10000000000 < TWO128 ->
  (forall p, 10000 * p.2 < TWO128 -> credits (f p) p.2) ->
  let '(events, w') := emit_all f (shares_of reward (lsum snd l) 0 l) (debit_world pool_addr reward w) in
  supply w' = supply w /\ lsum event_amount events = reward /\ unpaid w' = unpaid w.
Proof.
  intros Hs Hw [Hr0 Hr] Hcap Ht Hrt Hf. rewrite get_balance_amount in Hr.
  pose proof (balance_le_supply w pool_addr). unfold supply_fits in Hs.
  assert (l <> []) as Hne by (intros ->; simpl in Ht; lia).
  assert (reward * lsum snd l < TWO128) by nia.
  pose proof (shares_of_sum reward _ _ _ ltac:(lia) ltac:(done) ltac:(lia) Hne (paid_up_start reward l)) as Hsum.
  pose proof (credits_emit_all f snd (shares_of reward (lsum snd l) 0 l)) as Hc.
  assert (forall p, p ∈ shares_of reward (lsum snd l) 0 l -> credits (f p) p.2) as Hcr.
  { intros p Hp. apply Hf. apply in_shares_le in Hp; [lia | lia | done | lia | done | apply paid_up_start]. }
  specialize (Hc Hcr (debit_world pool_addr reward w)).
  assert (supply (debit_world pool_addr reward w) = supply w - reward) as Hd
    by (apply supply_debit; lia).
  destruct Hc as (H1 & H2 & H3); [exact Hw | lia |].
  destruct (emit_all _ _ _) as [events w']. simpl in *. split_and!; [lia | lia |]. by rewrite H3.
Qed.

Lemma block_reward_paid validators height w :
  supply_fits w -> commissions_ok w -> lsum snd validators < TWO64 ->
  let '(events, w') := distribute_block_reward validators height w in
  supply w' = supply w /\ unpaid w' = unpaid w
  /\ lsum event_amount events
     = if lsum snd validators =? 0 then 0
       else N.min (validator_reward_at height) (get_balance w pool_addr).
Proof.
  intros Hs Hw Hlt. unfold distribute_block_reward. pose proof (validator_reward_bounds height) as Hb.
  case_bool_decide as Hnil; [by subst |]. cbv zeta.
  destruct (N.eqb_spec (get_balance w pool_addr) 0) as [Hp|Hp].
  { split_and!; [done | done |]. destruct (_ =? _); simpl; lia. }
  destruct (N.eqb_spec (N.min (validator_reward_at height) (get_balance w pool_addr)) 0); [lia |].
  rewrite (sat_fold_exact validators 0), N.add_0_l by lia.
  destruct (N.eqb_spec (lsum snd validators) 0); [done |].
  pose proof (pool_payout (fun p => pay_split "validator_commission" "delegator_reward" "block_reward" p.1 p.2)
    (N.min (validator_reward_at height) (get_balance w pool_addr)) validators w Hs Hw
    ltac:(lia) ltac:(lia) ltac:(lia) ltac:(lia) ltac:(intros p; apply credits_split)) as Hpay.
  destruct (emit_all _ _ _) as [events w']. destruct Hpay as (H1 & H2 & H3). by split_and!.
Qed.


Lemma fees_paid proposer total_fees w :
  2 * (supply w + total_fees) < TWO128 -> commissions_ok w -> 10000 * total_fees < TWO128 ->
  let '(events, w') := distribute_fees proposer total_fees w in
  supply w' = supply w + total_fees * 50 / 100 + total_fees * 20 / 100
  /\ lsum event_amount events = total_fees /\ unpaid w' = unpaid w.
Proof.
  intros Hs Hw Hf. unfold distribute_fees. destruct (N.eqb_spec total_fees 0) as [-> |].
  { split_and!; [rewrite !N.add_0_r; done | done | done]. }
  cbv zeta. rewrite !wmul_small by lia.
  assert (total_fees * 50 / 100 + total_fees * 20 / 100 <= total_fees) as Hle.
  { pose proof (N.Div0.mul_div_le (total_fees * 50) 100). pose proof (N.Div0.mul_div_le (total_fees * 20) 100). lia. }
  set (ps := total_fees * 50 / 100) in *. set (es := total_fees * 20 / 100) in *.
  rewrite (wsub_small TWO128 total_fees ps), (wsub_small TWO128 (total_fees - ps) es) by lia.
  unfold and_then at 1.
  destruct (credits_split "proposer_fee_commission" "proposer_fee_delegator" "proposer_fee" proposer ps
    ltac:(lia) w Hw ltac:(lia)) as (H1 & H2 & H3).
  destruct (pay_split _ _ _ _ _ w) as [e1 w1]. simpl in H1, H2, H3. unfold and_then.
  destruct (credits_pay eco_addr es "ecosystem_fee" w1 (unpaid_commissions _ _ H3 Hw) ltac:(lia)) as (H4 & H5 & H6).
  destruct (pay eco_addr es "ecosystem_fee" w1) as [e2 w2]. simpl in H4, H5, H6.
  rewrite !lsum_app. split_and!; [lia | | congruence].
  destruct (N.ltb_spec 0 (total_fees - ps - es)); simpl; lia.
Qed.

(** A block's fees are split once and for all: half goes to the proposer (and
    the owner of its stake), a fifth to the ecosystem fund, and what is left over
    is burned; the supply grows by the first two parts exactly, and the three
    parts reported add up to the fees collected. *)
Theorem fees_split proposer total_fees w :
  2 * (supply w + total_fees) < TWO128 -> commissions_ok w -> 10000 * total_fees < TWO128 ->
  let '(events, w') := distribute_fees proposer total_fees w in
  supply w' = supply w + total_fees * 50 / 100 + total_fees * 20 / 100
  /\ lsum event_amount events = total_fees /\ unpaid w' = unpaid w.
Proof. apply fees_paid. Qed.

(** A proportional payout is exact and fair: the shares add up to the reward,
    nobody is skipped or reordered, everyone but the last gets precisely its
    part by weight rounded down, and the last at least that. *)
Theorem shares_fair reward l :
  reward < TWO128 -> 0 < lsum snd l -> reward * lsum snd l < TWO128 ->
  let shares := shares_of reward (lsum snd l) 0 l in
  lsum snd shares = reward /\ shares.*1 = l.*1
  /\ forall i a weight, l !! i = Some (a, weight) ->
       exists s, shares !! i = Some (a, s) /\ reward * weight / lsum snd l <= s
         /\ ((S i < length l)%nat -> s = reward * weight / lsum snd l).
Proof.
  intros Hr Ht Hrt shares. assert (l <> []) as Hne by (intros ->; simpl in Ht; lia).
  assert (lsum snd l <> 0) as Ht0 by lia. split_and!.
  - apply (shares_of_sum reward (lsum snd l) 0 l); auto using paid_up_start.
  - apply shares_of_keys.
  - intros i a weight. apply shares_of_fair; auto using paid_up_start.
Qed.

Lemma shares_fair_witness :
  let l := [(toy_addr 11, 3); (toy_addr 12, 3); (toy_addr 13, 1)] in
  shares_of 100 7 0 l = [(toy_addr 11, 42); (toy_addr 12, 42); (toy_addr 13, 16)]
  /\ lsum snd (shares_of 100 (lsum snd l) 0 l) = 100.
Proof.
  intros l. split; [vm_compute; reflexivity |].
  apply (shares_fair 100 l); vm_compute; reflexivity.
Defined.

(** A pool, a validator on its own stake and one with a delegated stake. *)
Definition toy_pool : WorldState :=
  default_WorldState <| ws_balances := {[ pool_addr := 50000000000 ]} |>
    <| ws_stake_delegations := {[ toy_addr 12 := toy_addr 17 ]} |>
    <| ws_stake_commissions := {[ toy_addr 12 := 8000 ]} |>.

Lemma toy_pool_commissions : commissions_ok toy_pool.
Proof.
  intros a c Hc. unfold toy_pool in Hc. upd. apply lookup_singleton_Some in Hc as [_ <-]. lia.
Qed.


Lemma fees_split_witness :
  supply (distribute_fees (toy_addr 12) 1001 toy_pool).2 = supply toy_pool + 700.
Proof.
  pose proof (fees_split (toy_addr 12) 1001 toy_pool
    ltac:(vm_compute; done) toy_pool_commissions ltac:(vm_compute; done)) as H.
  destruct (distribute_fees _ _ _) as [events w']. destruct H as (H & _). exact H.
Defined.

(** ** The reward schedule *)

(** The validators' and the miners' parts of a block's reward never exceed
    the scheduled reward; after the upgrade the schedule never rises, halves
    every two years down to its floor, and never pays nothing. *)
Theorem reward_schedule h1 h2 :
  MINING_UPGRADE_HEIGHT <= h1 <= h2 ->
  reward_per_block h2 <= reward_per_block h1
  /\ validator_reward_at h1 + mining_reward_at h1 = reward_per_block h1
  /\ 250000000 <= reward_per_block h1 <= 8000000000
  /\ (reward_per_block h1 <> 250000000 ->
      reward_per_block (h1 + HALVING_PERIOD) = reward_per_block h1 / 2).
Proof.
  unfold MINING_UPGRADE_HEIGHT. intros Hh.
  assert (forall h, 2000 <= h -> reward_per_block h =
    let p := (h - 2000) / HALVING_PERIOD in
    if p =? 0 then 8000000000 else if p =? 1 then 4000000000 else if p =? 2 then 2000000000
    else if p =? 3 then 1000000000 else if p =? 4 then 500000000 else 250000000) as Hrw.
  { intros h Hle. unfold reward_per_block, MINING_UPGRADE_HEIGHT. by destruct (N.ltb_spec h 2000); [lia |]. }
  assert ((h1 - 2000) / HALVING_PERIOD <= (h2 - 2000) / HALVING_PERIOD) as Hmono
    by (apply N.Div0.div_le_mono; lia).
  assert ((h1 + HALVING_PERIOD - 2000) / HALVING_PERIOD = (h1 - 2000) / HALVING_PERIOD + 1) as Hnext.
  { replace (h1 + HALVING_PERIOD - 2000) with ((h1 - 2000) + 1 * HALVING_PERIOD) by lia.
    by rewrite N.div_add by done. }
  unfold validator_reward_at, mining_reward_at, VALIDATOR_REWARD_BPS, MINING_REWARD_BPS, MINING_UPGRADE_HEIGHT.
  destruct (N.leb_spec 2000 h1); [| lia]. cbv zeta. rewrite !Hrw by lia. cbv zeta. rewrite Hnext.
  set (p1 := (h1 - 2000) / HALVING_PERIOD) in *. set (p2 := (h2 - 2000) / HALVING_PERIOD) in *.
  clearbody p1 p2. clear Hrw Hnext. split_and!.
  all: repeat match goal with |- context [?x =? ?y] => destruct (N.eqb_spec x y); try lia end; try done.
Qed.

Lemma reward_schedule_witness :
  reward_per_block (3000 + HALVING_PERIOD) = reward_per_block 3000 / 2.
Proof.
  destruct (reward_schedule 3000 3000) as (_ & _ & _ & H); [vm_compute; split; discriminate |].
  apply H. vm_compute. discriminate.
Defined.
