(* ===== verification/Epochs.v ===== *)
(** * Mining rewards and epochs ([claw-node/crates/state/src/rewards.rs])

    The miners' part of the block rewards: paid directly before the V2 height,
    collected in an epoch bucket and paid as pending rewards after it. *)

From S2P Require Import Prelude Interfaces Types Concrete Vm World HandlerBase Mining Rewards.

(** ** Mining rewards before V2 *)

Definition tier_weight (t : MinerTier) : N := match t with Online => 1 end.

Definition distribute_mining_rewards (height : N) : emits := fun w =>
  if height <? MINING_UPGRADE_HEIGHT then ([], w)
  else
    let pool_balance := get_balance w pool_addr in
    if pool_balance =? 0 then ([], w)
    else
      let active_miners :=
        (fun p : bytes * MinerInfo => (p.1, tier_weight (mi_tier p.2) * mi_reputation_bps p.2))
          <$> filter (fun p => mi_active p.2 = true) (addr_entries (ws_miners w)) in
      if bool_decide (active_miners = []) then ([], w)
      else
        let reward := N.min (mining_reward_at height) pool_balance in
        if reward =? 0 then ([], w)
        else
          let total_weight := wsum TWO128 snd active_miners in
          if total_weight =? 0 then ([], w)
          else
            emit_all (fun p => pay p.1 p.2 "mining_reward")
              (shares_of reward total_weight 0 active_miners) (debit_world pool_addr reward w).

Definition update_miner_activity (current_height : N) (w : WorldState) : WorldState :=
  if HEARTBEAT_V2_HEIGHT <=? current_height then w
  else
    w <| ws_miners ::= fmap (fun m =>
      if mi_active m && (u64_add (mi_last_heartbeat m) MINER_GRACE_BLOCKS <? current_height)
      then m <| mi_active := false |> else m) |>.

(** ** Mining epochs *)

Definition accumulate_mining_reward (height : N) : emits := fun w =>
  if height <? HEARTBEAT_V2_HEIGHT then distribute_mining_rewards height w
  else if height <? MINING_UPGRADE_HEIGHT then ([], w)
  else
    let pool_balance := get_balance w pool_addr in
    if pool_balance =? 0 then ([], w)
    else
      let actual := N.min (mining_reward_at height) pool_balance in
      if actual =? 0 then ([], w)
      else ([], (debit_world pool_addr actual w) <| ws_epoch_reward_bucket ::= fun b => u128_add b actual |>).

(** [count_ones] of the low twelve bits. *)
Definition attendance_count (attendance : N) : N :=
  N.of_nat (length (filter (fun i => N.testbit attendance i = true) (seqN 0 12))).

(** The activation boundary: normalise the miners, return the bucket. *)
Definition activate_epochs (w : WorldState) : WorldState :=
  let w := w <| ws_miners ::= fmap (fun m =>
    m <| mi_pending_rewards := 0 |> <| mi_pending_epoch := 0 |> <| mi_epoch_attendance := 0 |>
      <| mi_consecutive_misses := 0 |>) |> in
  let bucket := ws_epoch_reward_bucket w in
  let w := if 0 <? bucket
           then (credit_world pool_addr bucket w) <| ws_epoch_reward_bucket := 0 |> else w in
  w <| ws_epoch_checkins := ∅ |>.

Definition checked_in (height settled_epoch : N) (m : MinerInfo) : bool :=
  if CHECKIN_V3_HEIGHT <=? height then mi_last_checkin_epoch m =? settled_epoch
  else mi_last_heartbeat m / MINER_EPOCH_LENGTH =? settled_epoch.

(** Present: reactivated, attendance recorded, reputation by age. *)
Definition attended (height : N) (m : MinerInfo) : MinerInfo :=
  let age := sat_sub height (mi_registered_at m) in
  let m := m <| mi_active := true |> <| mi_consecutive_misses := 0 |>
             <| mi_epoch_attendance ::= fun a => N.lor ((N.shiftl a 1) mod TWO16) 1 |> in
  if BLOCKS_30_DAYS <=? age then m <| mi_reputation_bps ::= fun r => N.max r REPUTATION_VETERAN_BPS |>
  else if BLOCKS_7_DAYS <=? age then m <| mi_reputation_bps ::= fun r => N.max r REPUTATION_ESTABLISHED_BPS |>
  else m.

(** Absent: one more miss, reputation decay, deactivation after six misses. *)
Definition missed (m : MinerInfo) : MinerInfo :=
  let m := m <| mi_consecutive_misses ::= fun c => sat_add TWO16 c 1 |>
             <| mi_epoch_attendance ::= fun a => (N.shiftl a 1) mod TWO16 |>
             <| mi_reputation_bps ::= fun r =>
                  let decayed := wmul TWO32 r (10000 - REPUTATION_DECAY_BPS) / 10000 in
                  N.max (decayed mod TWO16) REPUTATION_NEWCOMER_BPS |> in
  if MINER_GRACE_EPOCHS <=? mi_consecutive_misses m then m <| mi_active := false |> else m.

(** Phase 1 for one miner. *)
Definition settle_miner (height : N) (addr : bytes) : emits := fun w =>
  let current_epoch := height / MINER_EPOCH_LENGTH in
  let settled_epoch := current_epoch - 1 in
  match ws_miners w !! addr with
  | None => ([], w)
  | Some m =>
      let present := checked_in height settled_epoch m in
      let '(events, w) :=
        if present then
          if (mi_pending_epoch m =? settled_epoch)
          then pay addr (mi_pending_rewards m) "mining_reward_confirmed" w else ([], w)
        else pay pool_addr (mi_pending_rewards m) "mining_reward_forfeited" w in
      let m := if present then attended height m else missed m in
      (events, w <| ws_miners ::= <[addr := m <| mi_pending_rewards := 0 |> <| mi_pending_epoch := current_epoch |>]> |>)
  end.

(** The miners that share the bucket, with their weights. *)
Definition qualify (p : bytes * MinerInfo) : option (bytes * N) :=
  let '(addr, m) := p in
  if mi_active m then
    let count := attendance_count (N.land (mi_epoch_attendance m) 4095) in
    if count <? MINER_MIN_UPTIME_FOR_REWARD then None
    else
      let weight := tier_weight (mi_tier m) * mi_reputation_bps m * miner_uptime_multiplier count in
      if 0 <? weight then Some (addr, weight) else None
  else None.

Definition qualified_miners (miners : gmap bytes MinerInfo) : list (bytes * N) :=
  omap qualify (addr_entries miners).

(** Phase 2: the bucket becomes pending rewards, or goes back to the pool. *)
Definition assign_pending (p : bytes * N) (w : WorldState) : WorldState :=
  if 0 <? p.2 then w <| ws_miners ::= alter (fun m => m <| mi_pending_rewards := p.2 |>) p.1 |> else w.

Definition distribute_bucket (w : WorldState) : WorldState :=
  let bucket := ws_epoch_reward_bucket w in
  if 0 <? bucket then
    let qualified := qualified_miners (ws_miners w) in
    let w :=
      if bool_decide (qualified = []) then credit_world pool_addr bucket w
      else foldl (fun w p => assign_pending p w) w
             (shares_of bucket (wsum TWO128 snd qualified) 0 qualified) in
    w <| ws_epoch_reward_bucket := 0 |>
  else w.

Definition process_miner_epoch_boundary (height : N) : emits := fun w =>
  if height <? HEARTBEAT_V2_HEIGHT then ([], w)
  else if negb (height mod MINER_EPOCH_LENGTH =? 0) then ([], w)
  else if height =? HEARTBEAT_V2_HEIGHT then ([], activate_epochs w)
  else
    let miner_addrs := (addr_entries (ws_miners w)).*1 in
    let '(events, w) := emit_all (settle_miner height) miner_addrs w in
    let w := distribute_bucket w in
    (events, w <| ws_epoch_checkins := ∅ |>).

Definition migrate_miners_v2_to_v3 (w : WorldState) : WorldState :=
  w <| ws_miners ::= fmap (fun m => m <| mi_last_checkin_epoch := mi_last_heartbeat m / MINER_EPOCH_LENGTH |>) |>.


(** ** Accounting *)

(** A registered miner's reputation stays between newcomer and veteran. *)
Definition miner_ok (m : MinerInfo) : Prop :=
  REPUTATION_NEWCOMER_BPS <= mi_reputation_bps m <= REPUTATION_VETERAN_BPS.

Definition miners_ok (w : WorldState) : Prop :=
  map_Forall (fun _ m => miner_ok m) (ws_miners w) /\ N.of_nat (size (ws_miners w)) < TWO32.

(** Whatever is pending was assigned in epoch [e]. *)
Definition pending_current (e : N) (w : WorldState) : Prop :=
  map_Forall (fun _ m => mi_pending_rewards m = 0 \/ mi_pending_epoch m = e) (ws_miners w).

(** Everything the mining rewards leave alone. *)
Definition unmined (w : WorldState) : WorldState :=
  w <| ws_balances := ∅ |> <| ws_miners := ∅ |> <| ws_epoch_reward_bucket := 0 |> <| ws_epoch_checkins := ∅ |>.

Section shares_bound.
Implicit Types (m : gmap bytes MinerInfo).

Lemma length_addr_entries {V} (m : gmap bytes V) : length (addr_entries m) = size m.
Proof. unfold addr_entries. by rewrite sorted_entries_perm, length_map_to_list. Qed.

Lemma lsum_bound {A} (f : A -> N) c l : (forall x, x ∈ l -> f x <= c) -> lsum f l <= c * N.of_nat (length l).
Proof. intros Hf. rewrite <- (lsum_const c l). by apply lsum_mono. Qed.

Lemma elem_of_qualified m a x :
  (a, x) ∈ qualified_miners m ->
  exists i, m !! a = Some i /\ mi_active i = true /\ 0 < x
    /\ MINER_MIN_UPTIME_FOR_REWARD <= attendance_count (N.land (mi_epoch_attendance i) 4095)
    /\ x = mi_reputation_bps i * miner_uptime_multiplier (attendance_count (N.land (mi_epoch_attendance i) 4095)).
Proof.
  unfold qualified_miners. rewrite list_elem_of_omap. intros ([b i] & Hin & Hq). unfold qualify in Hq.
  apply elem_of_sorted_entries in Hin. destruct (mi_active i) eqn:Ha; [| done].
  cbv zeta in Hq. destruct (N.ltb_spec (attendance_count (N.land (mi_epoch_attendance i) 4095)) MINER_MIN_UPTIME_FOR_REWARD); [done |].
  case_match eqn:Hw; [| done]. injection Hq as -> <-. apply N.ltb_lt in Hw.
  exists i. split_and!; try done. unfold tier_weight. destruct (mi_tier i). lia.
Qed.

Lemma uptime_multiplier_le c : miner_uptime_multiplier c <= 100.
Proof. unfold miner_uptime_multiplier. repeat case_match; lia. Qed.

Lemma qualified_le m a x : map_Forall (fun _ i => miner_ok i) m -> (a, x) ∈ qualified_miners m -> x <= 1000000.
Proof.
  intros Hm (i & Hi & _ & _ & _ & ->)%elem_of_qualified. destruct (Hm _ _ Hi) as [_ Hr].
  unfold REPUTATION_VETERAN_BPS in Hr.
  pose proof (uptime_multiplier_le (attendance_count (N.land (mi_epoch_attendance i) 4095))). nia.
Qed.

Lemma length_omap_le {A B} (f : A -> option B) l : (length (omap f l) <= length l)%nat.
Proof. unfold omap. induction l as [|x l IH]; cbn; [done |]. destruct (f x); cbn; lia. Qed.

Lemma qualified_total m :
  map_Forall (fun _ i => miner_ok i) m ->
  lsum snd (qualified_miners m) <= 1000000 * N.of_nat (size m).
Proof.
  intros Hm. pose proof (lsum_bound snd 1000000 (qualified_miners m)) as Hb.
  pose proof (length_omap_le qualify (addr_entries m)) as Hl. fold (qualified_miners m) in Hl.
  rewrite length_addr_entries in Hl.
  specialize (Hb ltac:(intros [a x]; by apply qualified_le)). nia.
Qed.
End shares_bound.

(** ** Settling one miner *)

(** What the boundary makes of a miner's record, before new pending rewards. *)
Definition settled (height : N) (m : MinerInfo) : MinerInfo :=
  (if checked_in height (height / MINER_EPOCH_LENGTH - 1) m then attended height m else missed m)
    <| mi_pending_rewards := 0 |> <| mi_pending_epoch := height / MINER_EPOCH_LENGTH |>.

(** What the boundary pays the miner itself. *)
Definition confirmed (height : N) (m : MinerInfo) : N :=
  if checked_in height (height / MINER_EPOCH_LENGTH - 1) m then mi_pending_rewards m else 0.

Section settle.
Context (height : N).
Implicit Types (w : WorldState) (m : MinerInfo).

Lemma settled_ok m : miner_ok m -> miner_ok (settled height m).
Proof.
  unfold miner_ok, REPUTATION_NEWCOMER_BPS, REPUTATION_VETERAN_BPS. intros [Hlo Hhi].
  unfold settled. upd. destruct (checked_in _ _ _).
  - unfold attended, REPUTATION_VETERAN_BPS, REPUTATION_ESTABLISHED_BPS.
    repeat case_match; upd; lia.
  - unfold missed, REPUTATION_DECAY_BPS, REPUTATION_NEWCOMER_BPS.
    assert (N.max ((wmul TWO32 (mi_reputation_bps m) (10000 - 100) / 10000) mod TWO16) 2000 <= 10000).
    { rewrite wmul_small by lia. assert (mi_reputation_bps m * (10000 - 100) / 10000 <= 10000)
        by (apply N.Div0.div_le_upper_bound; lia). rewrite N.mod_small; lia. }
    cbv zeta. case_match; upd; lia.
Qed.

Lemma settled_cleared m :
  mi_pending_rewards (settled height m) = 0
  /\ mi_pending_epoch (settled height m) = height / MINER_EPOCH_LENGTH.
Proof. done. Qed.

Lemma confirmed_le m : confirmed height m <= mi_pending_rewards m.
Proof. unfold confirmed. case_match; lia. Qed.

Lemma pay_funds r x t w :
  2 * (supply w + x) < TWO128 ->
  let w' := (pay r x t w).2 in
  supply w' = supply w + x /\ unpaid w' = unpaid w
  /\ forall b, get_balance w' b = get_balance w b + (if decide (r = b) then x else 0).
Proof.
  intros Hs. unfold pay. destruct (N.ltb_spec 0 x); simpl.
  - unfold credit_world. rewrite supply_credit by lia. split_and!; [done | done |].
    intros b. apply balance_credit. lia.
  - split_and!; [lia | done |]. intros b. case_decide; lia.
Qed.

Lemma supply_miner_insert w a m i :
  ws_miners w !! a = Some i ->
  supply (w <| ws_miners ::= <[a := m]> |>) + mi_pending_rewards i = supply w + mi_pending_rewards m.
Proof.
  intros Hi. unfold supply. upd. pose proof (msum_insert mi_pending_rewards (ws_miners w) a m) as H.
  rewrite (mval_Some _ _ _ _ Hi) in H. lia.
Qed.

Lemma pending_le_supply w a m : ws_miners w !! a = Some m -> mi_pending_rewards m <= supply w.
Proof.
  intros Hm. unfold supply. pose proof (mval_le mi_pending_rewards (ws_miners w) a) as H.
  rewrite (mval_Some _ _ _ _ Hm) in H. lia.
Qed.

Lemma settle_miner_step a m w :
  4 * supply w < TWO128 -> pending_current (height / MINER_EPOCH_LENGTH - 1) w ->
  ws_miners w !! a = Some m ->
  let w' := (settle_miner height a w).2 in
  supply w' = supply w /\ unmined w' = unmined w
  /\ ws_epoch_reward_bucket w' = ws_epoch_reward_bucket w
  /\ ws_miners w' = <[a := settled height m]> (ws_miners w)
  /\ forall b, b <> pool_addr -> get_balance w' b = get_balance w b + (if decide (a = b) then confirmed height m else 0).
Proof.
  intros Hs Hpend Hm. unfold settle_miner. rewrite Hm. cbv zeta.
  pose proof (pending_le_supply w a m Hm) as Hle.
  set (r := if checked_in height (height / MINER_EPOCH_LENGTH - 1) m then a else pool_addr).
  assert (exists t, (if checked_in height (height / MINER_EPOCH_LENGTH - 1) m
           then if mi_pending_epoch m =? height / MINER_EPOCH_LENGTH - 1
                then pay a (mi_pending_rewards m) "mining_reward_confirmed" w else ([], w)
           else pay pool_addr (mi_pending_rewards m) "mining_reward_forfeited" w)
         = pay r (mi_pending_rewards m) t w) as [t Ht].
  { unfold r. destruct (checked_in _ _ _); [| eauto].
    destruct (N.eqb_spec (mi_pending_epoch m) (height / MINER_EPOCH_LENGTH - 1)); [eauto |].
    destruct (Hpend a m Hm) as [H0|]; [| done]. exists ""%string. unfold pay. by rewrite H0. }
  rewrite Ht. destruct (pay_funds r (mi_pending_rewards m) t w ltac:(lia)) as (H1 & H2 & H3).
  clear Ht. destruct (pay r _ t w) as [ev w1]. cbn [snd] in H1, H2, H3 |- *. fold (settled height m).
  assert (ws_miners w1 = ws_miners w) as Hmin by exact (f_equal ws_miners H2).
  assert (ws_epoch_reward_bucket w1 = ws_epoch_reward_bucket w) as Hbk by exact (f_equal ws_epoch_reward_bucket H2).
  split_and!.
  - pose proof (supply_miner_insert w1 a (settled height m) m ltac:(by rewrite Hmin)) as H.
    destruct (settled_cleared m) as [H0 _]. lia.
  - exact (f_equal unmined H2).
  - exact Hbk.
  - upd. by rewrite Hmin.
  - intros b Hb. specialize (H3 b). unfold get_balance in *. upd. rewrite H3. f_equal.
    unfold r, confirmed. destruct (checked_in _ _ _); [done |]. rewrite decide_False by congruence. destruct (decide (a = b)); reflexivity.
Qed.
End settle.

(** ** The two phases *)

Section phases.
Context (height : N).
Implicit Types (w : WorldState) (l : list bytes).

Lemma pending_current_settle e w w' a m :
  pending_current e w -> ws_miners w' = <[a := settled height m]> (ws_miners w) -> pending_current e w'.
Proof.
  unfold pending_current. intros Hp ->. apply map_Forall_insert_2; [left; apply settled_cleared | done].
Qed.

(** Phase 1 over a list of distinct miners. *)
Lemma settle_all l w :
  NoDup l -> (forall a, a ∈ l -> is_Some (ws_miners w !! a)) ->
  4 * supply w < TWO128 -> pending_current (height / MINER_EPOCH_LENGTH - 1) w ->
  let w' := (emit_all (settle_miner height) l w).2 in
  supply w' = supply w /\ unmined w' = unmined w
  /\ ws_epoch_reward_bucket w' = ws_epoch_reward_bucket w
  /\ (forall b, ws_miners w' !! b
        = (if decide (b ∈ l) then settled height <$> (ws_miners w !! b) else ws_miners w !! b))
  /\ forall b, b <> pool_addr ->
       get_balance w' b = get_balance w b
         + (if decide (b ∈ l) then from_option (confirmed height) 0 (ws_miners w !! b) else 0).
Proof.
  revert w. induction l as [|a l IH]; intros w Hnd Hin Hs Hp.
  { simpl. split_and!; try done. intros b Hb. lia. }
  apply NoDup_cons in Hnd as [Ha Hnd]. destruct (Hin a (list_elem_of_here _ _)) as [m Hm].
  destruct (settle_miner_step height a m w Hs Hp Hm) as (H1 & H2 & H3 & H4 & H5).
  cbn [emit_all]. unfold and_then. destruct (settle_miner height a w) as [e1 w1]. cbn [snd] in H1, H2, H3, H4, H5.
  assert (forall b, b <> a -> ws_miners w1 !! b = ws_miners w !! b) as Hne
    by (intros b Hb; rewrite H4; by apply lookup_insert_ne).
  destruct (IH w1 Hnd) as (G1 & G2 & G3 & G4 & G5).
  - intros b Hb. rewrite Hne by (intros ->; done). apply Hin. by right.
  - lia.
  - by eapply pending_current_settle.
  - destruct (emit_all _ _ w1) as [e2 w2]. cbn [snd] in *. split_and!; try congruence.
    + intros b. rewrite G4. destruct (decide (b = a)) as [-> |].
      * rewrite decide_False, decide_True by (done || left). by rewrite H4, lookup_insert_eq, Hm.
      * rewrite Hne by done. apply decide_ext. rewrite elem_of_cons. naive_solver.
    + intros b Hb. rewrite G5, H5 by done. destruct (decide (b = a)) as [-> |].
      * rewrite (decide_True (P := a = a)), (decide_True (P := a ∈ a :: l)), decide_False by (done || left).
        rewrite Hm. simpl. lia.
      * rewrite Hne by done. rewrite (decide_False (P := a = b)) by congruence.
        replace (if decide (b ∈ a :: l) then from_option (confirmed height) 0 (ws_miners w !! b) else 0)
          with (if decide (b ∈ l) then from_option (confirmed height) 0 (ws_miners w !! b) else 0); [lia |].
        apply decide_ext. rewrite elem_of_cons. naive_solver.
Qed.

(** Phase 2: shares become pending rewards. *)
Lemma assign_all (l : list (bytes * N)) w :
  NoDup l.*1 -> (forall p, p ∈ l -> exists m, ws_miners w !! p.1 = Some m /\ mi_pending_rewards m = 0) ->
  let w' := foldl (fun w p => assign_pending p w) w l in
  unmined w' = unmined w /\ ws_balances w' = ws_balances w
  /\ ws_epoch_reward_bucket w' = ws_epoch_reward_bucket w
  /\ supply w' = supply w + lsum snd l
  /\ (forall b m, ws_miners w !! b = Some m -> b ∉ l.*1 -> ws_miners w' !! b = Some m)
  /\ (forall b s, (b, s) ∈ l -> exists m, ws_miners w !! b = Some m
        /\ ws_miners w' !! b = Some (m <| mi_pending_rewards := s |>))
  /\ dom (ws_miners w') = dom (ws_miners w).
Proof.
  revert w. induction l as [|[a x] l IH]; intros w Hnd Hin.
  { simpl. split_and!; try done; [lia |]. intros b s Hb. by apply elem_of_nil in Hb. }
  rewrite fmap_cons in Hnd. apply NoDup_cons in Hnd as [Ha Hnd].
  destruct (Hin (a, x) (list_elem_of_here _ _)) as (m & Hm & H0). simpl in Hm.
  assert (exists w1, assign_pending (a, x) w = w1 /\ unmined w1 = unmined w /\ ws_balances w1 = ws_balances w
    /\ ws_epoch_reward_bucket w1 = ws_epoch_reward_bucket w /\ supply w1 = supply w + x
    /\ ws_miners w1 = <[a := m <| mi_pending_rewards := x |>]> (ws_miners w)) as (w1 & E & H1 & H2 & H3 & H4 & H5).
  { eexists. split; [reflexivity |]. unfold assign_pending. cbn [fst snd]. destruct (N.ltb_spec 0 x).
    - split_and!; try done; [| upd; by apply alter_as_insert].
      unfold supply. upd. rewrite (alter_as_insert _ _ _ _ Hm).
      pose proof (msum_insert mi_pending_rewards (ws_miners w) a (m <| mi_pending_rewards := x |>)) as Hs.
      rewrite (mval_Some _ _ _ _ Hm) in Hs. upd. lia.
    - split_and!; try done; [lia |]. replace x with 0 by lia.
      assert (m <| mi_pending_rewards := 0 |> = m) as ->.
      { rewrite <- H0. by destruct m. }
      by rewrite insert_id. }
  cbn [foldl]. rewrite E. destruct (IH w1 Hnd) as (G1 & G2 & G3 & G4 & G5 & G6 & G7).
  { intros [b s] Hb. assert (b <> a) as Hne by (intros ->; apply Ha, list_elem_of_fmap; by exists (a, s)).
    rewrite H5. cbn [fst]. rewrite lookup_insert_ne by done. apply (Hin (b, s)). by right. }
  cbv zeta. split_and!; try congruence.
  - rewrite G4, H4. cbn [lsum foldr snd]. fold (lsum (snd (A:=bytes)) l). lia.
  - intros b i Hb Hnin. rewrite fmap_cons, not_elem_of_cons in Hnin. destruct Hnin as [Hba Hnin].
    apply G5; [| done]. rewrite H5. cbn [fst] in Hba. by rewrite lookup_insert_ne.
  - intros b s [[= -> ->] | Hb]%elem_of_cons.
    + exists m. split; [done |]. apply G5; [by rewrite H5, lookup_insert_eq | done].
    + assert (b <> a) as Hne by (intros ->; apply Ha, list_elem_of_fmap; by exists (a, s)).
      destruct (G6 b s Hb) as (i & Hi & Hi'). exists i. rewrite H5, lookup_insert_ne in Hi by done. done.
  - rewrite G7, H5, dom_insert_L. assert (a ∈ dom (ws_miners w)) by (apply elem_of_dom; eauto). set_solver.
Qed.
End phases.

(** ** Properties *)

(** A miner's record after a boundary: settled, with a new pending reward only if
    it is active and was present in half of its last twelve epochs. *)
Definition epoch_outcome (height : N) (w w' : WorldState) (a : bytes) (m : MinerInfo) : Prop :=
  exists s, ws_miners w' !! a = Some ((settled height m) <| mi_pending_rewards := s |>)
    /\ (0 < s -> mi_active (settled height m) = true
        /\ MINER_MIN_UPTIME_FOR_REWARD
             <= attendance_count (N.land (mi_epoch_attendance (settled height m)) 4095)).

Record epoch_spec (height : N) (w w' : WorldState) : Prop := {
  es_supply : supply w' = supply w;
  es_cleared : ws_epoch_reward_bucket w' = 0 /\ ws_epoch_checkins w' = ∅;
  es_frame : unmined w' = unmined w;
  es_domain : dom (ws_miners w') = dom (ws_miners w);
  es_miners : forall a m, ws_miners w !! a = Some m -> epoch_outcome height w w' a m;
  es_pending : pending_current (height / MINER_EPOCH_LENGTH) w';
  es_ok : miners_ok w';
  es_paid : forall a, a <> pool_addr ->
    get_balance w' a = get_balance w a + from_option (confirmed height) 0 (ws_miners w !! a);
}.

Section distribution.
Implicit Types (w : WorldState).

Lemma qualified_NoDup m : NoDup (qualified_miners m).*1.
Proof.
  unfold qualified_miners. pose proof (sorted_entries_NoDup bytes_leb m) as Hnd.
  fold (addr_entries m) in Hnd. induction (addr_entries m) as [|[a i] l IH]; [constructor |].
  rewrite fmap_cons in Hnd. apply NoDup_cons in Hnd as [Ha Hnd]. specialize (IH Hnd).
  change (NoDup (match qualify (a, i) with Some y => y :: omap qualify l | None => omap qualify l end).*1).
  destruct (qualify (a, i)) as [[b x]|] eqn:Hq; [| done]. rewrite fmap_cons. apply NoDup_cons. split; [| done].
  assert (forall p q, qualify p = Some q -> q.1 = p.1) as Hkey.
  { intros [k j] q. unfold qualify. repeat case_match; by intros [= <-]. }
  apply Hkey in Hq. simpl in Hq. subst b. intros (q & Eq & Hin)%list_elem_of_fmap.
  apply list_elem_of_omap in Hin as (p & Hp & Hpq). apply Hkey in Hpq. apply Ha.
  apply list_elem_of_fmap. exists p. simpl in Eq. split; [simpl; congruence | done].
Qed.

Lemma elem_of_shares reward total d l p :
  p ∈ shares_of reward total d l -> p.1 ∈ l.*1.
Proof. intros Hp. rewrite <- (shares_of_keys reward total d l). apply list_elem_of_fmap. eauto. Qed.

(** Phase 2 as a whole: the bucket moves, to the qualified miners or the pool. *)
Lemma distribute_bucket_spec w :
  supply w <= CLAW_TOTAL_SUPPLY -> miners_ok w ->
  map_Forall (fun _ m => mi_pending_rewards m = 0) (ws_miners w) ->
  let w' := distribute_bucket w in
  supply w' = supply w /\ ws_epoch_reward_bucket w' = 0 /\ unmined w' = unmined w
  /\ dom (ws_miners w') = dom (ws_miners w)
  /\ (forall a m, ws_miners w !! a = Some m -> exists s,
        ws_miners w' !! a = Some (m <| mi_pending_rewards := s |>)
        /\ (0 < s -> a ∈ (qualified_miners (ws_miners w)).*1))
  /\ (forall a, a <> pool_addr -> get_balance w' a = get_balance w a).
Proof.
  unfold CLAW_TOTAL_SUPPLY. intros Hs [Hok Hsize] H0.
  assert (forall a m, ws_miners w !! a = Some m -> m = m <| mi_pending_rewards := 0 |>) as Heta.
  { intros a m Hm. rewrite <- (H0 a m Hm). by destruct m. }
  assert (ws_epoch_reward_bucket w <= supply w) as Hb by (unfold supply; lia).
  unfold distribute_bucket. cbv zeta. destruct (N.ltb_spec 0 (ws_epoch_reward_bucket w)) as [Hpos|];
    [| split_and!; try done; [lia |]; intros a m Hm; exists 0; split; [by rewrite <- (Heta a m Hm) | lia]].
  case_bool_decide as Hq.
  - split_and!; try done.
    + assert (forall s, supply (s <| ws_epoch_reward_bucket := 0 |>) + ws_epoch_reward_bucket s = supply s) as Hbk
        by (intros s; unfold supply; upd; lia).
      pose proof (Hbk (credit_world pool_addr (ws_epoch_reward_bucket w) w)) as H.
      unfold credit_world in H |- *. rewrite supply_credit in H by lia. upd. lia.
    + intros a m Hm. exists 0. split; [unfold credit_world; upd; rewrite Hm; f_equal; by apply Heta with a | lia].
    + intros a Ha. unfold credit_world, get_balance. upd. unfold entry_add. by rewrite lookup_insert_ne.
  - set (l := qualified_miners (ws_miners w)) in *.
    pose proof (qualified_total (ws_miners w) Hok) as Htot. fold l in Htot.
    assert (0 < lsum snd l) as Hpt.
    { destruct l as [|[a x] l'] eqn:El; [done |]. cbn [lsum foldr snd].
      assert ((a, x) ∈ qualified_miners (ws_miners w)) as Hin by (fold l; rewrite El; left).
      apply elem_of_qualified in Hin as (i & _ & _ & Hx & _). lia. }
    assert (lsum snd l < TWO64) by lia.
    rewrite (wsum_exact TWO128 snd l) by lia.
    set (b := ws_epoch_reward_bucket w) in *.
    assert (b * lsum snd l < TWO128) as Hbt by nia.
    pose proof (shares_of_sum b (lsum snd l) 0 l ltac:(lia) Hbt ltac:(lia) Hq (paid_up_start b l)) as Hsum.
    pose proof (assign_all (shares_of b (lsum snd l) 0 l) w) as Ha.
    destruct Ha as (H1 & H2 & H3 & H4 & H5 & H6 & H7).
    { rewrite shares_of_keys. apply qualified_NoDup. }
    { intros p Hp%elem_of_shares. apply list_elem_of_fmap in Hp as ([a x] & -> & Hin).
      apply elem_of_qualified in Hin as (i & Hi & _). exists i. split; [done | by apply (H0 a)]. }
    cbv zeta in H1, H2, H3, H4, H5, H6, H7. set (w1 := foldl _ w _) in *. clearbody w1.
    split_and!; try done.
    + assert (supply (w1 <| ws_epoch_reward_bucket := 0 |>) + ws_epoch_reward_bucket w1 = supply w1) as Hbk
        by (unfold supply; upd; lia). lia.
    + intros a m Hm. upd. destruct (decide (a ∈ l.*1)) as [Hin|Hnin].
      * rewrite <- (shares_of_keys b (lsum snd l) 0 l) in Hin.
        apply list_elem_of_fmap in Hin as ([a' s] & -> & Hin). destruct (H6 a' s Hin) as (i & Hi & Hi').
        simpl in Hm. rewrite Hm in Hi. injection Hi as <-. exists s. split; [done |]. intros _.
        rewrite <- (shares_of_keys b (lsum snd l) 0 l). apply list_elem_of_fmap. by exists (a', s).
      * exists 0. split; [| lia]. rewrite <- (Heta a m Hm). apply H5; [done |]. by rewrite shares_of_keys.
    + intros a Ha. unfold get_balance. upd. by rewrite H2.
Qed.
End distribution.

Section epoch.
Implicit Types (w : WorldState).

Lemma phase_one height w :
  supply w <= CLAW_TOTAL_SUPPLY -> miners_ok w -> pending_current (height / MINER_EPOCH_LENGTH - 1) w ->
  let w1 := (emit_all (settle_miner height) (addr_entries (ws_miners w)).*1 w).2 in
  supply w1 = supply w /\ unmined w1 = unmined w /\ ws_miners w1 = settled height <$> ws_miners w
  /\ forall b, b <> pool_addr ->
       get_balance w1 b = get_balance w b + from_option (confirmed height) 0 (ws_miners w !! b).
Proof.
  unfold CLAW_TOTAL_SUPPLY. intros Hs Hok Hp.
  assert (forall a, a ∈ (addr_entries (ws_miners w)).*1 <-> is_Some (ws_miners w !! a)) as Hkeys.
  { intros a. rewrite list_elem_of_fmap. split.
    - intros ([b m] & -> & Hin%elem_of_sorted_entries). simpl. eauto.
    - intros [m Hm]. exists (a, m). split; [done | by apply elem_of_sorted_entries]. }
  destruct (settle_all height (addr_entries (ws_miners w)).*1 w) as (H1 & H2 & _ & H4 & H5).
  - apply sorted_entries_NoDup.
  - intros a. apply Hkeys.
  - lia.
  - done.
  - cbv zeta. split_and!; [done | done | |].
    + apply map_eq. intros a. rewrite H4, lookup_fmap. case_decide as Ha; [done |].
      destruct (ws_miners w !! a) eqn:E; [| done]. destruct Ha. apply Hkeys. eauto.
    + intros b Hb. rewrite H5 by done. case_decide as Ha; [done |].
      destruct (ws_miners w !! b) eqn:E; [| done]. destruct Ha. apply Hkeys. eauto.
Qed.

Lemma miners_ok_settled height w w1 :
  miners_ok w -> ws_miners w1 = settled height <$> ws_miners w -> miners_ok w1.
Proof.
  intros [Hm Hsz] E. split; rewrite E; [| by rewrite map_size_fmap].
  apply map_Forall_fmap. intros a m Ha. apply settled_ok. by apply (Hm a).
Qed.

Lemma epoch_boundary_spec height w :
  HEARTBEAT_V2_HEIGHT < height -> height mod MINER_EPOCH_LENGTH = 0 ->
  supply w <= CLAW_TOTAL_SUPPLY -> miners_ok w ->
  pending_current (height / MINER_EPOCH_LENGTH - 1) w ->
  epoch_spec height w (process_miner_epoch_boundary height w).2.
Proof.
  intros Hh Hmod Hs Hok Hp. unfold process_miner_epoch_boundary.
  destruct (N.ltb_spec height HEARTBEAT_V2_HEIGHT); [lia |]. rewrite Hmod. simpl negb. cbv iota.
  destruct (N.eqb_spec height HEARTBEAT_V2_HEIGHT); [lia |].
  destruct (phase_one height w Hs Hok Hp) as (H1 & H2 & H3 & H4).
  destruct (emit_all _ _ w) as [events w1]. cbn [snd] in *.
  assert (map_Forall (fun _ m => mi_pending_rewards m = 0) (ws_miners w1)) as H0
    by (rewrite H3; apply map_Forall_fmap; by intros a m _).
  destruct (distribute_bucket_spec w1) as (G1 & G2 & G3 & G4 & G5 & G6);
    [by rewrite H1 | by eapply miners_ok_settled | done |].
  cbv zeta in *. set (w2 := distribute_bucket w1) in *. clearbody w2.
  assert (forall a m, ws_miners w2 !! a = Some m -> exists i s, ws_miners w !! a = Some i
      /\ m = (settled height i) <| mi_pending_rewards := s |>) as Hback.
  { intros a m Hm. assert (a ∈ dom (ws_miners w1)) as Ha by (rewrite <- G4; apply elem_of_dom; eauto).
    apply elem_of_dom in Ha as [i1 Hi1]. destruct (G5 a i1 Hi1) as (s & Hs' & _).
    rewrite H3, lookup_fmap in Hi1. apply fmap_Some in Hi1 as (i & Hi & ->).
    exists i, s. split; [done |]. congruence. }
  split; upd.
  - rewrite <- H1, <- G1. done.
  - done.
  - by rewrite <- H2, <- G3.
  - by rewrite G4, H3, dom_fmap_L.
  - intros a m Hm. destruct (G5 a (settled height m)) as (s & Hs' & Hq); [by rewrite H3, lookup_fmap, Hm |].
    exists s. split; [done |]. intros Hpos. apply Hq in Hpos.
    apply list_elem_of_fmap in Hpos as ([b x] & -> & Hin).
    apply elem_of_qualified in Hin as (i & Hi & Hact & _ & Hatt & _).
    rewrite H3, lookup_fmap in Hi. simpl in Hm. rewrite Hm in Hi. injection Hi as <-. done.
  - intros a m Hm. right. destruct (Hback a m Hm) as (i & s & _ & ->). done.
  - split; [| upd; rewrite <- size_dom, G4, H3, dom_fmap_L, size_dom; apply Hok].
    intros a m Hm. destruct (Hback a m Hm) as (i & s & Hi & ->).
    apply (settled_ok height). by apply (proj1 Hok a).
  - intros a Ha. rewrite <- H4, <- (G6 a Ha) by done. done.
Qed.

(** C15. An epoch boundary settles the mining rewards without making or losing
    any: the supply is unchanged, the bucket is emptied, every miner's record is
    updated by its presence in the past epoch, a miner that was present is paid
    exactly its pending reward and no other account but the pool changes, new
    pending rewards go only to active miners present in at least six of the last
    twelve epochs, and the invariants the next boundary needs hold again. *)
Theorem epoch_boundary_correct height w :
  HEARTBEAT_V2_HEIGHT < height -> height mod MINER_EPOCH_LENGTH = 0 ->
  supply w <= CLAW_TOTAL_SUPPLY -> miners_ok w ->
  pending_current (height / MINER_EPOCH_LENGTH - 1) w ->
  epoch_spec height w (process_miner_epoch_boundary height w).2.
Proof. apply epoch_boundary_spec. Qed.

Lemma mining_rewards_direct height w :
  supply w <= CLAW_TOTAL_SUPPLY -> miners_ok w -> commissions_ok w ->
  let w' := (distribute_mining_rewards height w).2 in
  supply w' = supply w /\ unpaid w' = unpaid w.
Proof.
  unfold CLAW_TOTAL_SUPPLY. intros Hs [Hm Hsz] Hc. unfold distribute_mining_rewards.
  destruct (_ <? _); [done |]. cbv zeta. destruct (N.eqb_spec (get_balance w pool_addr) 0); [done |].
  set (l := (fun p : bytes * MinerInfo => _) <$> _). case_bool_decide; [done |].
  pose proof (mining_reward_bounds height). set (reward := N.min _ _).
  destruct (N.eqb_spec reward 0); [done |].
  assert (lsum snd l <= 10000 * N.of_nat (length l)) as Hl.
  { apply lsum_bound. intros p ([a m] & -> & Hin)%list_elem_of_fmap. simpl.
    apply list_elem_of_filter in Hin as [_ Hin%elem_of_sorted_entries].
    destruct (Hm a m Hin) as [_ Hr]. unfold REPUTATION_VETERAN_BPS, tier_weight in *.
    destruct (mi_tier m). lia. }
  assert (length l <= size (ws_miners w))%nat as Hlen.
  { unfold l. rewrite length_fmap, <- length_addr_entries. apply length_filter. }
  rewrite wsum_exact by lia. destruct (N.eqb_spec (lsum snd l) 0); [done |].
  pose proof (pool_payout (fun p => pay p.1 p.2 "mining_reward") reward l w ltac:(unfold supply_fits; lia) Hc
    ltac:(lia) ltac:(lia) ltac:(lia) ltac:(lia) ltac:(intros p _; apply credits_pay)) as Hpay.
  destruct (emit_all _ _ _) as [events w']. destruct Hpay as (H1 & _ & H2). done.
Qed.

Lemma bucket_supply w x : supply (w <| ws_epoch_reward_bucket := x |>) + ws_epoch_reward_bucket w = supply w + x.
Proof. unfold supply. upd. lia. Qed.

Lemma cleared_pending (m : gmap bytes MinerInfo) (f : MinerInfo -> MinerInfo) :
  (forall i, mi_pending_rewards (f i) = 0) -> msum mi_pending_rewards (f <$> m) = 0.
Proof.
  intros Hf. unfold msum. rewrite map_to_list_fmap, lsum_fmap.
  rewrite (lsum_ext _ (fun _ => 0)); [by rewrite lsum_const | by intros [k i] _; apply Hf].
Qed.

Lemma no_pending (m : gmap bytes MinerInfo) :
  map_Forall (fun _ i => mi_pending_rewards i = 0) m -> msum mi_pending_rewards m = 0.
Proof.
  intros Hm. unfold msum. rewrite (lsum_ext _ (fun _ => 0)); [by rewrite lsum_const |].
  intros [k i] Hin%elem_of_map_to_list. by apply (Hm k).
Qed.

Lemma activate_epochs_spec w :
  2 * supply w < TWO128 -> map_Forall (fun _ m => mi_pending_rewards m = 0) (ws_miners w) ->
  supply (activate_epochs w) = supply w /\ ws_epoch_reward_bucket (activate_epochs w) = 0.
Proof.
  intros Hs Hp. unfold activate_epochs. cbv zeta. upd.
  set (w1 := w <| ws_miners ::= _ |>).
  assert (supply w1 = supply w) as H1.
  { unfold w1, supply. upd. by rewrite cleared_pending, (no_pending _ Hp). }
  assert (ws_epoch_reward_bucket w1 <= supply w1) as Hb by (unfold supply; lia).
  change (ws_epoch_reward_bucket w) with (ws_epoch_reward_bucket w1).
  clearbody w1. destruct (N.ltb_spec 0 (ws_epoch_reward_bucket w1)); [| split; [done | upd; lia]].
  pose proof (bucket_supply (credit_world pool_addr (ws_epoch_reward_bucket w1) w1) 0) as Hk.
  unfold credit_world in *. rewrite supply_credit in Hk by lia. upd. split; [lia | done].
Qed.

Lemma accumulate_spec height w :
  HEARTBEAT_V2_HEIGHT <= height -> 2 * supply w < TWO128 ->
  let part := N.min (mining_reward_at height) (get_balance w pool_addr) in
  exists w', accumulate_mining_reward height w = ([], w')
    /\ supply w' = supply w /\ unmined w' = unmined w /\ ws_miners w' = ws_miners w
    /\ ws_epoch_reward_bucket w' = ws_epoch_reward_bucket w + part
    /\ get_balance w' pool_addr = get_balance w pool_addr - part.
Proof.
  intros Hh Hs part. unfold HEARTBEAT_V2_HEIGHT in Hh. unfold accumulate_mining_reward, HEARTBEAT_V2_HEIGHT, MINING_UPGRADE_HEIGHT.
  destruct (N.ltb_spec height 225900); [lia |]. destruct (N.ltb_spec height 2000); [lia |]. cbv zeta.
  pose proof (mining_reward_bounds height).
  destruct (N.eqb_spec (get_balance w pool_addr) 0).
  { exists w. split_and!; try done; unfold part; lia. }
  destruct (N.eqb_spec (N.min (mining_reward_at height) (get_balance w pool_addr)) 0); [lia |].
  fold part. assert (part <= get_balance w pool_addr) as Hp by (unfold part; lia).
  pose proof (balance_le_supply w pool_addr) as Hle. rewrite <- get_balance_amount in Hle.
  assert (ws_epoch_reward_bucket w + get_balance w pool_addr <= supply w) as Hb.
  { rewrite get_balance_amount. unfold supply. pose proof (amount_le_total (ws_balances w) pool_addr). lia. }
  eexists. split; [reflexivity |]. unfold debit_world. split_and!; try done.
  - pose proof (bucket_supply (w <| ws_balances ::= entry_sub TWO128 pool_addr part |>)
      (ws_epoch_reward_bucket w + part)) as Hk.
    rewrite supply_debit in Hk by (rewrite <- ?get_balance_amount; lia).
    assert (forall s x f, f (ws_epoch_reward_bucket s) = x ->
      supply (s <| ws_epoch_reward_bucket ::= f |>) = supply (s <| ws_epoch_reward_bucket := x |>)) as Hf
      by (intros s x f <-; done).
    rewrite (Hf _ (ws_epoch_reward_bucket w + part)) by (upd; apply wadd_small; lia). upd. lia.
  - upd. apply wadd_small. lia.
  - transitivity (get_balance (w <| ws_balances ::= entry_sub TWO128 pool_addr part |>) pool_addr); [done |].
    rewrite balance_debit by (try done; lia). by rewrite decide_True.
Qed.

(** Between boundaries no value is made or lost either: the miners' part of
    a block's reward leaves the pool for the miners themselves before the V2
    height and for the epoch bucket from then on, and the activation boundary
    returns the bucket to the pool. *)
Theorem mining_reward_conserves height w :
  supply w <= CLAW_TOTAL_SUPPLY -> miners_ok w -> commissions_ok w ->
  (height <= HEARTBEAT_V2_HEIGHT -> map_Forall (fun _ m => mi_pending_rewards m = 0) (ws_miners w)) ->
  let '(events, w') := accumulate_mining_reward height w in
  supply w' = supply w /\ unmined w' = unmined w /\ ws_miners w' = ws_miners w
  /\ (HEARTBEAT_V2_HEIGHT <= height ->
      let part := N.min (mining_reward_at height) (get_balance w pool_addr) in
      events = [] /\ ws_epoch_reward_bucket w' = ws_epoch_reward_bucket w + part
      /\ get_balance w' pool_addr = get_balance w pool_addr - part)
  /\ (height = HEARTBEAT_V2_HEIGHT ->
      let w2 := (process_miner_epoch_boundary height w').2 in
      supply w2 = supply w /\ ws_epoch_reward_bucket w2 = 0).
Proof.
  intros Hs Hok Hc Hp. unfold CLAW_TOTAL_SUPPLY in Hs.
  destruct (N.lt_ge_cases height HEARTBEAT_V2_HEIGHT) as [Hlt|Hge].
  - unfold accumulate_mining_reward. destruct (N.ltb_spec height HEARTBEAT_V2_HEIGHT); [| lia].
    destruct (mining_rewards_direct height w Hs Hok Hc) as [H1 H2].
    destruct (distribute_mining_rewards height w) as [events w']. cbn [snd] in *.
    split_and!; [done | exact (f_equal unmined H2) | exact (f_equal ws_miners H2) | lia | lia].
  - destruct (accumulate_spec height w Hge ltac:(lia)) as (w' & -> & H1 & H2 & H3 & H4 & H5).
    split_and!; [done | done | done | by intros _ |]. intros Hh w2.
    unfold w2, process_miner_epoch_boundary. rewrite Hh. simpl.
    rewrite <- H1. apply activate_epochs_spec; [lia |]. rewrite H3. apply Hp. lia.
Qed.
End epoch.

(** ** Witnesses *)

(** Two miners, one present in epoch 2999 and one absent, and a bucket. *)
Definition toy_present : MinerInfo :=
  mkMinerInfo (toy_addr 11) Online "a" 225000 225910 [x0a; x00; x00] true 5000 70 2999 2047 0 2999.
Definition toy_absent : MinerInfo :=
  mkMinerInfo (toy_addr 12) Online "b" 225000 225910 [x0a; x00; x01] true 5000 30 2999 2047 5 2990.
Definition toy_epoch : WorldState :=
  default_WorldState <| ws_balances := {[ pool_addr := 50000000000 ]} |> <| ws_epoch_reward_bucket := 1000 |>
    <| ws_miners := {[ toy_addr 11 := toy_present; toy_addr 12 := toy_absent ]} |>.

Lemma toy_epoch_miners a m : ws_miners toy_epoch !! a = Some m -> m = toy_present \/ m = toy_absent.
Proof.
  unfold toy_epoch. upd. intros [[_ <-] | [_ [_ <-]%lookup_singleton_Some]]%lookup_insert_Some; auto.
Qed.

Lemma toy_epoch_ok : miners_ok toy_epoch.
Proof.
  split; [| vm_compute; done]. intros a m [-> | ->]%toy_epoch_miners; vm_compute; split; discriminate.
Qed.

Lemma epoch_boundary_correct_witness :
  let w' := (process_miner_epoch_boundary 300000 toy_epoch).2 in
  (mi_active <$> (ws_miners w' !! toy_addr 12)) = Some false
  /\ (mi_pending_rewards <$> (ws_miners w' !! toy_addr 11)) = Some 1000
  /\ supply w' = supply toy_epoch /\ get_balance w' (toy_addr 11) = get_balance toy_epoch (toy_addr 11) + 70.
Proof.
  intros w'. split; [vm_compute; reflexivity |]. split; [vm_compute; reflexivity |].
  destruct (epoch_boundary_correct 300000 toy_epoch) as [Hs _ _ _ _ _ _ Hpaid].
  - reflexivity.
  - reflexivity.
  - vm_compute. discriminate.
  - exact toy_epoch_ok.
  - intros a m [-> | ->]%toy_epoch_miners; right; reflexivity.
  - split; [exact Hs |]. assert (toy_addr 11 <> pool_addr) as Hne by (vm_compute; discriminate).
    assert (from_option (confirmed 300000) 0 (ws_miners toy_epoch !! toy_addr 11) = 70) as Hc
      by (vm_compute; reflexivity).
    rewrite <- Hc. exact (Hpaid (toy_addr 11) Hne).
Defined.

Lemma toy_epoch_commissions : commissions_ok toy_epoch.
Proof. exact (map_Forall_empty (fun (_ : bytes) (c : N) => c <= 10000)). Qed.

Lemma mining_reward_conserves_witness :
  ws_epoch_reward_bucket (accumulate_mining_reward 300000 toy_epoch).2 = 1000 + 2800000000.
Proof.
  pose proof (mining_reward_conserves 300000 toy_epoch ltac:(vm_compute; discriminate) toy_epoch_ok
    toy_epoch_commissions ltac:(intros Hk; vm_compute in Hk; congruence)) as H.
  destruct (accumulate_mining_reward 300000 toy_epoch) as [events w'].
  destruct H as (_ & _ & _ & H & _). destruct H as (_ & H & _); [vm_compute; discriminate |]. exact H.
Defined.
