(* ===== verification/Node.v ===== *)
(** * The node's chain state ([claw-node/crates/node/src/chain.rs])

    [ChainInner], the record behind the node's lock, with the interfaces its
    operations need besides those of the ledger, the check-in cache and the
    validation of miners' check-in witnesses. *)

From stdpp Require Import pretty.
From S2P Require Import Prelude Interfaces Types ConsensusTypes Slashing ValidatorSet World HandlerBase Store.

Definition MAX_MEMPOOL_SIZE : N := 10000.
Definition MAX_BLOCK_TXS : N := 500.

(** The encodings the node itself reads and writes. *)
Class NodeCodec : Type := {
  codec_world :: Borsh WorldState;
  codec_world_v2 :: Borsh WorldStateV2;
  codec_world_v1 :: Borsh WorldStateV1;
  codec_delegations :: Borsh (gmap bytes (gmap bytes N));
  codec_addresses :: Borsh (list bytes);
}.

(** The messages of [ed25519-dalek]'s errors. *)
Class KeyErrors : Type := {
  key_error : bytes -> string;
  signature_error : bytes -> string;
}.

(** The wall clock in seconds and the monotonic clock, read at one step. *)
Record Clock : Type := mkClock { ck_now : N; ck_instant : N }.

(** The check-in cache: epoch, then miner, to witness. *)
Abbreviation CheckinCache := (gmap N (gmap bytes MinerCheckinWitness)).

(** [D] is the type of the database. *)
Record ChainInner {D : Type} : Type := mkChainInner {
  ch_state : WorldState;
  ch_store : D;
  ch_mempool : list Transaction;
  ch_signing_key : bytes;
  ch_validator_address : bytes;
  ch_latest_block : Block;
  ch_validator_set : ValidatorSet;
  ch_genesis_hash : bytes;
  ch_chain_id : string;
  ch_slashing : SlashingState;
  ch_pending_votes : gmap bytes bytes;
  ch_offline_validators : list bytes;
  ch_fast_sync_pending : bool;
  ch_bootstrap_peer_ids : list string;
  ch_latest_block_received : N;
  ch_total_tx_count : N;
  ch_last_accepted_snapshot_height : N;
  ch_connected_peer_ids : list string;
  ch_checkin_cache : CheckinCache;
}.
Arguments ChainInner D : clear implicits.

Definition eta_ChainInner {D} (c : ChainInner D) : ChainInner D :=
  mkChainInner D (ch_state c) (ch_store c) (ch_mempool c) (ch_signing_key c) (ch_validator_address c)
    (ch_latest_block c) (ch_validator_set c) (ch_genesis_hash c) (ch_chain_id c) (ch_slashing c)
    (ch_pending_votes c) (ch_offline_validators c) (ch_fast_sync_pending c) (ch_bootstrap_peer_ids c)
    (ch_latest_block_received c) (ch_total_tx_count c) (ch_last_accepted_snapshot_height c)
    (ch_connected_peer_ids c) (ch_checkin_cache c).

Ltac solve_update_chain proj :=
  let r := fresh "r" in let f := fresh "f" in
  intros f r;
  let e := eval cbv beta delta [eta_ChainInner] in (eta_ChainInner r) in
  let p := eval pattern (proj r) in e in
  match p with ?g _ => let b := eval cbv beta in (g (f (proj r))) in exact b end.

#[export] Instance upd_ch_state D : Update (@ch_state D) := ltac:(solve_update_chain (@ch_state D)).
#[export] Instance upd_ch_store D : Update (@ch_store D) := ltac:(solve_update_chain (@ch_store D)).
#[export] Instance upd_ch_mempool D : Update (@ch_mempool D) := ltac:(solve_update_chain (@ch_mempool D)).
#[export] Instance upd_ch_latest_block D : Update (@ch_latest_block D) := ltac:(solve_update_chain (@ch_latest_block D)).
#[export] Instance upd_ch_validator_set D : Update (@ch_validator_set D) := ltac:(solve_update_chain (@ch_validator_set D)).
#[export] Instance upd_ch_slashing D : Update (@ch_slashing D) := ltac:(solve_update_chain (@ch_slashing D)).
#[export] Instance upd_ch_pending_votes D : Update (@ch_pending_votes D) := ltac:(solve_update_chain (@ch_pending_votes D)).
#[export] Instance upd_ch_offline_validators D : Update (@ch_offline_validators D) := ltac:(solve_update_chain (@ch_offline_validators D)).
#[export] Instance upd_ch_fast_sync_pending D : Update (@ch_fast_sync_pending D) := ltac:(solve_update_chain (@ch_fast_sync_pending D)).
#[export] Instance upd_ch_bootstrap_peer_ids D : Update (@ch_bootstrap_peer_ids D) := ltac:(solve_update_chain (@ch_bootstrap_peer_ids D)).
#[export] Instance upd_ch_latest_block_received D : Update (@ch_latest_block_received D) := ltac:(solve_update_chain (@ch_latest_block_received D)).
#[export] Instance upd_ch_total_tx_count D : Update (@ch_total_tx_count D) := ltac:(solve_update_chain (@ch_total_tx_count D)).
#[export] Instance upd_ch_last_accepted_snapshot_height D : Update (@ch_last_accepted_snapshot_height D) := ltac:(solve_update_chain (@ch_last_accepted_snapshot_height D)).
#[export] Instance upd_ch_connected_peer_ids D : Update (@ch_connected_peer_ids D) := ltac:(solve_update_chain (@ch_connected_peer_ids D)).
#[export] Instance upd_ch_checkin_cache D : Update (@ch_checkin_cache D) := ltac:(solve_update_chain (@ch_checkin_cache D)).

(** ** The check-in cache *)

Definition cache_insert (w : MinerCheckinWitness) (c : CheckinCache) : CheckinCache :=
  <[w_epoch w := <[w_miner w := w]> (default ∅ (c !! w_epoch w))]> c.

(** Credited for the cache entry's epoch [e] or later, or not a miner. *)
Definition already_credited (state : WorldState) (e : N) (w : MinerCheckinWitness) : bool :=
  match ws_miners state !! w_miner w with
  | Some mi => e <=? mi_last_checkin_epoch mi
  | None => true
  end.

(** [by_miner.entry(w.miner).or_insert_with(..)]: the first witness wins. *)
Definition keep_first (w : MinerCheckinWitness) (by_miner : gmap bytes MinerCheckinWitness)
    : gmap bytes MinerCheckinWitness :=
  match by_miner !! w_miner w with Some _ => by_miner | None => <[w_miner w := w]> by_miner end.

Definition collect_epoch (state : WorldState) (c : CheckinCache)
    (by_miner : gmap bytes MinerCheckinWitness) (e : N) : gmap bytes MinerCheckinWitness :=
  match c !! e with
  | Some m =>
      foldl (fun acc w => if already_credited state e w then acc else keep_first w acc)
        by_miner (map_to_list m).*2
  | None => by_miner
  end.

Definition get_pending (epoch : N) (state : WorldState) (v3_1_active : bool) (c : CheckinCache)
    : list MinerCheckinWitness :=
  let epochs_to_check := if v3_1_active then [epoch; sat_sub epoch 1] else [epoch] in
  (map_to_list (foldl (collect_epoch state c) ∅ epochs_to_check)).*2.

Definition cache_gc (current_epoch : N) (c : CheckinCache) : CheckinCache :=
  filter (fun p => sat_sub current_epoch 1 <= p.1) c.

(** ** Check-in witnesses *)

Section checkins.
Context `{HB : Blake3} `{HE : Ed25519} `{HX : Hex} `{RD : Redb} `{SC : StoreCodec} `{KE : KeyErrors}.

Definition validate_checkin_witness (witness : MinerCheckinWitness) (inner : ChainInner Db)
    : result unit string :=
  let state := ch_state inner in
  let current_epoch := ws_block_height state / MINER_EPOCH_LENGTH in
  let v3_1_active := CHECKIN_V3_1_HEIGHT <=? ws_block_height state in
  let previous := sat_sub current_epoch 1 in
  if negb (contains_key (ws_miners state) (w_miner witness)) then
    Err ("miner " +:+ hex_encode (w_miner witness) +:+ " not registered")%string
  else if v3_1_active && negb (w_epoch witness =? current_epoch) && negb (w_epoch witness =? previous) then
    Err ("epoch mismatch: expected " +:+ pretty current_epoch +:+ " or " +:+ pretty previous
           +:+ ", got " +:+ pretty (w_epoch witness))%string
  else if negb v3_1_active && negb (w_epoch witness =? current_epoch) then
    Err ("epoch mismatch: expected " +:+ pretty current_epoch +:+ ", got " +:+ pretty (w_epoch witness))%string
  else
    let witness_epoch_start := u64_mul (w_epoch witness) MINER_EPOCH_LENGTH in
    let latest := b_height (ch_latest_block inner) in
    if (w_ref_block_height witness <? witness_epoch_start) || (latest <? w_ref_block_height witness) then
      Err ("ref_block_height " +:+ pretty (w_ref_block_height witness) +:+ " out of range ["
             +:+ pretty witness_epoch_start +:+ ", " +:+ pretty latest +:+ "]")%string
    else
      match get_block (w_ref_block_height witness) (ch_store inner) with
      | Ok (Some known) =>
          if negb (bool_decide (b_hash known = w_ref_block_hash witness)) then Err "ref_block_hash mismatch"%string
          else
            let msg := checkin_signable_bytes (w_epoch witness) (w_ref_block_hash witness) in
            if negb (vk_from_bytes (w_miner witness)) then
              Err ("invalid miner pubkey: " +:+ key_error (w_miner witness))%string
            else if negb (verify_strict (w_miner witness) msg (w_signature witness)) then
              Err ("invalid signature: " +:+ signature_error (w_signature witness))%string
            else Ok tt
      | _ => Err ("unknown block height " +:+ pretty (w_ref_block_height witness))%string
      end.

(** The RPC submission: validated, then cached. *)
Definition submit_miner_checkin (witness : MinerCheckinWitness) : ST (ChainInner Db) string string :=
  inner ← st_get;
  fail_if (ws_block_height (ch_state inner) <? CHECKIN_V3_HEIGHT) "checkin V3 not yet active"%string;;
  map_err (validate_checkin_witness witness inner) id;;
  st_modify (fun c => c <| ch_checkin_cache ::= cache_insert witness |>);;
  mret "checkin accepted"%string.

(** A witness from gossip, or pushed directly by a peer. *)
Definition receive_checkin (witness : MinerCheckinWitness) (inner : ChainInner Db) : ChainInner Db :=
  if CHECKIN_V3_HEIGHT <=? ws_block_height (ch_state inner) then
    match validate_checkin_witness witness inner with
    | Ok _ => inner <| ch_checkin_cache ::= cache_insert witness |>
    | Err _ => inner
    end
  else inner.
End checkins.
