(* ===== verification/Chain.v ===== *)
(** * Block production and validation ([claw-node/crates/node/src/chain.rs])

    The mempool, votes, [produce_block] and [apply_remote_block_inner]: the
    composition of the ledger, the rewards, consensus and storage into the steps
    of a node.  Time is an argument of the steps. *)

From stdpp Require Import pretty.
From S2P Require Import Prelude Interfaces Types Crypto ConsensusTypes Election Slashing ValidatorSet Vm World HandlerBase Contracts Store ApplyTx Rewards Epochs Node.

(** [BlockVote] of [p2p/src/protocol.rs]. *)
Record BlockVote : Type := mkBlockVote {
  bv_block_hash : bytes;
  bv_height : N;
  bv_voter : bytes;
  bv_signature : bytes;
}.

(** ** Steps shared by production and validation *)

Definition produced_one (u : ValidatorUptime) : ValidatorUptime :=
  mkValidatorUptime (u64_add (vu_signed_blocks u) 1) (u64_add (vu_expected_blocks u) 1)
    (u64_add (vu_produced_blocks u) 1).
Definition expected_one (u : ValidatorUptime) : ValidatorUptime :=
  mkValidatorUptime (vu_signed_blocks u) (u64_add (vu_expected_blocks u) 1) (vu_produced_blocks u).

Definition bump_uptime (f : ValidatorUptime -> ValidatorUptime) (a : bytes)
    (m : gmap bytes ValidatorUptime) : gmap bytes ValidatorUptime :=
  <[a := f (default default_ValidatorUptime (m !! a))]> m.

(** The proposer signed, produced and was expected; every other active validator
    was expected. *)
Definition track_uptime (active : list ActiveValidator) (proposer : bytes) (w : WorldState) : WorldState :=
  let others := av_address <$> filter (fun v => av_address v <> proposer) active in
  w <| ws_validator_uptime ::= fun m =>
    foldl (fun m a => bump_uptime expected_one a m) (bump_uptime produced_one proposer m) others |>.

(** The validators paid for a block: active and not offline in the last epoch. *)
Definition rewarded (active : list ActiveValidator) (offline : list bytes) : list (bytes * N) :=
  (fun v => (av_address v, av_weight v)) <$> filter (fun v => av_address v ∉ offline) active.

(** [sync_slashing_to_world_state]. *)
Definition sync_slashing (sl : SlashingState) (w : WorldState) : WorldState :=
  w <| ws_jailed_validators := sl_jailed sl |>
    <| ws_validator_missed_slots := sl_missed_slots sl |>
    <| ws_validator_assigned_slots := sl_assigned_slots sl |>
    <| ws_processed_evidence := sl_processed_evidence sl |>.

Definition credit_checkin (epoch : N) (w : MinerCheckinWitness) (s : WorldState) : WorldState :=
  s <| ws_miners ::= alter (fun mi => mi <| mi_last_checkin_epoch := epoch |>) (w_miner w) |>.

(** The part of the fees that nobody is credited with. *)
Definition expected_burn (total_fees : N) : N :=
  u128_sub (u128_sub total_fees (u128_mul total_fees 50 / 100)) (u128_mul total_fees 20 / 100).

(** Rewards, fees and uptime after a block's transactions. *)
Definition distribute (active : list ActiveValidator) (offline : list bytes) (proposer : bytes)
    (height total_fees : N) (w : WorldState) : list BlockEvent * WorldState :=
  let '(reward_events, w) := distribute_block_reward (rewarded active offline) height w in
  let '(mining_events, w) := accumulate_mining_reward height w in
  let '(fee_events, w) := distribute_fees proposer total_fees w in
  (reward_events ++ mining_events ++ fee_events, track_uptime active proposer w).

(** The V3 steps before witnesses are looked at: migration, then settlement. *)
Definition settle_v3 (height : N) (w : WorldState) : list BlockEvent * WorldState :=
  let w := if height =? CHECKIN_V3_HEIGHT then migrate_miners_v2_to_v3 w else w in
  if height mod MINER_EPOCH_LENGTH =? 0 then process_miner_epoch_boundary height w else ([], w).

(** The heartbeat era: settlement, then V1 deactivation. *)
Definition settle_pre_v3 (height : N) (w : WorldState) : list BlockEvent * WorldState :=
  let '(events, w) := process_miner_epoch_boundary height w in
  (events, update_miner_activity height w).

Section chain.
Context `{HB : Blake3} `{HE : Ed25519} `{TC : TxCodec} `{HX : Hex} `{VM : VmEngine} `{VS : VmSchedule}.
Context `{SCd : StateCodec} `{RD : Redb} `{SC : StoreCodec} `{NC : NodeCodec} `{KE : KeyErrors}.
Implicit Types (inner : ChainInner Db) (tx : Transaction).

Definition sync_slashing_to_world_state inner : ChainInner Db :=
  inner <| ch_state ::= sync_slashing (ch_slashing inner) |>.

(** ** The mempool *)

Definition sign_error_to_string (e : SignError) : string :=
  match e with
  | SE_InvalidSignature => "signature verification failed"
  | SE_SenderMismatch => "public key does not match transaction sender"
  end%string.

Definition submit_tx tx : ST (ChainInner Db) string bytes :=
  inner ← st_get;
  fail_if (MAX_MEMPOOL_SIZE <=? N.of_nat (length (ch_mempool inner))) "mempool full: try again later"%string;;
  map_err (verify_transaction tx) (fun e => ("invalid signature: " +:+ sign_error_to_string e)%string);;
  let expected := u64_add (get_nonce (ch_state inner) (tx_from tx)) 1 in
  fail_if (negb (tx_nonce tx =? expected))
    ("invalid nonce: expected " +:+ pretty expected +:+ ", got " +:+ pretty (tx_nonce tx))%string;;
  fail_if (existsb (fun m => bool_decide (tx_hash m = tx_hash tx)) (ch_mempool inner))
    "duplicate transaction in mempool"%string;;
  st_modify (fun c => c <| ch_mempool ::= fun l => l ++ [tx] |>);;
  mret (tx_hash tx).

(** ** Proposing and voting *)

Definition next_height inner : N := u64_add (b_height (ch_latest_block inner)) 1.

Definition primary inner : option bytes :=
  elect_proposer (vs_active (ch_validator_set inner)) (b_hash (ch_latest_block inner)) (next_height inner).
Definition fallback inner : option bytes :=
  elect_fallback_proposer (vs_active (ch_validator_set inner)) (b_hash (ch_latest_block inner)) (next_height inner).

Definition is_proposer inner : bool :=
  match primary inner with
  | Some addr => bool_decide (addr = ch_validator_address inner)
  | None => false
  end.

Definition is_fallback_proposer (clock : Clock) inner : bool :=
  let elapsed := sat_sub (ck_instant clock) (ch_latest_block_received inner) in
  if elapsed <=? BLOCK_TIME_SECS * 2 then false
  else
    match fallback inner with
    | Some addr => bool_decide (addr = ch_validator_address inner)
    | None => false
    end.

Definition sign_block (secret_key : bytes) (block : Block) : Block :=
  block <| b_signatures ::= fun l => l ++ [(vk_of_signing_key secret_key, ed_sign secret_key (b_hash block))] |>.

Definition create_vote_for_block inner (block : Block) : option BlockVote :=
  if negb (is_active (ch_validator_set inner) (ch_validator_address inner)) then None
  else Some (mkBlockVote (b_hash block) (b_height block) (ch_validator_address inner)
               (ed_sign (ch_signing_key inner) (b_hash block))).

(** A write whose failure is only logged. *)
Definition store_best_effort (op : ST Db StoreError unit) inner : ChainInner Db :=
  inner <| ch_store := (op (ch_store inner)).2 |>.

Definition apply_vote (vote : BlockVote) inner : bool * ChainInner Db :=
  let latest := ch_latest_block inner in
  if negb (bv_height vote =? b_height latest) || negb (bool_decide (bv_block_hash vote = b_hash latest)) then (false, inner)
  else if negb (is_active (ch_validator_set inner) (bv_voter vote)) then (false, inner)
  else if contains_key (ch_pending_votes inner) (bv_voter vote)
          || existsb (fun p => bool_decide (p.1 = bv_voter vote)) (b_signatures latest) then (false, inner)
  else if checked_verify (bv_voter vote) (bv_block_hash vote) (bv_signature vote) then
    let latest := latest <| b_signatures ::= fun l => l ++ [(bv_voter vote, bv_signature vote)] |> in
    let inner := inner <| ch_pending_votes ::= <[bv_voter vote := bv_signature vote]> |>
                       <| ch_latest_block := latest |> in
    (true, store_best_effort (put_block latest) inner)
  else (false, inner).

(** ** After a block *)

Definition persist_receipts (block : Block) inner : ChainInner Db :=
  let receipt_pairs := filter (fun p => p.1 ∈ tx_hash <$> b_transactions block)
                         (map_to_list (ws_receipts (ch_state inner))) in
  if bool_decide (receipt_pairs = []) then inner
  else store_best_effort (put_receipts receipt_pairs) inner.

(** The rotation at an epoch boundary: offline validators for the next epoch,
    jail terms, the active set, fresh counters. *)
Definition rotate_epoch (height : N) inner : ChainInner Db :=
  let inner := inner <| ch_offline_validators := process_downtime_penalties (ch_slashing inner) |> in
  let inner := inner <| ch_slashing ::= fun sl => (unjail_expired height sl).2 |> in
  let stakes := ws_stakes (ch_state inner) in
  let rep := ws_reputation (ch_state inner) in
  let inner := inner <| ch_validator_set ::= recalculate_active stakes rep (Some (ch_slashing inner)) height |> in
  let inner := inner <| ch_slashing ::= reset_epoch_counters |> in
  let inner := inner <| ch_state ::= fun w => w <| ws_validator_uptime := ∅ |> |> in
  let inner := sync_slashing_to_world_state inner in
  let inner := store_best_effort (put_user_delegations (to_vec (ws_user_delegations (ch_state inner)))) inner in
  store_best_effort (put_offline_validators (to_vec (ch_offline_validators inner))) inner.

(** Receipts, the transaction count and the rotation, once the block is stored. *)
Definition after_stored (block : Block) inner : ChainInner Db :=
  let inner := persist_receipts block inner in
  let inner := inner <| ch_total_tx_count ::= fun n => u64_add n (N.of_nat (length (b_transactions block))) |> in
  if is_epoch_boundary (b_height block) then rotate_epoch (b_height block) inner else inner.

(** ** Producing a block *)

(** The block's transactions, in order: those accepted, their fees and events.
    The index passed on counts the rejected ones too. *)
Fixpoint include_txs (txs : list Transaction) (tx_index : N) (included : list Transaction) (total_fees : N)
    (evs : list BlockEvent) (w : WorldState) : list Transaction * N * list BlockEvent * WorldState :=
  match txs with
  | [] => (included, total_fees, evs, w)
  | tx :: txs =>
      match apply_tx tx tx_index w with
      | (Ok (fee, tx_events), w) =>
          include_txs txs (u32_add tx_index 1) (included ++ [tx]) (u128_add total_fees fee) (evs ++ tx_events) w
      | (Err _, w) => include_txs txs (u32_add tx_index 1) included total_fees evs w
      end
  end.

(** [a.from.cmp(&b.from).then(a.nonce.cmp(&b.nonce))]. *)
Definition tx_leb tx1 tx2 : bool :=
  if bool_decide (tx_from tx1 = tx_from tx2) then tx_nonce tx1 <=? tx_nonce tx2
  else bytes_leb (tx_from tx1) (tx_from tx2).

Definition witness_leb (w1 w2 : MinerCheckinWitness) : bool := bytes_leb (w_miner w1) (w_miner w2).

(** A fallback records that the primary missed its slot. *)
Definition record_missed_primary (proposer : bytes) inner : ChainInner Db :=
  inner <| ch_slashing ::= fun sl => record_missed_slot proposer (record_assigned_slot proposer sl) |>.

Definition begin_state (height timestamp : N) (w : WorldState) : WorldState :=
  w <| ws_block_height := height |> <| ws_block_timestamp := timestamp |>.

(** The check-in part: events, the witnesses of the block, the state. *)
Definition produce_checkins (new_height : N) (c : CheckinCache) (w : WorldState)
    : list BlockEvent * list MinerCheckinWitness * WorldState * CheckinCache :=
  let current_epoch := new_height / MINER_EPOCH_LENGTH in
  if CHECKIN_V3_HEIGHT <=? new_height then
    let '(epoch_events, w) := settle_v3 new_height w in
    let witnesses := sort_by witness_leb (get_pending current_epoch w (CHECKIN_V3_1_HEIGHT <=? new_height) c) in
    (epoch_events, witnesses, foldl (fun s wit => credit_checkin current_epoch wit s) w witnesses,
     cache_gc current_epoch c)
  else
    let '(epoch_events, w) := settle_pre_v3 new_height w in
    (epoch_events, [], w, c).

(** The block itself, once the turn is settled.  The mempool is sorted and cut to
    the block's capacity; the node's state is advanced in place, so that nothing
    is undone when the store fails. *)
Definition produce_from (clock : Clock) inner : option Block * ChainInner Db :=
  let new_height := next_height inner in
  let timestamp := ck_now clock in
  let w := begin_state new_height timestamp (ch_state inner) in
  let pending := sort_by tx_leb (ch_mempool inner) in
  let '(included_txs, total_fees, tx_contract_events, w) :=
    include_txs (take (N.to_nat MAX_BLOCK_TXS) pending) 0 [] 0 [] w in
  let '(paid_events, w) :=
    distribute (vs_active (ch_validator_set inner)) (ch_offline_validators inner)
      (ch_validator_address inner) new_height total_fees w in
  let '(epoch_events, checkin_witnesses, w, cache) := produce_checkins new_height (ch_checkin_cache inner) w in
  let w := sync_slashing (ch_slashing inner) w in
  let block := mkBlock new_height (b_hash (ch_latest_block inner)) timestamp (ch_validator_address inner)
                 included_txs (state_root w) zeros32 [] (tx_contract_events ++ paid_events ++ epoch_events)
                 checkin_witnesses in
  let block := sign_block (ch_signing_key inner) (block <| b_hash := compute_hash block |>) in
  let inner := inner <| ch_mempool := drop (N.to_nat MAX_BLOCK_TXS) pending |> <| ch_state := w |>
                     <| ch_checkin_cache := cache |> <| ch_pending_votes := ∅ |> in
  match put_block_and_snapshot block (to_vec w) (ch_store inner) with
  | (Ok _, db) =>
      let inner := after_stored block (inner <| ch_store := db |>) in
      (Some block, inner <| ch_latest_block := block |> <| ch_latest_block_received := ck_instant clock |>)
  | (Err _, db) => (None, inner <| ch_store := db |>)
  end.

Definition produce_block (clock : Clock) inner : option Block * ChainInner Db :=
  let primary_turn := is_proposer inner in
  let fallback_turn := negb primary_turn && is_fallback_proposer clock inner in
  if negb primary_turn && negb fallback_turn then (None, inner)
  else
    let inner := if fallback_turn
                 then from_option (fun p => record_missed_primary p inner) inner (primary inner) else inner in
    produce_from clock inner.

(** ** Validating a block *)

(** The active validators whose signature of the block's hash verifies. *)
Definition valid_signers (active : list ActiveValidator) (block : Block) : gset bytes :=
  list_to_set (filter (fun p => existsb (fun v => bool_decide (av_address v = p.1)) active = true
                                /\ checked_verify p.1 (b_hash block) p.2 = true) (b_signatures block)).*1.

Definition required_signatures (active : list ActiveValidator) : N :=
  if N.of_nat (length active) <? 7 then 1 else quorum (N.of_nat (length active)).

Definition check_signatures (active : list ActiveValidator) (block : Block) (is_sync : bool) : result unit string :=
  let signers := valid_signers active block in
  let required := required_signatures active in
  if N.of_nat (size signers) <? required then
    if is_sync && bool_decide (b_validator block ∈ signers) then Ok tt
    else Err ("Insufficient signatures: " +:+ pretty (N.of_nat (size signers)) +:+ " of "
                +:+ pretty required +:+ " required")%string
  else Ok tt.

(** The connection to the chain, the hash, the time and the size. *)
Definition check_header (now : N) (latest block : Block) : result unit string :=
  let expected := u64_add (b_height latest) 1 in
  if negb (b_height block =? expected) then
    Err ("block height mismatch: expected " +:+ pretty expected +:+ ", got " +:+ pretty (b_height block))%string
  else if negb (bool_decide (b_prev_hash block = b_hash latest)) then Err "prev_hash mismatch"%string
  else if negb (verify_hash block) then Err "invalid block hash"%string
  else if u64_add now 30 <? b_timestamp block then
    Err ("block timestamp " +:+ pretty (b_timestamp block) +:+ " is in the future")%string
  else if b_timestamp block <? b_timestamp latest then Err "block timestamp regresses"%string
  else if MAX_BLOCK_TXS <? N.of_nat (length (b_transactions block)) then
    Err ("block has too many transactions: " +:+ pretty (N.of_nat (length (b_transactions block))))%string
  else Ok tt.

(** The proposer must be the primary or its fallback; a block of the fallback
    counts a missed slot for the primary, before anything else is checked. *)
Definition check_proposer (block : Block) : ST (ChainInner Db) string unit :=
  inner ← st_get;
  let active := vs_active (ch_validator_set inner) in
  let fb := elect_fallback_proposer active (b_prev_hash block) (b_height block) in
  match elect_proposer active (b_prev_hash block) (b_height block) with
  | None => mret tt
  | Some expected =>
      let from_primary := bool_decide (b_validator block = expected) in
      let from_fallback := from_option (fun a => bool_decide (b_validator block = a)) false fb in
      fail_if (negb from_primary && negb from_fallback)
        ("Block proposer mismatch: expected " +:+ hex_encode expected +:+ " (or fallback "
           +:+ from_option hex_encode "none" fb +:+ "), got " +:+ hex_encode (b_validator block))%string;;
      if from_fallback && negb from_primary then st_modify (record_missed_primary expected) else mret tt
  end.

Fixpoint apply_block_txs (txs : list Transaction) (tx_index total_fees : N) (w : WorldState)
    : result (N * WorldState) string :=
  match txs with
  | [] => Ok (total_fees, w)
  | tx :: txs =>
      match apply_tx tx tx_index w with
      | (Ok (fee, _), w) => apply_block_txs txs (u32_add tx_index 1) (u128_add total_fees fee) w
      | (Err e, _) => Err ("tx failed: " +:+ state_error_to_string e)%string
      end
  end.

(** Conditions (a) to (f) on one witness. *)
Definition check_witness (block_height : N) (db : Db) (w : WorldState) (seen_in_block : list bytes)
    (wit : MinerCheckinWitness) : result unit string :=
  let block_epoch := block_height / MINER_EPOCH_LENGTH in
  let v3_1_active := CHECKIN_V3_1_HEIGHT <=? block_height in
  let previous := sat_sub block_epoch 1 in
  let witness_epoch_start := u64_mul (w_epoch wit) MINER_EPOCH_LENGTH in
  match ws_miners w !! w_miner wit with
  | None => Err ("checkin from unregistered miner " +:+ hex_encode (w_miner wit))%string
  | Some mi =>
      if v3_1_active && negb (w_epoch wit =? block_epoch) && negb (w_epoch wit =? previous) then
        Err ("checkin epoch mismatch: expected " +:+ pretty block_epoch +:+ " or " +:+ pretty previous
               +:+ ", got " +:+ pretty (w_epoch wit))%string
      else if negb v3_1_active && negb (w_epoch wit =? block_epoch) then
        Err ("checkin epoch mismatch: expected " +:+ pretty block_epoch +:+ ", got " +:+ pretty (w_epoch wit))%string
      else if (w_ref_block_height wit <? witness_epoch_start) || (block_height <=? w_ref_block_height wit) then
        Err ("checkin ref_block_height " +:+ pretty (w_ref_block_height wit) +:+ " out of range ["
               +:+ pretty witness_epoch_start +:+ ", " +:+ pretty block_height +:+ ")")%string
      else
        match get_block (w_ref_block_height wit) db with
        | Ok (Some known) =>
            if negb (bool_decide (b_hash known = w_ref_block_hash wit)) then
              Err "checkin ref_block_hash mismatch"%string
            else if negb (vk_from_bytes (w_miner wit)) then
              Err ("invalid miner public key " +:+ hex_encode (w_miner wit))%string
            else if negb (verify_strict (w_miner wit)
                            (checkin_signable_bytes (w_epoch wit) (w_ref_block_hash wit)) (w_signature wit)) then
              Err ("checkin signature invalid for miner " +:+ hex_encode (w_miner wit))%string
            else if mi_last_checkin_epoch mi =? block_epoch then
              Err ("duplicate checkin for miner " +:+ hex_encode (w_miner wit) +:+ " in epoch "
                     +:+ pretty block_epoch)%string
            else if bool_decide (w_miner wit ∈ seen_in_block) then
              Err ("duplicate miner " +:+ hex_encode (w_miner wit) +:+ " in same block")%string
            else Ok tt
        | _ => Err ("checkin references unknown block height " +:+ pretty (w_ref_block_height wit))%string
        end
  end.

Fixpoint check_witnesses (block_height : N) (db : Db) (w : WorldState) (seen_in_block : list bytes)
    (wits : list MinerCheckinWitness) : result unit string :=
  match wits with
  | [] => Ok tt
  | wit :: wits =>
      match check_witness block_height db w seen_in_block wit with
      | Ok _ => check_witnesses block_height db w (w_miner wit :: seen_in_block) wits
      | Err e => Err e
      end
  end.

(** The check-in part of validation, on the clone [w] of the state; witnesses
    that verify are cached before the state root is compared. *)
Definition validate_checkins (block : Block) (w : WorldState) : ST (ChainInner Db) string WorldState :=
  inner ← st_get;
  if CHECKIN_V3_HEIGHT <=? b_height block then
    let w := (settle_v3 (b_height block) w).2 in
    map_err (check_witnesses (b_height block) (ch_store inner) w [] (b_checkin_witnesses block)) id;;
    let w := foldl (fun s wit => credit_checkin (b_height block / MINER_EPOCH_LENGTH) wit s) w
               (b_checkin_witnesses block) in
    st_modify (fun c => c <| ch_checkin_cache ::=
      fun cache => foldl (fun m wit => cache_insert wit m) cache (b_checkin_witnesses block) |>);;
    mret w
  else
    fail_if (negb (bool_decide (b_checkin_witnesses block = [])))
      "checkin_witnesses not allowed before V3 activation"%string;;
    mret (settle_pre_v3 (b_height block) w).2.

Definition store_error_to_string (e : StoreError) : string :=
  match e with
  | Db_ e => "database error: " +:+ e
  | BlockNotFound height => "block not found at height " +:+ pretty height
  | Serialize e => "serialization error: " +:+ e
  end%string.

(** [put_block_and_snapshot], its error returned. *)
Definition store_block (block : Block) : ST (ChainInner Db) string unit := fun inner =>
  match put_block_and_snapshot block (to_vec (ch_state inner)) (ch_store inner) with
  | (Ok _, db) => (Ok tt, inner <| ch_store := db |>)
  | (Err e, db) => (Err ("store block and snapshot: " +:+ store_error_to_string e)%string, inner <| ch_store := db |>)
  end.

Definition apply_remote_block_inner (clock : Clock) (block : Block) (is_sync : bool)
    : ST (ChainInner Db) string unit :=
  inner ← st_get;
  let supply_before := total_supply (ch_state inner) in
  map_err (check_header (ck_now clock) (ch_latest_block inner) block) id;;
  map_err (check_signatures (vs_active (ch_validator_set inner)) block is_sync) id;;
  check_proposer block;;
  '(total_fees, w) ← map_err
    (apply_block_txs (b_transactions block) 0 0 (begin_state (b_height block) (b_timestamp block) (ch_state inner))) id;
  let w := (distribute (vs_active (ch_validator_set inner)) (ch_offline_validators inner)
              (b_validator block) (b_height block) total_fees w).2 in
  w ← validate_checkins block w;
  inner ← st_get;
  let w := sync_slashing (ch_slashing inner) w in
  fail_if (negb (bool_decide (state_root w = b_state_root block))) "state_root mismatch"%string;;
  fail_if (negb (total_supply w =? u128_sub supply_before (expected_burn total_fees)))
    "supply integrity violation: total supply mismatch after applying block"%string;;
  st_modify (fun c => c <| ch_state := w |>);;
  store_block block;;
  st_modify (fun c => (after_stored block c) <| ch_pending_votes := ∅ |> <| ch_latest_block := block |>
                        <| ch_latest_block_received := ck_instant clock |>).

Definition apply_remote_block (clock : Clock) (block : Block) := apply_remote_block_inner clock block false.
Definition apply_synced_block (clock : Clock) (block : Block) := apply_remote_block_inner clock block true.
End chain.
