(* ===== verification/ConcreteNode.v ===== *)
(** * A concrete node

    Stand-ins for the node's own encodings and messages, and a one-validator
    node, used only to evaluate the development at concrete inputs. *)

From S2P Require Import Prelude Interfaces Types Concrete Crypto ConsensusTypes Slashing ValidatorSet Vm World ConcreteState HandlerBase ConcreteTx Contracts Store ApplyTx Rewards Epochs Node Chain.

Definition toy_node_codec : NodeCodec := {|
  codec_world := toy_borsh _;
  codec_world_v2 := toy_borsh _;
  codec_world_v1 := toy_borsh _;
  codec_delegations := toy_borsh _;
  codec_addresses := toy_borsh _;
|}.

Definition toy_key_errors : KeyErrors := {|
  key_error _ := "bad key"%string;
  signature_error _ := "bad signature"%string;
|}.

#[local] Existing Instance toy_blake3.
#[local] Existing Instance toy_ed25519.
#[local] Existing Instance toy_tx_codec.
#[local] Existing Instance toy_redb.
#[local] Existing Instance toy_store_codec.
#[local] Existing Instance toy_hex.
#[local] Existing Instance toy_vm.
#[local] Existing Instance toy_schedule.
#[local] Existing Instance toy_codec.
#[local] Existing Instance toy_node_codec.
#[local] Existing Instance toy_key_errors.

Definition toy_validator : bytes := toy_addr 11.
Definition toy_secret : bytes := [x0b].

Definition toy_genesis (height : N) : Block :=
  mkBlock height zeros32 1000 toy_validator [] zeros32 zeros32 [] [] [].

(** One validator, one funded account (the validator's) and the given miners. *)
Definition toy_ledger (height : N) (miners : gmap bytes MinerInfo) : WorldState :=
  default_WorldState <| ws_balances := {[ toy_validator := 50000000000 ]} |>
    <| ws_stakes := {[ toy_validator := 20000000000000 ]} |>
    <| ws_block_height := height |> <| ws_miners := miners |>.

Definition toy_node (height : N) (miners : gmap bytes MinerInfo) (mempool : list Transaction)
    (cache : CheckinCache) : ChainInner Db :=
  mkChainInner (@Db toy_redb) (toy_ledger height miners) empty_db mempool toy_secret toy_validator
    (toy_genesis height) (mkValidatorSet [mkActiveValidator toy_validator 20000000000000 0 7000] 0 COLD_START)
    zeros32 "toy" SlashingState_new ∅ [] false [] 0 0 0 [] cache.

Definition toy_payment : Transaction :=
  sign_transaction (toy_tx TokenTransfer toy_validator 1 (toy_addr 12 ++ le128 5)) toy_secret.

Definition toy_clock : Clock := mkClock 1003 50.


(** The block it produces and the node after it. *)
Definition toy_block_of (inner : ChainInner Db) : Block := default (toy_genesis 0) (produce_block toy_clock inner).1.
Definition toy_after (inner : ChainInner Db) : ChainInner Db := (produce_block toy_clock inner).2.

Lemma toy_produces inner :
  (if (produce_block toy_clock inner).1 is Some _ then true else false) = true ->
  produce_block toy_clock inner = (Some (toy_block_of inner), toy_after inner).
Proof. unfold toy_block_of, toy_after. by destruct (produce_block toy_clock inner) as [[block|] s]. Qed.

Definition toy_busy : ChainInner Db := toy_node 5 ∅ [toy_payment] ∅.

Lemma toy_busy_produces : produce_block toy_clock toy_busy = (Some (toy_block_of toy_busy), toy_after toy_busy).
Proof. apply toy_produces. vm_compute. reflexivity. Qed.

Lemma toy_busy_includes : b_transactions (toy_block_of toy_busy) = [toy_payment].
Proof. vm_compute. reflexivity. Qed.
