(* ===== verification/BlockLedger.v ===== *)
(** * The ledger through a block

    What a block's transactions, rewards and settlement do together to the
    native supply and to the miners: the supply check of [apply_remote_block]
    cannot fail on a sound ledger, and a sound ledger stays sound. *)

From S2P Require Import Prelude Interfaces Types Concrete Crypto ConsensusTypes Election Slashing ValidatorSet Vm World HandlerBase Staking Mining Contracts Store ApplyTx Rewards Epochs Node Chain ConcreteState ConcreteTx ConcreteNode.

(** ** Miners and commissions through a transaction *)

(** A change of a miner's record that leaves what is owed to it alone. *)
Definition record_change (f : MinerInfo -> MinerInfo) : Prop :=
  forall m, mi_pending_rewards (f m) = mi_pending_rewards m /\ mi_pending_epoch (f m) = mi_pending_epoch m
    /\ (miner_ok m -> miner_ok (f m)).

(** A new miner, or one record changed; [kept] says that check-ins are not. *)
Inductive miners_change (kept : bool) (s s' : WorldState) : Prop :=
  | mc_none : ws_miners s' = ws_miners s -> miners_change kept s s'
  | mc_register a m :
      ws_miners s !! a = None -> mi_reputation_bps m = REPUTATION_NEWCOMER_BPS -> mi_pending_rewards m = 0 ->
      ws_miners s' = <[a := m]> (ws_miners s) -> miners_change kept s s'
  | mc_beat a f :
      record_change f -> (kept = true -> forall m, mi_last_checkin_epoch (f m) = mi_last_checkin_epoch m) ->
      ws_miners s' = alter f a (ws_miners s) -> miners_change kept s s'.

Section frames.
Context `{HB : Blake3} `{HE : Ed25519} `{TC : TxCodec} `{HX : Hex} `{VM : VmEngine} `{VS : VmSchedule}.
Implicit Types (tx : Transaction) (s : WorldState).

Lemma reputation_at_ok age : REPUTATION_NEWCOMER_BPS <= reputation_at age <= REPUTATION_VETERAN_BPS.
Proof.
  unfold reputation_at, REPUTATION_NEWCOMER_BPS, REPUTATION_ESTABLISHED_BPS, REPUTATION_VETERAN_BPS.
  repeat case_match; lia.
Qed.

Lemma register_miners tx s r s' : handle_miner_register tx s = (r, s') -> miners_change true s s'.
Proof.
  intros Hrun. destruct r as [[]|e]; [| rewrite (miner_register_atomic _ _ _ _ Hrun); by apply mc_none].
  unfold handle_miner_register, decode, decode_bytes in Hrun. st_inv.
  bools. match goal with H : contains_key _ _ = false |- _ => apply contains_key_false in H as Hnew end.
  eapply mc_register; [exact Hnew | | | upd; reflexivity]; done.
Qed.

Lemma heartbeat_miners tx s r s' : handle_miner_heartbeat tx s = (r, s') -> miners_change true s s'.
Proof.
  intros Hrun. destruct r as [[]|e]; [| rewrite (miner_heartbeat_atomic _ _ _ _ Hrun); by apply mc_none].
  unfold handle_miner_heartbeat, decode, decode_bytes in Hrun. st_inv.
  destruct (HEARTBEAT_V2_HEIGHT <=? ws_block_height s).
  - unfold heartbeat_v2 in Hrun. st_inv. eapply mc_beat; [| | upd; reflexivity]; [done | done].
  - unfold heartbeat_v1 in Hrun. st_inv. eapply mc_beat; [| | upd; reflexivity]; [| done].
    intros m. split_and!; [done | done |]. intros _. apply reputation_at_ok.
Qed.

Lemma dispatch_miners tx i s r s' : dispatch tx i s = (r, s') -> miners_change true s s'.
Proof.
  destruct (decide (tx_type tx = MinerRegister)) as [E|]; [|
    destruct (decide (tx_type tx = MinerHeartbeat)) as [E|]].
  - unfold dispatch, no_receipt, mbind, ST_bind. rewrite E. intros Hrun.
    destruct (handle_miner_register tx s) as [[[]|e] s1] eqn:Em; injection Hrun as <- <-; by eapply register_miners.
  - unfold dispatch, no_receipt, mbind, ST_bind. rewrite E. intros Hrun.
    destruct (handle_miner_heartbeat tx s) as [[[]|e] s1] eqn:Em; injection Hrun as <- <-; by eapply heartbeat_miners.
  - intros Hrun. apply mc_none. revert Hrun. apply (fun H : keeps ws_miners (dispatch tx i) => H s r s').
    dispatch_keeps tx.
Qed.

Lemma commissions_ok_ext s s' :
  ws_stake_commissions s' = ws_stake_commissions s -> commissions_ok s -> commissions_ok s'.
Proof. unfold commissions_ok. by intros ->. Qed.

Lemma deposit_commissions tx : preserves commissions_ok (handle_stake_deposit tx).
Proof.
  intros s r s' Hs Hrun. unfold handle_stake_deposit in Hrun.
  rewrite bind_readonly in Hrun by auto with claw.
  destruct (decode_stake_deposit tx s) as [[[[amount validator] bps]|e] s1] eqn:Hdec;
    [| by injection Hrun as <- <-].
  apply readonly_decode_stake_deposit in Hdec as ->.
  unfold debit, credit in Hrun. cbn [fst] in Hrun. st_exec Hrun; try done; bools.
  all: st_exec Hrun; try done.
  all: intros k c; upd; intros [[_ <-] | [_ Ha]]%lookup_insert_Some; [lia | by apply (Hs k)].
Qed.

Lemma change_delegation_commissions tx : preserves commissions_ok (handle_change_delegation tx).
Proof.
  intros s r s' Hs Hrun. unfold handle_change_delegation, decode, decode_bytes in Hrun.
  st_exec Hrun; try done; bools.
  all: intros k c; upd; intros [[_ <-] | [_ Ha]]%lookup_insert_Some; [lia | by apply (Hs k)].
Qed.

Lemma withdraw_commissions tx : preserves commissions_ok (handle_stake_withdraw tx).
Proof.
  intros s r s' Hs Hrun. unfold handle_stake_withdraw in Hrun.
  rewrite bind_readonly in Hrun by auto with claw.
  destruct (decode_stake_withdraw tx s) as [[p|e] s1]; [| by injection Hrun as <- <-].
  cbn [fst] in Hrun. rewrite bind_fail_if in Hrun. destruct (swp_amount p =? 0); [by injection Hrun as <- <- |].
  rewrite bind_readonly in Hrun by auto with claw.
  destruct (withdraw_validator p tx s) as [[v|e] s2]; [| by injection Hrun as <- <-].
  cbn [fst] in Hrun. st_exec Hrun; try done.
  all: st_exec Hrun; try done.
  all: intros k c; upd; intros [_ Ha]%lookup_delete_Some; by apply (Hs k).
Qed.

Lemma dispatch_commissions tx i : preserves commissions_ok (dispatch tx i).
Proof.
  destruct (decide (tx_type tx = StakeDeposit)) as [E|]; [|
    destruct (decide (tx_type tx = ChangeDelegation)) as [E|]; [|
      destruct (decide (tx_type tx = StakeWithdraw)) as [E|]]].
  - unfold dispatch. rewrite E. apply preserves_no_receipt, deposit_commissions.
  - unfold dispatch. rewrite E. apply preserves_no_receipt, change_delegation_commissions.
  - unfold dispatch. rewrite E. apply preserves_no_receipt, withdraw_commissions.
  - apply (preserves_keeps ws_stake_commissions); [apply commissions_ok_ext |]. dispatch_keeps tx.
Qed.

Lemma apply_tx_miners tx i s r s' :
  supply_fits s -> apply_tx tx i s = (r, s') -> miners_change true s s'.
Proof.
  intros Hs Hrun.
  destruct (apply_tx_frame ws_miners _ _ _ _ _ ltac:(done) (accept_miners tx) Hs Hrun)
    as [[-> _] | (rd & s1 & Hd & _ & Hch & Hs' & _)]; [by apply mc_none |].
  destruct (dispatch_miners _ _ _ _ _ Hd) as [E | a m Hnew Hr Hp E | a f Hf Hkeep E].
  - apply mc_none. congruence.
  - apply (mc_register _ _ _ a m); [congruence | done | done | congruence].
  - apply (mc_beat _ _ _ a f); [done | done | congruence].
Qed.

Lemma accept_commissions tx s fee rc : ws_stake_commissions (accept_tx tx fee rc s) = ws_stake_commissions s.
Proof. unfold accept_tx. by destruct rc. Qed.

Lemma apply_tx_commissions tx i s r s' :
  supply_fits s -> apply_tx tx i s = (r, s') -> commissions_ok s -> commissions_ok s'.
Proof.
  intros Hs Hrun Hc.
  destruct (apply_tx_frame ws_stake_commissions _ _ _ _ _ ltac:(done) (accept_commissions tx) Hs Hrun)
    as [[-> _] | (rd & s1 & Hd & _ & Hch & Hs' & _)]; [done |].
  apply (commissions_ok_ext _ _ Hs'). eapply dispatch_commissions; [| exact Hd].
  by apply (commissions_ok_ext _ _ Hch).
Qed.
End frames.

(** ** The invariant between blocks *)

(** The ledger after the block at height [h]: the supply never exceeds the total
    minted at genesis, commissions and reputations are in range, and what miners
    are owed was assigned in the current epoch. *)
Record sound (h : N) (w : WorldState) : Prop := {
  so_supply : supply w <= CLAW_TOTAL_SUPPLY;
  so_commissions : commissions_ok w;
  so_miners : map_Forall (fun _ m => miner_ok m) (ws_miners w);
  so_pending : if h <? HEARTBEAT_V2_HEIGHT then map_Forall (fun _ m => mi_pending_rewards m = 0) (ws_miners w)
               else pending_current (h / MINER_EPOCH_LENGTH) w;
}.

(** What the invariant reads. *)
Definition sound_view (w : WorldState) := (supply w, ws_stake_commissions w, ws_miners w).

Lemma sound_ext h w w' : sound_view w' = sound_view w -> sound h w -> sound h w'.
Proof.
  unfold sound_view. intros [= H1 H2 H3] [S1 S2 S3 S4]. constructor.
  - lia.
  - unfold commissions_ok in *. by rewrite H2.
  - by rewrite H3.
  - unfold pending_current in *. by rewrite H3.
Qed.

(** A property of a record survives a change of the miners if new miners have it
    and a change of record keeps it. *)
Lemma miners_change_forall (R : MinerInfo -> Prop) kept s s' :
  miners_change kept s s' ->
  (forall m, mi_reputation_bps m = REPUTATION_NEWCOMER_BPS -> mi_pending_rewards m = 0 -> R m) ->
  (forall f m, record_change f -> R m -> R (f m)) ->
  map_Forall (fun _ m => R m) (ws_miners s) -> map_Forall (fun _ m => R m) (ws_miners s').
Proof.
  intros Hch Hnew Hrec HR. destruct Hch as [E | a m _ Hr Hp E | a f Hf _ E]; rewrite E.
  - done.
  - apply map_Forall_insert_2; [by apply Hnew | done].
  - intros k m Hk. destruct (decide (a = k)) as [<-|Hne].
    + rewrite lookup_alter_eq in Hk. apply fmap_Some in Hk as (i & Hi & ->). apply Hrec; [done | by apply (HR a)].
    + rewrite lookup_alter_ne in Hk by done. by apply (HR k).
Qed.

Lemma miners_change_size kept s s' : miners_change kept s s' -> (size (ws_miners s') <= S (size (ws_miners s)))%nat.
Proof.
  intros Hch. destruct Hch as [E | a m Hnew _ _ E | a f _ _ E]; rewrite E; [lia | |].
  - rewrite map_size_insert_None by done. lia.
  - assert (dom (alter f a (ws_miners s)) = dom (ws_miners s)) as Hd by apply dom_alter_L.
    rewrite <- size_dom, Hd, size_dom. lia.
Qed.

Lemma miners_change_checkin s s' a m :
  miners_change true s s' -> ws_miners s !! a = Some m ->
  exists m', ws_miners s' !! a = Some m' /\ mi_last_checkin_epoch m' = mi_last_checkin_epoch m.
Proof.
  intros Hch Ha. destruct Hch as [E | b i Hnew _ _ E | b f _ Hkeep E]; rewrite E; [eauto | |].
  - exists m. by rewrite lookup_insert_ne by congruence.
  - destruct (decide (b = a)) as [<-|Hne].
    + exists (f m). rewrite lookup_alter_eq, Ha. split; [done | by apply Hkeep].
    + exists m. by rewrite lookup_alter_ne.
Qed.

Lemma sound_change h kept s s' :
  sound h s -> miners_change kept s s' -> supply s' <= supply s -> commissions_ok s' -> sound h s'.
Proof.
  intros [S1 S2 S3 S4] Hch Hs Hc. constructor; [lia | done | |].
  - eapply miners_change_forall; [exact Hch | | | done].
    + intros m Hr _. unfold miner_ok. rewrite Hr. unfold REPUTATION_NEWCOMER_BPS, REPUTATION_VETERAN_BPS. lia.
    + intros f m Hf. apply Hf.
  - destruct (h <? HEARTBEAT_V2_HEIGHT); (eapply miners_change_forall; [exact Hch | | | exact S4]).
    + done.
    + intros f m Hf Hm. by rewrite (proj1 (Hf m)).
    + intros m _ Hp. by left.
    + intros f m Hf Hm. destruct (Hf m) as (-> & -> & _). done.
Qed.

Section block_txs.
Context `{HB : Blake3} `{HE : Ed25519} `{TC : TxCodec} `{HX : Hex} `{VM : VmEngine} `{VS : VmSchedule}.
Implicit Types (tx : Transaction) (w : WorldState).

Lemma sound_fits h w : sound h w -> supply_fits w.
Proof. intros [Hs _ _ _]. unfold supply_fits, CLAW_TOTAL_SUPPLY in *. lia. Qed.

Lemma sound_tx h tx i w r w' :
  sound h w -> apply_tx tx i w = (r, w') ->
  sound h w' /\ (size (ws_miners w') <= S (size (ws_miners w)))%nat
  /\ match r with
     | Ok (fee, _) => fee = fee_of tx /\ supply w' + fee = supply w
     | Err _ => supply w' <= supply w /\ (lossy (tx_type tx) = false -> supply w' = supply w)
     end.
Proof.
  intros Hw Hrun. pose proof (sound_fits _ _ Hw) as Hs.
  pose proof (apply_tx_supply_run tx i w Hs) as Hsup. rewrite Hrun in Hsup.
  pose proof (apply_tx_miners _ _ _ _ _ Hs Hrun) as Hch.
  split_and!; [| by eapply miners_change_size | by destruct r as [[]|]].
  eapply sound_change; [exact Hw | exact Hch | | by eapply apply_tx_commissions; [| | apply Hw]].
  destruct r as [[fee evs]|e]; simpl in Hsup; lia.
Qed.

Definition block_fees (txs : list Transaction) : N := lsum fee_of txs.

Lemma fee_of_le tx : fee_of tx <= GAS_FEE.
Proof. unfold fee_of. destruct (gas_free _); lia. Qed.

Lemma block_fees_le txs : block_fees txs <= GAS_FEE * N.of_nat (length txs).
Proof.
  unfold block_fees. rewrite <- (lsum_const GAS_FEE txs). apply lsum_mono. intros tx _. apply fee_of_le.
Qed.

Lemma apply_block_txs_run h txs : forall i total w total' w',
  sound h w -> total + GAS_FEE * N.of_nat (length txs) < TWO128 ->
  apply_block_txs txs i total w = Ok (total', w') ->
  sound h w' /\ total' = total + block_fees txs /\ supply w' + block_fees txs = supply w
  /\ (size (ws_miners w') <= length txs + size (ws_miners w))%nat.
Proof.
  induction txs as [|tx txs IH]; intros i total w total' w' Hw Hb Hrun; simpl in Hrun.
  { injection Hrun as <- <-. split_and!; [done | simpl; lia | simpl; lia | lia]. }
  destruct (apply_tx tx i w) as [[[fee evs]|e] w1] eqn:Htx; [| done].
  destruct (sound_tx _ _ _ _ _ _ Hw Htx) as (Hw1 & Hsz & -> & Hsup).
  pose proof (fee_of_le tx) as Hf. simpl length in Hb. rewrite Nat2N.inj_succ in Hb. unfold GAS_FEE in *.
  rewrite (wadd_small TWO128) in Hrun by lia.
  apply IH in Hrun as (H1 & H2 & H3 & H4); [| done | lia].
  unfold block_fees in *. rewrite lsum_cons. simpl length. split_and!; [done | lia | lia | lia].
Qed.

(** A block in production: the rejected transactions, none of a type that can
    lose funds, leave no trace on the supply. *)
Lemma include_txs_run h txs : forall i included total evs w included' total' evs' w',
  sound h w -> total + GAS_FEE * N.of_nat (length txs) < TWO128 ->
  Forall (fun tx => lossy (tx_type tx) = false) txs ->
  include_txs txs i included total evs w = (included', total', evs', w') ->
  exists new, included' = included ++ new /\ sublist new txs /\ total' = total + block_fees new
    /\ sound h w' /\ supply w' + block_fees new = supply w
    /\ (size (ws_miners w') <= length txs + size (ws_miners w))%nat.
Proof.
  induction txs as [|tx txs IH]; intros i included total evs w included' total' evs' w' Hw Hb Hall Hrun; simpl in Hrun.
  { injection Hrun as <- <- <- <-. exists []. rewrite app_nil_r. unfold block_fees. simpl. split_and!; [done | constructor | lia | done | lia | lia]. }
  apply Forall_cons in Hall as [Hl Hall]. simpl length in Hb. rewrite Nat2N.inj_succ in Hb.
  destruct (apply_tx tx i w) as [[[fee tx_events]|e] w1] eqn:Htx;
    destruct (sound_tx _ _ _ _ _ _ Hw Htx) as (Hw1 & Hsz & Hout).
  - destruct Hout as [-> Hsup]. pose proof (fee_of_le tx) as Hf. unfold GAS_FEE in *.
    rewrite (wadd_small TWO128) in Hrun by lia.
    apply IH in Hrun as (new & -> & H1 & H2 & H3 & H4 & H5); [| done | lia | done].
    exists (tx :: new). unfold block_fees in *. rewrite lsum_cons, <- app_assoc. simpl length.
    split_and!; [done | by constructor | lia | done | lia | lia].
  - destruct Hout as [_ Hsup]. specialize (Hsup Hl). unfold GAS_FEE in *.
    apply IH in Hrun as (new & -> & H1 & H2 & H3 & H4 & H5); [| done | lia | done].
    exists new. simpl length. split_and!; [done | by constructor | done | done | lia | lia].
Qed.
End block_txs.

(** ** Rewards, fees and settlement *)
Lemma expected_burn_exact fees :
  fees < 2 ^ 100 -> expected_burn fees + fees * 50 / 100 + fees * 20 / 100 = fees.
Proof.
  intros Hf. unfold expected_burn. change (2 ^ 100) with 1267650600228229401496703205376 in Hf.
  pose proof (N.Div0.mul_div_le (fees * 50) 100). pose proof (N.Div0.mul_div_le (fees * 20) 100).
  rewrite !wmul_small by lia. set (p := fees * 50 / 100) in *. set (e := fees * 20 / 100) in *.
  rewrite (wsub_small TWO128 fees p), (wsub_small TWO128 (fees - p) e) by lia. lia.
Qed.

Lemma sound_unpaid h w w' :
  supply w' <= CLAW_TOTAL_SUPPLY -> unpaid w' = unpaid w -> sound h w -> sound h w'.
Proof.
  intros Hs Hu Hw. pose proof (f_equal ws_stake_commissions Hu) as H1. pose proof (f_equal ws_miners Hu) as H2.
  unfold unpaid in H1, H2. upd. destruct Hw as [S1 S2 S3 S4]. constructor; [done | | |].
  - unfold commissions_ok in *. by rewrite H1.
  - by rewrite H2.
  - unfold pending_current in *. by rewrite H2.
Qed.

Lemma sound_miners_ok h w : sound h w -> N.of_nat (size (ws_miners w)) < TWO32 -> miners_ok w.
Proof. intros Hw Hsz. split; [apply Hw | done]. Qed.

Lemma rewarded_weight active offline : lsum snd (rewarded active offline) <= lsum av_weight active.
Proof.
  unfold rewarded. rewrite lsum_fmap. induction active as [|v l IH]; [done |].
  rewrite filter_cons. case_decide; rewrite ?lsum_cons; simpl; lia.
Qed.

Lemma accumulate_sound h w :
  sound h w -> N.of_nat (size (ws_miners w)) < TWO32 ->
  let w' := (accumulate_mining_reward (h + 1) w).2 in
  sound h w' /\ supply w' = supply w /\ ws_miners w' = ws_miners w.
Proof.
  intros Hw Hsz w'. pose proof (sound_miners_ok _ _ Hw Hsz) as Hok.
  assert (supply w' = supply w /\ ws_stake_commissions w' = ws_stake_commissions w
          /\ ws_miners w' = ws_miners w) as (H1 & H2 & H3).
  { destruct (N.lt_ge_cases (h + 1) HEARTBEAT_V2_HEIGHT) as [Hlt|Hge]; subst w'.
    - unfold accumulate_mining_reward. destruct (N.ltb_spec (h + 1) HEARTBEAT_V2_HEIGHT); [| lia].
      destruct (mining_rewards_direct (h + 1) w (so_supply _ _ Hw) Hok (so_commissions _ _ Hw)) as [H1 H2].
      split_and!; [done | exact (f_equal ws_stake_commissions H2) | exact (f_equal ws_miners H2)].
    - destruct (accumulate_spec (h + 1) w Hge (sound_fits _ _ Hw)) as (w1 & -> & H1 & H2 & H3 & _).
      split_and!; [done | exact (f_equal ws_stake_commissions H2) | done]. }
  split_and!; [| done | done]. apply (sound_ext h w); [| done]. unfold sound_view. by rewrite H1, H2, H3.
Qed.

Lemma distribute_sound h active offline proposer fees w :
  sound h w -> lsum av_weight active < TWO64 -> N.of_nat (size (ws_miners w)) < TWO32 ->
  supply w + fees <= CLAW_TOTAL_SUPPLY ->
  let w' := (distribute active offline proposer (h + 1) fees w).2 in
  sound h w' /\ supply w' = supply w + fees * 50 / 100 + fees * 20 / 100 /\ ws_miners w' = ws_miners w.
Proof.
  intros Hw Hact Hsz Hf. unfold distribute, CLAW_TOTAL_SUPPLY in *.
  pose proof (rewarded_weight active offline).
  pose proof (block_reward_paid (rewarded active offline) (h + 1) w (sound_fits _ _ Hw) (so_commissions _ _ Hw)
    ltac:(lia)) as Hr.
  destruct (distribute_block_reward _ _ w) as [e1 w1]. destruct Hr as (R1 & R2 & _).
  assert (sound h w1) as Hw1 by (apply (sound_unpaid h w); [unfold CLAW_TOTAL_SUPPLY; lia | done | done]).
  pose proof (f_equal ws_miners R2) as M1. unfold unpaid in M1. upd.
  destruct (accumulate_sound h w1 Hw1) as (Hw2 & A1 & A2); [by rewrite M1 |].
  destruct (accumulate_mining_reward _ w1) as [e2 w2]. cbn [snd] in *.
  pose proof (N.Div0.mul_div_le (fees * 50) 100). pose proof (N.Div0.mul_div_le (fees * 20) 100).
  pose proof (fees_paid proposer fees w2 ltac:(lia) (so_commissions _ _ Hw2) ltac:(lia)) as Hp.
  destruct (distribute_fees proposer fees w2) as [e3 w3]. destruct Hp as (F1 & _ & F2). cbn [snd].
  pose proof (f_equal ws_miners F2) as M3. unfold unpaid in M3. upd.
  assert (sound h w3) as Hw3 by (apply (sound_unpaid h w2); [unfold CLAW_TOTAL_SUPPLY; lia | done | done]).
  split_and!.
  - by apply (sound_ext h w3).
  - transitivity (supply w3); [done | lia].
  - transitivity (ws_miners w3); [done | congruence].
Qed.

(** Records rewritten without touching what is owed. *)
Lemma sound_records h f w :
  record_change f -> sound h w ->
  sound h (w <| ws_miners ::= fmap f |>) /\ supply (w <| ws_miners ::= fmap f |>) = supply w.
Proof.
  intros Hf [S1 S2 S3 S4].
  assert (supply (w <| ws_miners ::= fmap f |>) = supply w) as Hs.
  { unfold supply. upd. do 2 f_equal. unfold msum. rewrite map_to_list_fmap, lsum_fmap.
    apply lsum_ext. intros [k m] _. apply (Hf m). }
  split; [| done]. constructor; [by rewrite Hs | done | |].
  - upd. apply map_Forall_fmap. intros k m Hm. apply (Hf m). by apply (S3 k).
  - unfold pending_current in *. upd.
    destruct (h <? HEARTBEAT_V2_HEIGHT); apply map_Forall_fmap; intros k m Hm; simpl;
      destruct (Hf m) as (E1 & E2 & _); rewrite E1, ?E2; by apply (S4 k).
Qed.

Lemma boundary_noop height w :
  height mod MINER_EPOCH_LENGTH <> 0 -> process_miner_epoch_boundary height w = ([], w).
Proof.
  intros Hm. unfold process_miner_epoch_boundary. destruct (height <? HEARTBEAT_V2_HEIGHT); [done |].
  by destruct (N.eqb_spec (height mod MINER_EPOCH_LENGTH) 0).
Qed.

Lemma next_same_epoch h : (h + 1) mod 100 <> 0 -> (h + 1) / 100 = h / 100.
Proof.
  intros Hm. symmetry. apply (N.div_unique (h + 1) 100 _ ((h + 1) mod 100)); [| ].
  all: pose proof (N.div_mod h 100 ltac:(done)); pose proof (N.mod_lt h 100 ltac:(done));
    pose proof (N.div_mod (h + 1) 100 ltac:(done)); pose proof (N.mod_lt (h + 1) 100 ltac:(done)).
  all: revert Hm; generalize dependent ((h + 1) mod 100); generalize dependent ((h + 1) / 100);
    generalize dependent (h mod 100); generalize dependent (h / 100); intros; lia.
Qed.

Lemma next_new_epoch h : (h + 1) mod 100 = 0 -> h / 100 = (h + 1) / 100 - 1.
Proof.
  intros Hm.
  pose proof (N.div_mod h 100 ltac:(done)); pose proof (N.mod_lt h 100 ltac:(done));
    pose proof (N.div_mod (h + 1) 100 ltac:(done)). rewrite Hm in *.
  generalize dependent ((h + 1) / 100); generalize dependent (h mod 100); generalize dependent (h / 100).
  intros; lia.
Qed.

(** Advancing the invariant's height within an epoch. *)
Lemma sound_advance h w :
  sound h w -> (h + 1 < HEARTBEAT_V2_HEIGHT \/ HEARTBEAT_V2_HEIGHT <= h) ->
  ((h + 1) mod MINER_EPOCH_LENGTH <> 0 \/ h + 1 < HEARTBEAT_V2_HEIGHT) -> sound (h + 1) w.
Proof.
  intros [S1 S2 S3 S4] Hh Hm. constructor; [done .. |]. unfold HEARTBEAT_V2_HEIGHT, MINER_EPOCH_LENGTH in *.
  destruct (N.ltb_spec h 225900), (N.ltb_spec (h + 1) 225900); try lia; try done.
  destruct Hm as [Hm|]; [| lia]. by rewrite next_same_epoch.
Qed.

Lemma activation_sound h w :
  h + 1 = HEARTBEAT_V2_HEIGHT -> sound h w ->
  sound (h + 1) (activate_epochs w) /\ supply (activate_epochs w) = supply w
  /\ dom (ws_miners (activate_epochs w)) = dom (ws_miners w).
Proof.
  intros Hh Hw. pose proof (so_pending _ _ Hw) as Hp. unfold HEARTBEAT_V2_HEIGHT in *.
  destruct (N.ltb_spec h 225900); [| lia].
  destruct (activate_epochs_spec w (sound_fits _ _ Hw) Hp) as [H1 _].
  assert (ws_miners (activate_epochs w) = (fun m => m <| mi_pending_rewards := 0 |> <| mi_pending_epoch := 0 |>
    <| mi_epoch_attendance := 0 |> <| mi_consecutive_misses := 0 |>) <$> ws_miners w) as Hm
    by (unfold activate_epochs; cbv zeta; by destruct (0 <? _)).
  assert (ws_stake_commissions (activate_epochs w) = ws_stake_commissions w) as Hc
    by (unfold activate_epochs; cbv zeta; by destruct (0 <? _)).
  split_and!; [| done | by rewrite Hm, dom_fmap_L]. constructor.
  - rewrite H1. apply Hw.
  - unfold commissions_ok. rewrite Hc. apply Hw.
  - rewrite Hm. apply map_Forall_fmap. intros k m Hk. by apply (so_miners _ _ Hw k).
  - unfold pending_current, HEARTBEAT_V2_HEIGHT. destruct (N.ltb_spec (h + 1) 225900); [lia |]. rewrite Hm.
    apply map_Forall_fmap. intros k m _. by left.
Qed.

Lemma boundary_sound h w :
  sound h w -> N.of_nat (size (ws_miners w)) < TWO32 ->
  let w' := (process_miner_epoch_boundary (h + 1) w).2 in
  sound (h + 1) w' /\ supply w' = supply w /\ dom (ws_miners w') = dom (ws_miners w).
Proof.
  intros Hw Hsz w'. destruct (N.lt_ge_cases (h + 1) HEARTBEAT_V2_HEIGHT) as [Hlt|Hge].
  { assert (w' = w) as ->.
    { unfold w', process_miner_epoch_boundary. by destruct (N.ltb_spec (h + 1) HEARTBEAT_V2_HEIGHT); [| lia]. }
    split_and!; [| done | done]. apply sound_advance; [done | by left | by right]. }
  destruct (decide (h + 1 = HEARTBEAT_V2_HEIGHT)) as [Heq|Hne].
  { assert (w' = activate_epochs w) as -> by (unfold w', process_miner_epoch_boundary; by rewrite Heq).
    by apply activation_sound. }
  assert (HEARTBEAT_V2_HEIGHT <= h) as Hh by (unfold HEARTBEAT_V2_HEIGHT in *; lia).
  destruct (decide ((h + 1) mod MINER_EPOCH_LENGTH = 0)) as [Hm|Hm].
  - pose proof (so_pending _ _ Hw) as Hp. destruct (N.ltb_spec h HEARTBEAT_V2_HEIGHT); [lia |].
    assert (h / MINER_EPOCH_LENGTH = (h + 1) / MINER_EPOCH_LENGTH - 1) as He.
    { by apply next_new_epoch. }
    rewrite He in Hp.
    destruct (epoch_boundary_spec (h + 1) w ltac:(unfold HEARTBEAT_V2_HEIGHT in *; lia) Hm (so_supply _ _ Hw)
      (sound_miners_ok _ _ Hw Hsz) Hp) as [E1 _ E3 E4 _ E6 E7 _]. fold w' in E1, E3, E4, E6, E7.
    split_and!; [| done | done]. constructor.
    + rewrite E1. apply Hw.
    + pose proof (f_equal ws_stake_commissions E3) as Hc. unfold unmined in Hc. upd.
      unfold commissions_ok. rewrite Hc. apply Hw.
    + apply E7.
    + by destruct (N.ltb_spec (h + 1) HEARTBEAT_V2_HEIGHT); [lia |].
  - assert (w' = w) as -> by (unfold w'; by rewrite boundary_noop).
    split_and!; [| done | done]. apply sound_advance; [done | by right | by left].
Qed.

Lemma credit_sound h e wits w :
  sound h w ->
  let w' := foldl (fun s wit => credit_checkin e wit s) w wits in
  sound h w' /\ supply w' = supply w.
Proof.
  revert w. induction wits as [|wit wits IH]; intros w Hw; simpl; [done |].
  assert (supply (credit_checkin e wit w) = supply w) as Hs.
  { unfold credit_checkin, supply. upd. by rewrite (msum_alter_same mi_pending_rewards). }
  assert (sound h (credit_checkin e wit w)) as Hw1.
  { apply (sound_change h false w); [done | | lia | apply Hw]. eapply mc_beat; [| | reflexivity]; [done | done]. }
  destruct (IH _ Hw1) as [H1 H2]. split; [done | congruence].
Qed.

Lemma settle_v3_sound h w :
  sound h w -> N.of_nat (size (ws_miners w)) < TWO32 ->
  let w' := (settle_v3 (h + 1) w).2 in sound (h + 1) w' /\ supply w' = supply w.
Proof.
  intros Hw Hsz. unfold settle_v3. cbv zeta.
  set (w1 := if h + 1 =? CHECKIN_V3_HEIGHT then migrate_miners_v2_to_v3 w else w).
  assert (sound h w1 /\ supply w1 = supply w /\ size (ws_miners w1) = size (ws_miners w)) as (Hw1 & Hs1 & Hz1).
  { unfold w1. destruct (_ =? _); [| done]. unfold migrate_miners_v2_to_v3.
    destruct (sound_records h (fun m => m <| mi_last_checkin_epoch := mi_last_heartbeat m / MINER_EPOCH_LENGTH |>) w)
      as [H1 H2]; [done | done |]. split_and!; [done | done |]. upd. by rewrite map_size_fmap. }
  destruct (boundary_sound h w1 Hw1 ltac:(lia)) as (H1 & H2 & _). rewrite <- Hs1.
  destruct (N.eqb_spec ((h + 1) mod MINER_EPOCH_LENGTH) 0) as [Hm|Hm]; [done |].
  rewrite boundary_noop in H1, H2 by done. done.
Qed.

Lemma settle_pre_v3_sound h w :
  sound h w -> N.of_nat (size (ws_miners w)) < TWO32 ->
  let w' := (settle_pre_v3 (h + 1) w).2 in sound (h + 1) w' /\ supply w' = supply w.
Proof.
  intros Hw Hsz. unfold settle_pre_v3. destruct (boundary_sound h w Hw Hsz) as (H1 & H2 & _).
  destruct (process_miner_epoch_boundary (h + 1) w) as [events w1]. cbn [snd] in *.
  unfold update_miner_activity. destruct (_ <=? _); [done |].
  match goal with |- context [fmap ?f] => destruct (sound_records (h + 1) f w1) as [H3 H4] end; [| done |].
  - intros m. by destruct (_ && _).
  - split; [done | congruence].
Qed.

(** ** A block *)

Section blocks.
Context `{HB : Blake3} `{HE : Ed25519} `{TC : TxCodec} `{HX : Hex} `{VM : VmEngine} `{VS : VmSchedule}.
Context `{SCd : StateCodec} `{RD : Redb} `{SC : StoreCodec} `{NC : NodeCodec} `{KE : KeyErrors}.
Implicit Types (inner : ChainInner Db) (tx : Transaction).

Lemma validate_checkins_run block w inner r inner' :
  validate_checkins block w inner = (r, inner') ->
  (exists c, inner' = inner <| ch_checkin_cache := c |>)
  /\ match r with
     | Err _ => inner' = inner
     | Ok w' =>
         if CHECKIN_V3_HEIGHT <=? b_height block
         then check_witnesses (b_height block) (ch_store inner) (settle_v3 (b_height block) w).2 []
                (b_checkin_witnesses block) = Ok tt
              /\ w' = foldl (fun s wit => credit_checkin (b_height block / MINER_EPOCH_LENGTH) wit s)
                        (settle_v3 (b_height block) w).2 (b_checkin_witnesses block)
         else b_checkin_witnesses block = [] /\ w' = (settle_pre_v3 (b_height block) w).2 /\ inner' = inner
     end.
Proof.
  unfold validate_checkins. intros Hrun. rewrite bind_get in Hrun.
  assert (exists c, inner = inner <| ch_checkin_cache := c |>) as Hsame
    by (exists (ch_checkin_cache inner); by destruct inner).
  destruct (CHECKIN_V3_HEIGHT <=? b_height block).
  - cbv zeta in Hrun. rewrite bind_map_err in Hrun.
    destruct (check_witnesses _ _ _ _ _) as [[]|e]; [| by injection Hrun as <- <-].
    rewrite bind_modify in Hrun. injection Hrun as <- <-. split; [| done]. eexists. reflexivity.
  - rewrite bind_fail_if in Hrun. case_bool_decide as Hw; simpl in Hrun; injection Hrun as <- <-; done.
Qed.

Lemma validate_checkins_sound h block w inner w' inner' :
  b_height block = h + 1 -> sound h w -> N.of_nat (size (ws_miners w)) < TWO32 ->
  validate_checkins block w inner = (Ok w', inner') -> sound (h + 1) w' /\ supply w' = supply w.
Proof.
  intros Hh Hw Hsz Hrun. destruct (validate_checkins_run _ _ _ _ _ Hrun) as [_ Hout]. rewrite Hh in Hout.
  destruct (CHECKIN_V3_HEIGHT <=? h + 1).
  - destruct Hout as [_ ->]. destruct (settle_v3_sound h w Hw Hsz) as [H1 H2].
    destruct (credit_sound (h + 1) ((h + 1) / MINER_EPOCH_LENGTH) (b_checkin_witnesses block) _ H1) as [H3 H4].
    split; [done | congruence].
  - destruct Hout as (_ & -> & _). by apply settle_pre_v3_sound.
Qed.

(** The node's ledger, its last block and its validators together. *)
Record chain_sound inner : Prop := {
  cs_ledger : sound (b_height (ch_latest_block inner)) (ch_state inner);
  cs_weights : lsum av_weight (vs_active (ch_validator_set inner)) < TWO64;
  cs_config : wc_stake_bps (vs_weight_config (ch_validator_set inner))
              + wc_score_bps (vs_weight_config (ch_validator_set inner)) <= 10000;
}.

Lemma persist_receipts_view block inner :
  exists db, persist_receipts block inner = inner <| ch_store := db |>.
Proof.
  unfold persist_receipts. case_bool_decide; [exists (ch_store inner); by destruct inner |].
  eexists. reflexivity.
Qed.

(** The steps after the block is stored touch the ledger's uptime and slashing
    records only, and give every active validator a bounded weight. *)
Lemma after_stored_sound h block inner :
  sound h (ch_state inner) ->
  lsum av_weight (vs_active (ch_validator_set inner)) < TWO64 ->
  wc_stake_bps (vs_weight_config (ch_validator_set inner))
    + wc_score_bps (vs_weight_config (ch_validator_set inner)) <= 10000 ->
  let inner' := after_stored block inner in
  sound_view (ch_state inner') = sound_view (ch_state inner)
  /\ lsum av_weight (vs_active (ch_validator_set inner')) < TWO64
  /\ wc_stake_bps (vs_weight_config (ch_validator_set inner'))
     + wc_score_bps (vs_weight_config (ch_validator_set inner')) <= 10000.
Proof.
  intros Hs Hw Hc. unfold after_stored. cbv zeta.
  destruct (persist_receipts_view block inner) as [db ->].
  destruct (is_epoch_boundary (b_height block)); [| done].
  split_and!; [reflexivity | | exact Hc].
  assert (map_total (ws_stakes (ch_state inner)) * 10000 < TWO128) as Hst.
  { pose proof (so_supply _ _ Hs) as Hsup. unfold supply, CLAW_TOTAL_SUPPLY in Hsup. lia. }
  unfold rotate_epoch, store_best_effort. cbv zeta.
  pose proof (fun rep sl => active_weights_bounds (ws_stakes (ch_state inner)) rep sl (b_height block)
    (ch_validator_set inner) Hst Hc) as Hb.
  eapply N.le_lt_trans; [eapply (Hb _ _) | lia].
Qed.

(** ** How validation ends *)

Definition supply_violation : string :=
  "supply integrity violation: total supply mismatch after applying block".

(** The changes a rejected block may leave: slashing counters and cached check-ins. *)
Definition only_guards inner inner' : Prop :=
  exists sl c, inner' = inner <| ch_slashing := sl |> <| ch_checkin_cache := c |>.

Definition executed_state block inner : result (N * WorldState) string :=
  apply_block_txs (b_transactions block) 0 0 (begin_state (b_height block) (b_timestamp block) (ch_state inner)).

Definition paid_state block inner (total_fees : N) (w : WorldState) : WorldState :=
  (distribute (vs_active (ch_validator_set inner)) (ch_offline_validators inner)
     (b_validator block) (b_height block) total_fees w).2.

(** Everything a block that reaches the supply check has passed; [w1] is the
    validated state. *)
Record validated (clock : Clock) block (is_sync : bool) inner (total_fees : N) (w1 : WorldState)
    (inner1 : ChainInner Db) : Prop := {
  va_header : check_header (ck_now clock) (ch_latest_block inner) block = Ok tt;
  va_signatures : check_signatures (vs_active (ch_validator_set inner)) block is_sync = Ok tt;
  va_run : exists inner0 w0, check_proposer block inner = (Ok tt, inner0)
    /\ executed_state block inner = Ok (total_fees, w0)
    /\ validate_checkins block (paid_state block inner total_fees w0) inner0 = (Ok w1, inner1);
  va_root : state_root (sync_slashing (ch_slashing inner1) w1) = b_state_root block;
  va_guards : only_guards inner inner1;
}.

Definition commit_block (clock : Clock) block : ST (ChainInner Db) string unit :=
  store_block block;;
  st_modify (fun c => (after_stored block c) <| ch_pending_votes := ∅ |> <| ch_latest_block := block |>
                        <| ch_latest_block_received := ck_instant clock |>).

(** A block is rejected before the supply check, fails it, or is committed. *)
Definition remote_outcome (clock : Clock) block (is_sync : bool) inner (r : result unit string)
    (inner' : ChainInner Db) : Prop :=
  (exists e, r = Err e /\ e <> supply_violation /\ only_guards inner inner')
  \/ (exists total_fees w1, validated clock block is_sync inner total_fees w1 inner'
       /\ r = Err supply_violation
       /\ total_supply (sync_slashing (ch_slashing inner') w1)
          <> u128_sub (total_supply (ch_state inner)) (expected_burn total_fees))
  \/ (exists total_fees w1 inner1, validated clock block is_sync inner total_fees w1 inner1
       /\ commit_block clock block (inner1 <| ch_state := sync_slashing (ch_slashing inner1) w1 |>) = (r, inner')).

Lemma only_guards_refl inner : only_guards inner inner.
Proof. exists (ch_slashing inner), (ch_checkin_cache inner). by destruct inner. Qed.

Lemma only_guards_cache inner inner' c : only_guards inner inner' -> only_guards inner (inner' <| ch_checkin_cache := c |>).
Proof. intros (sl & c' & ->). by exists sl, c. Qed.

Lemma check_header_other now latest block e : check_header now latest block = Err e -> e <> supply_violation.
Proof. unfold check_header. cbv zeta. repeat case_match; try done; intros [= <-]; discriminate. Qed.

Lemma check_signatures_other active block is_sync e :
  check_signatures active block is_sync = Err e -> e <> supply_violation.
Proof. unfold check_signatures. cbv zeta. repeat case_match; try done; intros [= <-]; discriminate. Qed.

Lemma apply_block_txs_other txs : forall i total w e, apply_block_txs txs i total w = Err e -> e <> supply_violation.
Proof.
  induction txs as [|tx txs IH]; intros i total w e; simpl; [done |].
  destruct (apply_tx tx i w) as [[[fee evs]|e1] w1]; [apply IH | intros [= <-]; discriminate].
Qed.

Lemma check_witness_other h db w seen wit e : check_witness h db w seen wit = Err e -> e <> supply_violation.
Proof. unfold check_witness. cbv zeta. repeat case_match; try done; intros [= <-]; discriminate. Qed.

Lemma check_witnesses_other h db w wits : forall seen e,
  check_witnesses h db w seen wits = Err e -> e <> supply_violation.
Proof.
  induction wits as [|wit wits IH]; intros seen e; simpl; [done |].
  destruct (check_witness h db w seen wit) as [[]|e1] eqn:Hw; [apply IH |].
  intros [= <-]. by eapply check_witness_other.
Qed.

Lemma check_proposer_run block inner r inner' :
  check_proposer block inner = (r, inner') ->
  match r with
  | Ok _ => only_guards inner inner' /\ ch_checkin_cache inner' = ch_checkin_cache inner
  | Err e => inner' = inner /\ e <> supply_violation
  end.
Proof.
  unfold check_proposer. rewrite bind_get. cbv zeta. intros Hrun.
  destruct (elect_proposer _ _ _) as [expected|]; [| injection Hrun as <- <-; split; [apply only_guards_refl | done]].
  rewrite bind_fail_if in Hrun. destruct (_ && _) in Hrun.
  - injection Hrun as <- <-. split; [done | discriminate].
  - destruct (_ && _) in Hrun; injection Hrun as <- <-; (split; [| done]); [| apply only_guards_refl].
    exists (record_missed_slot expected (record_assigned_slot expected (ch_slashing inner))), (ch_checkin_cache inner).
    by destruct inner.
Qed.

Lemma validate_checkins_other block w inner e inner' :
  validate_checkins block w inner = (Err e, inner') -> e <> supply_violation.
Proof.
  unfold validate_checkins. rewrite bind_get. cbv zeta. intros Hrun.
  destruct (CHECKIN_V3_HEIGHT <=? b_height block).
  - rewrite bind_map_err in Hrun. destruct (check_witnesses _ _ _ _ _) as [[]|e1] eqn:Hw; [done |].
    injection Hrun as <- <-. by eapply check_witnesses_other.
  - rewrite bind_fail_if in Hrun. destruct (negb _); [| done]. injection Hrun as <- <-. discriminate.
Qed.

Lemma bind_step {S E A B} (m : ST S E A) (f : A -> ST S E B) s :
  (m ≫= f) s = match m s with (Ok a, s') => f a s' | (Err e, s') => (Err e, s') end.
Proof. unfold mbind, ST_bind. by destruct (m s) as [[|]]. Qed.

Lemma apply_remote_inv clock block is_sync inner r inner' :
  apply_remote_block_inner clock block is_sync inner = (r, inner') ->
  remote_outcome clock block is_sync inner r inner'.
Proof.
  unfold apply_remote_block_inner. rewrite bind_get. cbv zeta. intros Hrun.
  rewrite bind_map_err in Hrun. destruct (check_header _ _ _) as [[]|e] eqn:Hh.
  2: { injection Hrun as <- <-. left. exists e. split_and!; [done | by eapply check_header_other | apply only_guards_refl]. }
  rewrite bind_map_err in Hrun. destruct (check_signatures _ _ _) as [[]|e] eqn:Hs.
  2: { injection Hrun as <- <-. left. exists e. split_and!; [done | by eapply check_signatures_other | apply only_guards_refl]. }
  rewrite bind_step in Hrun. destruct (check_proposer block inner) as [[[]|e] inner0] eqn:Hp;
    pose proof (check_proposer_run _ _ _ _ Hp) as Hpr.
  2: { injection Hrun as <- <-. destruct Hpr as [-> He]. left. exists e. split_and!; [done | done | apply only_guards_refl]. }
  destruct Hpr as [Hg0 Hc0]. rewrite bind_map_err in Hrun.
  destruct (apply_block_txs _ _ _ _) as [[total w0]|e] eqn:Htx.
  2: { injection Hrun as <- <-. left. exists e. split_and!; [done | by eapply apply_block_txs_other | done]. }
  cbv beta iota zeta in Hrun. rewrite bind_step in Hrun. fold (paid_state block inner total w0) in Hrun.
  destruct (validate_checkins block (paid_state block inner total w0) inner0) as [[w1|e] inner1] eqn:Hv;
    destruct (validate_checkins_run _ _ _ _ _ Hv) as [[c Hc] _];
    assert (only_guards inner inner1) as Hg by (rewrite Hc; by apply only_guards_cache).
  2: { injection Hrun as <- <-. left. exists e. split_and!; [done | by eapply validate_checkins_other | done]. }
  rewrite bind_get, bind_fail_if in Hrun. case_bool_decide as Hroot; simpl negb in Hrun.
  2: { injection Hrun as <- <-. left. eexists. split_and!; [done | discriminate | done]. }
  assert (validated clock block is_sync inner total w1 inner1) as Hva.
  { constructor; [done | done | | done | done]. by exists inner0, w0. }
  rewrite bind_fail_if in Hrun. right. destruct (N.eqb_spec (total_supply (sync_slashing (ch_slashing inner1) w1))
    (u128_sub (total_supply (ch_state inner)) (expected_burn total))) as [Heq|Hne]; simpl negb in Hrun.
  2: { injection Hrun as <- <-. left. by exists total, w1. }
  right. exists total, w1, inner1. split; [done |]. rewrite bind_modify in Hrun. exact Hrun.
Qed.

(** Room for another block: its height and the miners it can register. *)
Definition room inner : Prop :=
  b_height (ch_latest_block inner) + 1 < TWO64
  /\ N.of_nat (size (ws_miners (ch_state inner))) + MAX_BLOCK_TXS < TWO32.

Lemma check_header_Ok now latest block :
  b_height latest + 1 < TWO64 -> check_header now latest block = Ok tt ->
  b_height block = b_height latest + 1 /\ b_prev_hash block = b_hash latest /\ verify_hash block = true
  /\ b_timestamp latest <= b_timestamp block /\ N.of_nat (length (b_transactions block)) <= MAX_BLOCK_TXS.
Proof.
  unfold check_header. cbv zeta. intros Hh Hrun.
  destruct (N.eqb_spec (b_height block) (u64_add (b_height latest) 1)) as [Heq|]; [simpl in Hrun | done].
  case_bool_decide; [simpl in Hrun | done]. destruct (verify_hash block); [simpl in Hrun | done].
  destruct (_ <? _); [done |]. destruct (N.ltb_spec (b_timestamp block) (b_timestamp latest)); [done |].
  destruct (N.ltb_spec MAX_BLOCK_TXS (N.of_nat (length (b_transactions block)))); [done |].
  rewrite wadd_small in Heq by done. done.
Qed.

Lemma validated_sound clock block is_sync inner total w1 inner1 :
  chain_sound inner -> room inner -> validated clock block is_sync inner total w1 inner1 ->
  let w := sync_slashing (ch_slashing inner1) w1 in
  b_height block = b_height (ch_latest_block inner) + 1
  /\ total = block_fees (b_transactions block)
  /\ sound (b_height block) w /\ supply w + expected_burn total = supply (ch_state inner)
  /\ expected_burn total <= supply (ch_state inner).
Proof.
  intros [Hl Hw Hc] [Hh Hsz] [Hhd _ (inner0 & w0 & _ & Hex & Hv) _ _] w.
  apply check_header_Ok in Hhd as (Hheight & _ & _ & _ & Hlen); [| done].
  unfold executed_state in Hex. unfold MAX_BLOCK_TXS in *.
  pose proof (block_fees_le (b_transactions block)) as Hfees. unfold GAS_FEE in Hfees.
  set (h := b_height (ch_latest_block inner)) in *.
  assert (sound h (begin_state (b_height block) (b_timestamp block) (ch_state inner))) as Hb
    by (by apply (sound_ext h (ch_state inner))).
  apply (apply_block_txs_run h) in Hex as (Hw0 & -> & Hsup & Hsz0); [| done | unfold GAS_FEE; lia].
  rewrite N.add_0_l in *. change (supply (begin_state _ _ (ch_state inner))) with (supply (ch_state inner)) in Hsup.
  change (ws_miners (begin_state _ _ (ch_state inner))) with (ws_miners (ch_state inner)) in Hsz0.
  pose proof (so_supply _ _ Hl) as Htot. set (fees := block_fees (b_transactions block)) in *.
  unfold paid_state in Hv. rewrite Hheight in Hv.
  destruct (distribute_sound h (vs_active (ch_validator_set inner)) (ch_offline_validators inner)
    (b_validator block) fees w0 Hw0 Hw ltac:(lia) ltac:(lia)) as (Hw2 & Hs2 & Hm2).
  rewrite <- Hheight in Hw2, Hs2, Hm2, Hv.
  destruct (validate_checkins_sound h block _ _ _ _ Hheight Hw2 ltac:(rewrite Hm2; lia) Hv) as [Hw3 Hs3].
  assert (fees < 2 ^ 100) as Hsmall by (change (2 ^ 100) with 1267650600228229401496703205376; lia).
  pose proof (expected_burn_exact fees Hsmall) as Hburn.
  split_and!; [done | done | | |].
  - rewrite Hheight. by apply (sound_ext _ w1).
  - transitivity (supply w1 + expected_burn fees); [done | lia].
  - lia.
Qed.

Lemma commit_block_run clock block inner r inner' :
  commit_block clock block inner = (r, inner') ->
  match r with
  | Ok _ => exists db, put_block_and_snapshot block (to_vec (ch_state inner)) (ch_store inner) = (Ok tt, db)
      /\ inner' = (after_stored block (inner <| ch_store := db |>)) <| ch_pending_votes := ∅ |>
                    <| ch_latest_block := block |> <| ch_latest_block_received := ck_instant clock |>
  | Err e => inner' = inner /\ exists e1, e = ("store block and snapshot: " +:+ e1)%string
  end.
Proof.
  unfold commit_block. rewrite bind_step. unfold store_block.
  destruct (put_block_and_snapshot _ _ _) as [[[]|e] db] eqn:Hput; intros [= <- <-].
  - by exists db.
  - split; [| by exists (store_error_to_string e)].
    unfold put_block_and_snapshot in Hput. apply write_txn_atomic in Hput as ->. by destruct inner.
Qed.
End blocks.

(** ** Properties *)

Section block_properties.
Context `{HB : Blake3} `{HE : Ed25519} `{TC : TxCodec} `{HX : Hex} `{VM : VmEngine} `{VS : VmSchedule}.
Context `{SCd : StateCodec} `{RD : Redb} `{SC : StoreCodec} `{NC : NodeCodec} `{KE : KeyErrors}.
Implicit Types (inner : ChainInner Db).

Lemma accepted_sound clock block is_sync inner r inner' :
  chain_sound inner -> room inner ->
  apply_remote_block_inner clock block is_sync inner = (r, inner') ->
  r <> Err supply_violation
  /\ (r = Ok tt ->
      chain_sound inner'
      /\ b_height (ch_latest_block inner') = b_height (ch_latest_block inner) + 1
      /\ supply (ch_state inner') + expected_burn (block_fees (b_transactions block)) = supply (ch_state inner)).
Proof.
  intros Hcs Hroom Hrun.
  destruct (apply_remote_inv _ _ _ _ _ _ Hrun) as
    [(e & -> & He & _) | [(total & w1 & Hva & -> & Hne) | (total & w1 & inner1 & Hva & Hcommit)]].
  - split; [congruence | done].
  - destruct (validated_sound _ _ _ _ _ _ _ Hcs Hroom Hva) as (_ & _ & Hs & Hsup & Hle). exfalso. apply Hne.
    pose proof (so_supply _ _ (cs_ledger _ Hcs)). unfold CLAW_TOTAL_SUPPLY in *.
    rewrite !total_supply_exact by lia. rewrite wsub_small by lia. lia.
  - destruct (validated_sound _ _ _ _ _ _ _ Hcs Hroom Hva) as (Hh & -> & Hs & Hsup & _).
    apply commit_block_run in Hcommit. destruct r as [[]|e].
    + split; [done |]. intros _. destruct Hcommit as (db & _ & ->).
      destruct (va_guards _ _ _ _ _ _ _ Hva) as (sl & c & Hg). destruct Hcs as [_ Hw Hc].
      match goal with |- context [after_stored block ?i] =>
        destruct (after_stored_sound (b_height block) block i) as (A1 & A2 & A3);
          [exact Hs | rewrite Hg; exact Hw | rewrite Hg; exact Hc |] end.
      set (inner2 := after_stored block _) in *. clearbody inner2. split_and!.
      * constructor; upd; [| done | done]. exact (sound_ext _ _ _ A1 Hs).
      * upd. done.
      * upd. rewrite <- Hsup. f_equal. unfold sound_view in A1. by injection A1.
    + destruct Hcommit as (_ & e1 & ->). split; [discriminate | done].
Qed.

(** C1. On a sound ledger the supply check of block validation never fires, and
    an accepted block keeps the ledger sound: the supply falls by exactly the
    30% of the fees that is burned, whatever the transactions, rewards, epoch
    settlements and migrations in the block, and the validators' summed weight
    stays within its bound across epoch rotations. *)
Theorem accepted_block_sound clock block is_sync inner r inner' :
  chain_sound inner -> room inner ->
  apply_remote_block_inner clock block is_sync inner = (r, inner') ->
  r <> Err supply_violation
  /\ (r = Ok tt ->
      chain_sound inner'
      /\ b_height (ch_latest_block inner') = b_height (ch_latest_block inner) + 1
      /\ supply (ch_state inner') + expected_burn (block_fees (b_transactions block)) = supply (ch_state inner)).
Proof. apply accepted_sound. Qed.

End block_properties.

(** ** Witnesses *)

#[local] Existing Instance toy_blake3.
#[local] Existing Instance toy_ed25519.
#[local] Existing Instance toy_tx_codec.
#[local] Existing Instance toy_redb.
#[local] Existing Instance toy_store_codec.
#[local] Existing Instance toy_hex.
#[local] Existing Instance toy_vm.
#[local] Existing Instance toy_schedule.
#[local] Existing Instance toy_codec.
#[local] Existing Instance toy_node_codec.
#[local] Existing Instance toy_key_errors.

Lemma toy_node_sound height miners mempool cache :
  supply (toy_ledger height miners) <= CLAW_TOTAL_SUPPLY ->
  map_Forall (fun _ m => miner_ok m /\ mi_pending_rewards m = 0) miners ->
  chain_sound (toy_node height miners mempool cache).
Proof.
  intros Hs Hm. constructor; [constructor; simpl | done | done].
  - done.
  - apply map_Forall_empty.
  - intros a m Ha. by destruct (Hm a m Ha).
  - destruct (_ <? _); intros a m Ha; destruct (Hm a m Ha) as [_ Hp]; [done | by left].
Qed.

Lemma toy_busy_sound : chain_sound toy_busy.
Proof. apply toy_node_sound; [vm_compute; discriminate | apply map_Forall_empty]. Qed.

Lemma toy_busy_room : room toy_busy.
Proof. split; vm_compute; reflexivity. Qed.

(** The node accepts the block it could have produced itself. *)
Lemma accepted_block_sound_witness :
  let block := toy_block_of toy_busy in
  let out := apply_synced_block toy_clock block toy_busy in
  out.1 = Ok tt /\ chain_sound out.2 /\ supply (ch_state out.2) + 300000 = supply (ch_state toy_busy).
Proof.
  intros block out. assert (out.1 = Ok tt) as Hok by (vm_compute; reflexivity).
  destruct (accepted_block_sound toy_clock block true toy_busy out.1 out.2 toy_busy_sound toy_busy_room
    (surjective_pairing _)) as [_ Hs].
  destruct (Hs Hok) as (H1 & _ & H2). split; [exact Hok |]. split; [exact H1 |]. rewrite <- H2. f_equal.
Defined.

