(* ===== verification/Genesis.v ===== *)
(** * Genesis ([node/src/genesis.rs])

    The configuration a chain starts from: the built-in networks, its validation,
    and the world state and block made of it.  An [anyhow] error is the message it
    shows, that of its outermost context.  Reading the file and its JSON belong to
    the surroundings, hexadecimal decoding to the [hex] crate. *)

From stdpp Require Import pretty.
From S2P Require Import Prelude Interfaces Types Crypto ConsensusTypes Utf8 Vm World HandlerBase Rewards Epochs Store BlockLedger Concrete ConcreteState ConcreteTx.

(** ** Configurations *)

Record GenesisAllocation : Type := mkGenesisAllocation {
  ga_address : string;
  ga_balance : string;
  ga_label : string;
}.

Record GenesisValidator : Type := mkGenesisValidator {
  gv_address : string;
  gv_stake : string;
}.

Record GenesisConfig : Type := mkGenesisConfig {
  gc_chain_id : string;
  gc_timestamp : N;
  gc_allocations : list GenesisAllocation;
  gc_validators : list GenesisValidator;
}.

(** [hex::decode]; [serde_json::from_str]. *)
Class HexDecode : Type := hex_decode : string -> result bytes string.
Class GenesisJson : Type := config_of_json : string -> result GenesisConfig string.

(** What the node relies on: two lower-case digits a byte, which are read back. *)
Class HexLaws `{Hex, HexDecode} : Prop := {
  hex_decode_encode : forall b, hex_decode (hex_encode b) = Ok b;
  hex_encode_digits : forall b, hex_encode b = string_of_bytes
    (b ≫= fun x => (fun n => byte_of_N (if n <? 10 then 48 + n else 87 + n)) <$> [Byte.to_N x / 16; Byte.to_N x mod 16]);
}.

(** ** Built-in networks *)

Section defaults.
Context `{HX : Hex}.

Definition genesis_address (index : N) : bytes := byte_of_N index :: replicate 31 x00.
Definition genesis_address_hex (index : N) : string := hex_encode (genesis_address index).

(** [(CLAW_TOTAL_SUPPLY * percent / 100).to_string()]. *)
Definition share_of_supply (percent : N) : string := pretty (u128_mul CLAW_TOTAL_SUPPLY percent / 100).

Definition standard_allocations : list GenesisAllocation :=
  [ mkGenesisAllocation (genesis_address_hex 1) (share_of_supply 40) "node_incentives";
    mkGenesisAllocation (genesis_address_hex 2) (share_of_supply 25) "ecosystem_fund";
    mkGenesisAllocation "71fa1a514e07c7c96bf0c825c29dfc8059cfa995318972dd258a4e316873e66b" (share_of_supply 15) "team";
    mkGenesisAllocation (genesis_address_hex 4) (share_of_supply 10) "early_contributors";
    mkGenesisAllocation (genesis_address_hex 5) (share_of_supply 10) "liquidity_reserve" ].

Definition default_devnet (node_address : option bytes) : GenesisConfig :=
  let node_addr_hex := from_option hex_encode (genesis_address_hex 10) node_address in
  let faucet_amount := 1000000000000000 in
  let validator_stake := 1000000000000000 in
  mkGenesisConfig "claw-devnet" 1741737600
    (standard_allocations ++ [mkGenesisAllocation node_addr_hex (pretty faucet_amount) "devnet_faucet"])
    [mkGenesisValidator node_addr_hex (pretty validator_stake)].

Definition default_testnet : GenesisConfig :=
  mkGenesisConfig "claw-testnet-1" 1741737600 standard_allocations
    [mkGenesisValidator "53b66a4de468a72b1f3dd995b080733d3b97c83f6a5c6df962ae76d2c91a6c63" (pretty (u128_mul MIN_STAKE 100))].

Definition default_mainnet : GenesisConfig :=
  mkGenesisConfig "claw-mainnet-1" 1742515200 standard_allocations
    [mkGenesisValidator "ffa28f7c6469ab7490ce540a0e49aa64bc77b4dc5bb2a83b17ddd10a9c8ea62e" (pretty (u128_mul MIN_STAKE 100))].

Definition default_for_network (network : string) (node_address : option bytes) : GenesisConfig :=
  if bool_decide (network ∈ ["mainnet"; "claw-mainnet-1"]%string) then default_mainnet
  else if bool_decide (network ∈ ["testnet"; "claw-testnet-1"]%string) then default_testnet
  else default_devnet node_address.
End defaults.

(** ** Validation *)

(** [str::parse::<u128>]: an optional plus sign, then digits. *)
Fixpoint parse_digits (acc : N) (digits : bytes) : option N :=
  match digits with
  | [] => Some acc
  | b :: digits =>
      if between 48 57 b then
        let acc := acc * 10 + (Byte.to_N b - 48) in
        if acc <? TWO128 then parse_digits acc digits else None
      else None
  end.

Definition parse_u128 (s : string) : option N :=
  match as_bytes s with
  | [] => None
  | b :: rest =>
      if (Byte.to_N b =? 43) && negb (bool_decide (rest = [])) then parse_digits 0 rest
      else parse_digits 0 (b :: rest)
  end.

Section genesis.
Context `{HX : Hex} `{HD : HexDecode}.

Definition parse_address (hex_str context : string) : result bytes string :=
  match hex_decode hex_str with
  | Err _ => Err ("invalid hex in " +:+ context +:+ ": " +:+ hex_str)%string
  | Ok bytes =>
      if negb (blen bytes =? 32) then
        Err (context +:+ ": address has length " +:+ pretty (blen bytes) +:+ " (expected 32 bytes / 64 hex chars)")%string
      else Ok bytes
  end.

(** A literal cannot hold a quotation mark. *)
Definition quote : string := string_of_bytes [x22].

Definition parse_balance (s context : string) : result N string :=
  match parse_u128 s with
  | Some n => Ok n
  | None => Err (context +:+ ": invalid balance " +:+ quote +:+ s +:+ quote)%string
  end.

(** A running total of the allocations, which starts at 0. *)
Definition validate_allocation (p : N * GenesisAllocation) : ST N string unit :=
  let '(i, alloc) := p in
  let label := ("allocation[" +:+ pretty i +:+ "] (" +:+ ga_label alloc +:+ ")")%string in
  map_err (parse_address (ga_address alloc) label) id;;
  balance ← map_err (parse_balance (ga_balance alloc) label) id;
  total ← st_get;
  total ← ok_or (checked_add TWO128 total balance) (label +:+ ": total supply overflow")%string;
  st_modify (fun _ => total).

Definition validate_validator (p : N * GenesisValidator) : ST N string unit :=
  let '(i, val) := p in
  let label := ("validator[" +:+ pretty i +:+ "]")%string in
  map_err (parse_address (gv_address val) label) id;;
  stake ← map_err (parse_balance (gv_stake val) label) id;
  fail_if (stake <? MIN_STAKE)
    (label +:+ ": stake " +:+ pretty stake +:+ " is below MIN_STAKE " +:+ pretty MIN_STAKE)%string.

Definition validate_from (config : GenesisConfig) : ST N string unit :=
  for_each validate_allocation (enumerate_from 0 (gc_allocations config));;
  for_each validate_validator (enumerate_from 0 (gc_validators config));;
  total ← st_get;
  fail_if (negb (total =? CLAW_TOTAL_SUPPLY))
    ("total allocation " +:+ pretty total +:+ " does not equal CLAW_TOTAL_SUPPLY " +:+ pretty CLAW_TOTAL_SUPPLY)%string;;
  fail_if (bool_decide (length (gc_validators config) = 0%nat)) "genesis config must have at least one validator"%string.

Definition validate (config : GenesisConfig) : result unit string := (validate_from config 0).1.

(** [load_genesis_config]: [file] is the content of [genesis.json], if there is
    one, or why it cannot be read. *)
Definition load_genesis_config `{GJ : GenesisJson} (genesis_path : string) (file : option (result string string))
    (network : string) (node_address : option bytes) : result GenesisConfig string :=
  match file with
  | Some (Err _) => Err ("read " +:+ genesis_path)%string
  | Some (Ok content) =>
      match config_of_json content with
      | Err _ => Err ("parse " +:+ genesis_path)%string
      | Ok config => match validate config with Ok _ => Ok config | Err e => Err e end
      end
  | None =>
      let config := default_for_network network node_address in
      if negb (bool_decide (network ∈ ["devnet"; "claw-devnet"]%string)) then
        match validate config with Ok _ => Ok config | Err e => Err e end
      else Ok config
  end.

(** ** The genesis state and block *)

Definition credit_allocation (alloc : GenesisAllocation) : ST WorldState string unit :=
  addr ← map_err (parse_address (ga_address alloc) (ga_label alloc)) id;
  balance ← map_err (parse_balance (ga_balance alloc) (ga_label alloc)) id;
  st_modify (fun state => state <| ws_balances ::= entry_add TWO128 addr balance |>).

(** Takes a stake from the first allocation that can pay it. *)
Fixpoint deduct_from (allocations : list GenesisAllocation) (stake_amount : N) : ST WorldState string bool :=
  match allocations with
  | [] => mret false
  | alloc :: allocations =>
      a_addr ← map_err (parse_address (ga_address alloc) (ga_label alloc)) id;
      state ← st_get;
      if stake_amount <=? default 0 (ws_balances state !! a_addr) then
        st_modify (fun state => state <| ws_balances ::= entry_sub TWO128 a_addr stake_amount |>);;
        mret true
      else deduct_from allocations stake_amount
  end.

Definition stake_validator (allocations : list GenesisAllocation) (validator : GenesisValidator)
    : ST WorldState string unit :=
  v_addr ← map_err (parse_address (gv_address validator) "genesis_validator") id;
  stake_amount ← map_err (parse_balance (gv_stake validator) "genesis_validator_stake") id;
  state ← st_get;
  (if stake_amount <=? default 0 (ws_balances state !! v_addr) then
     st_modify (fun state => state <| ws_balances ::= entry_sub TWO128 v_addr stake_amount |>)
   else
     deducted ← deduct_from allocations stake_amount;
     fail_if (negb deducted)
       ("insufficient balance for genesis validator stake: need " +:+ pretty stake_amount)%string);;
  st_modify (fun state => state <| ws_stakes ::= <[v_addr := stake_amount]> |>).

Definition create_genesis_state (config : GenesisConfig) : result WorldState string :=
  let build :=
    for_each credit_allocation (gc_allocations config);;
    for_each (stake_validator (gc_allocations config)) (gc_validators config);;
    st_get in
  (build (default_WorldState <| ws_block_height := 0 |>)).1.

Definition create_genesis_block `{HB : Blake3} `{TC : TxCodec} `{SCd : StateCodec} (state : WorldState) (config : GenesisConfig) : Block :=
  let block := mkBlock 0 zeros32 (gc_timestamp config) zeros32 [] (state_root state) zeros32 [] [] [] in
  block <| b_hash := compute_hash block |>.

(** [build_validator_set]. *)
Fixpoint build_validator_set (validators : list GenesisValidator) : result (list (bytes * N)) string :=
  match validators with
  | [] => Ok []
  | v :: validators =>
      match parse_address (gv_address v) "validator", parse_balance (gv_stake v) "validator stake" with
      | Err e, _ => Err e
      | _, Err e => Err e
      | Ok addr, Ok stake => match build_validator_set validators with Ok l => Ok ((addr, stake) :: l) | Err e => Err e end
      end
  end.
End genesis.

(** ** The ledger at genesis *)

Section ledger.
Context `{HX : Hex} `{HD : HexDecode}.
Implicit Types (config : GenesisConfig) (s : WorldState).

(** An address and an amount as they are read, whatever the message. *)
Definition addr_of (hex_str : string) : bytes := match hex_decode hex_str with Ok b => b | Err _ => [] end.
Definition units (amount : string) : N := default 0 (parse_u128 amount).

Definition readable (hex_str amount : string) : Prop :=
  (forall context, parse_address hex_str context = Ok (addr_of hex_str))
  /\ (forall context, parse_balance amount context = Ok (units amount)).

Lemma parsed hex_str c1 a amount c2 n :
  parse_address hex_str c1 = Ok a -> parse_balance amount c2 = Ok n -> readable hex_str amount.
Proof.
  unfold readable, parse_address, parse_balance, addr_of, units. intros Ha Hn. split; intros c.
  - destruct (hex_decode hex_str) as [b|]; [| done]. by destruct (negb _).
  - by destruct (parse_u128 amount).
Qed.

(** What [validate] has checked. *)
Record checked config : Prop := {
  ck_allocations : forall a, a ∈ gc_allocations config -> readable (ga_address a) (ga_balance a);
  ck_total : lsum (fun a => units (ga_balance a)) (gc_allocations config) = CLAW_TOTAL_SUPPLY;
  ck_validators : forall v, v ∈ gc_validators config -> readable (gv_address v) (gv_stake v) /\ MIN_STAKE <= units (gv_stake v);
  ck_nonempty : gc_validators config <> [];
}.

Lemma allocations_valid l i total u total' :
  for_each validate_allocation (enumerate_from i l) total = (Ok u, total') ->
  (forall a, a ∈ l -> readable (ga_address a) (ga_balance a))
  /\ total' = total + lsum (fun a => units (ga_balance a)) l.
Proof.
  revert i total. induction l as [| a l IH]; intros i total Hrun; simpl in Hrun.
  { injection Hrun as _ <-. split; [by intros a ?%not_elem_of_nil | simpl; lia]. }
  apply bind_Ok in Hrun as (u1 & total1 & Ha & Hrun). unfold validate_allocation in Ha.
  rewrite bind_map_err in Ha. destruct (parse_address _ _) as [addr|] eqn:Haddr; [| done].
  rewrite bind_map_err in Ha. destruct (parse_balance _ _) as [n|] eqn:Hn; [| done].
  rewrite bind_get, bind_ok_or in Ha. destruct (checked_add _ _ _) as [t|] eqn:Ht; [| done].
  injection Ha as _ <-. apply checked_add_Some in Ht as [-> _].
  pose proof (parsed _ _ _ _ _ _ Haddr Hn) as Hr. pose proof (proj2 Hr "validator"%string) as Hu.
  assert (n = units (ga_balance a)) as ->.
  { unfold parse_balance in Hn, Hu. destruct (parse_u128 (ga_balance a)); [congruence | done]. }
  destruct (IH _ _ Hrun) as [Hall ->]. split; [| rewrite lsum_cons; lia].
  intros b [-> | Hb]%elem_of_cons; [done | by apply Hall].
Qed.

Lemma validators_valid l i total u total' :
  for_each validate_validator (enumerate_from i l) total = (Ok u, total') ->
  total' = total /\ forall v, v ∈ l -> readable (gv_address v) (gv_stake v) /\ MIN_STAKE <= units (gv_stake v).
Proof.
  revert i total. induction l as [| v l IH]; intros i total Hrun; simpl in Hrun.
  { injection Hrun as _ <-. split; [done | by intros a ?%not_elem_of_nil]. }
  apply bind_Ok in Hrun as (u1 & total1 & Ha & Hrun). unfold validate_validator in Ha.
  rewrite bind_map_err in Ha. destruct (parse_address _ _) as [addr|] eqn:Haddr; [| done].
  rewrite bind_map_err in Ha. destruct (parse_balance _ _) as [n|] eqn:Hn; [| done].
  apply fail_if_Ok in Ha as [-> Hmin]. destruct (IH _ _ Hrun) as [-> Hall]. split; [done |].
  intros b [-> | Hb]%elem_of_cons; [| by apply Hall]. split; [by eapply parsed |].
  unfold parse_balance, units in *. destruct (parse_u128 (gv_stake v)); [| done]. injection Hn as ->. simpl.
  by apply N.ltb_ge.
Qed.

Lemma allocations_pass l i total :
  (forall a, a ∈ l -> readable (ga_address a) (ga_balance a)) ->
  total + lsum (fun a => units (ga_balance a)) l < TWO128 ->
  for_each validate_allocation (enumerate_from i l) total = (Ok tt, total + lsum (fun a => units (ga_balance a)) l).
Proof.
  revert i total. induction l as [| a l IH]; intros i total Hr Hlt; cbn [enumerate_from for_each].
  { simpl. by rewrite N.add_0_r. }
  rewrite lsum_cons in Hlt |- *. destruct (Hr a ltac:(by left)) as [Ha Hn].
  assert (validate_allocation (i, a) total = (Ok tt, total + units (ga_balance a))) as Hrun.
  { unfold validate_allocation. rewrite bind_map_err, Ha, bind_map_err, Hn, bind_get, bind_ok_or.
    assert (checked_add TWO128 total (units (ga_balance a)) = Some (total + units (ga_balance a))) as ->
      by (apply checked_add_Some; lia). done. }
  rewrite (bind_run _ _ _ _ _ Hrun), IH; [by rewrite N.add_assoc | | lia]. intros x Hx. apply Hr. by right.
Qed.

Lemma validators_pass l i total :
  (forall v, v ∈ l -> readable (gv_address v) (gv_stake v) /\ MIN_STAKE <= units (gv_stake v)) ->
  for_each validate_validator (enumerate_from i l) total = (Ok tt, total).
Proof.
  revert i. induction l as [| v l IH]; intros i Hv; cbn [enumerate_from for_each]; [done |].
  destruct (Hv v ltac:(by left)) as [[Ha Hn] Hm].
  assert (validate_validator (i, v) total = (Ok tt, total)) as Hrun.
  { unfold validate_validator. rewrite bind_map_err, Ha, bind_map_err, Hn. unfold fail_if.
    by rewrite (proj2 (N.ltb_ge _ _)). }
  rewrite (bind_run _ _ _ _ _ Hrun). apply IH. intros w Hw. apply Hv. by right.
Qed.

Lemma checked_validate config : checked config -> validate config = Ok tt.
Proof.
  intros [Hal Ht Hv Hne]. unfold validate, validate_from.
  pose proof (allocations_pass (gc_allocations config) 0 0 Hal) as Hrun.
  rewrite (bind_run _ _ _ _ _ (Hrun ltac:(rewrite Ht; vm_compute; reflexivity))).
  rewrite (bind_run _ _ _ _ _ (validators_pass _ 0 _ Hv)), bind_get, bind_fail_if, Ht.
  change (negb (0 + CLAW_TOTAL_SUPPLY =? CLAW_TOTAL_SUPPLY)) with false. unfold fail_if.
  case_bool_decide as Hl; [| done]. by destruct (gc_validators config).
Qed.

Lemma validate_checked config : validate config = Ok tt -> checked config.
Proof.
  unfold validate. destruct (validate_from config 0) as [r total] eqn:Hrun. simpl. intros ->. unfold validate_from in Hrun.
  apply bind_Ok in Hrun as ([] & t1 & Hal & Hrun). apply bind_Ok in Hrun as ([] & t2 & Hval & Hrun).
  apply allocations_valid in Hal as [Hall ->]. apply validators_valid in Hval as [-> Hv].
  rewrite bind_get, bind_fail_if in Hrun. destruct (N.eqb_spec (0 + lsum (fun a => units (ga_balance a)) (gc_allocations config)) CLAW_TOTAL_SUPPLY) as [Ht|]; [| done].
  simpl in Hrun. apply fail_if_Ok in Hrun as [_ Hne]. constructor; [done | lia | done |].
  intros E. rewrite E in Hne. done.
Qed.

Lemma bind_fails {S E A B} (m : ST S E A) (f : A -> ST S E B) (st : S) e : (m st).1 = Err e -> ((m ≫= f) st).1 = Err e.
Proof. destruct (m st) as [r st'] eqn:Hm. simpl. intros ->. by rewrite (bind_run _ _ _ _ _ Hm). Qed.

Lemma allocations_credited l s :
  (forall a, a ∈ l -> readable (ga_address a) (ga_balance a)) ->
  map_total (ws_balances s) + lsum (fun a => units (ga_balance a)) l < TWO128 ->
  exists b, for_each credit_allocation l s = (Ok tt, s <| ws_balances := b |>)
    /\ map_total b = map_total (ws_balances s) + lsum (fun a => units (ga_balance a)) l.
Proof.
  revert s. induction l as [| a l IH]; intros s Hr Hlt; cbn [for_each].
  { exists (ws_balances s). split; [by destruct s | simpl; lia]. }
  rewrite lsum_cons in Hlt |- *. destruct (Hr a ltac:(by left)) as [Ha Hn].
  assert (credit_allocation a s
    = (Ok tt, s <| ws_balances ::= entry_add TWO128 (addr_of (ga_address a)) (units (ga_balance a)) |>)) as Hrun
    by (unfold credit_allocation; by rewrite bind_map_err, Ha, bind_map_err, Hn).
  rewrite (bind_run _ _ _ _ _ Hrun).
  destruct (IH (s <| ws_balances ::= entry_add TWO128 (addr_of (ga_address a)) (units (ga_balance a)) |>)) as (b & -> & Hb).
  - intros x Hx. apply Hr. by right.
  - upd. rewrite total_entry_add; lia.
  - exists b. split; [done |]. rewrite Hb. upd. rewrite total_entry_add; lia.
Qed.

Lemma total_taken (b : gmap bytes N) a x :
  map_total b < TWO128 -> x <= default 0 (b !! a) -> map_total (entry_sub TWO128 a x b) + x = map_total b.
Proof.
  intros Hb Hx. rewrite <- amount_of_default in Hx. pose proof (amount_le_total b a).
  rewrite total_entry_sub; lia.
Qed.

Lemma deduct_run l x s :
  (forall a, a ∈ l -> readable (ga_address a) (ga_balance a)) -> map_total (ws_balances s) < TWO128 ->
  deduct_from l x s = (Ok false, s)
  \/ exists b, deduct_from l x s = (Ok true, s <| ws_balances := b |>) /\ map_total b + x = map_total (ws_balances s).
Proof.
  intros Hr Hb. induction l as [| a l IH]; [by left |]. simpl.
  destruct (Hr a ltac:(by left)) as [Ha _]. rewrite bind_map_err, Ha, bind_get. case_match eqn:E.
  - right. rewrite bind_modify. eexists. split; [done |]. apply total_taken; [done | by apply N.leb_le].
  - apply IH. intros y Hy. apply Hr. by right.
Qed.

Definition short_of (v : GenesisValidator) : string :=
  ("insufficient balance for genesis validator stake: need " +:+ pretty (units (gv_stake v)))%string.

Lemma stake_run allocs v s :
  (forall a, a ∈ allocs -> readable (ga_address a) (ga_balance a)) -> readable (gv_address v) (gv_stake v) ->
  map_total (ws_balances s) < TWO128 ->
  (stake_validator allocs v s).1 = Err (short_of v)
  \/ exists b, stake_validator allocs v s
         = (Ok tt, s <| ws_balances := b |> <| ws_stakes ::= <[addr_of (gv_address v) := units (gv_stake v)]> |>)
       /\ map_total b + units (gv_stake v) = map_total (ws_balances s).
Proof.
  intros Hr [Ha Hn] Hb. unfold stake_validator. rewrite bind_map_err, Ha, bind_map_err, Hn, bind_get. case_match eqn:E.
  - right. rewrite bind_modify. eexists. split; [done |]. apply total_taken; [done | by apply N.leb_le].
  - rewrite bind_assoc. destruct (deduct_run allocs (units (gv_stake v)) s Hr Hb) as [Hd | (b & Hd & Ht)];
      rewrite (bind_run _ _ _ _ _ Hd), bind_fail_if; [by left |].
    right. exists b. by split.
Qed.

(** What the stakes of a list of validators make of a map of stakes. *)
Definition with_stakes (l : list GenesisValidator) (m : gmap bytes N) : gmap bytes N :=
  foldl (fun m v => <[addr_of (gv_address v) := units (gv_stake v)]> m) m l.

Lemma stake_all allocs l s :
  (forall a, a ∈ allocs -> readable (ga_address a) (ga_balance a)) ->
  (forall v, v ∈ l -> readable (gv_address v) (gv_stake v)) ->
  map_total (ws_balances s) < TWO128 ->
  (exists v, v ∈ l /\ (for_each (stake_validator allocs) l s).1 = Err (short_of v))
  \/ exists b, for_each (stake_validator allocs) l s = (Ok tt, s <| ws_balances := b |> <| ws_stakes ::= with_stakes l |>)
       /\ map_total b + lsum (fun v => units (gv_stake v)) l = map_total (ws_balances s).
Proof.
  intros Hr. revert s. induction l as [| v l IH]; intros s Hv Hb; cbn [for_each].
  { right. exists (ws_balances s). split; [by destruct s | simpl; lia]. }
  destruct (stake_run allocs v s Hr (Hv v ltac:(by left)) Hb) as [He | (b & Hs & Ht)].
  - left. exists v. split; [by left |]. by apply bind_fails.
  - rewrite (bind_run _ _ _ _ _ Hs).
    destruct (IH (s <| ws_balances := b |> <| ws_stakes ::= <[addr_of (gv_address v) := units (gv_stake v)]> |>))
      as [(w & Hw & He) | (b' & Hs' & Ht')]; [intros w Hw; apply Hv; by right | upd; lia | |].
    + left. exists w. split; [by right | done].
    + right. exists b'. rewrite Hs'. split; [done |]. rewrite lsum_cons. revert Ht'. upd. lia.
Qed.

Lemma with_stakes_total l m :
  NoDup ((fun v => addr_of (gv_address v)) <$> l) -> (forall v, v ∈ l -> m !! addr_of (gv_address v) = None) ->
  map_total (with_stakes l m) = map_total m + lsum (fun v => units (gv_stake v)) l.
Proof.
  revert m. induction l as [| v l IH]; intros m; rewrite ?fmap_cons, ?NoDup_cons; [intros; simpl; lia |].
  intros [Hv Hnd] Hm. unfold with_stakes in *. cbn [foldl]. rewrite lsum_cons, IH; [| done |].
  - rewrite msum_insert_None by (apply Hm; by left). lia.
  - intros w Hw. rewrite lookup_insert_ne; [apply Hm; by right |].
    intros E. apply Hv. rewrite E. by apply (list_elem_of_fmap_2 (fun v => addr_of (gv_address v))).
Qed.

(** What a validated configuration makes: all of the supply, in balances and
    stakes, and nothing else. *)
Lemma genesis_made config :
  checked config ->
  (exists v, v ∈ gc_validators config /\ create_genesis_state config = Err (short_of v))
  \/ exists b, create_genesis_state config
         = Ok (default_WorldState <| ws_balances := b |> <| ws_stakes := with_stakes (gc_validators config) ∅ |>)
       /\ map_total b + lsum (fun v => units (gv_stake v)) (gc_validators config) = CLAW_TOTAL_SUPPLY.
Proof.
  intros [Hal Ht Hv _]. unfold create_genesis_state.
  destruct (allocations_credited (gc_allocations config) (default_WorldState <| ws_block_height := 0 |>) Hal) as (b & Hc & Hb).
  { rewrite Ht. vm_compute. reflexivity. }
  rewrite (bind_run _ _ _ _ _ Hc). rewrite Ht in Hb.
  assert (map_total b = CLAW_TOTAL_SUPPLY) as Hb' by (rewrite Hb; vm_compute; reflexivity). clear Hb. rename Hb' into Hb.
  destruct (stake_all (gc_allocations config) (gc_validators config)
    (default_WorldState <| ws_block_height := 0 |> <| ws_balances := b |>) Hal) as [(v & Hin & He) | (b' & Hs & Ht')].
  - intros v Hin. by apply Hv.
  - upd. rewrite Hb. vm_compute. reflexivity.
  - left. exists v. split; [done |]. by apply bind_fails.
  - right. exists b'. rewrite (bind_run _ _ _ _ _ Hs). split; [reflexivity |]. revert Ht'. upd. rewrite Hb. lia.
Qed.

Lemma with_stakes_le l m : map_total (with_stakes l m) <= map_total m + lsum (fun v => units (gv_stake v)) l.
Proof.
  revert m. induction l as [| v l IH]; intros m; [simpl; lia |]. rewrite lsum_cons. cbn [with_stakes foldl].
  etrans; [apply IH |]. pose proof (total_insert m (addr_of (gv_address v)) (units (gv_stake v))). lia.
Qed.

(** A stake written over another one is lost. *)
Lemma with_stakes_lt l m :
  (forall v, v ∈ l -> 0 < units (gv_stake v)) -> (forall a x, m !! a = Some x -> 0 < x) ->
  ~ NoDup ((fun v => addr_of (gv_address v)) <$> l) \/ (exists v, v ∈ l /\ is_Some (m !! addr_of (gv_address v))) ->
  map_total (with_stakes l m) < map_total m + lsum (fun v => units (gv_stake v)) l.
Proof.
  revert m. induction l as [| v l IH]; intros m Hpos Hm Hdup.
  { destruct Hdup as [H | (v & H%not_elem_of_nil & _)]; [| done]. by destruct H; apply NoDup_nil. }
  rewrite lsum_cons. cbn [with_stakes foldl]. fold (with_stakes l).
  pose proof (total_insert m (addr_of (gv_address v)) (units (gv_stake v))) as Hins.
  pose proof (with_stakes_le l (<[addr_of (gv_address v) := units (gv_stake v)]> m)) as Hle. unfold with_stakes in *.
  destruct (m !! addr_of (gv_address v)) as [x|] eqn:Ex.
  - pose proof (Hm _ _ Ex). rewrite (mval_Some _ _ _ _ Ex) in Hins. lia.
  - specialize (IH (<[addr_of (gv_address v) := units (gv_stake v)]> m)).
    eapply N.lt_le_trans; [apply IH | lia].
    + intros w Hw. apply Hpos. by right.
    + intros a x. destruct (decide (addr_of (gv_address v) = a)) as [<- | Hne].
      * rewrite lookup_insert_eq. intros [= <-]. apply Hpos. by left.
      * rewrite lookup_insert_ne by done. apply Hm.
    + destruct Hdup as [Hnd | (w & [-> | Hw]%elem_of_cons & Hs)].
      * rewrite fmap_cons, NoDup_cons in Hnd.
        destruct (decide (addr_of (gv_address v) ∈ (fun v => addr_of (gv_address v)) <$> l)) as [Hin | Hnin].
        -- apply list_elem_of_fmap_1 in Hin as (w & E & Hw). right. exists w. split; [done |]. rewrite E, lookup_insert_eq. by eexists.
        -- left. intros Hn. by apply Hnd.
      * rewrite Ex in Hs. by destruct Hs.
      * right. exists w. split; [done |].
        destruct (decide (addr_of (gv_address v) = addr_of (gv_address w))) as [<- | Hne];
          [rewrite lookup_insert_eq; by eexists | by rewrite lookup_insert_ne].
Qed.
End ledger.

(** ** Properties *)

Section properties.
Context `{HX : Hex} `{HD : HexDecode} `{HB : Blake3} `{TC : TxCodec} `{SCd : StateCodec}.
Implicit Types (config : GenesisConfig) (s : WorldState).

Lemma with_stakes_lookup l m a x :
  NoDup ((fun v => addr_of (gv_address v)) <$> l) -> with_stakes l m !! a = Some x <->
  (exists v, v ∈ l /\ addr_of (gv_address v) = a /\ units (gv_stake v) = x)
  \/ (a ∉ (fun v => addr_of (gv_address v)) <$> l) /\ m !! a = Some x.
Proof.
  revert m. induction l as [| v l IH]; intros m Hnd.
  { simpl. split; [by right; split; [apply not_elem_of_nil |] |]. intros [(v & H%not_elem_of_nil & _) | [_ H]]; done. }
  rewrite fmap_cons, NoDup_cons in Hnd. destruct Hnd as [Hv Hnd]. cbn [with_stakes foldl]. fold (with_stakes l).
  unfold with_stakes in IH. rewrite (IH _ Hnd), fmap_cons, not_elem_of_cons.
  destruct (decide (addr_of (gv_address v) = a)) as [<- | Hne].
  - rewrite lookup_insert_eq. split.
    + intros [(w & Hw & H) | [_ [= <-]]]; [left; exists w; split; [by right | done] | left; exists v; split; [by left | done]].
    + intros [(w & [-> | Hw]%elem_of_cons & E & <-) | [[] _]]; [by right | | done]. left. by exists w.
  - rewrite lookup_insert_ne by done. split.
    + intros [(w & Hw & H) | [H1 H2]]; [left; exists w; split; [by right | done] | right; by split_and!].
    + intros [(w & [-> | Hw]%elem_of_cons & E & H) | [[_ H1] H2]]; [done | left; by exists w | by right].
Qed.

(** C27. A chain starts with exactly its supply: from a validated configuration
    with distinct validators, either no account can pay some validator's stake and
    there is no genesis, or the genesis state is sound, holds the total supply in
    balances and stakes, records the stake of each validator, at least the
    minimum, and nobody else's, and the genesis block commits to it. *)
Theorem genesis_sound config :
  validate config = Ok tt -> NoDup ((fun v => addr_of (gv_address v)) <$> gc_validators config) ->
  match create_genesis_state config with
  | Ok s =>
      sound 0 s /\ supply s = CLAW_TOTAL_SUPPLY
      /\ (forall a x, ws_stakes s !! a = Some x <->
           exists v, v ∈ gc_validators config /\ addr_of (gv_address v) = a /\ units (gv_stake v) = x)
      /\ (forall a x, ws_stakes s !! a = Some x -> MIN_STAKE <= x)
      /\ let block := create_genesis_block s config in
         b_height block = 0 /\ b_state_root block = state_root s /\ verify_hash block = true
  | Err e => exists v, v ∈ gc_validators config /\ e = short_of v
  end.
Proof.
  intros Hval%validate_checked Hnd. destruct (genesis_made config Hval) as [(v & Hv & ->) | (b & -> & Ht)]; [by exists v |].
  set (s := default_WorldState <| ws_balances := b |> <| ws_stakes := with_stakes (gc_validators config) ∅ |>).
  assert (supply s = CLAW_TOTAL_SUPPLY) as Hs.
  { change (map_total b + map_total (with_stakes (gc_validators config) ∅) + 0 + (0 + 0) = CLAW_TOTAL_SUPPLY).
    rewrite with_stakes_total; [rewrite msum_empty; lia | done | intros; apply lookup_empty]. }
  assert (forall a x, ws_stakes s !! a = Some x <->
           exists v, v ∈ gc_validators config /\ addr_of (gv_address v) = a /\ units (gv_stake v) = x) as Hst.
  { intros a x. change (ws_stakes s) with (with_stakes (gc_validators config) ∅). rewrite with_stakes_lookup by done.
    split; [intros [H | [_ H]]; [done | by rewrite lookup_empty in H] | by left]. }
  split; [| split; [done | split; [exact Hst | split; [| split; [done | split; [done |]]]]]].
  - constructor; [by rewrite Hs | apply map_Forall_empty | apply map_Forall_empty | apply map_Forall_empty].
  - intros a x (v & Hv & _ & <-)%Hst. by apply (ck_validators _ Hval).
  - unfold verify_hash. by apply bool_decide_eq_true.
Qed.

(** A validator listed twice destroys supply: the stake is deducted twice and
    recorded once, and [validate] does not look for it. *)
Theorem genesis_duplicates_lose config s :
  validate config = Ok tt -> ~ NoDup ((fun v => addr_of (gv_address v)) <$> gc_validators config) ->
  create_genesis_state config = Ok s -> supply s < CLAW_TOTAL_SUPPLY.
Proof.
  intros Hval%validate_checked Hnd Hs. destruct (genesis_made config Hval) as [(v & _ & E) | (b & E & Ht)];
    rewrite E in Hs; [done |]. injection Hs as <-.
  change (map_total b + map_total (with_stakes (gc_validators config) ∅) + 0 + (0 + 0) < CLAW_TOTAL_SUPPLY).
  pose proof (with_stakes_lt (gc_validators config) ∅) as Hlt. rewrite msum_empty in Hlt.
  enough (map_total (with_stakes (gc_validators config) ∅) < 0 + lsum (fun v => units (gv_stake v)) (gc_validators config)) by lia.
  apply Hlt; [| | by left].
  - intros v Hv. apply (ck_validators _ Hval) in Hv as [_ Hm]. unfold MIN_STAKE in Hm. lia.
  - intros a x. by rewrite lookup_empty.
Qed.
End properties.

(** ** The built-in networks *)

Definition team_address : bytes :=
  [x71; xfa; x1a; x51; x4e; x07; xc7; xc9; x6b; xf0; xc8; x25; xc2; x9d; xfc; x80; x59; xcf; xa9; x95; x31; x89; x72; xdd; x25; x8a; x4e; x31; x68; x73; xe6; x6b].
Definition testnet_validator : bytes :=
  [x53; xb6; x6a; x4d; xe4; x68; xa7; x2b; x1f; x3d; xd9; x95; xb0; x80; x73; x3d; x3b; x97; xc8; x3f; x6a; x5c; x6d; xf9; x62; xae; x76; xd2; xc9; x1a; x6c; x63].
Definition mainnet_validator : bytes :=
  [xff; xa2; x8f; x7c; x64; x69; xab; x74; x90; xce; x54; x0a; x0e; x49; xaa; x64; xbc; x77; xb4; xdc; x5b; xb2; xa8; x3b; x17; xdd; xd1; x0a; x9c; x8e; xa6; x2e].

Section networks.
Context `{HX : Hex} `{HD : HexDecode} `{!HexLaws}.

Lemma encoded_readable b amount n : length b = 32%nat -> parse_u128 amount = Some n -> readable (hex_encode b) amount.
Proof.
  intros Hb Hn. apply (parsed _ ""%string b _ ""%string n).
  - unfold parse_address. rewrite hex_decode_encode. unfold blen. by rewrite Hb.
  - unfold parse_balance. by rewrite Hn.
Qed.

Lemma addr_of_encode b : addr_of (hex_encode b) = b.
Proof. unfold addr_of. by rewrite hex_decode_encode. Qed.

Lemma team_hex : "71fa1a514e07c7c96bf0c825c29dfc8059cfa995318972dd258a4e316873e66b"%string = hex_encode team_address.
Proof. rewrite hex_encode_digits. vm_compute. reflexivity. Qed.
Lemma testnet_hex : "53b66a4de468a72b1f3dd995b080733d3b97c83f6a5c6df962ae76d2c91a6c63"%string = hex_encode testnet_validator.
Proof. rewrite hex_encode_digits. vm_compute. reflexivity. Qed.
Lemma mainnet_hex : "ffa28f7c6469ab7490ce540a0e49aa64bc77b4dc5bb2a83b17ddd10a9c8ea62e"%string = hex_encode mainnet_validator.
Proof. rewrite hex_encode_digits. vm_compute. reflexivity. Qed.

(** The five standard shares. *)
Definition standard_shares : list (bytes * N) :=
  [ (genesis_address 1, 400000000000000000); (genesis_address 2, 250000000000000000); (team_address, 150000000000000000);
    (genesis_address 4, 100000000000000000); (genesis_address 5, 100000000000000000) ].

Lemma credit_run a s :
  readable (ga_address a) (ga_balance a) ->
  credit_allocation a s
  = (Ok tt, s <| ws_balances ::= entry_add TWO128 (addr_of (ga_address a)) (units (ga_balance a)) |>).
Proof. intros [Ha Hn]. unfold credit_allocation. by rewrite bind_map_err, Ha, bind_map_err, Hn. Qed.

Lemma standard_readable a : a ∈ standard_allocations -> readable (ga_address a) (ga_balance a).
Proof.
  unfold standard_allocations. rewrite team_hex. intros Ha.
  repeat (apply elem_of_cons in Ha as [-> | Ha]; [eapply encoded_readable; vm_compute; reflexivity |]).
  by apply not_elem_of_nil in Ha.
Qed.

Lemma standard_total : lsum (fun a => units (ga_balance a)) standard_allocations = CLAW_TOTAL_SUPPLY.
Proof. vm_compute. reflexivity. Qed.

Lemma credits_standard s :
  ws_balances s = ∅ ->
  for_each credit_allocation standard_allocations s = (Ok tt, s <| ws_balances := list_to_map standard_shares |>).
Proof.
  intros Hs. pose proof standard_readable as Hr. unfold standard_allocations in *.
  do 5 (cbn [for_each]; erewrite bind_run by (apply credit_run, Hr; repeat first [by left | right])).
  cbn [for_each]. unfold mret, ST_ret. f_equal. clear Hr. cbn [ga_address ga_balance]. unfold genesis_address_hex.
  rewrite team_hex, !addr_of_encode. destruct s. simpl in Hs. subst. vm_compute. reflexivity.
Qed.

(** A standard network with one validator that is not among the allocations: its
    stake comes out of the node incentives. *)
Lemma standard_genesis id ts b amount x :
  length b = 32%nat -> parse_u128 amount = Some x -> b ∉ standard_shares.*1 ->
  MIN_STAKE <= x <= 400000000000000000 ->
  let config := mkGenesisConfig id ts standard_allocations [mkGenesisValidator (hex_encode b) amount] in
  validate config = Ok tt
  /\ create_genesis_state config
     = Ok (default_WorldState <| ws_balances := entry_sub TWO128 (genesis_address 1) x (list_to_map standard_shares) |>
                              <| ws_stakes := {[ b := x ]} |>).
Proof.
  intros Hb Hx Hnin Hbound config. pose proof (encoded_readable b amount x Hb Hx) as Hr.
  assert (units amount = x) as Hu by (unfold units; by rewrite Hx). split.
  - apply checked_validate. constructor; [apply standard_readable | apply standard_total | | done].
    intros v [-> | Hv]%elem_of_cons; [split; [done | simpl; rewrite Hu; lia] | by apply not_elem_of_nil in Hv].
  - unfold create_genesis_state, config. cbn [gc_allocations gc_validators].
    assert (ws_balances (default_WorldState <| ws_block_height := 0 |>) = ∅) as Hs0 by reflexivity.
    rewrite (bind_run _ _ _ _ _ (credits_standard _ Hs0)). cbn [for_each].
    assert (stake_validator standard_allocations (mkGenesisValidator (hex_encode b) amount)
      (default_WorldState <| ws_block_height := 0 |> <| ws_balances := list_to_map standard_shares |>)
      = (Ok tt, default_WorldState <| ws_balances := entry_sub TWO128 (genesis_address 1) x (list_to_map standard_shares) |>
                              <| ws_stakes := {[ b := x ]} |>)) as Hrun; [| by rewrite bind_assoc, (bind_run _ _ _ _ _ Hrun)].
    destruct Hr as [Ha Hn]. unfold stake_validator. cbn [gv_address gv_stake].
    rewrite bind_map_err, Ha, bind_map_err, Hn, addr_of_encode, Hu, bind_get. upd.
    rewrite (not_elem_of_list_to_map_1 _ _ Hnin). cbn [from_option default].
    assert ((x <=? 0) = false) as -> by (apply N.leb_gt; unfold MIN_STAKE in *; lia).
    cbv iota. rewrite bind_assoc.
    set (s0 := default_WorldState <| ws_block_height := 0 |> <| ws_balances := list_to_map standard_shares |>) in *.
    assert (deduct_from standard_allocations x s0
      = (Ok true, s0 <| ws_balances ::= entry_sub TWO128 (genesis_address 1) x |>)) as Hd.
    { unfold standard_allocations. cbn [deduct_from ga_address ga_label]. unfold genesis_address_hex at 1.
      rewrite bind_map_err, (proj1 (encoded_readable (genesis_address 1) "0" 0 ltac:(done) ltac:(done))), addr_of_encode, bind_get.
      change (default 0 (ws_balances s0 !! genesis_address 1)) with 400000000000000000.
      by rewrite (proj2 (N.leb_le _ _)) by lia. }
    rewrite (bind_run _ _ _ _ _ Hd), bind_fail_if. reflexivity.
Qed.

(** The networks that are built in start: the mainnet and testnet
    configurations pass validation, and their genesis state holds the five
    standard shares with the stake of the one validator, a million tokens, taken
    from the node incentives. *)
Theorem networks_start network node :
  network ∈ ["mainnet"; "claw-mainnet-1"; "testnet"; "claw-testnet-1"]%string ->
  let config := default_for_network network node in
  let validator := if bool_decide (network ∈ ["mainnet"; "claw-mainnet-1"]%string) then mainnet_validator
                   else testnet_validator in
  validate config = Ok tt
  /\ create_genesis_state config
     = Ok (default_WorldState
             <| ws_balances := <[genesis_address 1 := 399000000000000000]> (list_to_map standard_shares) |>
             <| ws_stakes := {[ validator := 1000000000000000 ]} |>).
Proof.
  intros Hnet config validator. unfold config, validator, default_for_network.
  destruct (bool_decide_reflect (network ∈ ["mainnet"; "claw-mainnet-1"]%string)) as [Hm | Hm].
  - unfold default_mainnet. rewrite mainnet_hex. apply standard_genesis; [done | vm_compute; reflexivity | | vm_compute; by split].
    vm_compute. set_solver.
  - rewrite bool_decide_eq_true_2 by set_solver. unfold default_testnet. rewrite testnet_hex.
    apply standard_genesis; [done | vm_compute; reflexivity | | vm_compute; by split]. vm_compute. set_solver.
Qed.

Lemma for_each_app {S E A} (f : A -> ST S E unit) l1 l2 (st : S) :
  for_each f (l1 ++ l2) st = (for_each f l1;; for_each f l2) st.
Proof.
  revert st. induction l1 as [| x l1 IH]; intros st; [done |]. cbn [app for_each]. rewrite bind_assoc.
  unfold mbind, ST_bind. destruct (f x st) as [[u|e] st']; [| done]. apply IH.
Qed.

Lemma total_add_new (m : gmap bytes N) a x : m !! a = None -> entry_add TWO128 a x m = <[a := wadd TWO128 0 x]> m.
Proof. intros Hm. unfold entry_add. by rewrite Hm. Qed.

(** The built-in devnet: its faucet's allocation is exactly the stake of the node
    that owns it, so the faucet starts empty, and the supply is above the total. *)
Lemma devnet_faucet_empty node :
  length node = 32%nat -> node ∉ standard_shares.*1 ->
  exists s, create_genesis_state (default_devnet (Some node)) = Ok s
    /\ ws_balances s !! node = Some 0 /\ ws_stakes s = {[ node := 1000000000000000 ]}
    /\ supply s = CLAW_TOTAL_SUPPLY + 1000000000000000.
Proof.
  intros Hlen Hnin. set (x := 1000000000000000%N).
  assert (parse_u128 (pretty x) = Some x) as Hx by (vm_compute; reflexivity).
  pose proof (encoded_readable node (pretty x) x Hlen Hx) as Hr.
  assert (units (pretty x) = x) as Hu by (unfold units; by rewrite Hx).
  set (s0 := default_WorldState <| ws_block_height := 0 |>). set (shares := list_to_map standard_shares : gmap bytes N).
  assert (shares !! node = None) as Hnew by (by apply not_elem_of_list_to_map_1).
  set (funded := s0 <| ws_balances := <[node := x]> shares |>).
  set (s := s0 <| ws_balances := <[node := 0]> shares |> <| ws_stakes := {[ node := x ]} |>).
  exists s. split; [| split; [apply lookup_insert_eq | split; [done |]]].
  - unfold create_genesis_state, default_devnet. cbn [gc_allocations gc_validators from_option]. fold x s0.
    set (allocs := standard_allocations ++ _).
    assert (for_each credit_allocation allocs s0 = (Ok tt, funded)) as Hc.
    { unfold allocs. rewrite for_each_app. assert (ws_balances s0 = ∅) as Hs0 by reflexivity.
      rewrite (bind_run _ _ _ _ _ (credits_standard _ Hs0)). cbn [for_each].
      erewrite bind_run by (apply credit_run; exact Hr). cbn [ga_address ga_balance]. rewrite addr_of_encode, Hu.
      unfold mret, ST_ret. f_equal. unfold funded. fold shares.
        assert (<[node := x]> shares = entry_add TWO128 node x shares) as -> by (by rewrite (total_add_new _ _ _ Hnew)).
      clearbody shares. reflexivity. }
    rewrite (bind_run _ _ _ _ _ Hc). cbn [for_each].
    assert (stake_validator allocs (mkGenesisValidator (hex_encode node) (pretty x)) funded = (Ok tt, s)) as Hst.
    { destruct Hr as [Ha Hn]. unfold stake_validator. cbn [gv_address gv_stake].
      rewrite bind_map_err, Ha, bind_map_err, Hn, addr_of_encode, Hu, bind_get.
      assert (ws_balances funded !! node = Some x) as -> by apply lookup_insert_eq. cbn [from_option default id].
      rewrite N.leb_refl, bind_modify. unfold st_modify. f_equal.
      assert (entry_sub TWO128 node x (<[node := x]> shares) = <[node := 0]> shares) as Hsub
        by (unfold entry_sub; by rewrite lookup_insert_eq, insert_insert_eq).
      unfold s. rewrite <- Hsub. clearbody shares. reflexivity. }
    rewrite bind_assoc, (bind_run _ _ _ _ _ Hst). reflexivity.
  - assert (map_total shares = CLAW_TOTAL_SUPPLY) as Ht by (vm_compute; reflexivity). clear Hr Hu. clearbody shares.
    change (map_total (<[node := 0]> shares) + map_total {[ node := x ]} + 0 + (0 + 0) = CLAW_TOTAL_SUPPLY + x).
    rewrite msum_insert_None by done. rewrite <- (insert_empty node x), msum_insert_None, msum_empty by apply lookup_empty.
    rewrite Ht. lia.
Qed.
End networks.

(** ** Witnesses *)

Definition toy_digit (n : N) : byte := byte_of_N (if n <? 10 then 48 + n else 87 + n).
Definition toy_digits (x : byte) : bytes := toy_digit <$> [Byte.to_N x / 16; Byte.to_N x mod 16].
Definition toy_nibble (b : byte) : option N :=
  if between 48 57 b then Some (Byte.to_N b - 48)
  else if between 97 102 b then Some (Byte.to_N b - 87)
  else if between 65 70 b then Some (Byte.to_N b - 55)
  else None.
Fixpoint toy_undigits (bs : bytes) : option bytes :=
  match bs with
  | [] => Some []
  | a :: b :: bs => x ← toy_nibble a; y ← toy_nibble b; l ← toy_undigits bs; Some (byte_of_N (16 * x + y) :: l)
  | _ => None
  end.

Definition plain_hex : Hex := fun b => string_of_bytes (b ≫= toy_digits).
Definition plain_hex_decode : HexDecode := fun s =>
  match toy_undigits (as_bytes s) with Some b => Ok b | None => Err "Invalid character"%string end.

#[local] Existing Instance plain_hex.
#[local] Existing Instance plain_hex_decode.
#[local] Existing Instance toy_blake3.
#[local] Existing Instance toy_tx_codec.
#[local] Existing Instance toy_codec.

Lemma nibbles x :
  toy_nibble (toy_digit (Byte.to_N x / 16)) = Some (Byte.to_N x / 16)
  /\ toy_nibble (toy_digit (Byte.to_N x mod 16)) = Some (Byte.to_N x mod 16).
Proof. destruct x; split; vm_compute; reflexivity. Qed.

Lemma undigits b : toy_undigits (b ≫= toy_digits) = Some b.
Proof.
  induction b as [| x b IH]; [done |]. rewrite bind_cons. destruct (nibbles x) as [H1 H2].
  cbn [toy_digits fmap list_fmap app toy_undigits]. rewrite H1, H2, IH. cbn [mbind option_bind].
  assert (16 * (Byte.to_N x / 16) + Byte.to_N x mod 16 = Byte.to_N x) as -> by (symmetry; by apply N.div_mod).
  by rewrite byte_of_to_N.
Qed.

Lemma plain_hex_laws : HexLaws.
Proof.
  constructor; [| done]. intros b. unfold hex_decode, plain_hex_decode, hex_encode, plain_hex, as_bytes, string_of_bytes.
  by rewrite String.list_byte_of_string_of_list_byte, undigits.
Qed.

Lemma networks_start_witness :
  exists s, create_genesis_state default_mainnet = Ok s /\ ws_stakes s !! mainnet_validator = Some 1000000000000000.
Proof.
  destruct (networks_start (H:=plain_hex_laws) "mainnet" None ltac:(left)) as [_ H]. eexists. split; [exact H |]. reflexivity.
Defined.

(** Everything to one account, which stakes the minimum. *)
Definition toy_config (validators : list GenesisValidator) : GenesisConfig :=
  mkGenesisConfig "toy" 1000 [mkGenesisAllocation (hex_encode (toy_addr 11)) "1000000000000000000" "all"] validators.
Definition toy_staker : GenesisValidator := mkGenesisValidator (hex_encode (toy_addr 11)) "+10000000000000".

Lemma genesis_sound_witness :
  exists s, create_genesis_state (toy_config [toy_staker]) = Ok s /\ sound 0 s /\ supply s = CLAW_TOTAL_SUPPLY.
Proof.
  assert (is_ok (create_genesis_state (toy_config [toy_staker])) = true) as Hok by (vm_compute; reflexivity).
  assert (validate (toy_config [toy_staker]) = Ok tt) as Hval by (vm_compute; reflexivity).
  pose proof (genesis_sound (toy_config [toy_staker]) Hval (NoDup_singleton _)) as H.
  destruct (create_genesis_state (toy_config [toy_staker])) as [s|e]; [| discriminate Hok].
  exists s. destruct H as (H1 & H2 & _). by split_and!.
Defined.

Lemma genesis_duplicates_lose_witness :
  exists s, create_genesis_state (toy_config [toy_staker; toy_staker]) = Ok s /\ supply s < CLAW_TOTAL_SUPPLY.
Proof.
  assert (is_ok (create_genesis_state (toy_config [toy_staker; toy_staker])) = true) as Hok by (vm_compute; reflexivity).
  destruct (create_genesis_state (toy_config [toy_staker; toy_staker])) as [s|e] eqn:E; [| discriminate Hok].
  exists s. split; [done |]. apply (genesis_duplicates_lose (toy_config [toy_staker; toy_staker]) s); [vm_compute; reflexivity | | exact E].
  intros H. apply NoDup_cons in H as [H _]. apply H. left.
Defined.
