(* ===== verification/Agreement.v ===== *)
(** * Agreement between the producer and the validators of a block

    A produced block passes the validation of a node with the same view of the
    chain, which ends in the same ledger; what the quorum rule does to it; and
    what the check-in cache feeds into blocks. *)

From S2P Require Import Prelude Interfaces Types Concrete Crypto ConsensusTypes Election Slashing ValidatorSet Vm World HandlerBase Contracts Store ApplyTx Rewards Epochs Node Chain ConcreteState ConcreteTx ConcreteNode BlockLedger.

(** ** A transaction's index only reaches its events *)

Definition result_map {A B E} (f : A -> B) (r : result A E) : result B E :=
  match r with Ok a => Ok (f a) | Err e => Err e end.

(** Two computations with one outcome, seen through [f]. *)
Definition same_by {A B} (f : A -> B) (m1 m2 : handler A) : Prop :=
  forall s, (m1 s).2 = (m2 s).2 /\ result_map f (m1 s).1 = result_map f (m2 s).1.

Section same_run.
Context {A B C D : Type}.
Implicit Types (f : A -> B).

Lemma same_refl f (m : handler A) : same_by f m m.
Proof. by intros s. Qed.

Lemma same_ret f (a b : A) : f a = f b -> same_by f (mret a) (mret b).
Proof. intros Hf s. split; [done |]. simpl. by rewrite Hf. Qed.

Lemma same_bind f (m : handler C) (g1 g2 : C -> handler A) :
  (forall c, same_by f (g1 c) (g2 c)) -> same_by f (m ≫= g1) (m ≫= g2).
Proof. intros Hg s. rewrite !bind_step. destruct (m s) as [[c|e] s']; [apply Hg | done]. Qed.

Lemma same_bind2 f (h : C -> D) (m1 m2 : handler C) (g1 g2 : C -> handler A) :
  same_by h m1 m2 -> (forall c1 c2, h c1 = h c2 -> same_by f (g1 c1) (g2 c2)) ->
  same_by f (m1 ≫= g1) (m2 ≫= g2).
Proof.
  intros Hm Hg s. rewrite !bind_step. destruct (Hm s) as [H1 H2].
  destruct (m1 s) as [[c1|e1] s1], (m2 s) as [[c2|e2] s2]; simpl in *; subst; try done.
  - apply Hg. congruence.
  - injection H2 as ->. done.
Qed.
End same_run.

Ltac same_step :=
  match goal with
  | |- same_by _ (?m ≫= _) (?m ≫= _) => apply same_bind; intros ?
  | |- same_by _ (mret _) (mret _) => apply same_ret; reflexivity
  | |- same_by _ (match ?x with _ => _ end) _ => destruct x
  | |- same_by _ ?m ?m => apply same_refl
  end.
Ltac same_tac := repeat (cbv beta zeta; same_step).

Section index.
Context `{HB : Blake3} `{HE : Ed25519} `{TC : TxCodec} `{HX : Hex} `{VM : VmEngine} `{VS : VmSchedule}.
Implicit Types (tx : Transaction).

Lemma deploy_index tx i j : same_by snd (handle_contract_deploy tx i) (handle_contract_deploy tx j).
Proof. unfold handle_contract_deploy. same_tac. Qed.

Lemma call_index tx i j : same_by snd (handle_contract_call tx i) (handle_contract_call tx j).
Proof. unfold handle_contract_call. same_tac. Qed.

Lemma migration_index tx i j p :
  same_by (fun r => (r.1.1.1.2, r.1.1.2, r.1.2, r.2)) (run_migration tx i p) (run_migration tx j p).
Proof. unfold run_migration. same_tac. Qed.

Lemma upgrade_index tx i j :
  same_by snd (handle_contract_upgrade_execute tx i) (handle_contract_upgrade_execute tx j).
Proof.
  unfold handle_contract_upgrade_execute. repeat (cbv beta zeta; match goal with
    | |- same_by _ (run_migration _ _ _ ≫= _) _ => fail 1 | _ => same_step end).
  eapply same_bind2; [apply migration_index |].
  intros [[[[e1 f1] r1] v1] l1] [[[[e2 f2] r2] v2] l2] [= -> -> -> ->]. same_tac.
Qed.

Lemma dispatch_index tx i j : same_by snd (dispatch tx i) (dispatch tx j).
Proof.
  unfold dispatch, with_receipt. destruct (tx_type tx); try apply same_refl.
  all: eapply same_bind2; [first [apply deploy_index | apply call_index | apply upgrade_index] |].
  all: intros [e1 r1] [e2 r2]; simpl; intros ->; same_tac.
Qed.

Lemma apply_tx_index tx i j : same_by fst (apply_tx tx i) (apply_tx tx j).
Proof.
  unfold apply_tx. apply same_bind. intros _ w. unfold finish_tx. cbv zeta.
  destruct (dispatch_index tx i j w) as [H1 H2].
  destruct (dispatch tx i w) as [[[e1 r1]|e1] w1], (dispatch tx j w) as [[[e2 r2]|e2] w2]; simpl in *; subst; try done.
  - injection H2 as ->. done.
  - injection H2 as ->. done.
Qed.
End index.

(** ** The transactions of a produced block *)

Section inclusion.
Context `{HB : Blake3} `{HE : Ed25519} `{TC : TxCodec} `{HX : Hex} `{VM : VmEngine} `{VS : VmSchedule}.
Implicit Types (tx : Transaction) (w : WorldState).

(** Along the run from [w], every rejected transaction left the state alone;
    [rejected_tx_rolls_back] says for which transactions that is certain. *)
Fixpoint rejections_clean (txs : list Transaction) (w : WorldState) : Prop :=
  match txs with
  | [] => True
  | tx :: txs =>
      (is_ok (apply_tx tx 0 w).1 = false -> (apply_tx tx 0 w).2 = w)
      /\ rejections_clean txs (apply_tx tx 0 w).2
  end.

(** A validator that runs the included transactions alone gets the producer's
    fees and state. *)
Lemma included_replay txs : forall i j included total evs w included' total' evs' w',
  rejections_clean txs w ->
  include_txs txs i included total evs w = (included', total', evs', w') ->
  exists new, included' = included ++ new /\ sublist new txs
    /\ apply_block_txs new j total w = Ok (total', w').
Proof.
  induction txs as [|tx txs IH]; intros i j included total evs w included' total' evs' w' Hc Hrun; simpl in Hrun.
  { injection Hrun as <- <- <- <-. exists []. rewrite app_nil_r. by split_and!. }
  destruct Hc as [Hrej Hc]. destruct (apply_tx_index tx 0 i w) as [H1 H2].
  destruct (apply_tx tx 0 w) as [[[fee0 e0]|e0] w0], (apply_tx tx i w) as [[[fee e]|e] w1] eqn:Hi;
    simpl in H1, H2, Hrej, Hc; subst w1; try done.
  - injection H2 as ->. destruct (apply_tx_index tx i j w) as [H3 H4]. rewrite Hi in H3, H4. simpl in H3, H4.
    apply (IH _ (u32_add j 1)) in Hrun as (new & -> & Hsub & Hnew); [| done].
    exists (tx :: new). rewrite <- app_assoc. split_and!; [done | by constructor |]. simpl.
    destruct (apply_tx tx j w) as [[[fee2 e2]|e2] w2]; simpl in H3, H4; subst w2; [| done].
    injection H4 as <-. done.
  - specialize (Hrej eq_refl). subst w0.
    apply (IH _ j) in Hrun as (new & -> & Hsub & Hnew); [| done].
    exists new. split_and!; [done | by constructor | done].
Qed.
End inclusion.

(** ** The check-ins of a produced block *)

Section pending_checkins.
Context (state : WorldState).
Implicit Types (c : CheckinCache) (by_miner m : gmap bytes MinerCheckinWitness).

(** A witness of the cache's entry for [e] that is not credited yet. *)
Definition cached c (e : N) (w : MinerCheckinWitness) : Prop :=
  (exists m k, c !! e = Some m /\ m !! k = Some w) /\ already_credited state e w = false.

Definition collected c (es : list N) by_miner : Prop :=
  forall k w, by_miner !! k = Some w -> k = w_miner w /\ exists e, e ∈ es /\ cached c e w.

Lemma collected_fold c es e l by_miner :
  e ∈ es -> (forall w, w ∈ l -> exists m k, c !! e = Some m /\ m !! k = Some w) ->
  collected c es by_miner ->
  collected c es (foldl (fun acc w => if already_credited state e w then acc else keep_first w acc) by_miner l).
Proof.
  intros He. revert by_miner. induction l as [|w l IH]; intros by_miner Hl Hb; simpl; [done |].
  apply IH; [intros w' Hw'; apply Hl; by right |].
  destruct (already_credited state e w) eqn:Hc; [done |]. unfold keep_first.
  destruct (by_miner !! w_miner w); [done |]. intros k w' [[<- <-] | [_ Hk]]%lookup_insert_Some; [| by apply Hb].
  split; [done |]. exists e. split; [done |]. split; [apply Hl; left | done].
Qed.

Lemma collected_epochs c es : forall es0 by_miner,
  (forall e, e ∈ es0 -> e ∈ es) -> collected c es by_miner ->
  collected c es (foldl (collect_epoch state c) by_miner es0).
Proof.
  induction es0 as [|e es0 IH]; intros by_miner Hsub Hb; simpl; [done |].
  apply IH; [intros e' He'; apply Hsub; by right |]. unfold collect_epoch.
  destruct (c !! e) as [m|] eqn:Hm; [| done]. apply collected_fold; [apply Hsub; left | | done].
  intros w ([k w'] & -> & Hin%elem_of_map_to_list)%list_elem_of_fmap. eauto.
Qed.

Lemma get_pending_spec epoch v3_1 c :
  (forall w, w ∈ get_pending epoch state v3_1 c ->
     exists e, (e = epoch \/ v3_1 = true /\ e = epoch - 1) /\ cached c e w)
  /\ NoDup (w_miner <$> get_pending epoch state v3_1 c).
Proof.
  unfold get_pending. set (es := if v3_1 then [epoch; sat_sub epoch 1] else [epoch]).
  set (by_miner := foldl _ _ es).
  assert (collected c es by_miner) as Hcol by (by apply collected_epochs). clearbody by_miner. split.
  - intros w ([k w'] & -> & Hin%elem_of_map_to_list)%list_elem_of_fmap.
    destruct (Hcol _ _ Hin) as [_ (e & He & Hc)]. exists e. split; [| done]. subst es. destruct v3_1.
    + apply elem_of_cons in He as [-> | He]; [by left | right]. by apply list_elem_of_singleton in He.
    + left. by apply list_elem_of_singleton in He.
  - assert ((map_to_list by_miner).*1 = w_miner <$> (map_to_list by_miner).*2) as Heq.
    { rewrite <- list_fmap_compose. apply list_fmap_ext. intros i [k w] Hi. simpl.
      apply list_elem_of_lookup_2, elem_of_map_to_list in Hi. by destruct (Hcol _ _ Hi). }
    rewrite <- Heq. apply NoDup_fst_map_to_list.
Qed.
End pending_checkins.

Section witnesses.
Context `{HB : Blake3} `{HE : Ed25519} `{HX : Hex} `{RD : Redb} `{SC : StoreCodec}.
Implicit Types (db : Db) (w : WorldState) (wit : MinerCheckinWitness).

(** The hash of the block stored at a height. *)
Definition known_hash (height : N) db : option bytes :=
  match get_block height db with Ok (Some b) => Some (b_hash b) | _ => None end.

(** What [validate_checkin_witness] and validation check of a witness, beyond
    registration and the epoch. *)
Record witness_valid db (latest : N) wit : Prop := {
  wv_range : u64_mul (w_epoch wit) MINER_EPOCH_LENGTH <= w_ref_block_height wit <= latest;
  wv_known : known_hash (w_ref_block_height wit) db = Some (w_ref_block_hash wit);
  wv_signature : checked_verify (w_miner wit) (checkin_signable_bytes (w_epoch wit) (w_ref_block_hash wit))
                   (w_signature wit) = true;
}.

(** Every cached witness was checked when it was cached, under its own epoch. *)
Definition cache_valid db (latest : N) (c : CheckinCache) : Prop :=
  forall e m k wit, c !! e = Some m -> m !! k = Some wit -> w_epoch wit = e /\ witness_valid db latest wit.

Lemma check_witness_Ok h db w seen wit e mi :
  witness_valid db (h - 1) wit -> 0 < h -> w_epoch wit = e ->
  (e = h / MINER_EPOCH_LENGTH \/ (CHECKIN_V3_1_HEIGHT <=? h) = true /\ e = h / MINER_EPOCH_LENGTH - 1) ->
  ws_miners w !! w_miner wit = Some mi -> mi_last_checkin_epoch mi <> h / MINER_EPOCH_LENGTH ->
  w_miner wit ∉ seen -> check_witness h db w seen wit = Ok tt.
Proof.
  intros [Hr Hk Hs] Hh He Hepoch Hmi Hlast Hseen. unfold check_witness. cbv zeta. rewrite Hmi, He.
  assert ((CHECKIN_V3_1_HEIGHT <=? h) && negb (e =? h / MINER_EPOCH_LENGTH)
          && negb (e =? sat_sub (h / MINER_EPOCH_LENGTH) 1) = false) as ->.
  { destruct Hepoch as [-> | [-> ->]]; rewrite N.eqb_refl; [| apply andb_false_r].
    by rewrite andb_false_r. }
  assert (negb (CHECKIN_V3_1_HEIGHT <=? h) && negb (e =? h / MINER_EPOCH_LENGTH) = false) as ->.
  { destruct Hepoch as [-> | [-> _]]; [| done]. rewrite N.eqb_refl. apply andb_false_r. }
  rewrite He in Hr. destruct (N.ltb_spec (w_ref_block_height wit) (u64_mul e MINER_EPOCH_LENGTH)); [lia |].
  destruct (N.leb_spec h (w_ref_block_height wit)); [lia |]. simpl orb. cbv iota.
  unfold known_hash in Hk. destruct (get_block _ db) as [[known|]|]; [| done | done]. injection Hk as Hk.
  rewrite (bool_decide_eq_true_2 _ Hk). simpl negb. cbv iota. unfold checked_verify in Hs. rewrite He in Hs.
  apply andb_prop in Hs as [-> ->]. simpl negb. cbv iota.
  destruct (N.eqb_spec (mi_last_checkin_epoch mi) (h / MINER_EPOCH_LENGTH)); [done |].
  by rewrite bool_decide_eq_false_2.
Qed.

Lemma check_witnesses_Ok h db w : forall wits seen,
  (forall wit seen', wit ∈ wits -> w_miner wit ∉ seen' -> check_witness h db w seen' wit = Ok tt) ->
  NoDup (w_miner <$> wits) -> (forall wit, wit ∈ wits -> w_miner wit ∉ seen) ->
  check_witnesses h db w seen wits = Ok tt.
Proof.
  induction wits as [|wit wits IH]; intros seen Hall Hnd Hseen; simpl; [done |].
  rewrite Hall; [| left | apply Hseen; left]. rewrite fmap_cons in Hnd. apply NoDup_cons in Hnd as [Hn Hnd].
  apply IH; [intros wit' seen' Hin; apply Hall; by right | done |].
  intros wit' Hin Hc. apply elem_of_cons in Hc as [Heq | Hc]; [| by apply (Hseen wit'); [right |]].
  apply Hn. rewrite <- Heq. by apply list_elem_of_fmap_2.
Qed.

(** Two stores know the same hashes up to a height. *)
Definition hashes_agree (latest : N) db db' : Prop :=
  forall n, n <= latest -> known_hash n db' = known_hash n db.

Lemma known_hash_ext db db' latest wit :
  hashes_agree latest db db' -> witness_valid db latest wit -> witness_valid db' latest wit.
Proof. intros Hk [H1 H2 H3]. constructor; [done | by rewrite Hk by lia | done]. Qed.

(** The witnesses a producer takes from its cache pass the checks of any node
    that knows the same block hashes. *)
Lemma pending_accepted h db db' w c :
  0 < h -> cache_valid db (h - 1) c -> hashes_agree (h - 1) db db' ->
  check_witnesses h db' w []
    (sort_by witness_leb (get_pending (h / MINER_EPOCH_LENGTH) w (CHECKIN_V3_1_HEIGHT <=? h) c)) = Ok tt.
Proof.
  intros Hh Hc Hk. destruct (get_pending_spec w (h / MINER_EPOCH_LENGTH) (CHECKIN_V3_1_HEIGHT <=? h) c) as [Hp Hnd].
  set (l := get_pending _ _ _ _) in *. clearbody l. apply check_witnesses_Ok.
  - intros wit seen Hin Hseen. rewrite elem_of_sort_by in Hin.
    destruct (Hp _ Hin) as (e & He & (m & k & Hm & Hkw) & Hcred).
    destruct (Hc _ _ _ _ Hm Hkw) as [Hwe Hv].
    unfold already_credited in Hcred. destruct (ws_miners w !! w_miner wit) as [mi|] eqn:Hmi; [| done].
    apply N.leb_gt in Hcred. eapply check_witness_Ok; try done; [by eapply known_hash_ext |].
    destruct He as [-> | [_ ->]]; lia.
  - by rewrite (sort_by_perm witness_leb l).
  - by intros wit _ ?%elem_of_nil.
Qed.
End witnesses.

(** ** The block a node produces *)

Section produced.
Context `{HB : Blake3} `{HE : Ed25519} `{TC : TxCodec} `{HX : Hex} `{VM : VmEngine} `{VS : VmSchedule}.
Context `{SCd : StateCodec} `{RD : Redb} `{SC : StoreCodec} `{NC : NodeCodec} `{KE : KeyErrors}.
Implicit Types (inner peer : ChainInner Db).

Definition pending_txs inner : list Transaction :=
  take (N.to_nat MAX_BLOCK_TXS) (sort_by tx_leb (ch_mempool inner)).

(** Whose turn it was, and the slashing state after recording it. *)
Definition turn_taken inner (sl : SlashingState) : Prop :=
  (primary inner = Some (ch_validator_address inner) /\ sl = ch_slashing inner)
  \/ exists p, primary inner = Some p /\ p <> ch_validator_address inner
       /\ fallback inner = Some (ch_validator_address inner)
       /\ sl = record_missed_slot p (record_assigned_slot p (ch_slashing inner)).

Definition unsigned_block (clock : Clock) inner included root events wits : Block :=
  mkBlock (next_height inner) (b_hash (ch_latest_block inner)) (ck_now clock) (ch_validator_address inner)
    included root zeros32 [] events wits.

(** A successful production, step by step. *)
Definition produced (clock : Clock) inner (block : Block) (inner' : ChainInner Db) : Prop :=
  exists sl included total evs w0 paid_events w1 epoch_events wits w2 cache db,
    let w3 := sync_slashing sl w2 in
    let b := unsigned_block clock inner included (state_root w3) (evs ++ paid_events ++ epoch_events) wits in
    turn_taken inner sl
    /\ include_txs (pending_txs inner) 0 [] 0 []
         (begin_state (next_height inner) (ck_now clock) (ch_state inner)) = (included, total, evs, w0)
    /\ distribute (vs_active (ch_validator_set inner)) (ch_offline_validators inner)
         (ch_validator_address inner) (next_height inner) total w0 = (paid_events, w1)
    /\ produce_checkins (next_height inner) (ch_checkin_cache inner) w1 = (epoch_events, wits, w2, cache)
    /\ block = sign_block (ch_signing_key inner) (b <| b_hash := compute_hash b |>)
    /\ put_block_and_snapshot block (to_vec w3) (ch_store inner) = (Ok tt, db)
    /\ inner' = (after_stored block (inner <| ch_slashing := sl |>
         <| ch_mempool := drop (N.to_nat MAX_BLOCK_TXS) (sort_by tx_leb (ch_mempool inner)) |>
         <| ch_state := w3 |> <| ch_checkin_cache := cache |> <| ch_pending_votes := ∅ |> <| ch_store := db |>))
         <| ch_latest_block := block |> <| ch_latest_block_received := ck_instant clock |>.

Lemma chain_eta inner : inner = inner <| ch_slashing := ch_slashing inner |>.
Proof. by destruct inner. Qed.

Lemma produce_block_from clock inner block inner' :
  produce_block clock inner = (Some block, inner') ->
  exists sl, turn_taken inner sl /\ produce_from clock (inner <| ch_slashing := sl |>) = (Some block, inner').
Proof.
  unfold produce_block. cbv zeta. unfold is_proposer. destruct (primary inner) as [p|] eqn:Hp.
  - case_bool_decide as Hva.
    + simpl negb. cbv iota. intros Hrun. exists (ch_slashing inner). split; [left; by rewrite Hp, Hva |].
      rewrite <- chain_eta. exact Hrun.
    + simpl negb. rewrite andb_true_l. destruct (is_fallback_proposer clock inner) eqn:Hf; [| done].
      simpl andb. cbv iota. intros Hrun. exists (record_missed_slot p (record_assigned_slot p (ch_slashing inner))).
      split; [| exact Hrun]. right. exists p. unfold is_fallback_proposer in Hf. cbv zeta in Hf.
      destruct (_ <=? _); [done |]. destruct (fallback inner) as [a|]; [| done].
      apply bool_decide_eq_true in Hf as ->. done.
  - simpl negb. rewrite andb_true_l. unfold is_fallback_proposer. cbv zeta. destruct (_ <=? _); [done |].
    assert (fallback inner = None) as ->; [| done].
    unfold fallback, primary in *. unfold elect_fallback_proposer. destruct (_ <? _)%nat; [done |]. by rewrite Hp.
Qed.

Lemma produce_block_inv clock inner block inner' :
  produce_block clock inner = (Some block, inner') -> produced clock inner block inner'.
Proof.
  intros (sl & Hturn & Hrun)%produce_block_from. exists sl. unfold produce_from in Hrun. cbv zeta in Hrun.
  unfold pending_txs. change (next_height (inner <| ch_slashing := sl |>)) with (next_height inner) in Hrun.
  upd.
  destruct (include_txs _ _ _ _ _ _) as [[[included total] evs] w0] eqn:Hinc.
  destruct (distribute _ _ _ _ _ _) as [paid_events w1] eqn:Hd.
  destruct (produce_checkins _ _ _) as [[[epoch_events wits] w2] cache] eqn:Hpc.
  destruct (put_block_and_snapshot _ _ _) as [[[]|e] db] eqn:Hput; [| done].
  injection Hrun as <- <-.
  exists included, total, evs, w0, paid_events, w1, epoch_events, wits, w2, cache, db. cbv zeta.
  split_and!; try done.
Qed.

(** ** Two nodes with one view of the chain *)

(** What validation reads of a node; signatures of the last block may differ. *)
Record same_view inner peer : Prop := {
  sv_state : ch_state peer = ch_state inner;
  sv_slashing : ch_slashing peer = ch_slashing inner;
  sv_validators : ch_validator_set peer = ch_validator_set inner;
  sv_offline : ch_offline_validators peer = ch_offline_validators inner;
  sv_height : b_height (ch_latest_block peer) = b_height (ch_latest_block inner);
  sv_hash : b_hash (ch_latest_block peer) = b_hash (ch_latest_block inner);
  sv_time : b_timestamp (ch_latest_block peer) = b_timestamp (ch_latest_block inner);
}.

Definition rotated (block : Block) (v : WorldState * SlashingState * ValidatorSet * list bytes)
    : WorldState * SlashingState * ValidatorSet * list bytes :=
  let '(w, sl, vs, offline) := v in
  if is_epoch_boundary (b_height block) then
    let sl1 := (unjail_expired (b_height block) sl).2 in
    let sl2 := reset_epoch_counters sl1 in
    (sync_slashing sl2 (w <| ws_validator_uptime := ∅ |>), sl2,
     recalculate_active (ws_stakes w) (ws_reputation w) (Some sl1) (b_height block) vs,
     process_downtime_penalties sl)
  else v.

Definition ledger_view inner := (ch_state inner, ch_slashing inner, ch_validator_set inner, ch_offline_validators inner).

Lemma after_stored_ledger block inner : ledger_view (after_stored block inner) = rotated block (ledger_view inner).
Proof.
  unfold after_stored. cbv zeta. destruct (persist_receipts_view block inner) as [db ->].
  unfold rotated, ledger_view. destruct (is_epoch_boundary (b_height block)); reflexivity.
Qed.

Lemma signed_by_producer `{!Ed25519Laws} sk va vs (b : Block) :
  vk_of_signing_key sk = va -> va ∈ av_address <$> vs -> b_signatures b = [] ->
  valid_signers vs (sign_block sk b) = {[ va ]}.
Proof.
  intros Hk Hin Hsig. unfold valid_signers, sign_block. upd. rewrite Hsig, app_nil_l. cbn [filter list_filter].
  rewrite decide_True.
  - rewrite fmap_cons, fmap_nil. cbn [list_to_set]. rewrite Hk. apply union_empty_r_L.
  - split; [| unfold checked_verify; simpl; by rewrite vk_of_signing_key_valid, verify_sign].
    simpl. rewrite Hk. apply list_elem_of_fmap in Hin as (v & -> & Hv). apply existsb_exists. exists v.
    split; [by apply list_elem_of_In | by apply bool_decide_eq_true_2].
Qed.

(** A block that passes every check before the supply is committed. *)
Lemma validated_commits clock block is_sync peer total w1 peer1 :
  chain_sound peer -> room peer -> validated clock block is_sync peer total w1 peer1 ->
  apply_remote_block_inner clock block is_sync peer
  = commit_block clock block (peer1 <| ch_state := sync_slashing (ch_slashing peer1) w1 |>).
Proof.
  intros Hcs Hroom Hva. destruct (validated_sound _ _ _ _ _ _ _ Hcs Hroom Hva) as (_ & _ & Hs & Hsup & Hle).
  destruct Hva as [Hh Hsig (peer0 & w0 & Hp & Hex & Hv) Hroot _].
  unfold apply_remote_block_inner. rewrite bind_get. cbv zeta. rewrite bind_map_err, Hh, bind_map_err, Hsig.
  rewrite bind_step, Hp, bind_map_err. unfold executed_state in Hex. rewrite Hex. cbv beta iota zeta.
  fold (paid_state block peer total w0). rewrite bind_step, Hv, bind_get, bind_fail_if.
  rewrite (bool_decide_eq_true_2 _ Hroot). simpl negb. cbv iota. rewrite bind_fail_if.
  pose proof (so_supply _ _ (cs_ledger _ Hcs)). unfold CLAW_TOTAL_SUPPLY in *.
  rewrite !total_supply_exact by lia. rewrite wsub_small by lia.
  replace (supply _ - expected_burn total) with (supply (sync_slashing (ch_slashing peer1) w1)) by lia.
  rewrite N.eqb_refl. simpl negb. cbv iota. rewrite bind_modify. reflexivity.
Qed.

Lemma turn_member inner sl :
  turn_taken inner sl -> ch_validator_address inner ∈ av_address <$> vs_active (ch_validator_set inner).
Proof.
  intros [[Hp _] | (p & Hp & _ & Hf & _)]; [by eapply elect_proposer_elem |].
  unfold fallback, elect_fallback_proposer in Hf. destruct (_ <? _)%nat; [done |].
  unfold primary in Hp. rewrite Hp in Hf. simpl in Hf.
  destruct (head _) as [v|] eqn:Hh; [| done]. simpl in Hf. injection Hf as <-.
  apply head_Some_elem_of, list_elem_of_filter in Hh as [_ Hin]. rewrite elem_of_sort_by in Hin.
  by apply list_elem_of_fmap_2.
Qed.

(** The validator finds the producer's turn, and records the same missed slot. *)
Lemma turn_checked inner peer sl block :
  same_view inner peer -> turn_taken inner sl ->
  b_height block = next_height inner -> b_prev_hash block = b_hash (ch_latest_block inner) ->
  b_validator block = ch_validator_address inner ->
  check_proposer block peer = (Ok tt, peer <| ch_slashing := sl |>).
Proof.
  intros [_ Hsl Hvs _ _ _ _] Hturn Hh Hprev Hva. unfold check_proposer. rewrite bind_get. cbv zeta.
  rewrite Hvs, Hh, Hprev, Hva. fold (primary inner). fold (fallback inner).
  destruct Hturn as [[Hp ->] | (p & Hp & Hne & Hf & ->)]; rewrite Hp.
  - rewrite bool_decide_eq_true_2 by done. simpl negb. rewrite bind_fail_if. simpl andb. cbv iota.
    rewrite andb_false_r, <- Hsl, <- chain_eta. done.
  - rewrite bool_decide_eq_false_2 by done. rewrite Hf. simpl from_option.
    rewrite bool_decide_eq_true_2 by done. rewrite bind_fail_if. simpl. rewrite <- Hsl.
    unfold st_modify, record_missed_primary. by destruct peer.
Qed.

Lemma checkins_checked inner peer block epoch_events wits w1 w2 cache :
  produce_checkins (next_height inner) (ch_checkin_cache inner) w1 = (epoch_events, wits, w2, cache) ->
  0 < next_height inner -> b_height block = next_height inner -> b_checkin_witnesses block = wits ->
  cache_valid (ch_store inner) (next_height inner - 1) (ch_checkin_cache inner) ->
  hashes_agree (next_height inner - 1) (ch_store inner) (ch_store peer) ->
  exists c, validate_checkins block w1 peer = (Ok w2, peer <| ch_checkin_cache := c |>).
Proof.
  intros Hpc Hpos Hh Hw Hcv Hk. unfold validate_checkins. rewrite Hh, Hw. unfold produce_checkins in Hpc. cbv zeta in Hpc.
  rewrite bind_get. cbv zeta. destruct (CHECKIN_V3_HEIGHT <=? next_height inner).
  - destruct (settle_v3 (next_height inner) w1) as [ev ws]. injection Hpc as <- <- <- <-. cbn [snd].
    rewrite bind_map_err, (pending_accepted _ _ (ch_store peer)) by done. rewrite bind_modify. eexists. reflexivity.
  - destruct (settle_pre_v3 (next_height inner) w1) as [ev ws]. injection Hpc as <- <- <- <-.
    rewrite bind_fail_if, bool_decide_eq_true_2 by done. exists (ch_checkin_cache peer). by destruct peer.
Qed.

(** The two nodes' clocks agree up to the tolerance, and time does not go back. *)
Definition clocks_agree (clock clock' : Clock) inner : Prop :=
  b_timestamp (ch_latest_block inner) <= ck_now clock <= ck_now clock' + 30 /\ ck_now clock' + 30 < TWO64.

(** What a producer's own records satisfy: its key, its cache, a clean run. *)
Record producer_ok (clock : Clock) inner : Prop := {
  po_key : vk_of_signing_key (ch_signing_key inner) = ch_validator_address inner;
  po_cache : cache_valid (ch_store inner) (b_height (ch_latest_block inner)) (ch_checkin_cache inner);
  po_clean : rejections_clean (pending_txs inner)
               (begin_state (next_height inner) (ck_now clock) (ch_state inner));
}.

Lemma produced_validates `{!Ed25519Laws} clock clock' is_sync inner inner' peer block :
  produce_block clock inner = (Some block, inner') ->
  producer_ok clock inner -> same_view inner peer -> chain_sound peer -> room peer ->
  hashes_agree (b_height (ch_latest_block inner)) (ch_store inner) (ch_store peer) ->
  clocks_agree clock clock' inner ->
  is_sync = true \/ N.of_nat (length (vs_active (ch_validator_set inner))) < 7 ->
  exists total sl w2 peer1 base,
    validated clock' block is_sync peer total w2 peer1
    /\ ch_slashing peer1 = sl /\ ledger_view peer1 = (ch_state inner, sl, ch_validator_set inner, ch_offline_validators inner)
    /\ ch_store peer1 = ch_store peer
    /\ put_block_and_snapshot block (to_vec (sync_slashing sl w2)) (ch_store inner) = (Ok tt, ch_store base)
    /\ ledger_view base = (sync_slashing sl w2, sl, ch_validator_set inner, ch_offline_validators inner)
    /\ inner' = (after_stored block base) <| ch_latest_block := block |> <| ch_latest_block_received := ck_instant clock |>.
Proof.
  intros Hprod [Hkey Hcache Hclean] Hview Hcs [Hroom Hmin] Hk [Hclk Hclk'] Hquorum.
  destruct (produce_block_inv _ _ _ _ Hprod) as
    (sl & included & total & evs & w0 & paid & w1 & eev & wits & w2 & cache & db & Hturn & Hinc & Hd & Hpc & Hb & Hput & Hin').
  cbv zeta in Hb. pose proof Hview as [Hst Hsl Hvs Hoff Hh Hhash Htime].
  assert (next_height inner = b_height (ch_latest_block inner) + 1) as Hnext
    by (unfold next_height; rewrite <- Hh; by apply wadd_small).
  destruct (included_replay _ 0 0 [] 0 [] _ _ _ _ _ Hclean Hinc) as (new & Hnew & Hsub & Hreplay).
  simpl in Hnew. subst new.
  pose proof (turn_checked inner peer sl block Hview Hturn) as Hp.
  destruct (checkins_checked inner (peer <| ch_slashing := sl |>) block eev wits w1 w2 cache Hpc)
    as (c & Hck); [lia | by rewrite Hb | by rewrite Hb | by rewrite Hnext, N.add_sub | by rewrite Hnext, N.add_sub |].
  exists total, sl, w2, (peer <| ch_slashing := sl |> <| ch_checkin_cache := c |>). eexists.
  split_and!; [constructor | done | | done | | | exact Hin'].
  - rewrite Hb. unfold check_header, sign_block, unsigned_block. upd. cbn [b_height b_prev_hash b_timestamp b_transactions].
    unfold next_height. rewrite Hh, Hhash, Htime, N.eqb_refl, bool_decide_eq_true_2 by done. simpl negb. cbv iota.
    assert (forall b, verify_hash (b <| b_hash := compute_hash b |>) = true) as Hvh
      by (intros b; unfold verify_hash; by apply bool_decide_eq_true_2).
    rewrite Hvh. simpl negb. cbv iota. rewrite wadd_small by lia.
    destruct (N.ltb_spec (ck_now clock' + 30) (ck_now clock)); [lia |].
    destruct (N.ltb_spec (ck_now clock) (b_timestamp (ch_latest_block inner))); [lia |].
    destruct (N.ltb_spec MAX_BLOCK_TXS (N.of_nat (length included))) as [Hlen|]; [| done].
    apply sublist_length in Hsub. unfold pending_txs in Hsub. rewrite length_take in Hsub.
    unfold MAX_BLOCK_TXS in *. lia.
  - rewrite Hvs. unfold check_signatures. cbv zeta.
    rewrite Hb, (signed_by_producer _ (ch_validator_address inner)); [| done | by eapply turn_member | done].
    rewrite size_singleton. destruct (N.ltb_spec (N.of_nat 1) (required_signatures (vs_active (ch_validator_set inner)))) as [Hlt|]; [| done].
    destruct Hquorum as [-> | Hq].
    + rewrite bool_decide_eq_true_2; [done |]. apply elem_of_singleton. reflexivity.
    + unfold required_signatures in Hlt. apply N.ltb_lt in Hq. rewrite Hq in Hlt. lia.
  - exists (peer <| ch_slashing := sl |>), w0. split_and!.
    + apply Hp; by rewrite Hb.
    + unfold executed_state. rewrite Hst, Hb. exact Hreplay.
    + unfold paid_state. rewrite Hvs, Hoff. rewrite Hb in Hck |- *.
      assert (forall b : Block, b = block -> True) as _ by done.
      match goal with |- validate_checkins _ (distribute ?a ?b ?p ?h ?t ?w).2 _ = _ =>
        change (distribute a b p h t w) with
          (distribute (vs_active (ch_validator_set inner)) (ch_offline_validators inner)
             (ch_validator_address inner) (next_height inner) total w0) end.
      rewrite Hd. exact Hck.
  - rewrite Hb. reflexivity.
  - by exists sl, c.
  - unfold ledger_view. upd. by rewrite Hst, Hvs, Hoff.
  - exact Hput.
  - reflexivity.
Qed.
End produced.

Section agreement.
Context `{HB : Blake3} `{HE : Ed25519} `{!Ed25519Laws} `{TC : TxCodec} `{HX : Hex} `{VM : VmEngine} `{VS : VmSchedule}.
Context `{SCd : StateCodec} `{RD : Redb} `{SC : StoreCodec} `{NC : NodeCodec} `{KE : KeyErrors}.
Implicit Types (inner peer : ChainInner Db).

Lemma produced_commits clock clock' is_sync inner inner' peer block :
  produce_block clock inner = (Some block, inner') ->
  producer_ok clock inner -> same_view inner peer -> chain_sound peer -> room peer ->
  hashes_agree (b_height (ch_latest_block inner)) (ch_store inner) (ch_store peer) ->
  clocks_agree clock clock' inner ->
  is_sync = true \/ N.of_nat (length (vs_active (ch_validator_set inner))) < 7 ->
  (forall snapshot, is_ok (put_block_and_snapshot block snapshot (ch_store peer)).1 = true) ->
  exists peer' base pbase snap psnap,
    apply_remote_block_inner clock' block is_sync peer = (Ok tt, peer') /\ same_view inner' peer'
    /\ put_block_and_snapshot block snap (ch_store inner) = (Ok tt, ch_store base)
    /\ ch_store inner' = ch_store (after_stored block base)
    /\ put_block_and_snapshot block psnap (ch_store peer) = (Ok tt, ch_store pbase)
    /\ ch_store peer' = ch_store (after_stored block pbase).
Proof.
  intros Hprod Hpo Hview Hcs Hroom Hk Hclk Hq Hput.
  destruct (produced_validates _ clock' is_sync _ _ peer _ Hprod Hpo Hview Hcs Hroom Hk Hclk Hq)
    as (total & sl & w2 & peer1 & base & Hva & Hsl & Hl1 & Hst & Hputb & Hbase & ->).
  rewrite (validated_commits _ _ _ _ _ _ _ Hcs Hroom Hva).
  destruct (commit_block clock' block _) as [r peer'] eqn:Hc.
  pose proof (commit_block_run _ _ _ _ _ Hc) as Hrun. destruct r as [[]|e].
  - destruct Hrun as (db & Hdb & ->).
    exists ((after_stored block (peer1 <| ch_state := sync_slashing (ch_slashing peer1) w2 |> <| ch_store := db |>))
      <| ch_pending_votes := ∅ |> <| ch_latest_block := block |> <| ch_latest_block_received := ck_instant clock' |>).
    exists base, (peer1 <| ch_state := sync_slashing (ch_slashing peer1) w2 |> <| ch_store := db |>). do 2 eexists.
    split_and!; [done | | exact Hputb | done | | done].
    + pose proof (after_stored_ledger block base) as E1.
      pose proof (after_stored_ledger block
        (peer1 <| ch_state := sync_slashing (ch_slashing peer1) w2 |> <| ch_store := db |>)) as E2.
      assert (ledger_view (after_stored block base) = ledger_view (after_stored block
        (peer1 <| ch_state := sync_slashing (ch_slashing peer1) w2 |> <| ch_store := db |>))) as E.
      { rewrite E1, E2, Hbase. unfold ledger_view in *. injection Hl1 as L1 L2 L3 L4. upd.
        by rewrite L2, L3, L4. }
      unfold ledger_view in E. injection E as E3 E4 E5 E6. by constructor.
    + upd. rewrite Hst in Hdb. exact Hdb.
  - exfalso. unfold commit_block in Hc. rewrite bind_step in Hc. unfold store_block in Hc. upd.
    rewrite Hst in Hc. specialize (Hput (to_vec (sync_slashing (ch_slashing peer1) w2))).
    destruct (put_block_and_snapshot _ _ _) as [[[]|e1] db]; [| done]. done.
Qed.


Lemma size_list_to_set_le (l : list bytes) : (size (list_to_set l : gset bytes) <= length l)%nat.
Proof.
  induction l as [|x l IH]; [done |]. cbn [list_to_set length].
  rewrite size_union_alt, size_singleton.
  assert (size ((list_to_set l : gset bytes) ∖ {[x]}) <= size (list_to_set l : gset bytes))%nat
    by (apply subseteq_size, subseteq_difference_l, reflexivity).
  lia.
Qed.

Lemma valid_signers_size vs block : (size (valid_signers vs block) <= length (b_signatures block))%nat.
Proof.
  unfold valid_signers. etrans; [apply size_list_to_set_le |]. rewrite length_fmap. apply length_filter.
Qed.

Lemma quorum_large n : 7 <= n -> 5 <= quorum n.
Proof.
  intros Hn. unfold quorum. destruct (N.eqb_spec n 0); [lia |].
  assert (4 <= 2 * n / 3); [apply N.div_le_lower_bound; lia | lia].
Qed.

(** C9. With seven or more active validators a freshly produced block is never
    accepted from gossip: it carries its proposer's signature only, and the
    quorum is at least five, so every receiving node rejects it and changes
    nothing, casts no vote, and has to fetch the block by syncing. *)
Theorem gossip_rejects_fresh_block clock clock' inner inner' peer block :
  produce_block clock inner = (Some block, inner') ->
  7 <= N.of_nat (length (vs_active (ch_validator_set peer))) ->
  exists e, apply_remote_block clock' block peer = (Err e, peer).
Proof.
  intros Hprod Hlen.
  destruct (produce_block_inv _ _ _ _ Hprod) as
    (sl & included & total & evs & w0 & paid & w1 & eev & wits & w2 & cache & db & _ & _ & _ & _ & Hb & _ & _).
  cbv zeta in Hb. assert (length (b_signatures block) = 1%nat) as Hone by (by rewrite Hb).
  unfold apply_remote_block, apply_remote_block_inner. rewrite bind_get. cbv zeta. rewrite bind_map_err.
  destruct (check_header _ _ _) as [[]|e]; [| by exists e].
  rewrite bind_map_err. unfold check_signatures. cbv zeta.
  assert (required_signatures (vs_active (ch_validator_set peer))
          = quorum (N.of_nat (length (vs_active (ch_validator_set peer))))) as ->.
  { unfold required_signatures. by destruct (N.ltb_spec (N.of_nat (length (vs_active (ch_validator_set peer)))) 7); [lia |]. }
  pose proof (quorum_large _ Hlen). pose proof (valid_signers_size (vs_active (ch_validator_set peer)) block).
  match goal with |- context [?a <? ?b] => destruct (N.ltb_spec a b); [| lia] end.
  simpl andb. cbv iota. eexists. reflexivity.
Qed.
End agreement.

(** ** Witnesses *)

#[local] Existing Instance toy_blake3.
#[local] Existing Instance toy_ed25519.
#[local] Existing Instance toy_tx_codec.
#[local] Existing Instance toy_redb.
#[local] Existing Instance toy_store_codec.
#[local] Existing Instance toy_hex.
#[local] Existing Instance toy_vm.
#[local] Existing Instance toy_schedule.
#[local] Existing Instance toy_codec.
#[local] Existing Instance toy_node_codec.
#[local] Existing Instance toy_key_errors.

Lemma toy_busy_ok : producer_ok toy_clock toy_busy.
Proof.
  constructor; [reflexivity | by intros e m k wit Hm |].
  change (pending_txs toy_busy) with [toy_payment]. split; [| done].
  intros Hf. exfalso. revert Hf.
  assert (is_ok (apply_tx toy_payment 0 (begin_state (next_height toy_busy) (ck_now toy_clock) (ch_state toy_busy))).1
    = true) as -> by (vm_compute; reflexivity). discriminate.
Qed.


(** A node that knows seven validators. *)
Definition toy_crowd : ChainInner Db :=
  toy_busy <| ch_validator_set := mkValidatorSet
    ((fun i => mkActiveValidator (toy_addr i) 20000000000000 0 1000) <$> [11; 12; 13; 14; 15; 16; 17]) 0 COLD_START |>.

Lemma gossip_rejects_fresh_block_witness :
  exists e, apply_remote_block toy_clock (toy_block_of toy_busy) toy_crowd = (Err e, toy_crowd).
Proof.
  apply (gossip_rejects_fresh_block toy_clock toy_clock toy_busy (toy_after toy_busy)).
  - exact toy_busy_produces.
  - vm_compute. discriminate.
Defined.
