(* ===== verification/Sync.v ===== *)
(** * Synchronisation and the network loop ([claw-node/crates/node/src/chain.rs])

    The sync protocol ([p2p/src/protocol.rs]), the node's answers and reactions,
    snapshots included, and [run_p2p_events] as a function from an event to the
    node's new state and the commands it sends.  Peers and reply channels are
    [libp2p]'s, so their types are parameters. *)

From Stdlib Require Import String.
From S2P Require Import Prelude Interfaces Types Crypto ConsensusTypes Election Slashing ValidatorSet Vm World HandlerBase Contracts Store ApplyTx Rewards Epochs Node Chain.
Notation length := List.length.

(** ** The protocol *)

Inductive SyncRequest : Type :=
  | GetBlocks (from_height count : N)
  | GetStatus
  | GetStateSnapshot
  | PushMinerCheckin (witness : MinerCheckinWitness).

Inductive SyncResponse : Type :=
  | Blocks (blocks : list Block)
  | Status (height : N)
  | StateSnapshot (height : N) (state_root_ state_data : bytes) (latest_block : Block) (genesis_hash : bytes)
  | CheckinAccepted.

(** [e.contains(pattern)]. *)
Definition contains (e pattern : string) : bool :=
  if String.index 0 pattern e is Some _ then true else false.

Section sync.
Context `{HB : Blake3} `{HE : Ed25519} `{TC : TxCodec} `{HX : Hex} `{VM : VmEngine} `{VS : VmSchedule}.
Context `{SCd : StateCodec} `{RD : Redb} `{SC : StoreCodec} `{NC : NodeCodec} `{KE : KeyErrors}.
Implicit Types (inner : ChainInner Db).

(** ** Answering *)

(** The blocks from a list of heights, up to the first that is missing. *)
Fixpoint collect_blocks inner (heights : list N) : list Block :=
  match heights with
  | [] => []
  | h :: heights =>
      if h =? b_height (ch_latest_block inner) then ch_latest_block inner :: collect_blocks inner heights
      else match get_block h (ch_store inner) with
           | Ok (Some block) => block :: collect_blocks inner heights
           | _ => []
           end
  end.

Definition handle_sync_request (request : SyncRequest) inner : SyncResponse :=
  let latest := ch_latest_block inner in
  match request with
  | GetBlocks from_height count =>
      let capped_count := N.min count 100 in
      let last := sat_add TWO64 from_height capped_count in
      Blocks (collect_blocks inner (seqN from_height (last - from_height)))
  | GetStatus => Status (b_height latest)
  | PushMinerCheckin _ => CheckinAccepted
  | GetStateSnapshot =>
      match get_state_snapshot (ch_store inner) with
      | Ok (Some state_data) =>
          StateSnapshot (b_height latest) (b_state_root latest) state_data latest (ch_genesis_hash inner)
      | _ => Status (b_height latest)
      end
  end.

(** ** Applying a batch of blocks *)

(** The number of blocks applied, and whether the first one showed a fork. *)
Fixpoint apply_batch (clock : Clock) (blocks : list Block) (applied : N) inner : N * bool * ChainInner Db :=
  match blocks with
  | [] => (applied, false, inner)
  | block :: blocks =>
      match apply_synced_block clock block inner with
      | (Ok _, inner) => apply_batch clock blocks (applied + 1) inner
      | (Err e, inner) =>
          (applied, (applied =? 0) && (contains e "prev_hash mismatch" || contains e "state_root mismatch"), inner)
      end
  end.

Definition receive_blocks (clock : Clock) (blocks : list Block) inner : option SyncRequest * ChainInner Db :=
  if bool_decide (blocks = []) then (Some GetStateSnapshot, inner)
  else
    let '(applied, fork, inner) := apply_batch clock blocks 0 inner in
    if fork then (Some GetStateSnapshot, inner)
    else if applied =? N.of_nat (length blocks)
    then (Some (GetBlocks (u64_add (b_height (ch_latest_block inner)) 1) 20), inner)
    else (None, inner).

Definition receive_status (height : N) inner : option SyncRequest :=
  let our_height := b_height (ch_latest_block inner) in
  if our_height <? height then
    let gap := height - our_height in
    if 1000 <? gap then Some GetStateSnapshot
    else Some (GetBlocks (u64_add our_height 1) (N.min (gap mod TWO32) 20))
  else None.

(** ** Snapshots *)

(** The checks on the snapshot's block against our validator set. *)
Definition snapshot_block_ok (active : list ActiveValidator) (block : Block) : bool :=
  let signers := valid_signers active block in
  verify_hash block
  && existsb (fun v => bool_decide (av_address v = b_validator block)) active
  && bool_decide (b_validator block ∈ signers)
  && negb (N.of_nat (size signers) <? required_signatures active).

Definition slashing_of_state (state : WorldState) : SlashingState :=
  mkSlashingState (ws_jailed_validators state) [] (ws_validator_missed_slots state)
    (ws_validator_assigned_slots state) (ws_processed_evidence state).

Definition stored_offline_validators inner : list bytes :=
  match get_offline_validators (ch_store inner) with
  | Ok (Some ov_bytes) =>
      match try_from_slice (A:=list bytes) ov_bytes with
      | Ok ov => ov
      | Err _ => process_downtime_penalties (ch_slashing inner)
      end
  | _ => process_downtime_penalties (ch_slashing inner)
  end.

(** Replacing the node's state by a verified snapshot. *)
Definition install_snapshot (clock : Clock) (height : N) (state : WorldState) (latest_block : Block) inner
    : ChainInner Db :=
  let inner := inner <| ch_validator_set := with_initial_stakes (ws_stakes state) |>
                     <| ch_slashing := slashing_of_state state |> in
  let inner := inner <| ch_offline_validators := stored_offline_validators inner |> in
  let inner := inner <| ch_state := state |> <| ch_latest_block := latest_block |>
                     <| ch_latest_block_received := ck_instant clock |> in
  let inner := store_best_effort (put_block latest_block) inner in
  let inner := inner <| ch_last_accepted_snapshot_height := height |> in
  if is_epoch_boundary height then
    let inner := inner <| ch_slashing ::= reset_epoch_counters |> in
    let inner := inner <| ch_state ::= fun w => w <| ws_validator_uptime := ∅ |>
                   <| ws_validator_missed_slots := ∅ |> <| ws_validator_assigned_slots := ∅ |> |> in
    sync_slashing_to_world_state inner
  else inner.

Definition receive_snapshot (clock : Clock) (height : N) (state_data : bytes) (latest_block : Block)
    (genesis_hash : bytes) inner : option SyncRequest * ChainInner Db :=
  if height <=? b_height (ch_latest_block inner) then (None, inner)
  else if height =? ch_last_accepted_snapshot_height inner then (Some GetStatus, inner)
  else if negb (bool_decide (genesis_hash = ch_genesis_hash inner)) then (None, inner)
  else if negb (snapshot_block_ok (vs_active (ch_validator_set inner)) latest_block) then (None, inner)
  else
    match from_snapshot_bytes state_data with
    | Err _ => (Some GetStatus, inner)
    | Ok state =>
        if negb (bool_decide (state_root state = b_state_root latest_block)) then (None, inner)
        else
          match put_state_snapshot state_data (ch_store inner) with
          | (Err _, db) => (None, inner <| ch_store := db |>)
          | (Ok _, db) =>
              (Some (GetBlocks (u64_add height 1) 20),
               install_snapshot clock height state latest_block (inner <| ch_store := db |>))
          end
    end.

Definition handle_sync_response (clock : Clock) (response : SyncResponse) inner
    : option SyncRequest * ChainInner Db :=
  match response with
  | Blocks blocks => receive_blocks clock blocks inner
  | Status height => (receive_status height inner, inner)
  | StateSnapshot height _ state_data latest_block genesis_hash =>
      receive_snapshot clock height state_data latest_block genesis_hash inner
  | CheckinAccepted => (None, inner)
  end.
End sync.

(** ** The network loop *)

Inductive NetworkEvent (Peer Channel : Type) : Type :=
  | EvNewTx (tx : Transaction)
  | EvNewBlock (block : Block)
  | EvVote (vote : BlockVote)
  | EvMinerCheckin (witness : MinerCheckinWitness)
  | EvSyncRequest (peer : Peer) (request : SyncRequest) (channel : Channel)
  | EvSyncResponse (peer : Peer) (response : SyncResponse)
  | EvPeerConnected (peer : Peer)
  | EvPeerDisconnected (peer : Peer).
Arguments EvNewTx {_ _} tx.
Arguments EvNewBlock {_ _} block.
Arguments EvVote {_ _} vote.
Arguments EvMinerCheckin {_ _} witness.
Arguments EvSyncRequest {_ _} peer request channel.
Arguments EvSyncResponse {_ _} peer response.
Arguments EvPeerConnected {_ _} peer.
Arguments EvPeerDisconnected {_ _} peer.

Inductive P2pCommand (Peer Channel : Type) : Type :=
  | SendSyncRequest (peer : Peer) (request : SyncRequest)
  | SendSyncResponse (channel : Channel) (response : SyncResponse)
  | BroadcastBlock (block : Block)
  | BroadcastVote (vote : BlockVote)
  | BroadcastTx (tx : Transaction)
  | BroadcastCheckin (witness : MinerCheckinWitness).
Arguments SendSyncRequest {_ _} peer request.
Arguments SendSyncResponse {_ _} channel response.
Arguments BroadcastBlock {_ _} block.
Arguments BroadcastVote {_ _} vote.
Arguments BroadcastTx {_ _} tx.
Arguments BroadcastCheckin {_ _} witness.

Section events.
Context `{HB : Blake3} `{HE : Ed25519} `{TC : TxCodec} `{HX : Hex} `{VM : VmEngine} `{VS : VmSchedule}.
Context `{SCd : StateCodec} `{RD : Redb} `{SC : StoreCodec} `{NC : NodeCodec} `{KE : KeyErrors}.
Context {Peer Channel : Type} `{!EqDecision Peer} (peer_to_string : Peer -> string).
Implicit Types (inner : ChainInner Db) (peer : Peer) (known_peers : list Peer).

Definition vote_commands inner (block : Block) : list (P2pCommand Peer Channel) :=
  match create_vote_for_block inner block with Some vote => [BroadcastVote vote] | None => [] end.

(** The tick of the block loop. *)
Definition block_tick (clock : Clock) inner : list (P2pCommand Peer Channel) * ChainInner Db :=
  match produce_block clock inner with
  | (Some block, inner) => (BroadcastBlock block :: vote_commands inner block, inner)
  | (None, inner) => ([], inner)
  end.

(** The tick that asks every known peer for its status. *)
Definition sync_retry known_peers : list (P2pCommand Peer Channel) :=
  (fun peer => SendSyncRequest peer GetStatus) <$> known_peers.

Definition is_snapshot (response : SyncResponse) : bool :=
  match response with StateSnapshot _ _ _ _ _ => true | _ => false end.
Definition is_status_or_snapshot (request : SyncRequest) : bool :=
  match request with GetStateSnapshot | GetStatus => true | _ => false end.

(** Where a follow-up goes: to the same peer, but away from it after a stale
    snapshot. *)
Definition follow_up_target known_peers peer (response : SyncResponse) (follow_up : SyncRequest) : Peer :=
  if is_snapshot response && is_status_or_snapshot follow_up && (1 <? N.of_nat (length known_peers))
  then default peer (head (filter (fun p => p <> peer) known_peers))
  else peer.

Definition peer_connected known_peers peer inner : SyncRequest * list Peer * ChainInner Db :=
  let known_peers := if bool_decide (peer ∈ known_peers) then known_peers else known_peers ++ [peer] in
  let inner := inner <| ch_connected_peer_ids := peer_to_string <$> known_peers |> in
  if ch_fast_sync_pending inner then
    if existsb (fun id => bool_decide (id = peer_to_string peer)) (ch_bootstrap_peer_ids inner)
    then (GetStateSnapshot, known_peers, inner <| ch_fast_sync_pending := false |>)
    else (GetStatus, known_peers, inner)
  else (GetStatus, known_peers, inner).

Definition p2p_event (clock : Clock) (event : NetworkEvent Peer Channel) known_peers inner
    : list (P2pCommand Peer Channel) * list Peer * ChainInner Db :=
  match event with
  | EvNewTx tx => ([], known_peers, (submit_tx tx inner).2)
  | EvNewBlock block =>
      match apply_remote_block clock block inner with
      | (Ok _, inner) => (vote_commands inner block, known_peers, inner)
      | (Err _, inner) => ([], known_peers, inner)
      end
  | EvVote vote => ([], known_peers, (apply_vote vote inner).2)
  | EvMinerCheckin witness => ([], known_peers, receive_checkin witness inner)
  | EvSyncRequest peer (PushMinerCheckin witness) channel =>
      ([SendSyncResponse channel CheckinAccepted], known_peers, receive_checkin witness inner)
  | EvSyncRequest peer request channel =>
      ([SendSyncResponse channel (handle_sync_request request inner)], known_peers, inner)
  | EvSyncResponse peer response =>
      match handle_sync_response clock response inner with
      | (Some follow_up, inner) =>
          ([SendSyncRequest (follow_up_target known_peers peer response follow_up) follow_up], known_peers, inner)
      | (None, inner) => ([], known_peers, inner)
      end
  | EvPeerConnected peer =>
      let '(request, known_peers, inner) := peer_connected known_peers peer inner in
      ([SendSyncRequest peer request], known_peers, inner)
  | EvPeerDisconnected peer =>
      let known_peers := filter (fun p => p <> peer) known_peers in
      ([], known_peers, inner <| ch_connected_peer_ids := peer_to_string <$> known_peers |>)
  end.

(** ** The other entry points *)

(** [faucet_drip]: signs and queues a transfer of the node's own. *)
Definition FAUCET_DRIP : N := 10000000000.

Definition faucet_drip (to : bytes) : ST (ChainInner Db) string bytes :=
  inner ← st_get;
  let node_addr := ch_validator_address inner in
  fail_if (get_balance (ch_state inner) node_addr <? FAUCET_DRIP) "faucet dry"%string;;
  let nonce := u64_add (get_nonce (ch_state inner) node_addr) 1 in
  let tx := mkTransaction TokenTransfer node_addr nonce (to_vec (mkTokenTransferPayload to FAUCET_DRIP))
              (replicate 64 x00) in
  let tx := sign_transaction tx (ch_signing_key inner) in
  map_err (verify_transaction tx) (fun e => ("invalid signature: " +:+ sign_error_to_string e)%string);;
  st_modify (fun c => c <| ch_mempool ::= fun l => l ++ [tx] |>);;
  mret (tx_hash tx).

(** [prune_old_blocks]; the store's answer is only logged. *)
Definition prune_old_blocks (keep_blocks : N) inner : ChainInner Db :=
  let prune_below := sat_sub (b_height (ch_latest_block inner)) keep_blocks in
  if prune_below <=? 1 then inner
  else inner <| ch_store := (prune_blocks_below prune_below (ch_store inner)).2 |>.

Definition set_fast_sync inner : ChainInner Db := inner <| ch_fast_sync_pending := true |>.
Definition set_bootstrap_peers (peer_ids : list string) inner : ChainInner Db :=
  inner <| ch_bootstrap_peer_ids := peer_ids |>.
End events.
