(* ===== verification/Network.v ===== *)
(** * The peer-to-peer network ([p2p/src])

    What travels between nodes and how: topics, message framing, size limits, and
    the network manager of [network.rs] between [libp2p]'s swarm and the node.
    The swarm is outside: its events are inputs, its answers a view of it, and
    what it is told to do is a list of actions. *)

From Stdlib Require Import String Ascii.
From S2P Require Import Prelude Interfaces Types Vm World HandlerBase Store Node Chain Sync.
Notation length := List.length.

(** ** Messages and topics ([protocol.rs]) *)

Definition MAX_P2P_MESSAGE_SIZE : N := 1048576.
Definition MAX_PEER_CONNECTIONS : N := 128.

Definition topic_tx (chain_id : string) : string := ("claw/" +:+ chain_id +:+ "/tx/1")%string.
Definition topic_block (chain_id : string) : string := ("claw/" +:+ chain_id +:+ "/block/1")%string.
Definition topic_vote (chain_id : string) : string := ("claw/" +:+ chain_id +:+ "/vote/1")%string.
Definition topic_miner_checkin (chain_id : string) : string := ("claw/" +:+ chain_id +:+ "/miner-checkin/1")%string.
Definition sync_protocol (chain_id : string) : string := ("/claw/" +:+ chain_id +:+ "/sync/1")%string.

Inductive GossipMessage : Type :=
  | NewTx (tx : Transaction)
  | NewBlock (block : Block)
  | Vote (vote : BlockVote)
  | MinerCheckin (witness : MinerCheckinWitness).

(** The encodings on the wire. *)
Class WireCodec : Type := {
  codec_gossip :: Borsh GossipMessage;
  codec_sync_request :: Borsh SyncRequest;
  codec_sync_response :: Borsh SyncResponse;
}.

(** ** Framing ([SyncCodec] of [behaviour.rs])

    A stream is the bytes that can still be read from it, or that have been
    written to it. *)

Inductive IoError : Type :=
  | UnexpectedEof
  | InvalidData (msg : string).

Definition be32 (n : N) : bytes := reverse (le_bytes 4 (n mod TWO32)).
Definition be_value (bs : bytes) : N := le_value (reverse bs).

(** [read_exact]: a stream that ends too early has been read to its end. *)
Definition read_exact (n : N) : ST bytes IoError bytes := fun io =>
  if n <=? N.of_nat (length io) then (Ok (take (N.to_nat n) io), drop (N.to_nat n) io) else (Err UnexpectedEof, []).

Definition read_request : ST bytes IoError bytes :=
  len_buf ← read_exact 4;
  let len := be_value len_buf in
  fail_if (MAX_P2P_MESSAGE_SIZE <? len) (InvalidData "message too large");;
  read_exact len.

Definition read_response : ST bytes IoError bytes := read_request.

Definition write_all (bs : bytes) : ST bytes IoError unit := fun io => (Ok tt, io ++ bs).

Definition write_request (req : bytes) : ST bytes IoError unit :=
  write_all (be32 (N.of_nat (length req)));; write_all req.

Definition write_response (resp : bytes) : ST bytes IoError unit := write_request resp.

(** ** The network manager ([network.rs]) *)

Section network.
Context `{HX : Hex} `{WC : WireCodec}.
Context {Peer Channel Addr : Type} `{Countable Peer} `{!EqDecision Addr}.

(** The protocols of a [Multiaddr]; only an embedded peer identity matters. *)
Inductive Protocol : Type := P2p (id : Peer) | OtherProtocol.
Context (multiaddr_iter : Addr -> list Protocol).

Record P2pNetwork : Type := mkP2pNetwork {
  pn_peers : gset Peer;
  pn_incompatible_peers : gset Peer;
  pn_chain_id : string;
  pn_bootstrap_addrs : list Addr;
}.

(** What the swarm is told to do. *)
Inductive SwarmAction : Type :=
  | Subscribe (topic : string)
  | Unsubscribe (topic : string)
  | ListenOn (port : N)
  | Dial (addr : Addr)
  | Publish (topic : string) (data : bytes)
  | SendRequest (peer : Peer) (data : bytes)
  | SendResponse (channel : Channel) (data : bytes).

(** What the swarm answers: the connected peers, whether a publication finds
    anyone, whether a peer has subscribed to a topic. *)
Record SwarmView : Type := mkSwarmView {
  sv_connected_peers : list Peer;
  sv_publishes : string -> bytes -> bool;
  sv_topic_peers : string -> bool;
}.

Inductive SwarmEvent : Type :=
  | GossipReceived (data : bytes)
  | RequestReceived (peer : Peer) (request : bytes) (channel : Channel)
  | ResponseReceived (peer : Peer) (response : bytes)
  | OutboundFailure (peer : Peer) (unsupported_protocols : bool)
  | Discovered (peers : list Peer)
  | Expired (peers : list Peer)
  | ConnectionEstablished (peer : Peer) (num_established : N)
  | ConnectionClosed (peer : Peer) (num_established : N)
  | OtherEvent.

Implicit Types (net : P2pNetwork) (peer : Peer).

(** The addresses in order, each one once. *)
Definition dedup_addrs (addrs : list Addr) : list Addr :=
  foldl (fun seen a => if bool_decide (a ∈ seen) then seen else seen ++ [a]) [] addrs.

Definition P2pNetwork_new (p2p_port : N) (bootstrap_addrs : list Addr) (chain_id : string)
    : list SwarmAction * P2pNetwork :=
  let stored := dedup_addrs bootstrap_addrs in
  ((Subscribe <$> [topic_tx chain_id; topic_block chain_id; topic_vote chain_id; topic_miner_checkin chain_id])
     ++ [ListenOn p2p_port] ++ (Dial <$> stored),
   mkP2pNetwork ∅ ∅ chain_id stored).

(** A gossip message, unless it is too large. *)
Definition publish (topic : string) (msg : GossipMessage) : list SwarmAction :=
  let data := to_vec msg in
  if MAX_P2P_MESSAGE_SIZE <? blen data then [] else [Publish topic data].

Definition broadcast_tx (tx : Transaction) net := publish (topic_tx (pn_chain_id net)) (NewTx tx).
Definition broadcast_block (block : Block) net := publish (topic_block (pn_chain_id net)) (NewBlock block).
Definition broadcast_vote (vote : BlockVote) net := publish (topic_vote (pn_chain_id net)) (Vote vote).

(** A check-in that finds no subscriber is pushed to every connected peer. *)
Definition broadcast_checkin (view : SwarmView) (witness : MinerCheckinWitness) net : list SwarmAction :=
  let topic := topic_miner_checkin (pn_chain_id net) in
  let data := to_vec (MinerCheckin witness) in
  if MAX_P2P_MESSAGE_SIZE <? blen data then []
  else Publish topic data ::
    (if sv_publishes view topic data then []
     else (fun peer => SendRequest peer (to_vec (PushMinerCheckin witness))) <$> sv_connected_peers view).

Definition run_command (view : SwarmView) (cmd : P2pCommand Peer Channel) net : list SwarmAction :=
  match cmd with
  | SendSyncRequest peer request => [SendRequest peer (to_vec request)]
  | SendSyncResponse channel response => [SendResponse channel (to_vec response)]
  | BroadcastBlock block => broadcast_block block net
  | BroadcastVote vote => broadcast_vote vote net
  | BroadcastTx tx => broadcast_tx tx net
  | BroadcastCheckin witness => broadcast_checkin view witness net
  end.

Fixpoint find_peer (ps : list Protocol) : option Peer :=
  match ps with
  | [] => None
  | P2p id :: _ => Some id
  | OtherProtocol :: ps => find_peer ps
  end.

Definition should_redial_bootstrap (addr : Addr) (connected : gset Peer) : bool :=
  match find_peer (multiaddr_iter addr) with
  | Some pid => negb (bool_decide (pid ∈ connected))
  | None => true
  end.

(** The tick that redials, and subscribes again when nobody listens. *)
Definition bootstrap_tick (view : SwarmView) net : list SwarmAction :=
  let topic := topic_miner_checkin (pn_chain_id net) in
  (Dial <$> List.filter (fun addr => should_redial_bootstrap addr (pn_peers net)) (pn_bootstrap_addrs net))
  ++ (if (0 <? N.of_nat (length (sv_connected_peers view))) && negb (sv_topic_peers view topic)
      then [Unsubscribe topic; Subscribe topic] else []).

Definition gossip_event (msg : GossipMessage) : NetworkEvent Peer Channel :=
  match msg with
  | NewTx tx => EvNewTx tx
  | NewBlock block => EvNewBlock block
  | Vote vote => EvVote vote
  | MinerCheckin witness => EvMinerCheckin witness
  end.

Definition full net : bool := MAX_PEER_CONNECTIONS <=? N.of_nat (size (pn_peers net)).

Definition add_peer peer net : P2pNetwork :=
  mkP2pNetwork ({[peer]} ∪ pn_peers net) (pn_incompatible_peers net) (pn_chain_id net) (pn_bootstrap_addrs net).
Definition remove_peer peer net : P2pNetwork :=
  mkP2pNetwork (pn_peers net ∖ {[peer]}) (pn_incompatible_peers net) (pn_chain_id net) (pn_bootstrap_addrs net).
Definition mark_incompatible peer net : P2pNetwork :=
  mkP2pNetwork (pn_peers net) ({[peer]} ∪ pn_incompatible_peers net) (pn_chain_id net) (pn_bootstrap_addrs net).

(** Peers found by mDNS, until there are too many. *)
Fixpoint discover (peers : list Peer) net : list (NetworkEvent Peer Channel) * P2pNetwork :=
  match peers with
  | [] => ([], net)
  | peer :: peers =>
      if bool_decide (peer ∈ pn_peers net) then discover peers net
      else if bool_decide (peer ∈ pn_incompatible_peers net) then discover peers net
      else if full net then ([], net)
      else let '(events, net) := discover peers (add_peer peer net) in (EvPeerConnected peer :: events, net)
  end.

Definition swarm_event (event : SwarmEvent) net : list (NetworkEvent Peer Channel) * P2pNetwork :=
  match event with
  | GossipReceived data =>
      if MAX_P2P_MESSAGE_SIZE <? blen data then ([], net)
      else match try_from_slice data with Ok msg => ([gossip_event msg], net) | Err _ => ([], net) end
  | RequestReceived peer request channel =>
      match try_from_slice request with Ok req => ([EvSyncRequest peer req channel], net) | Err _ => ([], net) end
  | ResponseReceived peer response =>
      match try_from_slice response with Ok resp => ([EvSyncResponse peer resp], net) | Err _ => ([], net) end
  | OutboundFailure peer unsupported =>
      if unsupported then ([EvPeerDisconnected peer], remove_peer peer (mark_incompatible peer net)) else ([], net)
  | Discovered peers => discover peers net
  | Expired peers => (EvPeerDisconnected <$> peers, foldl (fun net peer => remove_peer peer net) net peers)
  | ConnectionEstablished peer n =>
      if n =? 1 then if full net then ([], net) else ([EvPeerConnected peer], add_peer peer net) else ([], net)
  | ConnectionClosed peer n => if n =? 0 then ([EvPeerDisconnected peer], remove_peer peer net) else ([], net)
  | OtherEvent => ([], net)
  end.
End network.
Arguments Protocol Peer : clear implicits.
Arguments P2pNetwork Peer Addr {_ _}.
Arguments SwarmAction Peer Channel Addr : clear implicits.
Arguments SwarmView Peer : clear implicits.
Arguments SwarmEvent Peer Channel : clear implicits.

(** ** Framing *)
Lemma be_value_be32 n : n < TWO32 -> be_value (be32 n) = n.
Proof.
  intros Hn. unfold be_value, be32. rewrite reverse_involutive, N.mod_small by done. by apply le_value_le_bytes.
Qed.

Lemma length_be32 n : length (be32 n) = 4%nat.
Proof. unfold be32. by rewrite length_reverse, length_le_bytes. Qed.

Lemma read_exact_app a rest : read_exact (blen a) (a ++ rest) = (Ok a, rest).
Proof.
  unfold read_exact, blen. rewrite length_app. rewrite (proj2 (N.leb_le _ _)) by lia.
  by rewrite Nat2N.id, take_app_length, drop_app_length.
Qed.

Lemma read_frame len body rest :
  len < TWO32 ->
  read_request (be32 len ++ body ++ rest)
  = if MAX_P2P_MESSAGE_SIZE <? len then (Err (InvalidData "message too large"), body ++ rest)
    else read_exact len (body ++ rest).
Proof.
  intros Hlen. unfold read_request, mbind, ST_bind.
  replace (read_exact 4 (be32 len ++ body ++ rest)) with (Ok (A:=bytes) (E:=IoError) (be32 len), body ++ rest).
  2: { symmetry. rewrite <- (read_exact_app (be32 len)). unfold blen. by rewrite length_be32. }
  simpl. rewrite be_value_be32 by done. unfold fail_if. by destruct (MAX_P2P_MESSAGE_SIZE <? len).
Qed.

Lemma written req io : write_request req io = (Ok tt, io ++ be32 (blen req) ++ req).
Proof. unfold write_request, write_all, mbind, ST_bind. by rewrite <- app_assoc. Qed.

(** A message of the protocol arrives as it was sent when it is not larger than the
    limit.  The writer does not know the limit: a larger message is written in
    full, and refused by the reader, who is left in the middle of it. *)
Theorem frame_roundtrip req io rest :
  blen req < TWO32 ->
  exists frame, write_request req io = (Ok tt, io ++ frame) /\
    read_response (frame ++ rest)
    = if MAX_P2P_MESSAGE_SIZE <? blen req then (Err (InvalidData "message too large"), req ++ rest) else (Ok req, rest).
Proof.
  intros Hlen. exists (be32 (blen req) ++ req). split; [apply written |].
  unfold read_response. rewrite <- app_assoc, read_frame by done.
  destruct (MAX_P2P_MESSAGE_SIZE <? blen req); [done | apply read_exact_app].
Qed.

(** ** Topics *)

Inductive TopicKind : Type := TopicTx | TopicBlock | TopicVote | TopicCheckin.

Definition topic (k : TopicKind) : string -> string :=
  match k with
  | TopicTx => topic_tx | TopicBlock => topic_block | TopicVote => topic_vote | TopicCheckin => topic_miner_checkin
  end.

Lemma ascii_app a b : list_ascii_of_string (a +:+ b)%string = list_ascii_of_string a ++ list_ascii_of_string b.
Proof. induction a as [|c a IH]; [done | simpl; by rewrite IH]. Qed.

Lemma ascii_inj a b : list_ascii_of_string a = list_ascii_of_string b -> a = b.
Proof. intros H. by rewrite <- (string_of_list_ascii_of_string a), <- (string_of_list_ascii_of_string b), H. Qed.

Lemma string_between_inj p s c1 c2 : (p +:+ c1 +:+ s = p +:+ c2 +:+ s)%string -> c1 = c2.
Proof.
  intros Heq. apply (f_equal list_ascii_of_string) in Heq. rewrite !ascii_app in Heq.
  by apply app_inv_head, app_inv_tail, ascii_inj in Heq.
Qed.

(** The letter before the version tells the topics apart. *)
Lemma topic_shape k c : exists front l,
  list_ascii_of_string (topic k c) = front ++ l :: list_ascii_of_string "/1"
  /\ l = match k with TopicTx => "x" | TopicBlock => "k" | TopicVote => "e" | TopicCheckin => "n" end%char.
Proof.
  destruct k; simpl; rewrite ascii_app; simpl;
    [exists (list_ascii_of_string ("claw/" +:+ c +:+ "/t")%string)
    |exists (list_ascii_of_string ("claw/" +:+ c +:+ "/bloc")%string)
    |exists (list_ascii_of_string ("claw/" +:+ c +:+ "/vot")%string)
    |exists (list_ascii_of_string ("claw/" +:+ c +:+ "/miner-checki")%string)];
    eexists; (split; [| reflexivity]); rewrite !ascii_app; simpl; by rewrite <- app_assoc.
Qed.

(** Chains do not mix: topics of two chains, or of two kinds, are never the same. *)
Theorem topics_isolate k1 k2 c1 c2 : topic k1 c1 = topic k2 c2 -> k1 = k2 /\ c1 = c2.
Proof.
  intros Heq.
  assert (k1 = k2) as ->.
  { destruct (topic_shape k1 c1) as (f1 & l1 & H1 & Hl1), (topic_shape k2 c2) as (f2 & l2 & H2 & Hl2).
    rewrite Heq, H2 in H1. apply app_inj_2 in H1 as [_ H1]; [| done]. injection H1 as Hl.
    rewrite Hl1, Hl2 in Hl. by destruct k1, k2. }
  split; [done |]. destruct k2; by apply string_between_inj in Heq.
Qed.

(** ** The identity of a node *)

Section identity.
Context {Keypair : Type} (from_protobuf : bytes -> result Keypair string) (to_protobuf : Keypair -> result bytes string).

(** The key file, read or made: the keypair and what the file holds then. *)
Definition load_or_generate_keypair (path : string) (p2p_key : option bytes) (generated : Keypair)
    : result (Keypair * bytes) string :=
  match p2p_key with
  | Some bs =>
      match from_protobuf bs with
      | Ok keypair => Ok (keypair, bs)
      | Err e => Err ("failed to decode P2P key from " +:+ path +:+ ": " +:+ e)%string
      end
  | None =>
      match to_protobuf generated with
      | Ok bs => Ok (generated, bs)
      | Err e => Err ("failed to encode P2P key: " +:+ e)%string
      end
  end.

(** A node keeps its identity over restarts, whatever would be generated then. *)
Theorem identity_kept path p2p_key generated keypair bs :
  (forall k b, to_protobuf k = Ok b -> from_protobuf b = Ok k) ->
  load_or_generate_keypair path p2p_key generated = Ok (keypair, bs) ->
  forall generated', load_or_generate_keypair path (Some bs) generated' = Ok (keypair, bs).
Proof.
  intros Hlaw Hload generated'. unfold load_or_generate_keypair in *. destruct p2p_key as [b|].
  - destruct (from_protobuf b) eqn:Hb; [| done]. injection Hload as <- <-. by rewrite Hb.
  - destruct (to_protobuf generated) eqn:Hb; [| done]. injection Hload as <- <-. by rewrite (Hlaw _ _ Hb).
Qed.
End identity.
