(* ===== verification/Json.v ===== *)
(** * JSON values and floating-point numbers

    [serde_json::Value], what the RPC server reads of its parameters, and the
    arithmetic of [f64] that it uses, on the standard library's [spec_float]. *)

From Stdlib Require Import SpecFloat.
From stdpp Require Import pretty.
From S2P Require Import Prelude Interfaces Types.

(** An object is given by its fields in the order in which the code writes them. *)
Inductive Json : Type :=
  | JNull
  | JBool (b : bool)
  | JNum (n : N)
  | JNeg (z : Z)
  | JFloat (f : spec_float)
  | JStr (s : string)
  | JArr (l : list Json)
  | JObj (fields : list (string * Json)).

(** [v.get(i)], [v.get(key)], [v.as_array()], [v.as_u64()], [v.as_str()],
    [v.as_bool()]. *)
Definition json_get (v : Json) (i : nat) : option Json :=
  match v with JArr l => l !! i | _ => None end.
Definition json_field (v : Json) (k : string) : option Json :=
  match v with
  | JObj fields => snd <$> List.find (fun p => String.eqb p.1 k) fields
  | _ => None
  end.
Definition as_array (v : Json) : option (list Json) := match v with JArr l => Some l | _ => None end.
Definition as_u64_ (v : Json) : option N := match v with JNum n => Some n | _ => None end.
Definition as_str (v : Json) : option string := match v with JStr s => Some s | _ => None end.
Definition as_bool (v : Json) : option bool := match v with JBool b => Some b | _ => None end.

Definition param_u64 (params : Json) (i : nat) : option N := json_get params i ≫= as_u64_.
Definition param_str (params : Json) (i : nat) : option string := json_get params i ≫= as_str.
Definition param_bool (params : Json) (i : nat) : option bool := json_get params i ≫= as_bool.

(** [n.to_string()], and an optional string. *)
Definition jdec (n : N) : Json := JStr (pretty n).
Definition jopt (o : option string) : Json := match o with Some s => JStr s | None => JNull end.

(** ** Binary64 *)

Definition f64_of (n : N) : spec_float := binary_normalize 53 1024 (Z.of_N n) 0 false.
Definition f64_div : spec_float -> spec_float -> spec_float := SFdiv 53 1024.
Definition f64_mul : spec_float -> spec_float -> spec_float := SFmul 53 1024.

(** [x.round()]: to the nearest integer, halves away from zero. *)
Definition f64_round (x : spec_float) : spec_float :=
  match x with
  | S754_finite s m e =>
      if (0 <=? e)%Z then x
      else
        let d := (2 ^ (- e))%Z in
        let q := (Z.pos m / d)%Z in
        let r := (Z.pos m mod d)%Z in
        let n := if (d <=? 2 * r)%Z then (q + 1)%Z else q in
        if (n =? 0)%Z then S754_zero s else binary_normalize 53 1024 (if s then (- n)%Z else n) 0 s
  | _ => x
  end.

(** [(x * 10.0).round() / 10.0]. *)
Definition one_decimal (x : spec_float) : spec_float := f64_div (f64_round (f64_mul x (f64_of 10))) (f64_of 10).

(** [(a as f64 / b as f64) * 100.0]. *)
Definition percentage (a b : N) : spec_float := f64_mul (f64_div (f64_of a) (f64_of b)) (f64_of 100).

Example one_third : one_decimal (percentage 1 3) = f64_div (f64_of 333) (f64_of 10).
Proof. reflexivity. Qed.

(** [serde_json::to_value] of a type with a derived or written serialiser. *)
Class Serialize (A : Type) : Type := to_value : A -> result Json string.
