(* ===== verification/SerdeJson.v ===== *)
(** * Signatures as JSON ([serde_sig] of [types/src/transaction.rs],
    [serde_signatures] of [types/src/block.rs])

    The serialisers that are written by hand, for arrays of 64 bytes, with what they
    do to texts that nobody serialised. *)

From S2P Require Import Prelude Interfaces Types Utf8 Genesis Json.
Notation length := List.length.

(** ** One signature *)

Definition hex_lower (n : N) : byte := byte_of_N (if n <? 10 then 48 + n else 87 + n).

Definition sig_serialize (sig : bytes) : Json :=
  JStr (string_of_bytes (sig ≫= fun b => [hex_lower (Byte.to_N b / 16); hex_lower (Byte.to_N b mod 16)])).

Definition hex_value (b : byte) : option N :=
  if between 48 57 b then Some (Byte.to_N b - 48)
  else if between 97 102 b then Some (Byte.to_N b - 87)
  else if between 65 70 b then Some (Byte.to_N b - 55) else None.

(** [u8::from_str_radix(.., 16)] of two bytes: a plus sign may stand in front. *)
Definition u8_from_hex (c d : byte) : option N :=
  if Byte.to_N c =? 43 then hex_value d
  else match hex_value c, hex_value d with Some h, Some l => Some (h * 16 + l) | _, _ => None end.

(** Two bytes at a time; [None] is a panic: a slice that ends behind the text or
    within a character. *)
Fixpoint read_pairs (s : bytes) : option (result bytes string) :=
  match s with
  | [] => Some (Ok [])
  | [_] => None
  | c :: d :: rest =>
      if match rest with b :: _ => between 128 191 b | [] => false end then None
      else
        match u8_from_hex c d with
        | None => Some (Err "invalid digit found in string"%string)
        | Some n =>
            match read_pairs rest with
            | Some (Ok bs) => Some (Ok (byte_of_N n :: bs))
            | o => o
            end
        end
  end.

Definition sig_deserialize (v : Json) : option (result bytes string) :=
  match as_str v with
  | None => Some (Err "invalid type: expected a string"%string)
  | Some s =>
      match read_pairs (as_bytes s) with
      | Some (Ok bs) => Some (if (length bs =? 64)%nat then Ok bs else Err "expected 64 bytes"%string)
      | o => o
      end
  end.

(** ** The signatures of a block *)

Section signatures.
Context `{HX : Hex} `{HD : HexDecode}.

Definition signatures_serialize (sigs : list (bytes * bytes)) : Json :=
  JArr ((fun p => JObj [("address", JStr (hex_encode p.1)); ("signature", JStr (hex_encode p.2))]%string) <$> sigs).

Definition exact_hex (s : string) (n : nat) (what : string) : result bytes string :=
  let? bs := hex_decode s in
  if (length bs =? n)%nat then Ok bs else Err what.

(** [SigPair], and all of them before any is decoded. *)
Definition read_sig_pair (v : Json) : result (string * string) string :=
  match json_field v "address" ≫= as_str, json_field v "signature" ≫= as_str with
  | Some address, Some signature => Ok (address, signature)
  | _, _ => Err "missing field"%string
  end.

Fixpoint try_map {A B} (f : A -> result B string) (l : list A) : result (list B) string :=
  match l with
  | [] => Ok []
  | a :: l => let? b := f a in let? bs := try_map f l in Ok (b :: bs)
  end.

Definition decode_sig_pair (p : string * string) : result (bytes * bytes) string :=
  let? addr_bytes := exact_hex p.1 32 "address must be 32 bytes" in
  let? sig_bytes := exact_hex p.2 64 "signature must be 64 bytes" in
  Ok (addr_bytes, sig_bytes).

Definition signatures_deserialize (v : Json) : result (list (bytes * bytes)) string :=
  match as_array v with
  | Some l => let? pairs := try_map read_sig_pair l in try_map decode_sig_pair pairs
  | None => Err "invalid type: expected a sequence"%string
  end.
End signatures.

(** ** Facts *)
Lemma hex_digits_read b rest :
  read_pairs (hex_lower (Byte.to_N b / 16) :: hex_lower (Byte.to_N b mod 16) :: rest)
  = if match rest with c :: _ => between 128 191 c | [] => false end then None
    else match read_pairs rest with Some (Ok bs) => Some (Ok (b :: bs)) | o => o end.
Proof. by destruct b. Qed.

(** A signature survives its JSON form. *)
Theorem sig_roundtrip sig : length sig = 64%nat -> sig_deserialize (sig_serialize sig) = Some (Ok sig).
Proof.
  intros Hl. unfold sig_deserialize, sig_serialize. cbn [as_str].
  unfold string_of_bytes, as_bytes. rewrite String.list_byte_of_string_of_list_byte.
  assert (forall bs, read_pairs (bs ≫= fun b => [hex_lower (Byte.to_N b / 16); hex_lower (Byte.to_N b mod 16)]) = Some (Ok bs)) as ->.
  { clear. induction bs as [| b bs IH]; [done |]. cbn [mbind list_bind app]. rewrite hex_digits_read.
    assert (match bs ≫= (fun b => [hex_lower (Byte.to_N b / 16); hex_lower (Byte.to_N b mod 16)]) with
            | c :: _ => between 128 191 c | [] => false end = false) as Hh by (destruct bs as [| c bs]; [done | by destruct c]).
    cbn [mbind list_bind] in Hh, IH. by rewrite Hh, IH. }
  by rewrite Hl.
Qed.

(** The signatures of a block survive theirs. *)
Theorem signatures_roundtrip `{HexLaws} sigs :
  Forall (fun p => length p.1 = 32%nat /\ length p.2 = 64%nat) sigs ->
  signatures_deserialize (signatures_serialize sigs) = Ok sigs.
Proof.
  intros Hs. unfold signatures_deserialize, signatures_serialize. cbn [as_array].
  assert (forall l, try_map read_sig_pair ((fun p : bytes * bytes =>
      JObj [("address", JStr (hex_encode p.1)); ("signature", JStr (hex_encode p.2))]%string) <$> l)
    = Ok ((fun p => (hex_encode p.1, hex_encode p.2)) <$> l)) as ->.
  { induction l as [| p l IH]; [done |]. rewrite !fmap_cons. cbn [try_map]. by rewrite IH. }
  induction Hs as [| [a s] sigs [Ha Hsig] _ IH]; [done |]. rewrite fmap_cons. cbn [try_map]. rewrite IH.
  unfold decode_sig_pair, exact_hex. cbn [fst snd] in *. by rewrite !hex_decode_encode, Ha, Hsig.
Qed.

(** A text of odd length makes the reader panic, and a plus sign counts as a zero. *)
Example odd_text_panics : sig_deserialize (JStr "abc") = None.
Proof. reflexivity. Qed.
Example plus_is_zero : u8_from_hex x2b x66 = u8_from_hex x30 x66.
Proof. reflexivity. Qed.
