(* ===== verification/Config.v ===== *)
(** * Configuration and keys ([node/src/config.rs], [network.rs], [sync.rs])

    The data directory of a node: its key file, plain or encrypted, and its
    configuration file.  A directory is the text of its files; AES-GCM, PBKDF2,
    the texts of JSON and TOML and randomness are parameters.  The disk does not
    fail: what can go wrong is a file that is missing or does not say what it
    should. *)

From stdpp Require Import pretty.
From S2P Require Import Prelude Interfaces Types Concrete Crypto Utf8 World Genesis Json.
Notation length := List.length.

(** ** What the code uses *)

(** Reading and writing JSON text; [Value]'s [Display]. *)
Class JsonText : Type := {
  json_to_string : Json -> string;
  json_to_string_pretty : Json -> string;
  json_from_str : string -> result Json string;
}.

(** [pbkdf2_hmac::<Sha256>] into 32 bytes; AES-256-GCM on a key and a nonce. *)
Class KeyCipher : Type := {
  pbkdf2_hmac_sha256 : bytes -> bytes -> N -> bytes;
  aes_gcm_encrypt : bytes -> bytes -> bytes -> option bytes;
  aes_gcm_decrypt : bytes -> bytes -> bytes -> option bytes;
}.

(** A value that can be the field of a flat object. *)
Definition scalar (v : Json) : bool :=
  match v with JBool _ | JStr _ | JNum _ => true | _ => false end.

(** What is relied on: an object is read back with its fields, in some order; a
    secret of 32 bytes can be encrypted, and what was encrypted is decrypted. *)
Class KeyFileLaws `{JsonText, KeyCipher} : Prop := {
  json_read_back : forall fields, NoDup fields.*1 -> forallb (fun p => scalar p.2) fields = true ->
    exists v, json_from_str (json_to_string_pretty (JObj fields)) = Ok v
      /\ forall k, json_field v k = json_field (JObj fields) k;
  aes_encrypts : forall key nonce secret, length secret = 32%nat -> length nonce = 12%nat ->
    exists ct, aes_gcm_encrypt key nonce secret = Some ct /\ aes_gcm_decrypt key nonce ct = Some secret;
}.

(** ** [config.toml] *)

Record FileConfig : Type := mkFileConfig {
  fc_network_name : option string;
  fc_rpc_port : option N;
  fc_p2p_port : option N;
  fc_bootstrap : list string;
  fc_single : option bool;
  fc_log_format : option string;
  fc_log_filter : option string;
}.
Definition default_FileConfig : FileConfig := mkFileConfig None None None [] None None None.

Class Toml : Type := toml_from_str : string -> result FileConfig string.

Record DataDir : Type := mkDataDir {
  dd_key_json : option string;
  dd_config_toml : option string;
}.

Definition load_file_config `{Toml} (dir : DataDir) : result FileConfig string :=
  match dd_config_toml dir with
  | None => Ok default_FileConfig
  | Some content => match toml_from_str content with Ok cfg => Ok cfg | Err _ => Err "parse config.toml" end
  end.

Definition network_name_of (chain_id : string) : string :=
  if String.eqb chain_id "claw-mainnet-1" then "mainnet"
  else if String.eqb chain_id "claw-testnet-1" then "testnet" else "devnet".

Definition newline : string := string_of_bytes [x0a].
Definition quoted (s : string) : string := (quote +:+ s +:+ quote)%string.

Definition default_config_text (network_name : string) : string :=
  foldr (fun line rest => (line +:+ newline +:+ rest)%string) ""%string
    [ "# ClawNetwork node configuration"; "# CLI arguments override these values."; "";
      "[node]"; "network = " +:+ quoted network_name; "";
      "[network]"; "rpc_port = 9710"; "p2p_port = 9711"; "# bootstrap = [" +:+ quoted "/ip4/1.2.3.4/tcp/9711" +:+ "]";
      "# single = false"; "";
      "[log]"; "format = " +:+ quoted "text"; "# filter = " +:+ quoted "claw=info" ]%string.

Definition write_default_config (chain_id : string) (dir : DataDir) : DataDir :=
  match dd_config_toml dir with
  | Some _ => dir
  | None => mkDataDir (dd_key_json dir) (Some (default_config_text (network_name_of chain_id)))
  end.

(** ** Encryption of the key *)

Section keys.
Context `{HE : Ed25519} `{HX : Hex} `{HD : HexDecode} `{JT : JsonText} `{KC : KeyCipher}.
Implicit Types (dir : DataDir) (password : option string).

Definition PBKDF2_ITERATIONS : N := 100000.

Record NodeConfig : Type := mkNodeConfig {
  nc_address : bytes;
  nc_signing_key_bytes : bytes;
}.

(** The randomness of an encryption: the salt and the nonce. *)
Record KeyRandom : Type := mkKeyRandom { kr_salt : bytes; kr_nonce : bytes }.

Definition derive_aes_key (password : string) (salt : bytes) : bytes :=
  pbkdf2_hmac_sha256 (as_bytes password) salt PBKDF2_ITERATIONS.

Definition encrypt_key (rng : KeyRandom) (secret_key : bytes) (password : string)
    : result (bytes * bytes * bytes) string :=
  let aes_key := derive_aes_key password (kr_salt rng) in
  match aes_gcm_encrypt aes_key (kr_nonce rng) secret_key with
  | Some ciphertext => Ok (ciphertext, kr_salt rng, kr_nonce rng)
  | None => Err "AES-GCM encrypt: aead::Error"%string
  end.

Definition decrypt_key (ciphertext : bytes) (password : string) (salt nonce : bytes) : result bytes string :=
  let aes_key := derive_aes_key password salt in
  match aes_gcm_decrypt aes_key nonce ciphertext with
  | None => Err "decryption failed — wrong password or corrupted key file"%string
  | Some plaintext =>
      if negb (length plaintext =? 32)%nat then
        Err ("decrypted key has unexpected length " +:+ pretty (blen plaintext) +:+ " (expected 32)")%string
      else Ok plaintext
  end.

(** The environment variable, unless it is empty. *)
Definition read_password_env (var : option string) : option string :=
  match var with Some p => if String.eqb p "" then None else Some p | None => None end.

Definition build_encrypted_key_json (address ciphertext salt nonce : bytes) (chain_id : string) : Json :=
  JObj [("address", JStr (hex_encode address)); ("encrypted", JBool true); ("salt", JStr (hex_encode salt));
        ("nonce", JStr (hex_encode nonce)); ("ciphertext", JStr (hex_encode ciphertext));
        ("chain_id", JStr chain_id)]%string.

Definition build_plaintext_key_json (address secret_key : bytes) (chain_id : string) : Json :=
  JObj [("address", JStr (hex_encode address)); ("secret_key", JStr (hex_encode secret_key));
        ("chain_id", JStr chain_id)]%string.

Definition write_key_file (v : Json) dir : DataDir := mkDataDir (Some (json_to_string_pretty v)) (dd_config_toml dir).

(** The key file's content, with or without a password. *)
Definition key_json (rng : KeyRandom) (password : option string) (address secret_key : bytes) (chain_id : string)
    : result Json string :=
  match password with
  | Some pw =>
      match encrypt_key rng secret_key pw with
      | Ok (ciphertext, salt, nonce) => Ok (build_encrypted_key_json address ciphertext salt nonce chain_id)
      | Err e => Err e
      end
  | None => Ok (build_plaintext_key_json address secret_key chain_id)
  end.

(** ** Loading *)

(** [json[name].as_str().context(missing)?] *)
Definition str_field (v : Json) (name missing : string) : result string string :=
  match json_field v name ≫= as_str with Some s => Ok s | None => Err missing end.
Definition sized (b : bytes) (n : nat) (what : string) : result bytes string :=
  if negb (length b =? n)%nat
  then Err (what +:+ " has unexpected length " +:+ pretty (blen b) +:+ " (expected " +:+ pretty (N.of_nat n) +:+ ")")%string
  else Ok b.
Definition decoded (s context : string) : result bytes string :=
  match hex_decode s with Ok b => Ok b | Err _ => Err context end.

Definition is_encrypted (v : Json) : bool := default false (json_field v "encrypted" ≫= as_bool).

Definition read_key_json (dir : DataDir) : result Json string :=
  match dd_key_json dir with
  | None => Err "read key file"%string
  | Some content => json_from_str content
  end.

Definition load_encrypted password (v : Json) : result bytes string :=
  match password with
  | None => Err "key is encrypted but CLAW_KEY_PASSWORD env var is not set"%string
  | Some pw =>
      let? salt_hex := str_field v "salt" "missing salt in encrypted key" in
      let? nonce_hex := str_field v "nonce" "missing nonce in encrypted key" in
      let? ct_hex := str_field v "ciphertext" "missing ciphertext in encrypted key" in
      let? salt := decoded salt_hex "decode salt" in
      let? nonce := decoded nonce_hex "decode nonce" in
      let? ciphertext := decoded ct_hex "decode ciphertext" in
      let? salt := sized salt 32 "salt" in
      let? nonce := sized nonce 12 "nonce" in
      decrypt_key ciphertext pw salt nonce
  end.

Definition load_plain (v : Json) : result bytes string :=
  let? sk_hex := str_field v "secret_key" "missing secret_key" in
  let? sk_bytes := hex_decode sk_hex in
  sized sk_bytes 32 "secret_key".

Definition load_config password dir : result NodeConfig string :=
  let? v := read_key_json dir in
  let? addr_hex := str_field v "address" "missing address" in
  let? addr_bytes := hex_decode addr_hex in
  let? address := sized addr_bytes 32 "address" in
  let? signing_key_bytes := (if is_encrypted v then load_encrypted password v else load_plain v) in
  Ok (mkNodeConfig address signing_key_bytes).

(** ** Operations *)

(** [init_node]; the address it prints.  [sk] is the generated key. *)
Definition init_node (rng : KeyRandom) (sk : bytes) password (chain_id : string) dir : result (bytes * DataDir) string :=
  match dd_key_json dir with
  | Some _ =>
      let? cfg := load_config password dir in
      Ok (nc_address cfg, write_default_config chain_id dir)
  | None =>
      let addr := vk_of_signing_key sk in
      let? key_data := key_json rng password addr sk chain_id in
      Ok (addr, write_default_config chain_id (write_key_file key_data dir))
  end.

Definition import_key (rng : KeyRandom) password (secret_key : bytes) (chain_id : string) dir
    : result (bytes * DataDir) string :=
  let address := vk_of_signing_key secret_key in
  let? key_data := key_json rng password address secret_key chain_id in
  Ok (address, write_default_config chain_id (write_key_file key_data dir)).

Definition export_key password dir : result (bytes * bytes) string :=
  let? cfg := load_config password dir in
  Ok (nc_signing_key_bytes cfg, nc_address cfg).

Definition encrypt_existing_key (rng : KeyRandom) password dir : result (bytes * DataDir) string :=
  let? v := read_key_json dir in
  if is_encrypted v then Err "key.json is already encrypted"%string
  else
    match password with
    | None => Err "CLAW_KEY_PASSWORD env var must be set to encrypt the key"%string
    | Some pw =>
        let? addr_hex := str_field v "address" "missing address" in
        let? sk_hex := str_field v "secret_key" "missing secret_key" in
        let chain_id := default "claw-devnet"%string (json_field v "chain_id" ≫= as_str) in
        let? addr_bytes := hex_decode addr_hex in
        let? sk_bytes := hex_decode sk_hex in
        let? address := sized addr_bytes 32 "address" in
        let? secret_key := sized sk_bytes 32 "secret_key" in
        let? enc := encrypt_key rng secret_key pw in
        let '(ciphertext, salt, nonce) := enc in
        Ok (address, write_key_file (build_encrypted_key_json address ciphertext salt nonce chain_id) dir)
    end.
End keys.

(** ** Networks ([network.rs]) and sync modes ([sync.rs]) *)

Inductive Network : Type := Mainnet | Testnet | Devnet.
#[export] Instance Network_eq_dec : EqDecision Network.
Proof. solve_decision. Defined.

Record NetworkConfig : Type := mkNetworkConfig {
  nk_chain_id : string;
  nk_bootstrap_peers : list string;
  nk_is_local : bool;
  nk_faucet_enabled : bool;
}.

Definition network_config (n : Network) : NetworkConfig :=
  match n with
  | Mainnet => mkNetworkConfig "claw-mainnet-1" [] false false
  | Testnet => mkNetworkConfig "claw-testnet-1" ["/ip4/39.102.144.231/tcp/9711"%string] false true
  | Devnet => mkNetworkConfig "claw-devnet" [] true true
  end.

(** [to_lowercase], on the letters that the names compared with are made of. *)
Definition lower (c : Byte.byte) : Byte.byte := if between 65 90 c then byte_of_N (Byte.to_N c + 32) else c.
Definition to_lowercase (s : string) : string := string_of_bytes (lower <$> as_bytes s).

(** [parse_network] of [main.rs]. *)
Definition parse_network (s : string) : option Network :=
  let s := to_lowercase s in
  if String.eqb s "mainnet" then Some Mainnet
  else if String.eqb s "testnet" then Some Testnet
  else if String.eqb s "devnet" then Some Devnet else None.

Definition LIGHT_MODE_KEEP_BLOCKS : N := 1000.

Inductive SyncMode : Type := SyncFull | SyncFast | SyncLight.

Definition SyncMode_parse (s : string) : SyncMode :=
  let s := to_lowercase s in
  if String.eqb s "fast" then SyncFast else if String.eqb s "light" then SyncLight else SyncFull.

Definition SyncMode_display (m : SyncMode) : string :=
  match m with SyncFull => "full" | SyncFast => "fast" | SyncLight => "light" end.

(** ** The key survives *)

Section keys_kept.
Context `{HE : Ed25519} `{HX : Hex} `{HD : HexDecode} `{!HexLaws} `{JT : JsonText} `{KC : KeyCipher} `{!KeyFileLaws}.
Implicit Types (dir : DataDir) (password : option string).

Lemma sized_ok b n what : length b = n -> sized b n what = Ok b.
Proof. intros Hb. unfold sized. by rewrite (proj2 (Nat.eqb_eq _ _) Hb). Qed.

Lemma sized_inv b n what b' : sized b n what = Ok b' -> b' = b /\ length b = n.
Proof. unfold sized. destruct (length b =? n)%nat eqn:Hn; [| done]. intros [= <-]. by apply Nat.eqb_eq in Hn. Qed.

(** A key file that was written, as it is read. *)
Definition key_fields (v : Json) (address : bytes) : Prop :=
  json_field v "address" = Some (JStr (hex_encode address)).

Lemma written_plain dir address sk chain_id :
  exists v, read_key_json (write_key_file (build_plaintext_key_json address sk chain_id) dir) = Ok v
    /\ key_fields v address /\ is_encrypted v = false
    /\ json_field v "secret_key" = Some (JStr (hex_encode sk)) /\ json_field v "chain_id" = Some (JStr chain_id).
Proof.
  destruct (json_read_back [("address", JStr (hex_encode address)); ("secret_key", JStr (hex_encode sk));
    ("chain_id", JStr chain_id)]%string) as (v & Hv & Hf); [vm_compute; repeat constructor; set_solver | done |].
  exists v. split; [exact Hv |]. unfold key_fields, is_encrypted. by rewrite !Hf.
Qed.

Lemma written_encrypted dir address ct salt nonce chain_id :
  exists v, read_key_json (write_key_file (build_encrypted_key_json address ct salt nonce chain_id) dir) = Ok v
    /\ key_fields v address /\ is_encrypted v = true
    /\ json_field v "salt" = Some (JStr (hex_encode salt)) /\ json_field v "nonce" = Some (JStr (hex_encode nonce))
    /\ json_field v "ciphertext" = Some (JStr (hex_encode ct)) /\ json_field v "secret_key" = None.
Proof.
  destruct (json_read_back [("address", JStr (hex_encode address)); ("encrypted", JBool true); ("salt", JStr (hex_encode salt));
    ("nonce", JStr (hex_encode nonce)); ("ciphertext", JStr (hex_encode ct)); ("chain_id", JStr chain_id)]%string)
    as (v & Hv & Hf); [vm_compute; repeat constructor; set_solver | done |].
  exists v. split; [exact Hv |]. unfold key_fields, is_encrypted. by rewrite !Hf.
Qed.

Lemma loads_plain dir password address sk chain_id :
  length address = 32%nat -> length sk = 32%nat ->
  load_config password (write_key_file (build_plaintext_key_json address sk chain_id) dir) = Ok (mkNodeConfig address sk).
Proof.
  intros Ha Hs. destruct (written_plain dir address sk chain_id) as (v & Hv & Hf & He & Hk & _).
  unfold load_config. rewrite Hv. unfold str_field at 1. rewrite Hf. cbn [mbind option_bind as_str].
  rewrite hex_decode_encode, sized_ok, He by done. unfold load_plain, str_field. rewrite Hk. cbn [mbind option_bind as_str].
  by rewrite hex_decode_encode, sized_ok.
Qed.

Lemma loads_encrypted dir rng pw address sk chain_id ct salt nonce :
  length address = 32%nat -> length sk = 32%nat -> length (kr_salt rng) = 32%nat -> length (kr_nonce rng) = 12%nat ->
  encrypt_key rng sk pw = Ok (ct, salt, nonce) ->
  load_config (Some pw) (write_key_file (build_encrypted_key_json address ct salt nonce chain_id) dir)
  = Ok (mkNodeConfig address sk).
Proof.
  intros Ha Hs Hsalt Hnonce Henc. unfold encrypt_key in Henc.
  destruct (aes_encrypts (derive_aes_key pw (kr_salt rng)) (kr_nonce rng) sk Hs Hnonce) as (ct' & E & D).
  rewrite E in Henc. injection Henc as <- <- <-.
  destruct (written_encrypted dir address ct' (kr_salt rng) (kr_nonce rng) chain_id) as (v & Hv & Hf & He & H1 & H2 & H3 & _).
  unfold load_config. rewrite Hv. unfold str_field at 1. rewrite Hf. cbn [mbind option_bind as_str].
  rewrite hex_decode_encode, sized_ok, He by done. unfold load_encrypted, str_field, decoded. rewrite H1, H2, H3.
  cbn [mbind option_bind as_str]. rewrite !hex_decode_encode, !sized_ok by done. unfold decrypt_key. rewrite D.
  by rewrite (proj2 (Nat.eqb_eq _ _) Hs).
Qed.

Lemma encrypts rng sk pw : length sk = 32%nat -> length (kr_nonce rng) = 12%nat ->
  exists ct, encrypt_key rng sk pw = Ok (ct, kr_salt rng, kr_nonce rng).
Proof.
  intros Hs Hn. destruct (aes_encrypts (derive_aes_key pw (kr_salt rng)) (kr_nonce rng) sk Hs Hn) as (ct & E & _).
  exists ct. unfold encrypt_key. by rewrite E.
Qed.

Lemma load_ignores_config password dir chain_id : load_config password (write_default_config chain_id dir) = load_config password dir.
Proof. unfold write_default_config. by destruct (dd_config_toml dir). Qed.

(** A key that is imported is the key that is loaded: importing a secret of 32
    bytes succeeds, whatever the directory held, and afterwards the node, and an
    export, find that secret under the address it signs for, given the password it
    was encrypted with, or any when it was not. *)
Theorem key_roundtrip rng password sk chain_id dir :
  length sk = 32%nat -> length (vk_of_signing_key sk) = 32%nat ->
  length (kr_salt rng) = 32%nat -> length (kr_nonce rng) = 12%nat ->
  exists dir', import_key rng password sk chain_id dir = Ok (vk_of_signing_key sk, dir')
  /\ forall p, password = None \/ p = password ->
       load_config p dir' = Ok (mkNodeConfig (vk_of_signing_key sk) sk)
       /\ export_key p dir' = Ok (sk, vk_of_signing_key sk).
Proof.
  intros Hs Ha Hsalt Hnonce. unfold import_key, key_json, export_key. destruct password as [pw|].
  - destruct (encrypts rng sk pw Hs Hnonce) as [ct Henc]. rewrite Henc. eexists. split; [reflexivity |].
    intros p [| ->]; [done |]. rewrite load_ignores_config. by rewrite (loads_encrypted dir rng pw (vk_of_signing_key sk) sk chain_id ct _ _ Ha Hs Hsalt Hnonce Henc).
  - eexists. split; [reflexivity |]. intros p _. rewrite load_ignores_config. by rewrite loads_plain.
Qed.

(** Encrypting a plain key file keeps its key, which from then on takes the password;
    it cannot be encrypted again. *)
Theorem encrypt_keeps_key rng pw dir v cfg :
  read_key_json dir = Ok v -> is_encrypted v = false -> load_config None dir = Ok cfg ->
  length (kr_salt rng) = 32%nat -> length (kr_nonce rng) = 12%nat ->
  exists dir', encrypt_existing_key rng (Some pw) dir = Ok (nc_address cfg, dir')
  /\ load_config (Some pw) dir' = Ok cfg
  /\ load_config None dir' = Err "key is encrypted but CLAW_KEY_PASSWORD env var is not set"%string
  /\ forall rng' p, encrypt_existing_key rng' p dir' = Err "key.json is already encrypted"%string.
Proof.
  intros Hv He Hload Hsalt Hnonce. unfold load_config in Hload. rewrite Hv, He in Hload.
  unfold encrypt_existing_key at 1. rewrite Hv, He.
  destruct (str_field v "address" _) as [addr_hex|]; [| done].
  destruct (hex_decode addr_hex) as [addr|]; [| done]. destruct (sized addr 32 "address") as [addr'|] eqn:Ha; [| done].
  unfold load_plain in Hload. destruct (str_field v "secret_key" _) as [sk_hex|]; [| done].
  destruct (hex_decode sk_hex) as [sk|]; [| done]. destruct (sized sk 32 "secret_key") as [sk'|] eqn:Hsk; [| done].
  injection Hload as <-. destruct (sized_inv _ _ _ _ Ha) as [-> Hla], (sized_inv _ _ _ _ Hsk) as [-> Hls].
  destruct (encrypts rng sk pw Hls Hnonce) as [ct Henc]. rewrite Henc. eexists. split; [reflexivity |].
  split; [exact (loads_encrypted dir rng pw addr sk _ ct _ _ Hla Hls Hsalt Hnonce Henc) |].
  set (cid := default _ _). destruct (written_encrypted dir addr ct (kr_salt rng) (kr_nonce rng) cid)
    as (v' & Hv' & Hf & He' & _). split.
  - unfold load_config. rewrite Hv'. unfold str_field at 1. rewrite Hf. cbn [mbind option_bind as_str].
    by rewrite hex_decode_encode, sized_ok, He'.
  - intros rng' p. unfold encrypt_existing_key. by rewrite Hv', He'.
Qed.
End keys_kept.
