(* ===== verification/ConcreteFiles.v ===== *)
(** * A concrete key file

    A text of JSON and a cipher that satisfy the laws of [Config], for the
    witnesses only. *)

From Stdlib Require Import String Ascii.
From stdpp Require Import countable.
From S2P Require Import Prelude Interfaces Types Concrete Crypto Utf8 World Genesis Json Config.
Notation length := List.length.

(** ** Text *)

(** Flat objects, in a form that can be counted. *)
Definition flat : Type := list (string * (bool + (string + N))).

Definition flatten_value (v : Json) : bool + (string + N) :=
  match v with
  | JBool b => inl b
  | JStr s => inr (inl s)
  | JNum n => inr (inr n)
  | _ => inl false
  end.
Definition unflatten_value (x : bool + (string + N)) : Json :=
  match x with inl b => JBool b | inr (inl s) => JStr s | inr (inr n) => JNum n end.

Fixpoint text_of_pos (p : positive) : string :=
  match p with
  | xH => ""
  | xO p => String "0"%char (text_of_pos p)
  | xI p => String "1"%char (text_of_pos p)
  end.
Fixpoint pos_of_text (s : string) : positive :=
  match s with
  | EmptyString => xH
  | String c s => if Ascii.eqb c "1"%char then xI (pos_of_text s) else xO (pos_of_text s)
  end.

Definition toy_text (v : Json) : string :=
  match v with
  | JObj fields => text_of_pos (encode ((fun p => (p.1, flatten_value p.2)) <$> fields : flat))
  | _ => ""
  end.

Definition toy_json_text : JsonText := {|
  json_to_string := toy_text;
  json_to_string_pretty := toy_text;
  json_from_str s :=
    match decode (A:=flat) (pos_of_text s) with
    | Some l => Ok (JObj ((fun p => (p.1, unflatten_value p.2)) <$> l))
    | None => Err "expected value"%string
    end;
|}.

Lemma pos_of_text_of_pos p : pos_of_text (text_of_pos p) = p.
Proof. induction p as [p IH | p IH |]; simpl; by rewrite ?IH. Qed.

Lemma unflatten fields : forallb (fun p => scalar p.2) fields = true ->
  (fun p => (p.1, unflatten_value p.2)) <$> ((fun p : string * Json => (p.1, flatten_value p.2)) <$> fields) = fields.
Proof.
  induction fields as [| [k v] fields IH]; [done |]. simpl. intros [Hv Hf]%andb_prop.
  f_equal; [by destruct v | by apply IH].
Qed.

(** ** Cipher *)

(** The key in front of the secret: only the same key takes it off. *)
Definition toy_cipher : KeyCipher := {|
  pbkdf2_hmac_sha256 password salt _ := password ++ salt;
  aes_gcm_encrypt key nonce secret := Some (key ++ secret);
  aes_gcm_decrypt key nonce ct := if bool_decide (take (length key) ct = key) then Some (drop (length key) ct) else None;
|}.

Lemma toy_key_file_laws : @KeyFileLaws toy_json_text toy_cipher.
Proof.
  constructor.
  - intros fields _ Hs. exists (JObj fields). split; [| done]. simpl.
    rewrite pos_of_text_of_pos, decode_encode. f_equal. by rewrite unflatten.
  - intros key nonce secret _ _. exists (key ++ secret). split; [done |]. simpl.
    rewrite take_app_length, drop_app_length. by rewrite bool_decide_eq_true_2.
Qed.

Definition toy_random : KeyRandom := mkKeyRandom zeros32 (replicate 12 x07).
Definition empty_dir : DataDir := mkDataDir None None.

Section witnesses.
#[local] Existing Instance toy_ed25519.
#[local] Existing Instance toy_json_text.
#[local] Existing Instance toy_cipher.
#[local] Existing Instance plain_hex.
#[local] Existing Instance plain_hex_decode.

Lemma key_roundtrip_witness :
  exists dir', import_key toy_random (Some "secret"%string) (toy_addr 11) "claw-devnet" empty_dir = Ok (toy_addr 11, dir')
  /\ load_config (Some "secret"%string) dir' = Ok (mkNodeConfig (toy_addr 11) (toy_addr 11))
  /\ load_config (Some "wrong"%string) dir' = Err "decryption failed — wrong password or corrupted key file"%string.
Proof.
  assert (length (vk_of_signing_key (toy_addr 11)) = 32%nat) as Ha by (vm_compute; reflexivity).
  assert (length (toy_addr 11) = 32%nat) as Hs by (vm_compute; reflexivity).
  assert (length (kr_salt toy_random) = 32%nat) as Hsalt by (vm_compute; reflexivity).
  destruct (key_roundtrip (H:=plain_hex_laws) (H0:=toy_key_file_laws) toy_random (Some "secret"%string) (toy_addr 11)
    "claw-devnet" empty_dir Hs Ha Hsalt eq_refl) as (dir' & Himp & Hload).
  exists dir'. split; [exact Himp |]. split; [apply (Hload (Some "secret"%string)); by right |].
  apply (f_equal (fun r => match r with Ok (_, d) => load_config (Some "wrong"%string) d | Err e => Err e end)) in Himp.
  rewrite <- Himp. vm_compute. reflexivity.
Defined.

Definition plain_dir : DataDir := write_key_file (build_plaintext_key_json (toy_addr 11) (toy_addr 11) "claw-devnet") empty_dir.

Lemma encrypt_keeps_key_witness :
  exists dir', encrypt_existing_key toy_random (Some "secret"%string) plain_dir = Ok (toy_addr 11, dir')
  /\ load_config (Some "secret"%string) dir' = Ok (mkNodeConfig (toy_addr 11) (toy_addr 11)).
Proof.
  destruct (read_key_json plain_dir) as [v|] eqn:Hv; [| vm_compute in Hv; discriminate].
  assert (is_encrypted v = false) as He.
  { apply (f_equal (fun r => match r with Ok v => is_encrypted v | Err _ => false end)) in Hv.
    rewrite <- Hv. vm_compute. reflexivity. }
  assert (load_config None plain_dir = Ok (mkNodeConfig (toy_addr 11) (toy_addr 11))) as Hload by (vm_compute; reflexivity).
  assert (length (kr_salt toy_random) = 32%nat) as Hsalt by (vm_compute; reflexivity).
  destruct (encrypt_keeps_key (H:=plain_hex_laws) (H0:=toy_key_file_laws) toy_random "secret" plain_dir v _ Hv He Hload
    Hsalt eq_refl) as (dir' & Henc & Hload' & _).
  exists dir'. split; [exact Henc | exact Hload'].
Defined.
End witnesses.
