(* ===== verification/Queries.v ===== *)
(** * Queries ([node/src/chain.rs], the part for the RPC server)

    What the RPC server asks of the node: reads of the state and of the stored
    blocks, and contract calls that change nothing. *)

From Stdlib Require Import SpecFloat.
From stdpp Require Import pretty.
From S2P Require Import Prelude Interfaces Types ConsensusTypes Slashing ValidatorSet Vm Host Engine World Score HandlerBase Contracts Store Rewards Node Chain Json.

Record TxReceiptResponse : Type := mkTxReceiptResponse {
  rr_block_height : N;
  rr_transaction_index : N;
  rr_receipt : option TransactionReceipt;
}.

(** What the scan of recent transactions returns of each: height, index,
    transaction and the block's time. *)
Abbreviation recent_tx := (N * N * Transaction * N)%type.

Section queries.
Context `{HB : Blake3} `{TC : TxCodec} `{HX : Hex} `{RD : Redb} `{SC : StoreCodec}.
Implicit Types (inner : ChainInner Db) (addr : bytes).

(** ** Blocks and transactions *)

Definition get_block_number inner : N := b_height (ch_latest_block inner).
Definition get_transaction_count inner : N := ch_total_tx_count inner.

(** A stored block; a read that fails counts as none. *)
Definition stored_block inner (height : N) : option Block :=
  match get_block height (ch_store inner) with Ok b => b | Err _ => None end.

Definition chain_get_block inner (height : N) : option Block :=
  if height =? b_height (ch_latest_block inner) then Some (ch_latest_block inner) else stored_block inner height.

(** The first transaction with the hash, with its index. *)
Definition find_tx (tx_hash_ : bytes) (txs : list Transaction) : option (N * Transaction) :=
  List.find (fun p => bool_decide (tx_hash p.2 = tx_hash_)) (enumerate_from 0 txs).

(** The height, the block, the index and the transaction that a hash is indexed at. *)
Definition locate_tx inner (hash : bytes) : option (N * Block * N * Transaction) :=
  match get_tx_block_height hash (ch_store inner) with
  | Ok (Some height) =>
      match stored_block inner height with
      | Some block =>
          match find_tx hash (b_transactions block) with
          | Some (i, tx) => Some (height, block, i, tx)
          | None => None
          end
      | None => None
      end
  | _ => None
  end.

Definition get_tx_receipt inner (hash : bytes) : option TxReceiptResponse :=
  match locate_tx inner hash with
  | Some (height, _, i, _) =>
      let receipt := match ws_receipts (ch_state inner) !! hash with
                     | Some r => Some r
                     | None => match get_receipt hash (ch_store inner) with Ok r => r | Err _ => None end
                     end in
      Some (mkTxReceiptResponse height i receipt)
  | None => None
  end.

Definition get_tx_by_hash inner (hash : bytes) : option (Transaction * N * N) :=
  match locate_tx inner hash with
  | Some (height, block, _, tx) => Some (tx, height, b_timestamp block)
  | None => None
  end.

Definition transactions_by_address inner addr (limit offset : N) : list recent_tx :=
  match get_transactions_by_address addr limit offset (ch_store inner) with Ok l => l | Err _ => [] end.

(** Transactions from the last on, until there are [limit]; the flag says that the
    scan returned. *)
Fixpoint push_txs (limit height timestamp : N) (txs : list (N * Transaction)) (results : list recent_tx)
    : list recent_tx * bool :=
  match txs with
  | [] => (results, false)
  | (i, tx) :: txs =>
      let results := results ++ [(height, i, tx, timestamp)] in
      if limit <=? N.of_nat (length results) then (results, true) else push_txs limit height timestamp txs results
  end.

Fixpoint scan_blocks inner (limit : N) (heights : list N) (results : list recent_tx) : list recent_tx :=
  match heights with
  | [] => results
  | h :: heights =>
      match chain_get_block inner h with
      | Some block =>
          match push_txs limit h (b_timestamp block) (reverse (enumerate_from 0 (b_transactions block))) results with
          | (results, true) => results
          | (results, false) => scan_blocks inner limit heights results
          end
      | None => scan_blocks inner limit heights results
      end
  end.

Definition get_recent_transactions inner (limit : N) : list recent_tx :=
  scan_blocks inner limit (reverse (seqN 0 (get_block_number inner + 1))) [].

Definition is_event_of (contract : bytes) (event : BlockEvent) : bool :=
  match event with ContractEventE c _ _ _ => bool_decide (c = contract) | RewardDistributed _ _ _ => false end.

Definition events_at inner (contract : bytes) (height : N) : list BlockEvent :=
  match chain_get_block inner height with
  | Some block => List.filter (is_event_of contract) (b_events block)
  | None => []
  end.

Definition get_contract_events inner (contract : bytes) (from_block to_block : N) : list BlockEvent :=
  let to_block := N.min to_block (get_block_number inner) in
  foldl (fun events height => events ++ events_at inner contract height) []
    (seqN from_block (to_block + 1 - from_block)).

(** ** Supply *)

Definition sum_balances (w : WorldState) : N := wsum TWO128 snd (map_to_list (ws_balances w)).
Definition sum_stakes (w : WorldState) : N := wsum TWO128 snd (map_to_list (ws_stakes w)).
Definition sum_unbonding (w : WorldState) : N := wsum TWO128 ub_amount (ws_unbonding_queue w).

(** The total that [get_total_supply_audit] reports. *)
Definition audited_supply (w : WorldState) : N :=
  u128_add (u128_add (sum_balances w) (sum_stakes w)) (sum_unbonding w).

Definition positive_entries (m : gmap bytes N) : list (bytes * N) :=
  List.filter (fun p => 0 <? p.2) (addr_entries m).

Definition jcount {A} (l : list A) : Json := JNum (N.of_nat (length l)).

Definition get_total_supply_audit inner : Json :=
  let w := ch_state inner in
  JObj [("totalBalances", jdec (sum_balances w)); ("totalStakes", jdec (sum_stakes w));
        ("totalUnbonding", jdec (sum_unbonding w)); ("totalSupply", jdec (audited_supply w));
        ("numBalanceEntries", JNum (N.of_nat (size (ws_balances w))));
        ("numStakeEntries", JNum (N.of_nat (size (ws_stakes w))));
        ("numUnbondingEntries", jcount (ws_unbonding_queue w));
        ("balances", JArr ((fun p => JObj [("address", JStr (hex_encode p.1)); ("balance", jdec p.2)])
                             <$> positive_entries (ws_balances w)));
        ("stakes", JArr ((fun p => JObj [("address", JStr (hex_encode p.1)); ("stake", jdec p.2)])
                             <$> positive_entries (ws_stakes w)))]%string.

Definition pending_mining (w : WorldState) : N :=
  u128_add (ws_epoch_reward_bucket w) (wsum TWO128 (fun p => mi_pending_rewards p.2) (map_to_list (ws_miners w))).

Definition get_supply_info inner : Json :=
  let w := ch_state inner in
  JObj [("total_supply", jdec (u128_add (audited_supply w) (pending_mining w)));
        ("staked_supply", jdec (sum_stakes w)); ("unbonding_supply", jdec (sum_unbonding w));
        ("pending_mining", jdec (pending_mining w)); ("circulating_supply", jdec (sum_balances w));
        ("num_balance_entries", JNum (N.of_nat (size (ws_balances w))));
        ("num_stake_entries", JNum (N.of_nat (size (ws_stakes w))))]%string.

(** ** The ledger *)

(** The order of pairs of byte strings in a [BTreeMap]. *)
Definition pair_leb (p q : bytes * bytes) : bool :=
  if bool_decide (p.1 = q.1) then bytes_leb p.2 q.2 else bytes_leb p.1 q.1.
Definition service_key_leb (p q : bytes * string) : bool := pair_leb (p.1, as_bytes p.2) (q.1, as_bytes q.2).

Definition get_agent inner addr : option AgentIdentity := ws_agents (ch_state inner) !! addr.

Definition get_reputation inner addr : list ReputationAttestation :=
  filter (fun r => ra_to r = addr) (ws_reputation (ch_state inner)).

Definition get_services inner (service_type : option string) : list ServiceEntry :=
  List.filter (fun s => se_active s && match service_type with
                                       | Some st => bool_decide (se_service_type s = st)
                                       | None => true
                                       end)
    (sorted_entries service_key_leb (ws_services (ch_state inner))).*2.

Definition get_token_info inner (token_id : bytes) : option TokenDef := ws_tokens (ch_state inner) !! token_id.

Definition get_tokens inner : list TokenDef := (addr_entries (ws_tokens (ch_state inner))).*2.

Definition get_token_holders inner (token_id : bytes) : list (bytes * N) :=
  (fun p : (bytes * bytes) * N => (p.1.1, p.2)) <$>
    List.filter (fun p : (bytes * bytes) * N => bool_decide (p.1.2 = token_id) && (0 <? p.2))
      (sorted_entries pair_leb (ws_token_balances (ch_state inner))).

Definition get_epoch inner : N := vs_epoch (ch_validator_set inner).
Definition get_genesis_hash inner : string := hex_encode (ch_genesis_hash inner).
Definition get_mempool_size inner : N := N.of_nat (length (ch_mempool inner)).
Definition get_last_block_timestamp inner : N := b_timestamp (ch_latest_block inner).
Definition get_p2p_peer_count inner : N := N.of_nat (length (ch_connected_peer_ids inner)).
Definition get_connected_peers inner : list string := ch_connected_peer_ids inner.

Definition get_contract_info inner addr : option ContractInstance := ws_contracts (ch_state inner) !! addr.
Definition get_contract_storage_value inner addr (key : bytes) : option bytes :=
  ws_contract_storage (ch_state inner) !! (addr, key).
Definition get_contract_code inner addr : option bytes := ws_contract_code (ch_state inner) !! addr.

(** ** Stakes and validators *)

Definition get_stake inner addr : N := default 0 (ws_stakes (ch_state inner) !! addr).

Definition get_unbonding inner addr : list UnbondingEntry :=
  filter (fun e => ub_address e = addr) (ws_unbonding_queue (ch_state inner)).

Definition get_agent_score inner addr : AgentScoreDetail := compute_agent_score (ch_state inner) addr.

Definition get_stake_delegation inner (validator : bytes) : option bytes :=
  ws_stake_delegations (ch_state inner) !! validator.

Definition commission_of inner (validator : bytes) : N :=
  default 10000 (ws_stake_commissions (ch_state inner) !! validator).

Definition get_user_delegations inner addr : list Json :=
  match ws_user_delegations (ch_state inner) !! addr with
  | Some user_entry =>
      (fun p => JObj [("validator", JStr (hex_encode p.1)); ("amount", jdec p.2);
                      ("commission_bps", JNum (commission_of inner p.1))]%string) <$> addr_entries user_entry
  | None => []
  end.

Definition get_validators inner : list Json :=
  (fun v => JObj [("address", JStr (hex_encode (av_address v))); ("stake", jdec (av_stake v));
                  ("weight", JNum (av_weight v)); ("agentScore", JNum (av_agent_score v))]%string)
    <$> vs_active (ch_validator_set inner).

Definition uptime_json (u : ValidatorUptime) : Json :=
  let uptime_pct := if 0 <? vu_expected_blocks u
                    then percentage (vu_signed_blocks u) (vu_expected_blocks u) else S754_zero false in
  JObj [("produced_blocks", JNum (vu_produced_blocks u)); ("expected_blocks", JNum (vu_expected_blocks u));
        ("signed_blocks", JNum (vu_signed_blocks u)); ("uptime_pct", JFloat (one_decimal uptime_pct))]%string.

Definition get_validator_detail inner addr : option Json :=
  let w := ch_state inner in
  let stake := get_stake inner addr in
  if stake =? 0 then None
  else
    let '(weight, agent_score) :=
      match List.find (fun v => bool_decide (av_address v = addr)) (vs_active (ch_validator_set inner)) with
      | Some v => (av_weight v, av_agent_score v)
      | None => (0, 0)
      end in
    Some (JObj [("address", JStr (hex_encode addr)); ("stake", jdec stake); ("weight", JNum weight);
                ("agentScore", JNum agent_score); ("commission_bps", JNum (commission_of inner addr));
                ("delegatedBy", jopt (hex_encode <$> ws_stake_delegations w !! addr));
                ("uptime", default JNull (uptime_json <$> ws_validator_uptime w !! addr));
                ("jailed", JBool (is_jailed (ch_slashing inner) addr (ws_block_height w)))]%string).

(** ** Miners *)

Definition get_miner_info inner addr : option MinerInfo := ws_miners (ch_state inner) !! addr.

(** Whether a miner takes the place of the one kept for its name. *)
Definition prefers (existing miner : MinerInfo) : bool :=
  (mi_active miner && negb (mi_active existing))
  || (Bool.eqb (mi_active miner) (mi_active existing)
      && (mi_last_checkin_epoch existing <? mi_last_checkin_epoch miner)).

Definition group_by_name (groups : gmap string MinerInfo) (miner : MinerInfo) : gmap string MinerInfo :=
  match groups !! mi_name miner with
  | Some existing => if prefers existing miner then <[mi_name miner := miner]> groups else groups
  | None => <[mi_name miner := miner]> groups
  end.

Definition name_groups inner : gmap string MinerInfo :=
  foldl group_by_name ∅ (addr_entries (ws_miners (ch_state inner))).*2.

(** A [HashMap] yields its values in an order that differs from map to map. *)
Section miners.
Context (into_values : gmap string MinerInfo -> list MinerInfo).

Definition dedup_miners inner : list MinerInfo := into_values (name_groups inner).

Definition get_miners (active_only : bool) (limit offset : N) inner : list MinerInfo :=
  take (N.to_nat limit) (drop (N.to_nat offset)
    (List.filter (fun m => negb active_only || mi_active m) (dedup_miners inner))).

Definition get_mining_stats inner : Json :=
  let deduped := dedup_miners inner in
  JObj [("totalMiners", jcount deduped); ("activeMiners", jcount (List.filter mi_active deduped));
        ("currentBlockReward", jdec (reward_per_block (ws_block_height (ch_state inner))));
        ("miningUpgradeHeight", JNum MINING_UPGRADE_HEIGHT);
        ("upgraded", JBool (MINING_UPGRADE_HEIGHT <=? ws_block_height (ch_state inner))%N)]%string.
End miners.

(** ** Contract views *)

(** [ChainStateSnapshot] of [chain.rs], as a [ChainState]. *)
Definition view_snapshot (w : WorldState) : ChainState := {|
  cs_get_balance address := default 0 (ws_balances w !! address);
  cs_get_agent_score _ := 0;
  cs_get_agent_registered address := contains_key (ws_agents w) address;
  cs_get_contract_storage contract key := ws_contract_storage w !! (contract, key);
  cs_get_contract_code _ := None;
|}.

Definition cleared (r : ExecutionResult) : ExecutionResult :=
  mkExecutionResult (er_return_data r) (er_fuel_consumed r) [] (er_logs r) [] [].

Definition call_contract_view `{WM : Wasmer} (in_time : bool) inner addr (method : string) (args : bytes)
    : result ExecutionResult string :=
  match ws_contract_code (ch_state inner) !! addr with
  | None => Err "Contract not found"%string
  | Some code =>
      let ctx := new_top_level zeros32 addr (ws_block_height (ch_state inner)) (get_last_block_timestamp inner) 0
                   VIEW_CALL_FUEL_LIMIT true in
      let answer := if in_time
                    then execute code method args ctx (storage_of addr (ws_contract_storage (ch_state inner)))
                           (view_snapshot (ch_state inner))
                    else Err (ExecutionFailed "contract view execution timed out after 5s") in
      match answer with Ok r => Ok (cleared r) | Err e => Err (vm_error_to_string e) end
  end.
End queries.
