(* ===== verification/NodeSteps.v ===== *)
(** * A node over time

    The steps a running node takes - blocks applied and produced, transactions,
    votes and check-ins received - as relations, with what holds of every
    reachable state by rule induction: the ledger stays sound and the supply
    never grows, a miner is credited at most once per epoch, and what becomes of
    the mempool. *)

From stdpp Require Import relations.
From S2P Require Import Prelude Interfaces Types Concrete Crypto ConsensusTypes Election Slashing ValidatorSet Vm World HandlerBase Contracts Store ApplyTx Rewards Epochs Node Chain BlockLedger Agreement Sync ConcreteState ConcreteTx ConcreteNode.

(** ** Producing on a sound ledger *)

Section production.
Context `{HB : Blake3} `{HE : Ed25519} `{TC : TxCodec} `{HX : Hex} `{VM : VmEngine} `{VS : VmSchedule}.
Context `{SCd : StateCodec} `{RD : Redb} `{SC : StoreCodec} `{NC : NodeCodec} `{KE : KeyErrors}.
Implicit Types (inner : ChainInner Db).

(** Whatever transactions are included, dropped or fail, supply is not made. *)
Lemma include_txs_sound h txs : forall i included total evs w included' total' evs' w',
  sound h w -> total + GAS_FEE * N.of_nat (length txs) < TWO128 ->
  include_txs txs i included total evs w = (included', total', evs', w') ->
  sound h w' /\ total <= total' /\ supply w' + total' <= supply w + total
  /\ total' <= total + GAS_FEE * N.of_nat (length txs)
  /\ (size (ws_miners w') <= length txs + size (ws_miners w))%nat.
Proof.
  induction txs as [|tx txs IH]; intros i included total evs w included' total' evs' w' Hw Hb Hrun; simpl in Hrun.
  { injection Hrun as <- <- <- <-. split_and!; [done | lia | lia | lia | lia]. }
  simpl length in *. rewrite Nat2N.inj_succ in *.
  destruct (apply_tx tx i w) as [[[fee tx_events]|e] w1] eqn:Htx;
    destruct (sound_tx _ _ _ _ _ _ Hw Htx) as (Hw1 & Hsz & Hout).
  - destruct Hout as [-> Hsup]. pose proof (fee_of_le tx) as Hf. unfold GAS_FEE in *.
    rewrite (wadd_small TWO128) in Hrun by lia.
    apply IH in Hrun as (H1 & H2 & H3 & H4 & H5); [| done | lia]. split_and!; [done | lia | lia | lia | lia].
  - destruct Hout as [Hsup _]. unfold GAS_FEE in *.
    apply IH in Hrun as (H1 & H2 & H3 & H4 & H5); [| done | lia]. split_and!; [done | lia | lia | lia | lia].
Qed.

Lemma produce_checkins_sound h c w epoch_events wits w' cache :
  sound h w -> N.of_nat (size (ws_miners w)) < TWO32 ->
  produce_checkins (h + 1) c w = (epoch_events, wits, w', cache) ->
  sound (h + 1) w' /\ supply w' = supply w.
Proof.
  intros Hw Hsz. unfold produce_checkins. cbv zeta. destruct (CHECKIN_V3_HEIGHT <=? h + 1).
  - destruct (settle_v3_sound h w Hw Hsz) as [H1 H2]. destruct (settle_v3 (h + 1) w) as [ev ws]. intros [= <- <- <- <-].
    cbn [snd] in *. match goal with |- context [foldl _ _ ?l] =>
      destruct (credit_sound (h + 1) ((h + 1) / MINER_EPOCH_LENGTH) l ws H1) as [H3 H4] end.
    split; [exact H3 | etrans; [exact H4 | exact H2]].
  - destruct (settle_pre_v3_sound h w Hw Hsz) as [H1 H2]. destruct (settle_pre_v3 (h + 1) w) as [ev ws].
    by intros [= <- <- <- <-].
Qed.

Lemma produced_sound clock inner block inner' :
  chain_sound inner -> room inner -> produce_block clock inner = (Some block, inner') ->
  chain_sound inner' /\ ch_latest_block inner' = block
  /\ b_height block = b_height (ch_latest_block inner) + 1
  /\ supply (ch_state inner') <= supply (ch_state inner).
Proof.
  intros [Hl Hw Hc] [Hroom Hsz] Hprod. unfold MAX_BLOCK_TXS in Hsz.
  destruct (produce_block_inv _ _ _ _ Hprod) as
    (sl & included & total & evs & w0 & paid & w1 & eev & wits & w2 & cache & db & _ & Hinc & Hd & Hpc & Hb & _ & ->).
  cbv zeta in Hb. set (h := b_height (ch_latest_block inner)) in *.
  assert (next_height inner = h + 1) as Hnext by (unfold next_height; by apply wadd_small).
  rewrite Hnext in *. assert (b_height block = h + 1) as Hbh by (by rewrite Hb).
  assert (length (pending_txs inner) <= 500)%nat as Hlen
    by (unfold pending_txs, MAX_BLOCK_TXS; rewrite length_take; lia).
  assert (sound h (begin_state (h + 1) (ck_now clock) (ch_state inner))) as Hb0
    by (by apply (sound_ext h (ch_state inner))).
  apply (include_txs_sound h) in Hinc as (Hw0 & _ & Hs0 & Ht0 & Hz0); [| done | unfold GAS_FEE; lia].
  unfold GAS_FEE in Ht0. rewrite N.add_0_l, ?N.add_0_r in *.
  change (supply (begin_state _ _ (ch_state inner))) with (supply (ch_state inner)) in Hs0.
  change (ws_miners (begin_state _ _ (ch_state inner))) with (ws_miners (ch_state inner)) in Hz0.
  pose proof (so_supply _ _ Hl) as Htot.
  destruct (distribute_sound h (vs_active (ch_validator_set inner)) (ch_offline_validators inner)
    (ch_validator_address inner) total w0 Hw0 Hw ltac:(lia) ltac:(lia)) as (Hw1 & Hs1 & Hm1).
  rewrite Hd in Hw1, Hs1, Hm1. cbn [snd] in *.
  destruct (produce_checkins_sound h _ w1 _ _ _ _ Hw1 ltac:(rewrite Hm1; lia) Hpc) as [Hw2 Hs2].
  assert (total < 2 ^ 100) as Hsmall by (change (2 ^ 100) with 1267650600228229401496703205376; lia).
  pose proof (expected_burn_exact total Hsmall) as Hburn.
  assert (sound (h + 1) (sync_slashing sl w2)) as Hw3 by (by apply (sound_ext _ w2)).
  match goal with |- context [after_stored block ?i] =>
    destruct (after_stored_sound (h + 1) block i Hw3 Hw Hc) as (A1 & A2 & A3) end.
  set (inner2 := after_stored block _) in *. clearbody inner2. split_and!; [| done | done |].
  - constructor; upd; [| exact A2 | exact A3]. rewrite Hbh. by eapply sound_ext.
  - upd. unfold sound_view in A1. injection A1 as -> _ _. transitivity (supply w2); [reflexivity | lia].
Qed.
End production.

(** ** Steps *)

Section steps.
Context `{HB : Blake3} `{HE : Ed25519} `{TC : TxCodec} `{HX : Hex} `{VM : VmEngine} `{VS : VmSchedule}.
Context `{SCd : StateCodec} `{RD : Redb} `{SC : StoreCodec} `{NC : NodeCodec} `{KE : KeyErrors}.
Implicit Types (inner : ChainInner Db) (block : Block).

(** The node extends its chain by a block, its own or another's. *)
Inductive extends block inner inner' : Prop :=
  | ex_applied clock is_sync :
      apply_remote_block_inner clock block is_sync inner = (Ok tt, inner') -> extends block inner inner'
  | ex_produced clock :
      produce_block clock inner = (Some block, inner') -> extends block inner inner'.

(** The steps between two blocks: rejected blocks (the store did not fail),
    transactions, check-ins and votes, whatever their outcome. *)
Inductive quiet_step inner inner' : Prop :=
  | qs_rejected clock block is_sync e :
      apply_remote_block_inner clock block is_sync inner = (Err e, inner') ->
      (forall e1, e <> ("store block and snapshot: " +:+ e1)%string) -> quiet_step inner inner'
  | qs_submit tx : (submit_tx tx inner).2 = inner' -> quiet_step inner inner'
  | qs_submit_checkin wit : (submit_miner_checkin wit inner).2 = inner' -> quiet_step inner inner'
  | qs_receive_checkin wit : receive_checkin wit inner = inner' -> quiet_step inner inner'
  | qs_vote vote : (apply_vote vote inner).2 = inner' -> quiet_step inner inner'.

Definition chain_step inner inner' : Prop :=
  (room inner /\ exists block, extends block inner inner') \/ quiet_step inner inner'.

(** What no quiet step touches. *)
Definition quiet_view inner := (ch_state inner, ch_validator_set inner, b_height (ch_latest_block inner)).

Lemma submit_tx_run tx inner r inner' :
  submit_tx tx inner = (r, inner') ->
  match r with
  | Ok hash => hash = tx_hash tx /\ verify_transaction tx = Ok tt
      /\ tx_nonce tx = u64_add (get_nonce (ch_state inner) (tx_from tx)) 1
      /\ N.of_nat (length (ch_mempool inner)) < MAX_MEMPOOL_SIZE
      /\ (forall m, m ∈ ch_mempool inner -> tx_hash m <> tx_hash tx)
      /\ inner' = inner <| ch_mempool ::= fun l => l ++ [tx] |>
  | Err _ => inner' = inner
  end.
Proof.
  unfold submit_tx. rewrite bind_get, bind_fail_if. intros Hrun.
  destruct (N.leb_spec MAX_MEMPOOL_SIZE (N.of_nat (length (ch_mempool inner)))); [by injection Hrun as <- <- |].
  rewrite bind_map_err in Hrun. destruct (verify_transaction tx) as [[]|e]; [| by injection Hrun as <- <-].
  cbv zeta in Hrun. rewrite bind_fail_if in Hrun.
  destruct (N.eqb_spec (tx_nonce tx) (u64_add (get_nonce (ch_state inner) (tx_from tx)) 1));
    simpl negb in Hrun; [| by injection Hrun as <- <-].
  rewrite bind_fail_if in Hrun.
  destruct (existsb _ _) eqn:Hdup; [by injection Hrun as <- <- |].
  rewrite bind_modify in Hrun. injection Hrun as <- <-. split_and!; try done.
  intros m Hm Heq. apply not_true_iff_false in Hdup. apply Hdup, existsb_exists. exists m.
  split; [by apply list_elem_of_In | by apply bool_decide_eq_true_2].
Qed.

Lemma apply_vote_run vote inner b inner' :
  apply_vote vote inner = (b, inner') ->
  quiet_view inner' = quiet_view inner /\ ch_mempool inner' = ch_mempool inner
  /\ ch_checkin_cache inner' = ch_checkin_cache inner.
Proof. unfold apply_vote. cbv zeta. intros Hrun. repeat case_match; by injection Hrun as <- <-. Qed.

Lemma submit_checkin_run wit inner r inner' :
  submit_miner_checkin wit inner = (r, inner') ->
  match r with
  | Ok _ => validate_checkin_witness wit inner = Ok tt /\ inner' = inner <| ch_checkin_cache ::= cache_insert wit |>
  | Err _ => inner' = inner
  end.
Proof.
  unfold submit_miner_checkin. rewrite bind_get, bind_fail_if. intros Hrun.
  destruct (_ <? _); [by injection Hrun as <- <- |]. rewrite bind_map_err in Hrun.
  destruct (validate_checkin_witness wit inner) as [[]|e]; [| by injection Hrun as <- <-].
  rewrite bind_modify in Hrun. by injection Hrun as <- <-.
Qed.

Lemma receive_checkin_run wit inner :
  receive_checkin wit inner = inner
  \/ (validate_checkin_witness wit inner = Ok tt
      /\ receive_checkin wit inner = inner <| ch_checkin_cache ::= cache_insert wit |>).
Proof.
  unfold receive_checkin. destruct (_ <=? _); [| by left].
  destruct (validate_checkin_witness wit inner) as [[]|e]; [by right | by left].
Qed.

(** A rejected block of a node whose store works leaves its chain alone. *)
Lemma rejected_guards clock block is_sync inner e inner' :
  apply_remote_block_inner clock block is_sync inner = (Err e, inner') ->
  (forall e1, e <> ("store block and snapshot: " +:+ e1)%string) -> only_guards inner inner'.
Proof.
  intros Hrun Hst. destruct (apply_remote_inv _ _ _ _ _ _ Hrun) as
    [(e0 & _ & _ & Hg) | [(total & w1 & Hva & _ & _) | (total & w1 & inner1 & Hva & Hcommit)]].
  - done.
  - apply Hva.
  - apply commit_block_run in Hcommit as (_ & e1 & ->). by destruct (Hst e1).
Qed.

Lemma quiet_step_view inner inner' : quiet_step inner inner' -> quiet_view inner' = quiet_view inner.
Proof.
  intros [clock block is_sync e Hrun Hst | tx <- | wit <- | wit <- | vote <-].
  - destruct (rejected_guards _ _ _ _ _ _ Hrun Hst) as (sl & c & ->). done.
  - destruct (submit_tx tx inner) as [r s] eqn:Hrun. apply submit_tx_run in Hrun.
    destruct r; [| by subst]. by destruct Hrun as (_ & _ & _ & _ & _ & ->).
  - destruct (submit_miner_checkin wit inner) as [r s] eqn:Hrun. apply submit_checkin_run in Hrun.
    destruct r; [| by subst]. by destruct Hrun as [_ ->].
  - by destruct (receive_checkin_run wit inner) as [-> | [_ ->]].
  - destruct (apply_vote vote inner) as [b s] eqn:Hrun. by apply apply_vote_run in Hrun as [? _].
Qed.

Lemma quiet_sound inner inner' : quiet_view inner' = quiet_view inner -> chain_sound inner -> chain_sound inner'.
Proof.
  unfold quiet_view. intros [= H1 H2 H3] [S1 S2 S3]. constructor; [by rewrite H1, H3 | by rewrite H2 | by rewrite H2].
Qed.

Lemma applied_latest clock block is_sync inner inner' :
  apply_remote_block_inner clock block is_sync inner = (Ok tt, inner') -> ch_latest_block inner' = block.
Proof.
  intros Hrun. destruct (apply_remote_inv _ _ _ _ _ _ Hrun) as
    [(e & He & _) | [(total & w1 & _ & He & _) | (total & w1 & inner1 & _ & Hcommit)]]; [done | done |].
  by apply commit_block_run in Hcommit as (db & _ & ->).
Qed.

Lemma extends_sound block inner inner' :
  chain_sound inner -> room inner -> extends block inner inner' ->
  chain_sound inner' /\ ch_latest_block inner' = block /\ b_height block = b_height (ch_latest_block inner) + 1
  /\ supply (ch_state inner') <= supply (ch_state inner).
Proof.
  intros Hcs Hroom [clock is_sync Hrun | clock Hrun].
  - destruct (accepted_sound _ _ _ _ _ _ Hcs Hroom Hrun) as [_ Hok]. destruct (Hok eq_refl) as (H1 & H2 & H3).
    pose proof (applied_latest _ _ _ _ _ Hrun) as Hl. rewrite Hl in H2. split_and!; [done | done | done | lia].
  - by eapply produced_sound.
Qed.

Lemma reachable_run inner inner' :
  rtc chain_step inner inner' -> chain_sound inner ->
  chain_sound inner' /\ b_height (ch_latest_block inner) <= b_height (ch_latest_block inner')
  /\ supply (ch_state inner') <= supply (ch_state inner).
Proof.
  induction 1 as [inner | inner inner1 inner2 Hstep _ IH]; intros Hcs; [split_and!; [done | lia | lia] |].
  destruct Hstep as [[Hroom [block Hex]] | Hq].
  - destruct (extends_sound _ _ _ Hcs Hroom Hex) as (H1 & H2 & H3 & H4). rewrite <- H2 in H3.
    destruct (IH H1) as (I1 & I2 & I3). split_and!; [done | lia | lia].
  - apply quiet_step_view in Hq. destruct (IH (quiet_sound _ _ Hq Hcs)) as (I1 & I2 & I3).
    unfold quiet_view in Hq. injection Hq as Hq1 _ Hq3. rewrite Hq1 in I3. rewrite Hq3 in I2. done.
Qed.

End steps.

(** ** The mempool *)

Section mempool.
Context `{HB : Blake3} `{HE : Ed25519} `{TC : TxCodec} `{HX : Hex} `{VM : VmEngine} `{VS : VmSchedule}.
Context `{SCd : StateCodec} `{RD : Redb} `{SC : StoreCodec} `{NC : NodeCodec} `{KE : KeyErrors}.
Context {Peer Channel : Type} `{!EqDecision Peer} (peer_to_string : Peer -> string).
Implicit Types (inner : ChainInner Db) (block : Block).

(** Everything but production: network events and the RPC submissions. *)
Inductive passive_op inner inner' : Prop :=
  | op_event clock (event : NetworkEvent Peer Channel) known_peers cmds known_peers' :
      p2p_event peer_to_string clock event known_peers inner = (cmds, known_peers', inner') -> passive_op inner inner'
  | op_submit tx : (submit_tx tx inner).2 = inner' -> passive_op inner inner'
  | op_checkin wit : (submit_miner_checkin wit inner).2 = inner' -> passive_op inner inner'
  | op_prune keep_blocks : prune_old_blocks keep_blocks inner = inner' -> passive_op inner inner'.

Definition node_op inner inner' : Prop :=
  passive_op inner inner' \/ exists clock, (block_tick (Peer:=Peer) (Channel:=Channel) clock inner).2 = inner'.

(** The mempool is bounded, holds no transaction twice, and only transactions
    whose signature was verified. *)
Record mempool_ok inner : Prop := {
  mo_bound : N.of_nat (length (ch_mempool inner)) <= MAX_MEMPOOL_SIZE;
  mo_once : NoDup (tx_hash <$> ch_mempool inner);
  mo_signed : Forall (fun tx => verify_transaction tx = Ok tt) (ch_mempool inner);
}.

Lemma after_stored_mempool block inner : ch_mempool (after_stored block inner) = ch_mempool inner.
Proof.
  unfold after_stored. cbv zeta. destruct (persist_receipts_view block inner) as [db ->].
  by destruct (is_epoch_boundary (b_height block)).
Qed.

Lemma apply_remote_mempool clock block is_sync inner r inner' :
  apply_remote_block_inner clock block is_sync inner = (r, inner') -> ch_mempool inner' = ch_mempool inner.
Proof.
  intros Hrun. destruct (apply_remote_inv _ _ _ _ _ _ Hrun) as
    [(e0 & _ & _ & sl & c & ->) | [(total & w1 & Hva & _ & _) | (total & w1 & inner1 & Hva & Hcommit)]].
  - done.
  - by destruct (va_guards _ _ _ _ _ _ _ Hva) as (sl & c & ->).
  - apply commit_block_run in Hcommit. destruct (va_guards _ _ _ _ _ _ _ Hva) as (sl & c & ->).
    destruct r as [[]|e]; [destruct Hcommit as (db & _ & ->) | by destruct Hcommit as [-> _]].
    transitivity (ch_mempool (after_stored block
      ((inner <| ch_slashing := sl |> <| ch_checkin_cache := c |>) <| ch_state := sync_slashing sl w1 |> <| ch_store := db |>)));
      [done | by rewrite after_stored_mempool].
Qed.

Lemma apply_batch_mempool clock blocks : forall applied inner,
  ch_mempool (apply_batch clock blocks applied inner).2 = ch_mempool inner.
Proof.
  induction blocks as [|block blocks IH]; intros applied inner; simpl; [done |].
  destruct (apply_synced_block clock block inner) as [[[]|e] inner1] eqn:Hrun;
    apply apply_remote_mempool in Hrun; [| done]. by rewrite IH.
Qed.

Lemma sync_response_mempool clock response inner :
  ch_mempool (handle_sync_response clock response inner).2 = ch_mempool inner.
Proof.
  destruct response as [blocks | height | height rt data block genesis |]; simpl; [| done | | done].
  - unfold receive_blocks. case_bool_decide; [done |].
    pose proof (apply_batch_mempool clock blocks 0 inner) as Hb.
    destruct (apply_batch clock blocks 0 inner) as [[applied fork] inner1]. simpl in Hb.
    destruct fork; [done |]. by destruct (_ =? _).
  - unfold receive_snapshot. repeat (case_match; try done). unfold install_snapshot. cbv zeta.
    by destruct (is_epoch_boundary height).
Qed.

Lemma submit_tx_mempool tx inner :
  (submit_tx tx inner).2 = inner
  \/ (verify_transaction tx = Ok tt /\ N.of_nat (length (ch_mempool inner)) < MAX_MEMPOOL_SIZE
      /\ (forall m, m ∈ ch_mempool inner -> tx_hash m <> tx_hash tx)
      /\ ch_mempool (submit_tx tx inner).2 = ch_mempool inner ++ [tx]).
Proof.
  destruct (submit_tx tx inner) as [r s] eqn:Hrun. apply submit_tx_run in Hrun. destruct r; [right | by left].
  destruct Hrun as (_ & H1 & _ & H2 & H3 & ->). by split_and!.
Qed.

(** An operation other than production appends at most one new transaction. *)
Lemma passive_mempool inner inner' :
  passive_op inner inner' ->
  ch_mempool inner' = ch_mempool inner
  \/ exists tx, verify_transaction tx = Ok tt /\ N.of_nat (length (ch_mempool inner)) < MAX_MEMPOOL_SIZE
       /\ (forall m, m ∈ ch_mempool inner -> tx_hash m <> tx_hash tx)
       /\ ch_mempool inner' = ch_mempool inner ++ [tx].
Proof.
  assert (forall tx, ch_mempool (submit_tx tx inner).2 = ch_mempool inner
    \/ exists tx0, verify_transaction tx0 = Ok tt /\ N.of_nat (length (ch_mempool inner)) < MAX_MEMPOOL_SIZE
       /\ (forall m, m ∈ ch_mempool inner -> tx_hash m <> tx_hash tx0)
       /\ ch_mempool (submit_tx tx inner).2 = ch_mempool inner ++ [tx0]) as Hsub
    by (intros tx; destruct (submit_tx_mempool tx inner) as [-> | H]; [by left | right; by exists tx]).
  assert (forall wit, ch_mempool (receive_checkin wit inner) = ch_mempool inner) as Hrc
    by (intros wit; by destruct (receive_checkin_run wit inner) as [-> | [_ ->]]).
  intros [clock event known cmds known' Hev | tx <- | wit <- | keep <-]; [| apply Hsub | left | left].
  - destruct event as [tx | block | vote | wit | peer request channel | peer response | peer | peer]; simpl in Hev.
    + injection Hev as <- <- <-. apply Hsub.
    + left. destruct (apply_remote_block clock block inner) as [[[]|e] s] eqn:Hrun; injection Hev as <- <- <-;
        by eapply apply_remote_mempool.
    + left. injection Hev as <- <- <-. destruct (apply_vote vote inner) as [b s] eqn:Hv.
      by apply apply_vote_run in Hv as (_ & ? & _).
    + left. injection Hev as <- <- <-. apply Hrc.
    + left. destruct request; injection Hev as <- <- <-; [done .. | apply Hrc].
    + left. pose proof (sync_response_mempool clock response inner) as Hs.
      destruct (handle_sync_response clock response inner) as [[follow|] s]; by injection Hev as <- <- <-.
    + left. unfold peer_connected in Hev. cbv zeta in Hev. repeat case_match; by simplify_eq.
    + left. by injection Hev as <- <- <-.
  - destruct (submit_miner_checkin wit inner) as [r s] eqn:Hrun. apply submit_checkin_run in Hrun.
    destruct r; [by destruct Hrun as [_ ->] | by subst].
  - unfold prune_old_blocks. cbv zeta. by destruct (_ <=? _).
Qed.

(** Production takes the first transactions in order of sender and nonce. *)
Lemma produce_mempool clock inner :
  ch_mempool (produce_block clock inner).2 = ch_mempool inner
  \/ ch_mempool (produce_block clock inner).2
     = drop (N.to_nat MAX_BLOCK_TXS) (sort_by tx_leb (ch_mempool inner)).
Proof.
  assert (forall base, ch_mempool base = ch_mempool inner ->
    ch_mempool (produce_from clock base).2 = drop (N.to_nat MAX_BLOCK_TXS) (sort_by tx_leb (ch_mempool inner))) as Hfrom.
  { intros base Hb. unfold produce_from. cbv zeta. rewrite Hb.
    destruct (include_txs _ _ _ _ _ _) as [[[included total] evs] w0].
    destruct (distribute _ _ _ _ _ _) as [paid w1]. destruct (produce_checkins _ _ _) as [[[eev wits] w2] cache].
    destruct (put_block_and_snapshot _ _ _) as [[[]|e] db]; [| done]. cbn [snd].
    match goal with |- ch_mempool ((after_stored ?b ?i) <| _ := _ |> <| _ := _ |>) = _ =>
      transitivity (ch_mempool (after_stored b i)); [done | by rewrite after_stored_mempool] end. }
  unfold produce_block. cbv zeta. destruct (_ && _); [by left | right]. apply Hfrom.
  destruct (_ && _); [| done]. by destruct (primary inner).
Qed.

(** The mempool stays within its bound, free of duplicates and of
    unverified transactions, whatever the node receives, applies or produces. *)
Theorem mempool_invariant inner inner' : rtc node_op inner inner' -> mempool_ok inner -> mempool_ok inner'.
Proof.
  induction 1 as [inner | inner inner1 inner2 Hop _ IH]; [done |]. intros [H1 H2 H3]. apply IH.
  destruct Hop as [Hp | [clock <-]].
  - apply passive_mempool in Hp as [E | (tx & Hsig & Hlen & Hnew & E)]; constructor; rewrite E; try done.
    + rewrite length_app. simpl. lia.
    + rewrite fmap_app. apply NoDup_app. split_and!; [done | | apply NoDup_singleton].
      intros k (m & -> & Hm)%list_elem_of_fmap Hk. apply list_elem_of_singleton in Hk. by apply (Hnew m).
    + by apply Forall_app; split; [| constructor].
  - assert (ch_mempool (block_tick (Peer:=Peer) (Channel:=Channel) clock inner).2
      = ch_mempool (produce_block clock inner).2) as E
      by (unfold block_tick; by destruct (produce_block clock inner) as [[block|] s]).
    destruct (produce_mempool clock inner) as [Ep | Ep]; constructor; rewrite E, Ep; try done.
    + rewrite length_drop, length_sort_by. lia.
    + rewrite fmap_drop. eapply sublist_NoDup; [| apply sublist_drop]. by rewrite (sort_by_perm tx_leb (ch_mempool inner)).
    + apply Forall_drop. by rewrite (sort_by_perm tx_leb (ch_mempool inner)).
Qed.

(** Only production empties the mempool: applying blocks leaves their
    transactions in it, so a node that never produces keeps every transaction it
    was given, and once it holds 10000 of them it refuses every transaction,
    whatever else it receives or applies from then on. *)
Theorem full_mempool_refuses inner inner' tx :
  rtc passive_op inner inner' -> MAX_MEMPOOL_SIZE <= N.of_nat (length (ch_mempool inner)) ->
  ch_mempool inner' = ch_mempool inner
  /\ submit_tx tx inner' = (Err "mempool full: try again later"%string, inner').
Proof.
  intros Hops Hfull. assert (ch_mempool inner' = ch_mempool inner) as E.
  { induction Hops as [inner | inner inner1 inner2 Hop _ IH]; [done |].
    destruct (passive_mempool _ _ Hop) as [E | (tx0 & _ & Hlt & _)]; [| lia].
    rewrite <- E. apply IH. by rewrite E. }
  split; [done |]. unfold submit_tx. rewrite bind_get, bind_fail_if, E.
  destruct (N.leb_spec MAX_MEMPOOL_SIZE (N.of_nat (length (ch_mempool inner)))); [done | lia].
Qed.
End mempool.

(** ** Check-ins *)

Section checkin_once.
Context `{HB : Blake3} `{HE : Ed25519} `{TC : TxCodec} `{HX : Hex} `{VM : VmEngine} `{VS : VmSchedule}.
Context `{SCd : StateCodec} `{RD : Redb} `{SC : StoreCodec} `{NC : NodeCodec} `{KE : KeyErrors}.
Implicit Types (inner : ChainInner Db) (block : Block) (w : WorldState) (wits : list MinerCheckinWitness).

(** The miner [a] is registered and last checked in in epoch [e]. *)
Definition credited (e : N) (a : bytes) w : Prop :=
  exists mi, ws_miners w !! a = Some mi /\ mi_last_checkin_epoch mi = e.

(** Every miner keeps its last check-in from [w] to [w']. *)
Definition checkins_kept w w' : Prop := forall e a, credited e a w -> credited e a w'.

(** Witnesses of distinct registered miners not yet credited for [e]. *)
Definition fresh_witnesses (e : N) w wits : Prop :=
  NoDup (w_miner <$> wits)
  /\ forall wit, wit ∈ wits -> exists mi, ws_miners w !! w_miner wit = Some mi /\ mi_last_checkin_epoch mi <> e.

Lemma kept_trans w1 w2 w3 : checkins_kept w1 w2 -> checkins_kept w2 w3 -> checkins_kept w1 w3.
Proof. intros H1 H2 e a H. by apply H2, H1. Qed.

Lemma kept_same w w' : ws_miners w' = ws_miners w -> checkins_kept w w'.
Proof. unfold checkins_kept, credited. by intros ->. Qed.

Lemma kept_tx h tx i w r w' : sound h w -> apply_tx tx i w = (r, w') -> checkins_kept w w'.
Proof.
  intros Hw Hrun e a (mi & Ha & He). pose proof (apply_tx_miners _ _ _ _ _ (sound_fits _ _ Hw) Hrun) as Hch.
  destruct (miners_change_checkin _ _ _ _ Hch Ha) as (mi' & Ha' & He'). exists mi'. split; [done | congruence].
Qed.

Lemma kept_block_txs h txs : forall i total w total' w',
  sound h w -> apply_block_txs txs i total w = Ok (total', w') -> checkins_kept w w'.
Proof.
  induction txs as [|tx txs IH]; intros i total w total' w' Hw Hrun; simpl in Hrun.
  { injection Hrun as <- <-. by apply kept_same. }
  destruct (apply_tx tx i w) as [[[fee evs]|e] w1] eqn:Htx; [| done].
  eapply kept_trans; [by eapply kept_tx |]. eapply IH; [| exact Hrun]. by eapply sound_tx.
Qed.

Lemma kept_include h txs : forall i included total evs w included' total' evs' w',
  sound h w -> include_txs txs i included total evs w = (included', total', evs', w') -> checkins_kept w w'.
Proof.
  induction txs as [|tx txs IH]; intros i included total evs w included' total' evs' w' Hw Hrun; simpl in Hrun.
  { injection Hrun as _ _ _ <-. by apply kept_same. }
  destruct (apply_tx tx i w) as [[[fee tx_events]|e] w1] eqn:Htx;
    (eapply kept_trans; [by eapply kept_tx |]); (eapply IH; [| exact Hrun]); by eapply sound_tx.
Qed.

Lemma settle_v3_inside h w : h <> CHECKIN_V3_HEIGHT -> h mod MINER_EPOCH_LENGTH <> 0 -> settle_v3 h w = ([], w).
Proof.
  intros H1 H2. unfold settle_v3. cbv zeta. destruct (N.eqb_spec h CHECKIN_V3_HEIGHT); [done |].
  by destruct (N.eqb_spec (h mod MINER_EPOCH_LENGTH) 0).
Qed.

(** Crediting a list of witnesses. *)
Lemma credit_all e wits : forall w a,
  credited e a (foldl (fun s wit => credit_checkin e wit s) w wits)
  <-> credited e a w \/ (a ∈ w_miner <$> wits /\ is_Some (ws_miners w !! a)).
Proof.
  induction wits as [|wit wits IH]; intros w a; simpl foldl.
  { split; [by left | intros [H | [H _]]; [done | by apply elem_of_nil in H]]. }
  rewrite IH, fmap_cons, elem_of_cons. unfold credit_checkin, credited. upd.
  destruct (decide (w_miner wit = a)) as [<-|Hne].
  - rewrite lookup_alter_eq. destruct (ws_miners w !! w_miner wit) as [mi|]; simpl; [| naive_solver].
    split; [intros _ | intros _; left; eexists; split; [reflexivity | by upd]]. right. split; [by left | eauto].
  - rewrite lookup_alter_ne by done. naive_solver.
Qed.

Lemma check_witness_fresh h db w seen wit :
  check_witness h db w seen wit = Ok tt ->
  w_miner wit ∉ seen
  /\ exists mi, ws_miners w !! w_miner wit = Some mi /\ mi_last_checkin_epoch mi <> h / MINER_EPOCH_LENGTH.
Proof.
  unfold check_witness. cbv zeta. destruct (ws_miners w !! w_miner wit) as [mi|]; [| done].
  destruct (_ && _ && _); [done |]. destruct (negb _ && _); [done |]. destruct (_ || _); [done |].
  destruct (get_block _ db) as [[known|]|]; [| done | done].
  destruct (negb _); [done |]. destruct (negb _); [done |]. destruct (negb _); [done |].
  destruct (N.eqb_spec (mi_last_checkin_epoch mi) (h / MINER_EPOCH_LENGTH)); [done |].
  case_bool_decide; [done |]. intros _. split; [done |]. by exists mi.
Qed.

Lemma check_witnesses_fresh h db w : forall wits seen,
  check_witnesses h db w seen wits = Ok tt ->
  fresh_witnesses (h / MINER_EPOCH_LENGTH) w wits /\ forall wit, wit ∈ wits -> w_miner wit ∉ seen.
Proof.
  induction wits as [|wit wits IH]; intros seen Hrun; simpl in Hrun.
  { split; [split; [constructor |] |]; by intros wit Hw%elem_of_nil. }
  destruct (check_witness h db w seen wit) as [[]|e] eqn:Hw; [| done].
  destruct (check_witness_fresh _ _ _ _ _ Hw) as [Hs Hmi]. destruct (IH _ Hrun) as [[Hnd Hall] Hseen].
  split; [split |].
  - rewrite fmap_cons. apply NoDup_cons. split; [| done].
    intros (wit' & Heq & Hin)%list_elem_of_fmap. apply (Hseen wit' Hin). rewrite <- Heq. left.
  - intros wit' [-> | Hin]%elem_of_cons; [done | by apply Hall].
  - intros wit' [-> | Hin]%elem_of_cons; [done |]. intros Hc. apply (Hseen wit' Hin). by right.
Qed.

Lemma pending_fresh h w c :
  fresh_witnesses (h / MINER_EPOCH_LENGTH) w
    (sort_by witness_leb (get_pending (h / MINER_EPOCH_LENGTH) w (CHECKIN_V3_1_HEIGHT <=? h) c)).
Proof.
  destruct (get_pending_spec w (h / MINER_EPOCH_LENGTH) (CHECKIN_V3_1_HEIGHT <=? h) c) as [Hp Hnd].
  set (l := get_pending _ _ _ _) in *. clearbody l. split; [by rewrite (sort_by_perm witness_leb l) |].
  intros wit Hin. rewrite elem_of_sort_by in Hin. destruct (Hp _ Hin) as (e & He & _ & Hcred).
  unfold already_credited in Hcred. destruct (ws_miners w !! w_miner wit) as [mi|]; [| done].
  apply N.leb_gt in Hcred. exists mi. split; [done |]. destruct He as [-> | [_ ->]]; lia.
Qed.

(** What a block does to check-ins: [w] is the ledger when its witnesses are
    looked at. *)
Definition checkin_effect block inner inner' : Prop :=
  exists w, fresh_witnesses (b_height block / MINER_EPOCH_LENGTH) w (b_checkin_witnesses block)
    /\ ws_miners (ch_state inner')
       = ws_miners (foldl (fun s wit => credit_checkin (b_height block / MINER_EPOCH_LENGTH) wit s) w
                      (b_checkin_witnesses block))
    /\ (b_height block <> CHECKIN_V3_HEIGHT -> b_height block mod MINER_EPOCH_LENGTH <> 0 ->
        checkins_kept (ch_state inner) w).

Lemma after_stored_miners h block inner :
  sound h (ch_state inner) -> lsum av_weight (vs_active (ch_validator_set inner)) < TWO64 ->
  wc_stake_bps (vs_weight_config (ch_validator_set inner))
    + wc_score_bps (vs_weight_config (ch_validator_set inner)) <= 10000 ->
  ws_miners (ch_state (after_stored block inner)) = ws_miners (ch_state inner).
Proof.
  intros H1 H2 H3. destruct (after_stored_sound h block inner H1 H2 H3) as (A & _ & _).
  unfold sound_view in A. by injection A.
Qed.

(** The paid state of a validated block keeps every check-in. *)
Lemma validated_kept clock block is_sync inner total w1 inner1 :
  chain_sound inner -> room inner -> validated clock block is_sync inner total w1 inner1 ->
  exists w0 inner0, checkins_kept (ch_state inner) (paid_state block inner total w0)
    /\ validate_checkins block (paid_state block inner total w0) inner0 = (Ok w1, inner1).
Proof.
  intros [Hl Hw Hc] [Hh Hsz] [Hhd _ (inner0 & w0 & _ & Hex & Hv) _ _]. exists w0, inner0. split; [| done].
  apply check_header_Ok in Hhd as (Hheight & _ & _ & _ & Hlen); [| done].
  unfold executed_state in Hex. unfold MAX_BLOCK_TXS in *.
  pose proof (block_fees_le (b_transactions block)) as Hfees. unfold GAS_FEE in Hfees.
  set (h := b_height (ch_latest_block inner)) in *.
  assert (sound h (begin_state (b_height block) (b_timestamp block) (ch_state inner))) as Hb
    by (by apply (sound_ext h (ch_state inner))).
  pose proof (kept_block_txs _ _ _ _ _ _ _ Hb Hex) as Hk.
  apply (apply_block_txs_run h) in Hex as (Hw0 & -> & Hsup & Hsz0); [| done | unfold GAS_FEE; lia].
  rewrite N.add_0_l in *. change (supply (begin_state _ _ (ch_state inner))) with (supply (ch_state inner)) in Hsup.
  change (ws_miners (begin_state _ _ (ch_state inner))) with (ws_miners (ch_state inner)) in Hsz0.
  pose proof (so_supply _ _ Hl) as Htot.
  unfold paid_state. rewrite Hheight.
  destruct (distribute_sound h (vs_active (ch_validator_set inner)) (ch_offline_validators inner)
    (b_validator block) (block_fees (b_transactions block)) w0 Hw0 Hw ltac:(lia) ltac:(lia)) as (_ & _ & Hm2).
  eapply kept_trans; [exact Hk | by apply kept_same].
Qed.

Lemma applied_checkins clock block is_sync inner inner' :
  chain_sound inner -> room inner -> CHECKIN_V3_HEIGHT <= b_height block ->
  apply_remote_block_inner clock block is_sync inner = (Ok tt, inner') -> checkin_effect block inner inner'.
Proof.
  intros Hcs Hroom Hv3 Hrun. destruct (apply_remote_inv _ _ _ _ _ _ Hrun) as
    [(e & He & _) | [(total & w1 & _ & He & _) | (total & w1 & inner1 & Hva & Hcommit)]]; [done | done |].
  destruct (validated_sound _ _ _ _ _ _ _ Hcs Hroom Hva) as (_ & _ & Hs & _).
  destruct (validated_kept _ _ _ _ _ _ _ Hcs Hroom Hva) as (w0 & inner0 & Hk & Hv).
  destruct (validate_checkins_run _ _ _ _ _ Hv) as [_ Hout]. cbv beta iota in Hout.
  destruct (N.leb_spec CHECKIN_V3_HEIGHT (b_height block)); [| lia]. destruct Hout as [Hck ->].
  apply check_witnesses_fresh in Hck as [Hfresh _].
  exists (settle_v3 (b_height block) (paid_state block inner total w0)).2. split_and!; [done | |].
  - apply commit_block_run in Hcommit as (db & _ & ->). destruct Hcs as [_ Hw Hc].
    destruct (va_guards _ _ _ _ _ _ _ Hva) as (sl & c & Hg).
    match goal with |- ws_miners (ch_state ((after_stored block ?i) <| _ := _ |> <| _ := _ |> <| _ := _ |>)) = _ =>
      transitivity (ws_miners (ch_state (after_stored block i))); [done |];
      rewrite (after_stored_miners (b_height block) block i); [done | exact Hs | rewrite Hg; exact Hw | rewrite Hg; exact Hc] end.
  - intros H1 H2. by rewrite settle_v3_inside.
Qed.

Lemma produced_checkins clock block inner inner' :
  chain_sound inner -> room inner -> CHECKIN_V3_HEIGHT <= b_height block ->
  produce_block clock inner = (Some block, inner') -> checkin_effect block inner inner'.
Proof.
  intros [Hl Hw Hc] [Hroom Hsz] Hv3 Hprod. unfold MAX_BLOCK_TXS in Hsz.
  destruct (produce_block_inv _ _ _ _ Hprod) as
    (sl & included & total & evs & w0 & paid & w1 & eev & wits & w2 & cache & db & _ & Hinc & Hd & Hpc & Hb & _ & ->).
  cbv zeta in Hb. set (h := b_height (ch_latest_block inner)) in *.
  assert (next_height inner = h + 1) as Hnext by (unfold next_height; by apply wadd_small).
  rewrite Hnext in *. assert (b_height block = h + 1) as Hbh by (by rewrite Hb).
  assert (b_checkin_witnesses block = wits) as Hbw by (by rewrite Hb).
  assert (length (pending_txs inner) <= 500)%nat as Hlen
    by (unfold pending_txs, MAX_BLOCK_TXS; rewrite length_take; lia).
  assert (sound h (begin_state (h + 1) (ck_now clock) (ch_state inner))) as Hb0
    by (by apply (sound_ext h (ch_state inner))).
  pose proof (kept_include _ _ _ _ _ _ _ _ _ _ _ Hb0 Hinc) as Hk.
  apply (include_txs_sound h) in Hinc as (Hw0 & _ & Hs0 & Ht0 & Hz0); [| done | unfold GAS_FEE; lia].
  unfold GAS_FEE in Ht0. rewrite N.add_0_l, ?N.add_0_r in *.
  change (supply (begin_state _ _ (ch_state inner))) with (supply (ch_state inner)) in Hs0.
  change (ws_miners (begin_state _ _ (ch_state inner))) with (ws_miners (ch_state inner)) in Hz0.
  pose proof (so_supply _ _ Hl) as Htot.
  destruct (distribute_sound h (vs_active (ch_validator_set inner)) (ch_offline_validators inner)
    (ch_validator_address inner) total w0 Hw0 Hw ltac:(lia) ltac:(lia)) as (Hw1 & Hs1 & Hm1).
  rewrite Hd in Hw1, Hs1, Hm1. cbn [snd] in *.
  destruct (produce_checkins_sound h _ w1 _ _ _ _ Hw1 ltac:(rewrite Hm1; lia) Hpc) as [Hw2 _].
  unfold produce_checkins in Hpc. cbv zeta in Hpc. rewrite Hbh in Hv3.
  destruct (N.leb_spec CHECKIN_V3_HEIGHT (h + 1)); [| lia].
  destruct (settle_v3 (h + 1) w1) as [ev ws] eqn:Hset. injection Hpc as _ <- <- _.
  exists ws. rewrite Hbh, Hbw. split_and!; [apply pending_fresh | |].
  - match goal with |- ws_miners (ch_state ((after_stored block ?i) <| _ := _ |> <| _ := _ |>)) = _ =>
      transitivity (ws_miners (ch_state (after_stored block i))); [done |];
      rewrite (after_stored_miners (h + 1) block i); [done | | exact Hw | exact Hc] end.
    by apply (sound_ext _ (foldl (fun s wit => credit_checkin ((h + 1) / MINER_EPOCH_LENGTH) wit s) ws
      (sort_by witness_leb (get_pending ((h + 1) / MINER_EPOCH_LENGTH) ws (CHECKIN_V3_1_HEIGHT <=? h + 1)
         (ch_checkin_cache inner))))).
  - intros H1 H2. rewrite settle_v3_inside in Hset by done. injection Hset as _ <-.
    eapply kept_trans; [exact Hk | by apply kept_same].
Qed.

Lemma extends_checkins block inner inner' :
  chain_sound inner -> room inner -> CHECKIN_V3_HEIGHT <= b_height block ->
  extends block inner inner' -> checkin_effect block inner inner'.
Proof. intros Hcs Hroom Hv [clock is_sync Hrun | clock Hrun]; [by eapply applied_checkins | by eapply produced_checkins]. Qed.

Lemma div_between (a b c k : N) : 0 < k -> a <= b -> b <= c -> a / k = c / k -> b / k = a / k.
Proof.
  intros Hk H1 H2 He. pose proof (N.Div0.div_le_mono a b k H1). pose proof (N.Div0.div_le_mono b c k H2). lia.
Qed.

(** Inside an epoch no block settles or migrates. *)
Lemma inside_epoch h : CHECKIN_V3_HEIGHT <= h -> (h + 1) / MINER_EPOCH_LENGTH = h / MINER_EPOCH_LENGTH ->
  h + 1 <> CHECKIN_V3_HEIGHT /\ (h + 1) mod MINER_EPOCH_LENGTH <> 0.
Proof.
  unfold CHECKIN_V3_HEIGHT, MINER_EPOCH_LENGTH. intros Hh He. split; [lia |]. intros Hm.
  apply next_new_epoch in Hm. assert (2805 <= h / 100) by (apply N.div_le_lower_bound; lia). lia.
Qed.

Lemma extends_kept e a block inner inner' :
  chain_sound inner -> room inner -> extends block inner inner' ->
  CHECKIN_V3_HEIGHT <= b_height (ch_latest_block inner) ->
  b_height (ch_latest_block inner) / MINER_EPOCH_LENGTH = e -> b_height block / MINER_EPOCH_LENGTH = e ->
  credited e a (ch_state inner) ->
  credited e a (ch_state inner') /\ a ∉ w_miner <$> b_checkin_witnesses block.
Proof.
  intros Hcs Hroom Hex Hv He1 He2 Hcr.
  destruct (extends_sound _ _ _ Hcs Hroom Hex) as (_ & _ & Hh & _). rewrite Hh in He2.
  destruct (inside_epoch _ Hv) as [Hne Hm]; [congruence |].
  destruct (extends_checkins block inner inner' Hcs Hroom ltac:(lia) Hex) as (w & [_ Hfresh] & Hmi & Hk).
  rewrite Hh in Hfresh, Hmi, Hk. rewrite He2 in Hfresh, Hmi. pose proof (Hk Hne Hm e a Hcr) as Hw. split.
  - unfold credited. rewrite Hmi. apply credit_all. by left.
  - intros (wit & -> & Hin)%list_elem_of_fmap. destruct (Hfresh _ Hin) as (mi & Hmi' & Hlast).
    destruct Hw as (mi' & Hmi2 & Hlast'). congruence.
Qed.

Lemma steps_kept e a inner inner' :
  rtc chain_step inner inner' -> chain_sound inner ->
  CHECKIN_V3_HEIGHT <= b_height (ch_latest_block inner) ->
  b_height (ch_latest_block inner) / MINER_EPOCH_LENGTH = e ->
  b_height (ch_latest_block inner') / MINER_EPOCH_LENGTH = e ->
  credited e a (ch_state inner) -> credited e a (ch_state inner').
Proof.
  induction 1 as [inner | inner inner1 inner2 Hstep Hrest IH]; [done |]. intros Hcs Hv He1 He2 Hcr.
  destruct Hstep as [[Hroom [block Hex]] | Hq].
  - destruct (extends_sound _ _ _ Hcs Hroom Hex) as (Hcs1 & Hl & Hh & _).
    destruct (reachable_run _ _ Hrest Hcs1) as (_ & Hle & _). rewrite Hl in *.
    assert (b_height block / MINER_EPOCH_LENGTH = e) as Heb.
    { rewrite <- He1. eapply div_between; [done | | exact Hle | congruence]. lia. }
    apply IH; [done | lia | done | done |]. by destruct (extends_kept e a block inner inner1).
  - apply quiet_step_view in Hq. pose proof (quiet_sound _ _ Hq Hcs) as Hcs1.
    unfold quiet_view in Hq. injection Hq as Hq1 _ Hq3. apply IH; [done | by rewrite Hq3 | by rewrite Hq3 | done |].
    by rewrite Hq1.
Qed.

(** C7. A miner is credited at most once per epoch: no block carries two
    check-ins of one miner, and of two blocks of one epoch that a node applies or
    produces, however many blocks, transactions, votes and check-ins come in
    between, no miner checks in in both. *)
Theorem checkin_once_per_epoch block1 block2 inner0 inner1 inner2 inner3 :
  chain_sound inner0 -> room inner0 -> extends block1 inner0 inner1 ->
  rtc chain_step inner1 inner2 -> room inner2 -> extends block2 inner2 inner3 ->
  CHECKIN_V3_HEIGHT <= b_height block1 ->
  b_height block1 / MINER_EPOCH_LENGTH = b_height block2 / MINER_EPOCH_LENGTH ->
  NoDup (w_miner <$> b_checkin_witnesses block1)
  /\ forall wit1 wit2, wit1 ∈ b_checkin_witnesses block1 -> wit2 ∈ b_checkin_witnesses block2 ->
       w_miner wit1 <> w_miner wit2.
Proof.
  intros Hcs Hroom Hex1 Hsteps Hroom2 Hex2 Hv He.
  destruct (extends_sound _ _ _ Hcs Hroom Hex1) as (Hcs1 & Hl1 & Hh1 & _).
  destruct (extends_checkins _ _ _ Hcs Hroom Hv Hex1) as (w & [Hnd Hfresh] & Hmi & _).
  split; [done |]. intros wit1 wit2 Hin1 Hin2 Heq.
  destruct (reachable_run _ _ Hsteps Hcs1) as (Hcs2 & Hle & _). rewrite Hl1 in Hle.
  destruct (extends_sound _ _ _ Hcs2 Hroom2 Hex2) as (_ & _ & Hh2 & _).
  assert (b_height (ch_latest_block inner2) / MINER_EPOCH_LENGTH = b_height block1 / MINER_EPOCH_LENGTH) as He2
    by (eapply div_between; [done | exact Hle | | exact He]; lia).
  assert (credited (b_height block1 / MINER_EPOCH_LENGTH) (w_miner wit1) (ch_state inner1)) as Hcr.
  { unfold credited. rewrite Hmi. apply credit_all. right. split; [by apply list_elem_of_fmap_2 |].
    destruct (Hfresh _ Hin1) as (mi & Hmi' & _). eauto. }
  apply (steps_kept _ _ _ inner2) in Hcr; [| done | done | by rewrite Hl1 | by rewrite Hl1 | done].
  destruct (extends_kept _ _ _ _ _ Hcs2 Hroom2 Hex2 ltac:(lia) He2 ltac:(congruence) Hcr) as [_ Hnot].
  apply Hnot. rewrite Heq. by apply list_elem_of_fmap_2.
Qed.
End checkin_once.

(** ** Witnesses *)

#[local] Existing Instance toy_blake3.
#[local] Existing Instance toy_ed25519.
#[local] Existing Instance toy_tx_codec.
#[local] Existing Instance toy_redb.
#[local] Existing Instance toy_store_codec.
#[local] Existing Instance toy_hex.
#[local] Existing Instance toy_vm.
#[local] Existing Instance toy_schedule.
#[local] Existing Instance toy_codec.
#[local] Existing Instance toy_node_codec.
#[local] Existing Instance toy_key_errors.


Lemma mempool_invariant_witness :
  mempool_ok (block_tick (Peer:=nat) (Channel:=unit) toy_clock toy_busy).2.
Proof.
  apply (mempool_invariant (fun _ : nat => ""%string) (Channel:=unit) toy_busy).
  - apply rtc_once. right. by exists toy_clock.
  - constructor.
    + vm_compute. discriminate.
    + apply NoDup_singleton.
    + apply Forall_singleton. vm_compute. reflexivity.
Defined.

(** Ten thousand transactions are pending; the vote for a block comes in. *)
Lemma full_mempool_refuses_witness :
  let inner := toy_node 5 ∅ (replicate 10000 toy_payment) ∅ in
  let inner' := (submit_tx toy_payment inner).2 in
  submit_tx toy_payment inner' = (Err "mempool full: try again later"%string, inner').
Proof.
  intros inner inner'. refine (proj2 (full_mempool_refuses (fun _ : nat => ""%string) (Channel:=unit) inner inner' _ _ _)).
  - apply rtc_once. by apply (op_submit _ _ _ toy_payment).
  - change (ch_mempool inner) with (replicate 10000 toy_payment). rewrite length_replicate. vm_compute. discriminate.
Defined.

(** A miner whose check-in of epoch 3000 is cached, and the two blocks that the
    node produces at heights 300006 and 300007. *)
Definition toy_checking_in : bytes := toy_addr 5.
Definition toy_miners : gmap bytes MinerInfo :=
  {[ toy_checking_in := mkMinerInfo toy_checking_in Online "m" 225000 225910 [x0a; x00; x00] true 5000 0 0 0 0 2999 ]}.
Definition toy_checkin : MinerCheckinWitness := mkMinerCheckinWitness toy_checking_in 3000 zeros32 300005 [].
Definition toy_v3 : ChainInner Db :=
  toy_node 300005 toy_miners [] {[ 3000 := {[ toy_checking_in := toy_checkin ]} ]}.

Lemma checkin_once_per_epoch_witness :
  let block1 := toy_block_of toy_v3 in
  let block2 := toy_block_of (toy_after toy_v3) in
  b_checkin_witnesses block1 = [toy_checkin]
  /\ forall wit, wit ∈ b_checkin_witnesses block2 -> toy_checking_in <> w_miner wit.
Proof.
  intros block1 block2.
  assert (b_checkin_witnesses block1 = [toy_checkin]) as Hw by (vm_compute; reflexivity).
  split; [exact Hw |]. intros wit Hwit.
  destruct (checkin_once_per_epoch block1 block2 toy_v3 (toy_after toy_v3) (toy_after toy_v3)
    (toy_after (toy_after toy_v3))) as [_ Hne].
  - apply toy_node_sound; [vm_compute; discriminate |]. apply map_Forall_singleton.
    split; [split; vm_compute; discriminate | reflexivity].
  - split; vm_compute; reflexivity.
  - apply (ex_produced _ _ _ toy_clock), toy_produces. vm_compute. reflexivity.
  - apply rtc_refl.
  - split; vm_compute; reflexivity.
  - apply (ex_produced _ _ _ toy_clock), toy_produces. vm_compute. reflexivity.
  - vm_compute. discriminate.
  - vm_compute. reflexivity.
  - apply (Hne toy_checkin wit); [| exact Hwit]. rewrite Hw. by apply list_elem_of_singleton.
Defined.
