(* ===== verification/Peers.v ===== *)
(** * The network under a node

    The network manager and the node's event loop together: events that the swarm
    emits are handed to the node in order. *)

From stdpp Require Import relations fin_sets pretty.
From S2P Require Import Prelude Interfaces Types Concrete Crypto ConsensusTypes Election Slashing ValidatorSet Vm World HandlerBase Contracts Store ApplyTx Rewards Epochs Node Chain ConcreteState ConcreteTx ConcreteNode Sync Network.

Section peers.
Context `{HB : Blake3} `{HE : Ed25519} `{TC : TxCodec} `{HX : Hex} `{VM : VmEngine} `{VS : VmSchedule}.
Context `{SCd : StateCodec} `{RD : Redb} `{SC : StoreCodec} `{NC : NodeCodec} `{KE : KeyErrors} `{WC : WireCodec}.
Context {Peer Channel Addr : Type} `{Countable Peer} `{!EqDecision Addr} (peer_to_string : Peer -> string).
Implicit Types (net : P2pNetwork Peer Addr) (inner : ChainInner Db) (known : list Peer).

(** The node handles the events of one swarm event, one after the other. *)
Definition deliver (clock : Clock) (events : list (NetworkEvent Peer Channel)) known inner
    : list Peer * ChainInner Db :=
  foldl (fun s event => let '(_, known, inner) := p2p_event peer_to_string clock event s.1 s.2 in (known, inner))
    (known, inner) events.

Definition node_state : Type := P2pNetwork Peer Addr * list Peer * ChainInner Db.

Inductive net_step : node_state -> node_state -> Prop :=
  | net_swarm clock event net known inner events net' known' inner' :
      swarm_event event net = (events, net') -> deliver clock events known inner = (known', inner') ->
      net_step (net, known, inner) (net', known', inner')
  | net_tick clock net known inner :
      net_step (net, known, inner) (net, known, (block_tick (Peer:=Peer) (Channel:=Channel) clock inner).2).

(** The node knows exactly the network's peers. *)
Record tracked net known : Prop := {
  tr_nodup : NoDup known;
  tr_same : forall p, p ∈ known <-> p ∈ pn_peers net;
  tr_bound : N.of_nat (size (pn_peers net)) <= MAX_PEER_CONNECTIONS;
}.

Definition known_after known (event : NetworkEvent Peer Channel) : list Peer :=
  match event with
  | EvPeerConnected peer => if bool_decide (peer ∈ known) then known else known ++ [peer]
  | EvPeerDisconnected peer => filter (fun p => p <> peer) known
  | _ => known
  end.

Lemma p2p_event_known clock event known inner :
  (p2p_event peer_to_string clock event known inner).1.2 = known_after known event.
Proof.
  destruct event as [tx|block|vote|witness|peer request channel|peer response|peer|peer]; simpl; try done.
  - by destruct (apply_remote_block clock block inner) as [[]].
  - by destruct request.
  - by destruct (handle_sync_response clock response inner) as [[]].
  - unfold peer_connected. set (pending := ch_fast_sync_pending _). set (bootstrap := List.existsb _ _).
    by destruct pending, bootstrap.
Qed.

Lemma deliver_known clock events known inner :
  (deliver clock events known inner).1 = foldl known_after known events.
Proof.
  unfold deliver. revert known inner. induction events as [|ev events IH]; intros known inner; [done |]. simpl.
  pose proof (p2p_event_known clock ev known inner) as Hk.
  destruct (p2p_event peer_to_string clock ev known inner) as [[cmds known'] inner']. simpl in Hk. subst. apply IH.
Qed.

Lemma tracked_connected net known peer :
  tracked net known -> full net = false -> tracked (add_peer peer net) (known_after known (EvPeerConnected peer)).
Proof.
  intros [Hnd Hsame Hb] Hfull. unfold full in Hfull. apply N.leb_gt in Hfull. simpl. constructor; simpl.
  - case_bool_decide; [done |]. apply NoDup_app. split_and!; [done | | apply NoDup_singleton].
    intros x Hx ->%list_elem_of_singleton. done.
  - intros p. rewrite elem_of_union, elem_of_singleton, <- Hsame.
    case_bool_decide; [naive_solver |]. rewrite elem_of_app, list_elem_of_singleton. tauto.
  - pose proof (size_union_alt {[peer]} (pn_peers net)) as Hs.
    assert (size (pn_peers net ∖ {[peer]}) <= size (pn_peers net))%nat by (apply subseteq_size; set_solver).
    rewrite size_singleton in Hs. lia.
Qed.

Lemma tracked_disconnected net known peer :
  tracked net known -> tracked (remove_peer peer net) (known_after known (EvPeerDisconnected peer)).
Proof.
  intros [Hnd Hsame Hb]. constructor; simpl.
  - by apply NoDup_filter.
  - intros p. rewrite list_elem_of_filter, elem_of_difference, elem_of_singleton, Hsame. tauto.
  - assert (size (pn_peers net ∖ {[peer]}) <= size (pn_peers net))%nat by (apply subseteq_size; set_solver). lia.
Qed.

Lemma tracked_expired peers net known :
  tracked net known ->
  tracked (foldl (fun net peer => remove_peer peer net) net peers)
    (foldl known_after known (EvPeerDisconnected <$> peers)).
Proof.
  revert net known. induction peers as [|p peers IH]; intros net known Ht; [done |].
  simpl. by apply IH, (tracked_disconnected net known p).
Qed.

Lemma tracked_discover peers net known events net' :
  discover peers net = (events, net') -> tracked net known -> tracked net' (foldl known_after known events).
Proof.
  revert net known events. induction peers as [|p peers IH]; intros net known events Hd Ht; simpl in Hd.
  { by injection Hd as <- <-. }
  case_bool_decide; [by eapply IH |]. case_bool_decide; [by eapply IH |].
  destruct (full net) eqn:Hf; [by injection Hd as <- <- |].
  destruct (discover peers (add_peer p net)) as [evs net1] eqn:Hd1. injection Hd as <- <-. simpl.
  eapply IH; [exact Hd1 |]. by apply tracked_connected.
Qed.

Lemma tracked_event event net known events net' :
  swarm_event event net = (events, net') -> tracked net known -> tracked net' (foldl known_after known events).
Proof.
  intros Hev Ht. destruct event as [data|peer request channel|peer response|peer []|peers|peers|peer n|peer n|];
    simpl in Hev.
  - destruct (MAX_P2P_MESSAGE_SIZE <? blen data); [by injection Hev as <- <- |].
    destruct (try_from_slice (A:=GossipMessage) data) as [[]|e]; by injection Hev as <- <-.
  - destruct (try_from_slice request); by injection Hev as <- <-.
  - destruct (try_from_slice response); by injection Hev as <- <-.
  - injection Hev as <- <-. simpl. apply (tracked_disconnected (mark_incompatible peer net) known peer).
    by destruct Ht.
  - by injection Hev as <- <-.
  - by eapply tracked_discover.
  - injection Hev as <- <-. by apply tracked_expired.
  - destruct (n =? 1); [| by injection Hev as <- <-].
    destruct (full net) eqn:Hf; injection Hev as <- <-; [done | by apply tracked_connected].
  - destruct (n =? 0); injection Hev as <- <-; [by apply tracked_disconnected | done].
  - by injection Hev as <- <-.
Qed.

Lemma tracked_reachable s s' : rtc net_step s s' -> tracked s.1.1 s.1.2 -> tracked s'.1.1 s'.1.2.
Proof.
  induction 1 as [s | s1 s2 s3 Hstep _ IH]; [done |]. intros Ht. apply IH.
  destruct Hstep as [clock event net known inner events net' known' inner' Hev Hdel | clock net known inner]; [| done].
  pose proof (deliver_known clock events known inner) as Hk. rewrite Hdel in Hk. simpl in *. subst.
  by eapply tracked_event.
Qed.


(** ** The size of a snapshot *)

(** Borsh writes a vector in full. *)
Definition snapshot_in_full : Prop := forall height root data block genesis,
  blen data <= blen (to_vec (StateSnapshot height root data block genesis)).

(** A state of more than one megabyte cannot be synced.  A node that is more
    than 1000 blocks behind asks for nothing but a snapshot; its peer, whose stored
    state is larger than the limit on messages, answers with that snapshot; and the
    message, which is written whatever its size, is refused by every reader. *)
Theorem large_snapshot_unreachable clock peer (channel : Channel) data known (serving lagging : ChainInner Db) net view rest :
  snapshot_in_full ->
  get_state_snapshot (ch_store serving) = Ok (Some data) -> MAX_P2P_MESSAGE_SIZE < blen data ->
  b_height (ch_latest_block lagging) + 1000 < b_height (ch_latest_block serving) ->
  let response := handle_sync_request GetStateSnapshot serving in
  blen (to_vec response) < TWO32 ->
  handle_sync_response clock (handle_sync_request GetStatus serving) lagging = (Some GetStateSnapshot, lagging)
  /\ p2p_event peer_to_string clock (EvSyncRequest peer GetStateSnapshot channel) known serving
     = ([SendSyncResponse channel response], known, serving)
  /\ run_command (Addr:=Addr) view (SendSyncResponse channel response) net = [SendResponse channel (to_vec response)]
  /\ exists frame, write_response (to_vec response) [] = (Ok tt, frame)
     /\ (read_response (frame ++ rest)).1 = Err (InvalidData "message too large").
Proof.
  intros Hfull Hsnap Hlarge Hgap response Hlen. split_and!; try done.
  - simpl. unfold receive_status. rewrite (proj2 (N.ltb_lt _ _)) by lia. by rewrite (proj2 (N.ltb_lt _ _)) by lia.
  - assert (MAX_P2P_MESSAGE_SIZE < blen (to_vec response)) as Hl.
    { eapply N.lt_le_trans; [exact Hlarge |]. unfold response. simpl. rewrite Hsnap. apply Hfull. }
    exists (be32 (blen (to_vec response)) ++ to_vec response). split; [apply written |].
    unfold read_response. by rewrite <- app_assoc, read_frame, (proj2 (N.ltb_lt _ _)).
Qed.
End peers.

(** ** Witnesses *)

#[local] Existing Instance toy_blake3.
#[local] Existing Instance toy_ed25519.
#[local] Existing Instance toy_tx_codec.
#[local] Existing Instance toy_redb.
#[local] Existing Instance toy_store_codec.
#[local] Existing Instance toy_hex.
#[local] Existing Instance toy_vm.
#[local] Existing Instance toy_schedule.
#[local] Existing Instance toy_codec.
#[local] Existing Instance toy_node_codec.
#[local] Existing Instance toy_key_errors.

(** Encodings that keep a snapshot's data, and little else. *)
Definition toy_wire : WireCodec := {|
  codec_gossip := toy_borsh _;
  codec_sync_request := toy_borsh _;
  codec_sync_response := {|
    to_vec r := match r with StateSnapshot _ _ data _ _ => x02 :: data | _ => [] end;
    try_from_slice _ := Err "unused"%string;
  |};
|}.
#[local] Existing Instance toy_wire.

Definition toy_net : P2pNetwork N N := (P2pNetwork_new (Channel:=unit) 9711 [1; 2; 1] "toy").2.


Definition toy_large : bytes := replicate (N.to_nat 1100000) x00.

Lemma length_toy_large : blen toy_large = 1100000.
Proof. unfold blen, toy_large. rewrite length_replicate. apply N2Nat.id. Qed.

Definition toy_serving : ChainInner Db :=
  (toy_node 5000 ∅ [] ∅) <| ch_store := (put_state_snapshot toy_large empty_db).2 |>.

Lemma large_snapshot_unreachable_witness :
  exists frame, write_response (to_vec (handle_sync_request GetStateSnapshot toy_serving)) [] = (Ok tt, frame)
    /\ (read_response (frame ++ [])).1 = Err (InvalidData "message too large").
Proof.
  assert (get_state_snapshot (ch_store toy_serving) = Ok (Some toy_large)) as Hs.
  { unfold toy_serving. generalize toy_large. intros data. reflexivity. }
  apply (large_snapshot_unreachable (Addr:=N) (pretty : N -> string) toy_clock 7 tt toy_large [] toy_serving toy_busy
           toy_net (mkSwarmView [] (fun _ _ => true) (fun _ => true)) []).
  - intros height root data block genesis. unfold blen. simpl. lia.
  - exact Hs.
  - rewrite length_toy_large. done.
  - vm_compute. done.
  - unfold handle_sync_request. rewrite Hs. cbn [to_vec codec_sync_response toy_wire]. unfold blen. rewrite length_cons, Nat2N.inj_succ.
    fold (blen toy_large). rewrite length_toy_large. done.
Defined.
