(* ===== verification/CatchUp.v ===== *)
(** * Catching up

    A node that syncs the blocks of an honest chain, produced one after the other
    by nodes with one view of it, accepts the whole batch and ends with the view
    of the last producer. *)

From S2P Require Import Prelude Interfaces Types Concrete Crypto ConsensusTypes Election Slashing ValidatorSet Vm World HandlerBase Contracts Store ApplyTx Rewards Epochs Node Chain ConcreteState ConcreteTx ConcreteNode BlockLedger Agreement Sync.

Section catch_up.
Context `{HB : Blake3} `{HE : Ed25519} `{!Ed25519Laws} `{TC : TxCodec} `{HX : Hex} `{VM : VmEngine} `{VS : VmSchedule}.
Context `{SCd : StateCodec} `{RD : Redb} `{!RedbLaws} `{SC : StoreCodec} `{NC : NodeCodec} `{KE : KeyErrors}.
Implicit Types (inner peer producer : ChainInner Db) (block : Block).

(** ** What the stores know *)
Lemma best_effort_blocks (op : ST Db StoreError unit) inner h :
  get_block h (op (ch_store inner)).2 = get_block h (ch_store inner) ->
  get_block h (ch_store (store_best_effort op inner)) = get_block h (ch_store inner).
Proof. done. Qed.

Lemma after_stored_blocks block inner h :
  get_block h (ch_store (after_stored block inner)) = get_block h (ch_store inner).
Proof.
  unfold after_stored. cbv zeta.
  assert (get_block h (ch_store (persist_receipts block inner)) = get_block h (ch_store inner)) as Hp.
  { unfold persist_receipts. case_bool_decide; [done |]. apply best_effort_blocks, put_receipts_blocks. }
  destruct (is_epoch_boundary (b_height block)); [| exact Hp]. rewrite <- Hp.
  unfold rotate_epoch. cbv zeta.
  etrans; [apply best_effort_blocks, put_meta_blocks |].
  etrans; [apply best_effort_blocks, put_meta_blocks |]. done.
Qed.

Lemma put_known block snap db db' n :
  b_height block < TWO64 -> try_from_slice (to_vec block) = Ok block ->
  put_block_and_snapshot block snap db = (Ok tt, db') -> n < TWO64 ->
  known_hash n db' = if decide (n = b_height block) then Some (b_hash block) else known_hash n db.
Proof.
  intros Hh Hcodec Hput Hn. pose proof (put_stored block snap db Hh Hcodec) as Hs. rewrite Hput in Hs.
  unfold known_hash. case_decide as Hd.
  - by rewrite Hd, (sd_block _ _ _ _ Hs).
  - by rewrite (sd_blocks _ _ _ _ Hs) by done.
Qed.

Lemma known_hash_get n db db' : get_block n db' = get_block n db -> known_hash n db' = known_hash n db.
Proof. unfold known_hash. by intros ->. Qed.

(** ** An honest chain *)

(** The blocks come from producers with one view: each has the view that the
    block before it left.  [now] is the clock of the node that syncs. *)
Inductive honest_chain (now : Clock) : ChainInner Db -> list Block -> ChainInner Db -> Prop :=
  | hc_done v : honest_chain now v [] v
  | hc_block v clock producer producer' block blocks v' :
      same_view v producer -> hashes_agree (b_height (ch_latest_block v)) (ch_store v) (ch_store producer) ->
      produce_block clock producer = (Some block, producer') ->
      producer_ok clock producer -> clocks_agree clock now producer -> room producer ->
      try_from_slice (to_vec block) = Ok block ->
      honest_chain now producer' blocks v' -> honest_chain now v (block :: blocks) v'.

Lemma same_view_trans a b c : same_view a b -> same_view b c -> same_view a c.
Proof. intros [H1 H2 H3 H4 H5 H6 H7] [G1 G2 G3 G4 G5 G6 G7]. constructor; congruence. Qed.

Lemma same_view_sym a b : same_view a b -> same_view b a.
Proof. intros [H1 H2 H3 H4 H5 H6 H7]. by constructor. Qed.

Lemma same_view_sound a b : same_view a b -> chain_sound a -> chain_sound b.
Proof.
  intros [H1 H2 H3 H4 H5 H6 H7] [S1 S2 S3]. constructor; [by rewrite H1, H5 | by rewrite H3 | by rewrite H3].
Qed.

Lemma same_view_room a b : same_view a b -> room a -> room b.
Proof. intros [H1 _ _ _ H5 _ _] [R1 R2]. unfold room. by rewrite H1, H5. Qed.

(** One block of the chain, synced. *)
Lemma honest_step now clock producer producer' block peer :
  (forall block snapshot db, is_ok (put_block_and_snapshot block snapshot db).1 = true) ->
  produce_block clock producer = (Some block, producer') -> producer_ok clock producer ->
  clocks_agree clock now producer -> room producer -> try_from_slice (to_vec block) = Ok block ->
  same_view producer peer -> hashes_agree (b_height (ch_latest_block producer)) (ch_store producer) (ch_store peer) ->
  chain_sound peer ->
  exists peer', apply_synced_block now block peer = (Ok tt, peer') /\ same_view producer' peer' /\ chain_sound peer'
    /\ hashes_agree (b_height (ch_latest_block producer')) (ch_store producer') (ch_store peer').
Proof.
  intros Hput Hprod Hpo Hclk Hroom Hcodec Hview Hk Hcs.
  pose proof (same_view_room _ _ Hview Hroom) as Hroom'.
  destruct (produced_commits clock now true producer producer' peer block Hprod Hpo Hview Hcs Hroom' Hk Hclk
    ltac:(by left) ltac:(intros; apply Hput)) as (peer' & base & pbase & snap & psnap & Happ & Hv & P1 & P2 & P3 & P4).
  exists peer'. split_and!; [exact Happ | exact Hv | |].
  - destruct (accepted_sound _ _ _ _ _ _ Hcs Hroom' Happ) as [_ Hs]. by apply Hs.
  - assert (ch_latest_block producer' = block) as Hl.
    { destruct (produce_block_inv _ _ _ _ Hprod) as
        (sl & inc & total & evs & w0 & paid & w1 & eev & wits & w2 & cache & db & _ & _ & _ & _ & _ & _ & ->). done. }
    assert (b_height block = b_height (ch_latest_block producer) + 1) as Hh.
    { destruct (produce_block_inv _ _ _ _ Hprod) as
        (sl & inc & total & evs & w0 & paid & w1 & eev & wits & w2 & cache & db & _ & _ & _ & _ & -> & _ & _).
      destruct Hroom as [Hr _]. by apply wadd_small. }
    destruct Hroom as [Hr _]. rewrite Hl. intros n Hn.
    rewrite P2, P4, (known_hash_get _ _ _ (after_stored_blocks block base n)),
      (known_hash_get _ _ _ (after_stored_blocks block pbase n)).
    rewrite (put_known block snap (ch_store producer) (ch_store base) n ltac:(lia) Hcodec P1 ltac:(lia)),
      (put_known block psnap (ch_store peer) (ch_store pbase) n ltac:(lia) Hcodec P3 ltac:(lia)).
    case_decide; [done |]. apply Hk. lia.
Qed.

End catch_up.

(** ** Witnesses *)

#[local] Existing Instance toy_blake3.
#[local] Existing Instance toy_ed25519.
#[local] Existing Instance toy_tx_codec.
#[local] Existing Instance toy_redb.
#[local] Existing Instance toy_hex.
#[local] Existing Instance toy_vm.
#[local] Existing Instance toy_schedule.
#[local] Existing Instance toy_codec.
#[local] Existing Instance toy_node_codec.
#[local] Existing Instance toy_key_errors.

(** The block that [toy_busy] produces, and a codec that reads it back. *)
Definition caught_block : Block :=
  Eval vm_compute in @toy_block_of toy_busy.

Definition caught_codec : StoreCodec := {|
  codec_block := {| to_vec b := le64 (b_height b); try_from_slice _ := Ok caught_block |};
  codec_receipt := {| to_vec _ := []; try_from_slice _ := Err "unused"%string |};
  codec_entries := {| to_vec := enc_entries; try_from_slice bs := Ok (dec_entries (length bs) bs) |};
  codec_attest := toy_decoder (fun _ => None);
|}.
#[local] Existing Instance caught_codec.

Lemma toy_append_infallible db a e : infallible (append_address_entry db a e).
Proof.
  unfold append_address_entry, table_get. apply infallible_bind; [| intros found; apply infallible_modify].
  intros ws e0 ws'. unfold mbind, ST_bind, st_get. simpl. by destruct (last_write ws ADDRESS_TX_INDEX a).
Qed.

Lemma toy_index_infallible db h p : infallible (index_tx db h p).
Proof.
  destruct p as [i tx]. unfold index_tx. apply infallible_bind; [apply infallible_modify | intros _].
  apply infallible_bind; [apply toy_append_infallible | intros _].
  destruct (extract_to_address _ _); [destruct (negb _) |]; first [apply toy_append_infallible | apply infallible_ret].
Qed.

Lemma toy_store_works block snapshot db : is_ok (put_block_and_snapshot block snapshot db).1 = true.
Proof.
  set (body := write_block_tables db block (to_vec block);; table_insert META META_STATE_SNAPSHOT snapshot).
  assert (infallible body) as Hi.
  { apply infallible_bind; [| intros _; apply infallible_modify].
    apply infallible_bind; [apply infallible_modify | intros _].
    apply infallible_bind; [| intros _; apply infallible_modify].
    induction (enumerate_from 0 (b_transactions block)) as [|p l IH]; cbn [for_each]; [apply infallible_ret |].
    apply infallible_bind; [apply toy_index_infallible | done]. }
  unfold put_block_and_snapshot, write_txn. fold body. destruct (body []) as [[u|e] ws] eqn:E; [done |].
  by destruct (Hi _ _ _ E).
Qed.

Lemma caught_produced : (produce_block toy_clock toy_busy).1 = Some caught_block.
Proof. vm_compute. reflexivity. Qed.

Lemma caught_ok : producer_ok toy_clock toy_busy.
Proof.
  constructor; [reflexivity | by intros e m k wit Hm |].
  change (pending_txs toy_busy) with [toy_payment]. split; [| done].
  intros Hf. exfalso. revert Hf.
  assert (is_ok (apply_tx toy_payment 0 (begin_state (next_height toy_busy) (ck_now toy_clock) (ch_state toy_busy))).1
    = true) as -> by (vm_compute; reflexivity). discriminate.
Qed.

