(* ===== verification/Snapshots.v ===== *)
(** * State snapshots

    When a node replaces its state by a peer's snapshot: the checks that protect
    it, and what they leave open. *)

From S2P Require Import Prelude Interfaces Types Concrete Crypto ConsensusTypes Election Slashing ValidatorSet Vm World HandlerBase Contracts Store ApplyTx Rewards Epochs Node Chain ConcreteState ConcreteTx ConcreteNode Sync.

Section snapshots.
Context `{HB : Blake3} `{HE : Ed25519} `{TC : TxCodec} `{HX : Hex} `{VM : VmEngine} `{VS : VmSchedule}.
Context `{SCd : StateCodec} `{RD : Redb} `{SC : StoreCodec} `{NC : NodeCodec} `{KE : KeyErrors}.
Implicit Types (inner : ChainInner Db) (block : Block).

(** The checks on the snapshot message and the block it names. *)
Record snapshot_checked (height : N) block (genesis_hash : bytes) inner : Prop := {
  sc_ahead : b_height (ch_latest_block inner) < height;
  sc_new : height <> ch_last_accepted_snapshot_height inner;
  sc_genesis : genesis_hash = ch_genesis_hash inner;
  sc_hash : verify_hash block = true;
  sc_proposer : b_validator block ∈ valid_signers (vs_active (ch_validator_set inner)) block;
  sc_quorum : required_signatures (vs_active (ch_validator_set inner))
              <= N.of_nat (size (valid_signers (vs_active (ch_validator_set inner)) block));
}.

(** A node whose state is [state], taken from a snapshot at [block]. *)
Record installed (height : N) block (state : WorldState) inner' : Prop := {
  in_block : ch_latest_block inner' = block;
  in_root : state_root state = b_state_root block;
  in_validators : ch_validator_set inner' = with_initial_stakes (ws_stakes state);
  in_state : is_epoch_boundary height = false -> ch_state inner' = state;
  in_jailed : sl_jailed (ch_slashing inner') = ws_jailed_validators state;
  in_height : ch_last_accepted_snapshot_height inner' = height;
}.

Lemma valid_signer_active vs block a : a ∈ valid_signers vs block -> existsb (fun v => bool_decide (av_address v = a)) vs = true.
Proof.
  unfold valid_signers. rewrite elem_of_list_to_set. intros ([b s] & -> & Hin)%list_elem_of_fmap.
  by apply list_elem_of_filter in Hin as [[Ha _] _].
Qed.

Lemma snapshot_block_ok_iff vs block :
  snapshot_block_ok vs block = true <->
  verify_hash block = true /\ b_validator block ∈ valid_signers vs block
  /\ required_signatures vs <= N.of_nat (size (valid_signers vs block)).
Proof.
  unfold snapshot_block_ok. cbv zeta. rewrite !andb_true_iff, negb_true_iff, N.ltb_ge, bool_decide_eq_true. split.
  - intros (((H1 & _) & H3) & H4). done.
  - intros (H1 & H2 & H3). split_and!; try done. by eapply valid_signer_active.
Qed.

Lemma install_installed clock height block state inner :
  state_root state = b_state_root block -> installed height block state (install_snapshot clock height state block inner).
Proof.
  intros Hroot. unfold install_snapshot. cbv zeta. unfold store_best_effort.
  destruct (is_epoch_boundary height) eqn:Hb; constructor; try done. by rewrite Hb.
Qed.

Lemma receive_snapshot_run clock height data block genesis inner req inner' :
  receive_snapshot clock height data block genesis inner = (req, inner') ->
  inner' = inner
  \/ (snapshot_checked height block genesis inner
      /\ exists state, from_snapshot_bytes data = Ok state /\ installed height block state inner').
Proof.
  unfold receive_snapshot. intros Hrun.
  destruct (N.leb_spec height (b_height (ch_latest_block inner))); [injection Hrun as _ <-; by left |].
  destruct (N.eqb_spec height (ch_last_accepted_snapshot_height inner)); [injection Hrun as _ <-; by left |].
  case_bool_decide as Hg; simpl negb in Hrun; [| injection Hrun as _ <-; by left].
  destruct (snapshot_block_ok _ block) eqn:Hok; simpl negb in Hrun; [| injection Hrun as _ <-; by left].
  destruct (from_snapshot_bytes data) as [state|e] eqn:Hd; [| injection Hrun as _ <-; by left].
  case_bool_decide as Hroot; simpl negb in Hrun; [| injection Hrun as _ <-; by left].
  destruct (put_state_snapshot data (ch_store inner)) as [[u|e] db] eqn:Hput.
  - injection Hrun as _ <-. right. apply snapshot_block_ok_iff in Hok as (H1 & H2 & H3).
    split; [by constructor |]. exists state. split; [done | by apply install_installed].
  - injection Hrun as _ <-. left. unfold put_state_snapshot, put_meta in Hput.
    apply write_txn_atomic in Hput as ->. by destruct inner.
Qed.

(** A snapshot replaces the node's state only if it passes every check: its
    message claims a greater height, not that of the last snapshot accepted, it
    is of the same genesis, its block's hash is right, the block is signed by its
    proposer, an active validator of the node, and by a quorum of them, and the
    root of the state it carries is the root in the block; otherwise the node is
    exactly as before. *)
Theorem snapshot_guarded clock height claimed_root data block genesis inner req inner' :
  handle_sync_response clock (StateSnapshot height claimed_root data block genesis) inner = (req, inner') ->
  inner' = inner
  \/ (snapshot_checked height block genesis inner
      /\ exists state, from_snapshot_bytes data = Ok state /\ installed height block state inner').
Proof. apply receive_snapshot_run. Qed.

(** The height that guards a snapshot is the message's own, never compared
    with the block's: a state and a block that were once accepted on the chain,
    however old, are installed again if the message claims a greater height, and
    the node goes back to them. *)
Theorem snapshot_sets_back clock height claimed_root data block genesis inner state :
  snapshot_checked height block genesis inner ->
  from_snapshot_bytes data = Ok state -> state_root state = b_state_root block ->
  is_ok (put_state_snapshot data (ch_store inner)).1 = true ->
  b_height block < b_height (ch_latest_block inner) ->
  let inner' := (handle_sync_response clock (StateSnapshot height claimed_root data block genesis) inner).2 in
  installed height block state inner' /\ b_height (ch_latest_block inner') < b_height (ch_latest_block inner).
Proof.
  intros [H1 H2 H3 H4 H5 H6] Hd Hroot Hput Hback. cbv zeta. simpl. unfold receive_snapshot.
  destruct (N.leb_spec height (b_height (ch_latest_block inner))); [lia |].
  destruct (N.eqb_spec height (ch_last_accepted_snapshot_height inner)); [done |].
  rewrite bool_decide_eq_true_2 by done. simpl negb. cbv iota.
  assert (snapshot_block_ok (vs_active (ch_validator_set inner)) block = true) as -> by (by apply snapshot_block_ok_iff).
  simpl negb. cbv iota. rewrite Hd, bool_decide_eq_true_2 by done. simpl negb. cbv iota.
  destruct (put_state_snapshot data (ch_store inner)) as [[u|e] db]; [| done]. cbn [snd].
  pose proof (install_installed clock height block state (inner <| ch_store := db |>) Hroot) as Hi.
  split; [exact Hi |]. by rewrite (in_block _ _ _ _ Hi).
Qed.

(** ** The validator set of a snapshot *)
Lemma candidate_active stakes reputation slashing height vs a n :
  stakes !! a = Some n -> eligible stakes slashing height (a, n) = true -> (size stakes <= MAX_VALIDATORS)%nat ->
  is_active (recalculate_active stakes reputation slashing height vs) a = true.
Proof.
  intros Ha He Hsz. set (v := weighted_validator stakes (aggregate_agent_scores reputation) (vs_weight_config vs) (a, n)).
  assert (v ∈ candidates stakes reputation slashing height vs) as Hv by (apply elem_of_candidates; by exists a, n).
  unfold is_active. rewrite recalculate_active_candidates by (intros E; rewrite E in Hv; by apply elem_of_nil in Hv).
  apply existsb_exists. exists v. split; [| by apply bool_decide_eq_true_2].
  apply list_elem_of_In. rewrite take_ge; [by rewrite elem_of_sort_by |].
  rewrite length_sort_by. unfold candidates. rewrite length_fmap.
  etrans; [apply length_filter |]. by rewrite length_addr_entries.
Qed.

Lemma jailed_inactive stakes reputation sl height vs a b n :
  is_jailed sl a height = true ->
  stakes !! b = Some n -> eligible stakes (Some sl) height (b, n) = true ->
  is_active (recalculate_active stakes reputation (Some sl) height vs) a = false.
Proof.
  intros Hj Hb He.
  assert (candidates stakes reputation (Some sl) height vs <> []) as Hne.
  { intros E. assert (weighted_validator stakes (aggregate_agent_scores reputation) (vs_weight_config vs) (b, n)
      ∈ candidates stakes reputation (Some sl) height vs) as Hv by (apply elem_of_candidates; by exists b, n).
    rewrite E in Hv. by apply elem_of_nil in Hv. }
  unfold is_active. rewrite recalculate_active_candidates by done. apply not_true_iff_false.
  intros (v & Hv & Hva)%existsb_exists. apply list_elem_of_In in Hv. apply elem_of_take_incl in Hv.
  rewrite elem_of_sort_by in Hv. apply elem_of_candidates in Hv as (a' & n' & _ & Hel & ->).
  apply bool_decide_eq_true in Hva. simpl in Hva. subst a'. unfold eligible in Hel.
  cbn [fst snd] in Hel. rewrite Hj in Hel. by rewrite andb_false_r in Hel.
Qed.

(** A node that installs a snapshot rebuilds its validators from the stakes
    alone: a jailed validator with enough stake is active again for it, although
    the snapshot's own slashing record says that it is jailed, while no node that
    followed the chain's rotations has it in its set (as long as another
    validator is eligible), so the two elect different proposers. *)
Theorem snapshot_reactivates_jailed clock height claimed_root data block genesis inner req inner' state a n :
  handle_sync_response clock (StateSnapshot height claimed_root data block genesis) inner = (req, inner') ->
  inner' <> inner -> from_snapshot_bytes data = Ok state ->
  ws_stakes state !! a = Some n -> MIN_STAKE <= n -> (size (ws_stakes state) <= MAX_VALIDATORS)%nat ->
  is_active (ch_validator_set inner') a = true
  /\ forall h until b m reputation vs,
       ws_jailed_validators state !! a = Some until -> h < until ->
       ws_stakes state !! b = Some m -> MIN_STAKE <= m -> ws_jailed_validators state !! b = None ->
       is_jailed (ch_slashing inner') a h = true
       /\ is_active (recalculate_active (ws_stakes state) reputation (Some (slashing_of_state state)) h vs) a = false.
Proof.
  intros Hrun Hne Hd Ha Hn Hsz.
  destruct (receive_snapshot_run _ _ _ _ _ _ _ _ Hrun) as [-> | [_ (state' & Hd' & Hi)]]; [done |].
  rewrite Hd in Hd'. injection Hd' as <-. split.
  - rewrite (in_validators _ _ _ _ Hi). unfold with_initial_stakes. eapply candidate_active; [exact Ha | | exact Hsz].
    unfold eligible. cbn [fst snd]. rewrite andb_true_r. by apply N.leb_le.
  - intros h until b m reputation vs Hj Hh Hb Hm Hbj. split.
    + unfold is_jailed. rewrite (in_jailed _ _ _ _ Hi), Hj. by apply N.ltb_lt.
    + eapply jailed_inactive; [| exact Hb |].
      * unfold is_jailed, slashing_of_state. cbn [sl_jailed]. rewrite Hj. by apply N.ltb_lt.
      * unfold eligible, is_jailed, slashing_of_state. cbn [fst snd sl_jailed]. rewrite Hbj, andb_true_r. by apply N.leb_le.
Qed.
End snapshots.

(** ** Witnesses *)

#[local] Existing Instance toy_blake3.
#[local] Existing Instance toy_ed25519.
#[local] Existing Instance toy_tx_codec.
#[local] Existing Instance toy_redb.
#[local] Existing Instance toy_store_codec.
#[local] Existing Instance toy_hex.
#[local] Existing Instance toy_vm.
#[local] Existing Instance toy_schedule.
#[local] Existing Instance toy_codec.
#[local] Existing Instance toy_key_errors.

(** A state in which validator 12 is jailed, and a codec that reads it back. *)
Definition toy_jail : WorldState :=
  (toy_ledger 5 ∅) <| ws_stakes := {[ toy_validator := 20000000000000; toy_addr 12 := 30000000000000 ]} |>
    <| ws_jailed_validators := {[ toy_addr 12 := 900 ]} |>.

Definition toy_snapshot_codec : NodeCodec := {|
  codec_world := {| to_vec _ := lit "state"; try_from_slice _ := Ok toy_jail |};
  codec_world_v2 := toy_borsh _;
  codec_world_v1 := toy_borsh _;
  codec_delegations := toy_borsh _;
  codec_addresses := toy_borsh _;
|}.
#[local] Existing Instance toy_snapshot_codec.

(** The block of that state at height 5, signed by its proposer, and a node that
    is at height 9. *)
Definition toy_old_block : Block :=
  let b := mkBlock 5 zeros32 1000 toy_validator [] (state_root toy_jail) zeros32 [] [] [] in
  sign_block toy_secret (b <| b_hash := compute_hash b |>).

Definition toy_ahead : ChainInner Db := toy_node 9 ∅ [] ∅.

Lemma toy_old_block_checked : snapshot_checked 10 toy_old_block zeros32 toy_ahead.
Proof.
  assert (snapshot_block_ok (vs_active (ch_validator_set toy_ahead)) toy_old_block = true) as Hok
    by (vm_compute; reflexivity).
  apply snapshot_block_ok_iff in Hok as (H1 & H2 & H3).
  constructor; [vm_compute; reflexivity | vm_compute; discriminate | reflexivity | exact H1 | exact H2 | exact H3].
Qed.

Lemma snapshot_sets_back_witness :
  b_height (ch_latest_block (handle_sync_response toy_clock
    (StateSnapshot 10 zeros32 [] toy_old_block zeros32) toy_ahead).2) < 9.
Proof.
  apply (snapshot_sets_back toy_clock 10 zeros32 [] toy_old_block zeros32 toy_ahead toy_jail).
  - exact toy_old_block_checked.
  - reflexivity.
  - reflexivity.
  - vm_compute. reflexivity.
  - vm_compute. reflexivity.
Defined.

(** A snapshot of another genesis is refused. *)
Lemma snapshot_guarded_witness :
  (handle_sync_response toy_clock (StateSnapshot 10 zeros32 [] toy_old_block [x01]) toy_ahead).2 = toy_ahead.
Proof.
  destruct (handle_sync_response toy_clock (StateSnapshot 10 zeros32 [] toy_old_block [x01]) toy_ahead)
    as [req inner'] eqn:E. cbn [snd].
  destruct (snapshot_guarded toy_clock 10 zeros32 [] toy_old_block [x01] toy_ahead req inner' E) as [H | [H _]].
  - exact H.
  - pose proof (sc_genesis _ _ _ _ H) as Hg. discriminate Hg.
Defined.

Lemma snapshot_reactivates_jailed_witness :
  let inner' := (handle_sync_response toy_clock (StateSnapshot 10 zeros32 [] toy_old_block zeros32) toy_ahead).2 in
  is_active (ch_validator_set inner') (toy_addr 12) = true.
Proof.
  intros inner'. destruct (handle_sync_response toy_clock (StateSnapshot 10 zeros32 [] toy_old_block zeros32) toy_ahead)
    as [req s] eqn:E. subst inner'. cbn [snd].
  assert (b_height (ch_latest_block s) = 5) as Hh.
  { apply (f_equal (fun o => b_height (ch_latest_block o.2))) in E. cbn [snd] in E. rewrite <- E. vm_compute. reflexivity. }
  apply (snapshot_reactivates_jailed toy_clock 10 zeros32 [] toy_old_block zeros32 toy_ahead req s toy_jail
    (toy_addr 12) 30000000000000).
  - exact E.
  - intros ->. vm_compute in Hh. discriminate Hh.
  - reflexivity.
  - vm_compute. reflexivity.
  - vm_compute. discriminate.
  - apply Nat.leb_le. vm_compute. reflexivity.
Defined.
