(* ===== verification/RpcServer.v ===== *)
(** * The RPC server ([node/src/rpc_server.rs])

    JSON-RPC over the queries: what each method answers, and what a call does to
    the node, to the faucet's cooldown and to the rate limit of contract views.
    Calls are handled one at a time, at an instant in nanoseconds; JSON text and
    HTTP are outside. *)

From stdpp Require Import pretty.
From S2P Require Import Prelude Interfaces Types Concrete Crypto ConsensusTypes Slashing ValidatorSet Utf8 Version Vm Host Engine World Score HandlerBase Contracts Store Rewards Node Chain Genesis Sync Json Queries.

Record RpcRequest : Type := mkRpcRequest {
  rq_jsonrpc : string;
  rq_id : Json;
  rq_method : string;
  rq_params : Json;
}.

Record RpcError : Type := mkRpcError { er_code : Z; er_message : string }.

Record RpcResponse : Type := mkRpcResponse {
  rs_jsonrpc : string;
  rs_id : Json;
  rs_result : option Json;
  rs_error : option RpcError;
}.

Definition response_ok (id value : Json) : RpcResponse := mkRpcResponse "2.0" id (Some value) None.
Definition response_err (id : Json) (code : Z) (message : string) : RpcResponse :=
  mkRpcResponse "2.0" id None (Some (mkRpcError code message)).

(** Serialisers that the server uses, and the decoder of submitted check-ins. *)
Class RpcCodec : Type := {
  ser_block :: Serialize Block;
  ser_agent :: Serialize AgentIdentity;
  ser_reputation :: Serialize (list ReputationAttestation);
  ser_services :: Serialize (list ServiceEntry);
  ser_token :: Serialize TokenDef;
  ser_miner :: Serialize MinerInfo;
  ser_miners :: Serialize (list MinerInfo);
  codec_checkin :: Borsh MinerCheckinWitness;
}.

(** ** Rate limits and cooldowns *)

Definition SECOND : N := 1000000000.
Definition FAUCET_COOLDOWN_SECS : N := 3600.
Definition CONTRACT_VIEW_RATE_LIMIT : N := 10.
Definition CONTRACT_VIEW_RATE_WINDOW : N := SECOND.

(** [check_contract_view_rate]: the window's start and its count, per address. *)
Definition check_contract_view_rate {Ip} `{Countable Ip} (now : N) (ip : Ip) (map : gmap Ip (N * N))
    : bool * gmap Ip (N * N) :=
  let '(start, count) := default (now, 0) (map !! ip) in
  if CONTRACT_VIEW_RATE_WINDOW <=? sat_sub now start then (true, <[ip := (now, 1)]> map)
  else if count <? CONTRACT_VIEW_RATE_LIMIT then (true, <[ip := (start, u32_add count 1)]> map)
  else (false, <[ip := (start, count)]> map).

Section server.
Context `{HB : Blake3} `{HE : Ed25519} `{TC : TxCodec} `{HX : Hex} `{HD : HexDecode} `{VM : VmEngine} `{VS : VmSchedule}.
Context `{SCd : StateCodec} `{RD : Redb} `{SC : StoreCodec} `{NC : NodeCodec} `{KE : KeyErrors} `{WM : Wasmer} `{RC : RpcCodec}.
Context {Peer Channel Ip : Type} `{Countable Ip}.
Implicit Types (inner : ChainInner Db) (params : Json).

(** ** Parameters *)

Definition parse_address params (index : nat) : result bytes string :=
  match param_str params index with
  | None => Err ("missing param at index " +:+ pretty (N.of_nat index))%string
  | Some hex_str =>
      match hex_decode hex_str with
      | Err e => Err ("invalid hex: " +:+ e)%string
      | Ok bs => if (length bs =? 32)%nat then Ok bs else Err "expected 32 bytes"%string
      end
  end.

Definition with_address params (index : nat) (f : bytes -> result Json string) : result Json string :=
  match parse_address params index with Ok a => f a | Err e => Err e end.

(** [to_value(x).map_err(|e| format!("Serialization error: {e}"))]. *)
Definition serialized {A} `{!Serialize A} (a : A) : result Json string :=
  match to_value a with Ok v => Ok v | Err e => Err ("Serialization error: " +:+ e)%string end.
Definition serialized_or_null {A} `{!Serialize A} (o : option A) : result Json string :=
  match o with Some a => serialized a | None => Ok JNull end.

Definition jhex (b : bytes) : Json := JStr (hex_encode b).

(** ** Transactions *)

Definition tx_type_name (t : TxType) : string :=
  match t with
  | AgentRegister => "AgentRegister" | TokenTransfer => "TokenTransfer" | TokenCreate => "TokenCreate"
  | TokenMintTransfer => "TokenMintTransfer" | ReputationAttest => "ReputationAttest"
  | ServiceRegister => "ServiceRegister" | ContractDeploy => "ContractDeploy" | ContractCall => "ContractCall"
  | StakeDeposit => "StakeDeposit" | StakeWithdraw => "StakeWithdraw" | StakeClaim => "StakeClaim"
  | PlatformActivityReport => "PlatformActivityReport" | TokenApprove => "TokenApprove" | TokenBurn => "TokenBurn"
  | ChangeDelegation => "ChangeDelegation" | MinerRegister => "MinerRegister" | MinerHeartbeat => "MinerHeartbeat"
  | ContractUpgradeAnnounce => "ContractUpgradeAnnounce" | ContractUpgradeExecute => "ContractUpgradeExecute"
  end.

(** A decoded payload's recipient and amount; neither when it cannot be decoded. *)
Definition from_payload {A} `{!Borsh A} (bs : bytes) (f : A -> option bytes * option N)
    : option string * option string :=
  match try_from_slice bs with
  | Ok p => let '(to, amount) := f p in (hex_encode <$> to, pretty <$> amount)
  | Err _ => (None, None)
  end.

(** The validator a stake goes to; all zeros means the sender. *)
Definition unless_self (validator : bytes) : option bytes :=
  if bool_decide (validator = zeros32) then None else Some validator.

Definition extract_to_and_amount (tx : Transaction) : option string * option string :=
  let bs := tx_payload tx in
  match tx_type tx with
  | TokenTransfer => from_payload bs (fun p => (Some (ttp_to p), Some (ttp_amount p)))
  | TokenMintTransfer => from_payload bs (fun p => (Some (tmp_to p), Some (tmp_amount p)))
  | ReputationAttest => from_payload bs (fun p : ReputationAttestPayload => (Some (rap_to p), None))
  | TokenApprove => from_payload bs (fun p => (Some (tap_spender p), Some (tap_amount p)))
  | TokenBurn => from_payload bs (fun p => (None, Some (tbp_amount p)))
  | ContractCall => from_payload bs (fun p => (Some (ccp_contract p), Some (ccp_value p)))
  | StakeDeposit => from_payload bs (fun p => (unless_self (sdp_validator p), Some (sdp_amount p)))
  | StakeWithdraw => from_payload bs (fun p => (unless_self (swp_validator p), Some (swp_amount p)))
  | ChangeDelegation => from_payload bs (fun p => (Some (chp_new_owner p), None))
  | _ => (None, None)
  end.

(** A transaction as two of the methods show it. *)
Definition tx_json (tx : Transaction) (height timestamp : N) : Json :=
  let '(to, amount) := extract_to_and_amount tx in
  JObj [("hash", jhex (tx_hash tx)); ("txType", JNum (tx_type_u8 (tx_type tx)));
        ("typeName", JStr (tx_type_name (tx_type tx))); ("from", jhex (tx_from tx)); ("to", jopt to);
        ("amount", jopt amount); ("nonce", JNum (tx_nonce tx)); ("blockHeight", JNum height);
        ("timestamp", JNum timestamp); ("fee", JStr "1000000")]%string.

(** As the list of an address shows it; a [TxType] serialises to its name. *)
Definition address_tx_json (tx : Transaction) (height timestamp : N) : Json :=
  let '(to, amount) := extract_to_and_amount tx in
  JObj [("hash", jhex (tx_hash tx)); ("txType", JStr (tx_type_name (tx_type tx))); ("from", jhex (tx_from tx));
        ("to", jopt to); ("amount", jopt amount); ("blockHeight", JNum height); ("timestamp", JNum timestamp);
        ("nonce", JNum (tx_nonce tx))]%string.

(** The entries whose hash has not been seen. *)
Fixpoint first_of_hash (seen : list string) (txs : list recent_tx) : list recent_tx :=
  match txs with
  | [] => []
  | t :: txs =>
      let hash_hex := hex_encode (tx_hash t.1.2) in
      if bool_decide (hash_hex ∈ seen) then first_of_hash seen txs else t :: first_of_hash (hash_hex :: seen) txs
  end.

(** [obj.insert(key, v)]; a field keeps its place. *)
Fixpoint obj_insert (key : string) (v : Json) (fields : list (string * Json)) : list (string * Json) :=
  match fields with
  | [] => [(key, v)]
  | (k, old) :: fields => if decide (k = key) then (k, v) :: fields else (k, old) :: obj_insert key v fields
  end.

Definition with_hash (tx : Transaction) (v : Json) : Json :=
  match v with
  | JObj fields => JObj (obj_insert "hash" (JArr ((fun b => JNum (Byte.to_N b)) <$> tx_hash tx)) fields)
  | _ => v
  end.

Fixpoint hash_all (vs : list Json) (txs : list Transaction) : list Json :=
  match vs, txs with
  | v :: vs, tx :: txs => with_hash tx v :: hash_all vs txs
  | _, _ => vs
  end.

(** The hashes of a block's transactions, put into its serialisation. *)
Definition add_hashes (block : Block) (v : Json) : Json :=
  match v with
  | JObj fields =>
      JObj ((fun p : string * Json =>
               if decide (p.1 = "transactions"%string)
               then (p.1, match p.2 with JArr vs => JArr (hash_all vs (b_transactions block)) | old => old end)
               else p) <$> fields)
  | _ => v
  end.

(** ** The methods that read *)

Definition rpc_get_block_by_number params inner : Json * option string :=
  match chain_get_block inner (default 0 (param_u64 params 0)) with
  | Some block =>
      match to_value block with
      | Ok v => (add_hashes block v, None)
      | Err e => (JNull, Some ("Serialization error: " +:+ e)%string)
      end
  | None => (JNull, None)
  end.

Definition rpc_get_balance params inner : result Json string :=
  with_address params 0 (fun a => Ok (jdec (get_balance (ch_state inner) a))).

Definition rpc_get_token_balance params inner : result Json string :=
  match parse_address params 0, parse_address params 1 with
  | Ok a, Ok t => Ok (jdec (get_token_balance (ch_state inner) a t))
  | _, _ => Err "invalid params"%string
  end.

Definition rpc_get_agent params inner : result Json string :=
  with_address params 0 (fun a => serialized_or_null (get_agent inner a)).
Definition rpc_get_reputation params inner : result Json string :=
  with_address params 0 (fun a => serialized (get_reputation inner a)).
Definition rpc_get_services params inner : result Json string :=
  serialized (get_services inner (param_str params 0)).

Definition receipt_fields (r : TransactionReceipt) : list (string * Json) :=
  [("success", JBool (tr_success r)); ("fuelConsumed", JNum (tr_fuel_consumed r));
   ("fuelLimit", JNum (tr_fuel_limit r)); ("returnData", jhex (tr_return_data r));
   ("errorMessage", jopt (tr_error_message r));
   ("events", JArr ((fun e => JObj [("topic", JStr (re_topic e)); ("data", jhex (re_data e))]) <$> tr_events r));
   ("logs", JArr (JStr <$> tr_logs r))]%string.

Definition rpc_get_transaction_receipt params inner : result Json string :=
  with_address params 0 (fun h =>
    match get_tx_receipt inner h with
    | Some resp =>
        Ok (JObj ([("blockHeight", JNum (rr_block_height resp)); ("transactionIndex", JNum (rr_transaction_index resp))]%string
                  ++ match rr_receipt resp with Some r => receipt_fields r | None => [] end))
    | None => Ok JNull
    end).

Definition rpc_get_transaction_by_hash params inner : result Json string :=
  with_address params 0 (fun h =>
    match get_tx_by_hash inner h with
    | Some (tx, height, timestamp) => Ok (tx_json tx height timestamp)
    | None => Ok JNull
    end).

Definition rpc_get_nonce params inner : result Json string :=
  with_address params 0 (fun a => Ok (JNum (get_nonce (ch_state inner) a))).
Definition rpc_get_token_info params inner : result Json string :=
  with_address params 0 (fun t => serialized_or_null (get_token_info inner t)).

Definition rpc_get_transactions_by_address params inner : result Json string :=
  let limit := N.min (default 50 (param_u64 params 1)) 200 in
  let offset := default 0 (param_u64 params 2) in
  with_address params 0 (fun a =>
    Ok (JArr ((fun t : recent_tx => address_tx_json t.1.2 t.1.1.1 t.2)
                <$> first_of_hash [] (transactions_by_address inner a limit offset)))).

Definition rpc_get_contract_info params inner : result Json string :=
  with_address params 0 (fun a =>
    match get_contract_info inner a with
    | Some i => Ok (JObj [("address", jhex (ci_address i)); ("codeHash", jhex (ci_code_hash i));
                          ("creator", jhex (ci_creator i)); ("deployedAt", JNum (ci_deployed_at i))]%string)
    | None => Ok JNull
    end).

(** [hex::decode] of an optional parameter, empty when it is absent. *)
Definition param_hex (what : string) params (index : nat) : result bytes string :=
  match hex_decode (default ""%string (param_str params index)) with
  | Ok bs => Ok bs
  | Err e => Err ("invalid " +:+ what +:+ " hex: " +:+ e)%string
  end.

Definition rpc_get_contract_storage params inner : result Json string :=
  with_address params 0 (fun a =>
    match param_hex "key" params 1 with
    | Ok k => Ok (match get_contract_storage_value inner a k with Some v => jhex v | None => JNull end)
    | Err e => Err e
    end).

Definition rpc_get_contract_code params inner : result Json string :=
  with_address params 0 (fun a =>
    match get_contract_code inner a with
    | Some code => Ok (JObj [("code", jhex code); ("size", JNum (blen code))]%string)
    | None => Ok JNull
    end).

Definition event_json (e : BlockEvent) : option Json :=
  match e with
  | ContractEventE contract tx_index topic data =>
      Some (JObj [("contract", jhex contract); ("txIndex", JNum tx_index); ("topic", JStr topic); ("data", jhex data)]%string)
  | RewardDistributed _ _ _ => None
  end.

Definition rpc_get_contract_events params inner : result Json string :=
  with_address params 0 (fun a =>
    Ok (JArr (omap event_json (get_contract_events inner a (default 0 (param_u64 params 1))
                                 (default (TWO64 - 1) (param_u64 params 2)))))).

Definition reward_json (e : BlockEvent) : option Json :=
  match e with
  | RewardDistributed recipient amount reward_type =>
      Some (JObj [("recipient", jhex recipient); ("amount", jdec amount); ("rewardType", JStr reward_type)]%string)
  | ContractEventE _ _ _ _ => None
  end.

Definition rpc_get_block_rewards params inner : result Json string :=
  match param_u64 params 0 with
  | Some h =>
      Ok (match chain_get_block inner h with Some block => JArr (omap reward_json (b_events block)) | None => JNull end)
  | None => Err "missing or invalid height param"%string
  end.

Definition rpc_get_stake params inner : result Json string :=
  with_address params 0 (fun a => Ok (jdec (get_stake inner a))).

Definition rpc_get_unbonding params inner : result Json string :=
  with_address params 0 (fun a =>
    Ok (JArr ((fun e => JObj [("address", jhex (ub_address e)); ("amount", jdec (ub_amount e));
                              ("releaseHeight", JNum (ub_release_height e))]%string) <$> get_unbonding inner a))).

Definition rpc_get_agent_score params inner : result Json string :=
  with_address params 0 (fun a =>
    let d := get_agent_score inner a in
    Ok (JObj [("total", JNum (sd_total d)); ("activity", JNum (sd_activity d)); ("uptime", JNum (sd_uptime d));
              ("block_production", JNum (sd_block_production d)); ("economic", JNum (sd_economic d));
              ("platform", JNum (sd_platform d)); ("decay_factor", JNum (sd_decay_factor d))]%string)).

Definition rpc_get_stake_delegation params inner : result Json string :=
  with_address params 0 (fun a => Ok (jopt (hex_encode <$> get_stake_delegation inner a))).
Definition rpc_get_user_delegations params inner : result Json string :=
  with_address params 0 (fun a => Ok (JArr (get_user_delegations inner a))).
Definition rpc_get_validator_detail params inner : result Json string :=
  with_address params 0 (fun a => Ok (default JNull (get_validator_detail inner a))).

Definition rpc_estimate_fee : result Json string :=
  Ok (JObj [("fee", jdec GAS_FEE); ("unit", JStr "base"); ("description", JStr "Fixed fee per transaction")]%string).

Definition rpc_get_token_allowance params inner : result Json string :=
  match parse_address params 0, parse_address params 1, parse_address params 2 with
  | Ok o, Ok s, Ok t => Ok (jdec (get_token_allowance (ch_state inner) o s t))
  | _, _, _ => Err "invalid params: expected (owner, spender, tokenId)"%string
  end.

Definition rpc_get_miner_info params inner : result Json string :=
  with_address params 0 (fun a =>
    match get_miner_info inner a with Some miner => to_value miner | None => Ok JNull end).

Definition rpc_get_miners (order : gmap string MinerInfo -> list MinerInfo) params inner : result Json string :=
  to_value (get_miners order (default true (param_bool params 0)) (N.min (default 100 (param_u64 params 1)) 500)
              (default 0 (param_u64 params 2)) inner).

Definition rpc_get_recent_transactions params inner : result Json string :=
  let limit := N.min (default 50 (param_u64 params 0)) 200 in
  Ok (JArr ((fun t : recent_tx => tx_json t.1.2 t.1.1.1 t.2) <$> get_recent_transactions inner limit)).

Definition rpc_get_tokens inner : result Json string :=
  Ok (JArr ((fun t => JObj [("token_id", jhex (td_id t)); ("name", JStr (td_name t)); ("symbol", JStr (td_symbol t));
                            ("decimals", JNum (td_decimals t)); ("total_supply", jdec (td_total_supply t));
                            ("creator", jhex (td_issuer t))]%string) <$> get_tokens inner)).

Definition rpc_get_token_holders params inner : result Json string :=
  with_address params 0 (fun t =>
    Ok (JArr ((fun p => JObj [("address", jhex p.1); ("balance", jdec p.2)]%string) <$> get_token_holders inner t))).

(** The dispatch to these methods. *)
Definition read_method (order : gmap string MinerInfo -> list MinerInfo) (method : string) params inner
    : option (result Json string) :=
  let table : list (string * result Json string) :=
    [("claw_blockNumber", Ok (JNum (get_block_number inner)));
     ("claw_getTransactionCount", Ok (JNum (get_transaction_count inner)));
     ("claw_getBalance", rpc_get_balance params inner);
     ("claw_getTokenBalance", rpc_get_token_balance params inner);
     ("claw_getAgent", rpc_get_agent params inner);
     ("claw_getReputation", rpc_get_reputation params inner);
     ("claw_getServices", rpc_get_services params inner);
     ("claw_getTransactionReceipt", rpc_get_transaction_receipt params inner);
     ("claw_getTransactionByHash", rpc_get_transaction_by_hash params inner);
     ("claw_getNonce", rpc_get_nonce params inner);
     ("claw_getTokenInfo", rpc_get_token_info params inner);
     ("claw_getTransactionsByAddress", rpc_get_transactions_by_address params inner);
     ("claw_getContractInfo", rpc_get_contract_info params inner);
     ("claw_getContractStorage", rpc_get_contract_storage params inner);
     ("claw_getContractCode", rpc_get_contract_code params inner);
     ("claw_getContractEvents", rpc_get_contract_events params inner);
     ("claw_getBlockRewards", rpc_get_block_rewards params inner);
     ("claw_getStake", rpc_get_stake params inner);
     ("claw_getUnbonding", rpc_get_unbonding params inner);
     ("claw_getAgentScore", rpc_get_agent_score params inner);
     ("claw_getStakeDelegation", rpc_get_stake_delegation params inner);
     ("claw_getValidators", Ok (JArr (get_validators inner)));
     ("claw_getUserDelegations", rpc_get_user_delegations params inner);
     ("claw_getValidatorDetail", rpc_get_validator_detail params inner);
     ("claw_totalSupply", Ok (get_total_supply_audit inner));
     ("claw_getSupplyInfo", Ok (get_supply_info inner));
     ("claw_estimateFee", rpc_estimate_fee);
     ("claw_getTokenAllowance", rpc_get_token_allowance params inner);
     ("claw_getMinerInfo", rpc_get_miner_info params inner);
     ("claw_getMiners", rpc_get_miners order params inner);
     ("claw_getMiningStats", Ok (get_mining_stats order inner));
     ("claw_getRecentTransactions", rpc_get_recent_transactions params inner);
     ("claw_getTokens", rpc_get_tokens inner);
     ("claw_getTokenHolders", rpc_get_token_holders params inner)]%string in
  snd <$> List.find (fun p => String.eqb p.1 method) table.

(** ** The methods that act *)

(** The server's own state besides the node's. *)
Record RpcState : Type := mkRpcState {
  rp_chain : ChainInner Db;
  rp_faucet_last_drip : gmap bytes N;
  rp_view_rate : gmap Ip (N * N);
}.

(** Settings, and what comes with a call: its time, its sender, whether a view
    answers in time, the order of a hash map. *)
Record RpcEnv : Type := mkRpcEnv {
  re_faucet_enabled : bool;
  re_p2p : bool;
  re_now : N;
  re_peer : Ip;
  re_in_time : bool;
  re_order : gmap string MinerInfo -> list MinerInfo;
}.

Implicit Types (env : RpcEnv) (st : RpcState).

(** What a method comes to: an answer, or an error response of its own. *)
Inductive outcome : Type :=
  | Answer (r : result Json string)
  | Refused (code : Z) (message : string).

Definition commands := list (P2pCommand Peer Channel).

Definition with_chain inner st : RpcState := mkRpcState inner (rp_faucet_last_drip st) (rp_view_rate st).

Definition if_p2p env (c : P2pCommand Peer Channel) : commands := if re_p2p env then [c] else [].

(** Broadcast first, then queued. *)
Definition rpc_send_transaction env params st : outcome * commands * RpcState :=
  match param_str params 0 with
  | None => (Answer (Err "missing tx hex param"%string), [], st)
  | Some h =>
      match hex_decode h with
      | Err e => (Answer (Err ("invalid hex: " +:+ e)%string), [], st)
      | Ok bs =>
          match try_from_slice (A:=Transaction) bs with
          | Err e => (Answer (Err ("decode tx: " +:+ e)%string), [], st)
          | Ok tx =>
              let sent := if_p2p env (BroadcastTx tx) in
              match submit_tx tx (rp_chain st) with
              | (Ok hash, inner) => (Answer (Ok (jhex hash)), sent, with_chain inner st)
              | (Err e, inner) => (Answer (Err e), sent, with_chain inner st)
              end
          end
      end
  end.

(** Checked and cached first, then broadcast. *)
Definition rpc_submit_miner_checkin env params st : outcome * commands * RpcState :=
  match param_str params 0 with
  | None => (Answer (Err "missing checkin hex param"%string), [], st)
  | Some h =>
      match hex_decode h with
      | Err e => (Answer (Err ("invalid hex: " +:+ e)%string), [], st)
      | Ok bs =>
          match try_from_slice (A:=MinerCheckinWitness) bs with
          | Err e => (Answer (Err ("decode checkin: " +:+ e)%string), [], st)
          | Ok witness =>
              match submit_miner_checkin witness (rp_chain st) with
              | (Ok msg, inner) => (Answer (Ok (JStr msg)), if_p2p env (BroadcastCheckin witness), with_chain inner st)
              | (Err e, inner) => (Answer (Err e), [], with_chain inner st)
              end
          end
      end
  end.

(** The seconds that are left of an address's cooldown. *)
Definition cooldown_left (now : N) (a : bytes) (last_drip : gmap bytes N) : N :=
  match last_drip !! a with
  | Some last => FAUCET_COOLDOWN_SECS - sat_sub now last / SECOND
  | None => 0
  end.

Definition rpc_faucet env params st : outcome * commands * RpcState :=
  if negb (re_faucet_enabled env) then (Answer (Err "faucet is disabled on this network"%string), [], st)
  else
    match parse_address params 0 with
    | Err e => (Answer (Err e), [], st)
    | Ok a =>
        let remaining := cooldown_left (re_now env) a (rp_faucet_last_drip st) in
        if 0 <? remaining then
          (Refused (-32000) ("faucet cooldown: try again in " +:+ pretty remaining +:+ "s")%string, [], st)
        else
          match faucet_drip a (rp_chain st) with
          | (Ok tx_hash, inner) =>
              (Answer (Ok (JObj [("address", jhex a); ("amount", JStr "10000000000"); ("txHash", jhex tx_hash)]%string)),
               [], mkRpcState inner (<[a := re_now env]> (rp_faucet_last_drip st)) (rp_view_rate st))
          | (Err e, inner) => (Answer (Err e), [], with_chain inner st)
          end
    end.

Definition view_json (r : ExecutionResult) : Json :=
  JObj [("returnData", jhex (er_return_data r)); ("fuelConsumed", JNum (er_fuel_consumed r));
        ("logs", JArr (JStr <$> er_logs r))]%string.

Definition rpc_call_contract_view env params st : outcome * commands * RpcState :=
  let '(allowed, rate) := check_contract_view_rate (re_now env) (re_peer env) (rp_view_rate st) in
  let st := mkRpcState (rp_chain st) (rp_faucet_last_drip st) rate in
  if negb allowed then
    (Refused (-32029) "rate limit exceeded: max 10 callContractView requests per second per IP", [], st)
  else
    (Answer (with_address params 0 (fun a =>
       match param_hex "args" params 2 with
       | Err e => Err e
       | Ok args =>
           match call_contract_view (re_in_time env) (rp_chain st) a (default ""%string (param_str params 1)) args with
           | Ok r => Ok (view_json r)
           | Err e => Err e
           end
       end)), [], st).

Definition dispatch_rpc env (method : string) params st : outcome * commands * RpcState :=
  if String.eqb method "claw_getBlockByNumber" then
    match rpc_get_block_by_number params (rp_chain st) with
    | (v, None) => (Answer (Ok v), [], st)
    | (_, Some e) => (Refused (-32603) e, [], st)
    end
  else if String.eqb method "claw_sendTransaction" then rpc_send_transaction env params st
  else if String.eqb method "claw_callContractView" then rpc_call_contract_view env params st
  else if String.eqb method "claw_faucet" then rpc_faucet env params st
  else if String.eqb method "claw_submitMinerCheckin" then rpc_submit_miner_checkin env params st
  else
    match read_method (re_order env) method params (rp_chain st) with
    | Some r => (Answer r, [], st)
    | None => (Answer (Err ("method not found: " +:+ method)%string), [], st)
    end.

Definition handle_rpc env (req : RpcRequest) st : RpcResponse * commands * RpcState :=
  let id := rq_id req in
  if negb (String.eqb (rq_jsonrpc req) "2.0") then (response_err id (-32600) "Invalid JSON-RPC version", [], st)
  else
    let '(o, cmds, st) := dispatch_rpc env (rq_method req) (rq_params req) st in
    (match o with
     | Answer (Ok v) => response_ok id v
     | Answer (Err msg) => response_err id (-32000) msg
     | Refused code msg => response_err id code msg
     end, cmds, st).

(** ** The other pages *)

Definition handle_health (now : N) (start : option N) (version : string) inner : Json :=
  let uptime_secs := sat_sub now (default now start) in
  let block_age := sat_sub now (get_last_block_timestamp inner) in
  let status := if (block_age <? 60) || (get_block_number inner =? 0) then "ok"%string else "degraded"%string in
  JObj [("status", JStr status); ("version", JStr version); ("chain_id", JStr (ch_chain_id inner));
        ("genesis_hash", JStr (get_genesis_hash inner)); ("height", JNum (get_block_number inner));
        ("epoch", JNum (get_epoch inner)); ("peer_count", JNum (get_p2p_peer_count inner));
        ("mempool_size", JNum (get_mempool_size inner)); ("last_block_age_secs", JNum block_age);
        ("uptime_secs", JNum uptime_secs)]%string.

Definition handle_peers inner : Json :=
  JObj [("count", JNum (N.of_nat (length (get_connected_peers inner))));
        ("peers", JArr (JStr <$> get_connected_peers inner))]%string.

Definition jopt_num (o : option N) : Json := match o with Some n => JNum n | None => JNull end.

Definition handle_version (version : string) (manifest : option VersionManifest) inner : Json :=
  let fields :=
    match manifest with
    | Some m =>
        [("upgrade_level", JStr (level_as_str (check_version version m (Some (get_block_number inner)))));
         ("latest_version", JStr (vm_latest m)); ("minimum_version", JStr (vm_minimum m));
         ("release_url", JStr (vm_release_url m)); ("changelog", JStr (vm_changelog m));
         ("announcement", jopt (vm_announcement m)); ("halt_height", jopt_num (vm_halt_height m));
         ("plugin_latest", jopt (vm_plugin_latest m)); ("plugin_minimum", jopt (vm_plugin_minimum m));
         ("plugin_changelog", jopt (vm_plugin_changelog m))]
    | None =>
        [("upgrade_level", JStr (level_as_str UpToDate)); ("latest_version", JStr version);
         ("minimum_version", JStr version); ("release_url", JStr ""); ("changelog", JStr "");
         ("announcement", JNull); ("halt_height", JNull); ("plugin_latest", JNull); ("plugin_minimum", JNull);
         ("plugin_changelog", JNull)]
    end%string in
  JObj (("node_version"%string, JStr version) :: fields).
End server.
