(* ===== verification/RpcLimits.v ===== *)
(** * Request limits ([rpc/src/lib.rs])

    The limiter of requests per address, the checks of what a request carries, and
    what the limits come to.  Instants are in nanoseconds. *)

From stdpp Require Import pretty.
From S2P Require Import Prelude Interfaces Types Concrete Utf8 Genesis RpcServer.

Definition MAX_REQUEST_BODY_SIZE : N := 2 * 1024 * 1024.
Definition RATE_LIMIT_PER_SECOND : N := 100.
Definition MAX_ADDRESS_HEX_LEN : N := 64.
Definition MAX_TX_RPC_SIZE : N := 1536 * 1024.

Record RateState : Type := mkRateState { rt_count : N; rt_window_start : N }.

Record RateLimiter (Ip : Type) `{Countable Ip} : Type := mkRateLimiter {
  rl_inner : gmap Ip RateState;
  rl_max_per_second : N;
}.
Arguments mkRateLimiter {Ip _ _} rl_inner rl_max_per_second.
Arguments rl_inner {Ip _ _} r.
Arguments rl_max_per_second {Ip _ _} r.

Section limiter.
Context `{HD : HexDecode} {Ip : Type} `{Countable Ip}.
Implicit Types (rl : RateLimiter Ip) (ip : Ip) (now : N).

Definition RateLimiter_new (max_per_second : N) : RateLimiter Ip := mkRateLimiter ∅ max_per_second.

(** One address's record at a request. *)
Definition refresh now (s : option RateState) : RateState :=
  let s := default (mkRateState 0 now) s in
  if 1 <=? sat_sub now (rt_window_start s) / SECOND then mkRateState 0 now else s.

Definition RateLimiter_check now ip rl : bool * RateLimiter Ip :=
  let s := refresh now (rl_inner rl !! ip) in
  if rl_max_per_second rl <=? rt_count s
  then (false, mkRateLimiter (<[ip := s]> (rl_inner rl)) (rl_max_per_second rl))
  else (true, mkRateLimiter (<[ip := mkRateState (u32_add (rt_count s) 1) (rt_window_start s)]> (rl_inner rl))
                (rl_max_per_second rl)).

(** The background task's cleaning: records of more than a minute ago go. *)
Definition RateLimiter_cleanup now rl : RateLimiter Ip :=
  mkRateLimiter (filter (fun p => sat_sub now (rt_window_start p.2) / SECOND < 60) (rl_inner rl)) (rl_max_per_second rl).

(** The middleware: the message of the 429 response, or the request goes on. *)
Definition rate_limit_middleware now ip rl : option string * RateLimiter Ip :=
  let '(allowed, rl') := RateLimiter_check now ip rl in
  (if allowed then None
   else Some ("Rate limit exceeded: max " +:+ pretty (rl_max_per_second rl) +:+ " requests/second")%string, rl').

Definition validate_address_hex (hex_str : string) : result bytes string :=
  if negb (slen hex_str =? MAX_ADDRESS_HEX_LEN) then
    Err ("address must be exactly " +:+ pretty MAX_ADDRESS_HEX_LEN +:+ " hex characters, got " +:+ pretty (slen hex_str))%string
  else
    match hex_decode hex_str with
    | Err e => Err ("invalid hex: " +:+ e)%string
    | Ok bs => if (length bs =? 32)%nat then Ok bs else Err "address must decode to exactly 32 bytes"%string
    end.

Definition validate_tx_size (tx_json : bytes) : result unit string :=
  if MAX_TX_RPC_SIZE <? blen tx_json
  then Err ("transaction too large: " +:+ pretty (blen tx_json) +:+ " bytes (max " +:+ pretty MAX_TX_RPC_SIZE +:+ ")")%string
  else Ok tt.

(** ** Bursts *)

(** The requests of a history that are let through, and the limiter after it. *)
Fixpoint serve (calls : list (N * Ip)) rl : list (N * Ip) * RateLimiter Ip :=
  match calls with
  | [] => ([], rl)
  | (now, ip) :: calls =>
      let '(allowed, rl) := RateLimiter_check now ip rl in
      let '(served, rl) := serve calls rl in
      (if allowed then (now, ip) :: served else served, rl)
  end.

Definition of_ip ip (calls : list (N * Ip)) : list (N * Ip) := filter (fun p => p.2 = ip) calls.

(** How many more requests a record allows before [t + 1s]. *)
Definition allowance (max t : N) (s : option RateState) : N :=
  match s with
  | None => max
  | Some s => (max - rt_count s) + (if rt_window_start s <? t then max else 0)
  end.

Lemma elapsed_second x : 1 <=? x / SECOND = (SECOND <=? x).
Proof.
  unfold SECOND. destruct (N.leb_spec 1000000000 x) as [Hx|Hx].
  - apply N.leb_le. apply N.div_le_lower_bound; lia.
  - apply N.leb_gt. apply N.div_lt_upper_bound; lia.
Qed.

Lemma check_max now ip rl : rl_max_per_second (RateLimiter_check now ip rl).2 = rl_max_per_second rl.
Proof. unfold RateLimiter_check. by destruct (_ <=? _). Qed.

Lemma check_other now ip j rl : ip <> j -> rl_inner (RateLimiter_check now ip rl).2 !! j = rl_inner rl !! j.
Proof. intros. unfold RateLimiter_check. destruct (_ <=? _); simpl; by rewrite lookup_insert_ne. Qed.

(** A request inside the second uses the allowance up. *)
Lemma check_allowance t now ip rl :
  rl_max_per_second rl < TWO32 -> t <= now < t + SECOND ->
  let '(allowed, rl') := RateLimiter_check now ip rl in
  (if allowed then 1 else 0) + allowance (rl_max_per_second rl) t (rl_inner rl' !! ip)
  <= allowance (rl_max_per_second rl) t (rl_inner rl !! ip).
Proof.
  intros Hmax Hnow. unfold RateLimiter_check, refresh. set (max := rl_max_per_second rl) in *.
  rewrite elapsed_second.
  destruct (rl_inner rl !! ip) as [[count start]|] eqn:Hs; simpl.
  - destruct (N.leb_spec SECOND (sat_sub now start)) as [Hold|Hnew]; unfold sat_sub in *; simpl.
    + rewrite (proj2 (N.ltb_lt start t)) by lia.
      destruct (N.leb_spec max 0) as [Hm|Hm]; simpl; rewrite lookup_insert_eq; simpl;
        rewrite (proj2 (N.ltb_ge now t)) by lia; [lia |]. rewrite wadd_small by lia. lia.
    + destruct (N.leb_spec max count) as [Hm|Hm]; simpl; rewrite lookup_insert_eq; simpl; [lia |].
      rewrite wadd_small by lia. destruct (start <? t); lia.
  - rewrite (proj2 (N.leb_gt SECOND (sat_sub now now))) by (unfold SECOND, sat_sub; lia). simpl.
    destruct (N.leb_spec max 0) as [Hm|Hm]; simpl; rewrite lookup_insert_eq; simpl;
      rewrite (proj2 (N.ltb_ge now t)) by lia; [lia |]. rewrite wadd_small by lia. lia.
Qed.

Lemma served_within t ip calls rl :
  rl_max_per_second rl < TWO32 -> (forall c, c ∈ calls -> t <= c.1 < t + SECOND) ->
  N.of_nat (length (of_ip ip (serve calls rl).1)) <= allowance (rl_max_per_second rl) t (rl_inner rl !! ip).
Proof.
  revert rl. induction calls as [|[now j] calls IH]; intros rl Hmax Ht; simpl; [lia |].
  assert (t <= now < t + SECOND) as Hnow by (apply (Ht (now, j)); left).
  pose proof (check_allowance t now j rl Hmax Hnow) as Ha. pose proof (check_max now j rl) as Hm.
  pose proof (fun k Hk => check_other now j k rl Hk) as Ho.
  destruct (RateLimiter_check now j rl) as [allowed rl1]. simpl in Hm, Ho.
  specialize (IH rl1 ltac:(by rewrite Hm) ltac:(intros c Hc; apply Ht; by right)). rewrite Hm in IH.
  destruct (serve calls rl1) as [served rl2]. simpl in *. unfold of_ip in *.
  destruct (decide (j = ip)) as [-> | Hne].
  - destruct allowed; simpl; [rewrite filter_cons_True by done; simpl |]; lia.
  - specialize (Ho ip ltac:(done)). rewrite Ho in IH. destruct allowed; [rewrite filter_cons_False by done |]; done.
Qed.

(** A record exists because a request was let through. *)
Definition counted rl : Prop := forall ip s, rl_inner rl !! ip = Some s -> 1 <= rt_count s.

Lemma check_counted now ip rl :
  0 < rl_max_per_second rl < TWO32 -> counted rl -> counted (RateLimiter_check now ip rl).2.
Proof.
  intros Hmax Hc. unfold RateLimiter_check.
  destruct (N.leb_spec (rl_max_per_second rl) (rt_count (refresh now (rl_inner rl !! ip)))) as [Hm|Hm]; intros j s; simpl;
    (destruct (decide (ip = j)) as [<- |]; [rewrite lookup_insert_eq; intros [= <-] | rewrite lookup_insert_ne by done; apply Hc]).
  - lia.
  - simpl. rewrite wadd_small by lia. lia.
Qed.

Lemma serve_counted calls rl :
  0 < rl_max_per_second rl < TWO32 -> counted rl ->
  counted (serve calls rl).2 /\ rl_max_per_second (serve calls rl).2 = rl_max_per_second rl.
Proof.
  revert rl. induction calls as [|[now j] calls IH]; intros rl Hmax Hc; simpl; [done |].
  pose proof (check_counted now j rl Hmax Hc) as Hc1. pose proof (check_max now j rl) as Hm1.
  destruct (RateLimiter_check now j rl) as [allowed rl1]. simpl in *. specialize (IH rl1 ltac:(by rewrite Hm1) Hc1).
  destruct (serve calls rl1) as [served rl2]. simpl in *. by rewrite <- Hm1.
Qed.

(** C40. What the limits of requests come to: whatever was asked before, within any one
    second an address gets less than twice the limit through, since a window starts
    with a request and not with the second one looks at. *)
Theorem burst_bound max before calls t ip :
  0 < max < TWO32 -> (forall c, c ∈ calls -> t <= c.1 < t + SECOND) ->
  N.of_nat (length (of_ip ip (serve calls (serve before (RateLimiter_new max)).2).1)) <= 2 * max - 1.
Proof.
  intros Hmax Ht. destruct (serve_counted before (RateLimiter_new max) Hmax) as [Hc Hm].
  { intros j s. simpl. by rewrite lookup_empty. }
  set (rl := (serve before (RateLimiter_new max)).2) in *. simpl in Hm.
  etrans; [apply (served_within t); [rewrite Hm; lia | done] |]. rewrite Hm. unfold allowance.
  destruct (rl_inner rl !! ip) as [s|] eqn:Hs; [| lia]. specialize (Hc _ _ Hs). destruct (_ <? _); lia.
Qed.

(** ** Cleaning *)

(** Two limiters that answer every later request alike. *)
Definition agree now rl1 rl2 : Prop :=
  rl_max_per_second rl1 = rl_max_per_second rl2
  /\ forall ip, rl_inner rl1 !! ip = rl_inner rl2 !! ip
       \/ (rl_inner rl2 !! ip = None
           /\ exists s, rl_inner rl1 !! ip = Some s /\ SECOND <= now - rt_window_start s).

Lemma agree_check now now' ip rl1 rl2 :
  agree now rl1 rl2 -> now <= now' ->
  (RateLimiter_check now' ip rl1).1 = (RateLimiter_check now' ip rl2).1
  /\ agree now' (RateLimiter_check now' ip rl1).2 (RateLimiter_check now' ip rl2).2.
Proof.
  intros [Hm Hag] Hle.
  assert (refresh now' (rl_inner rl1 !! ip) = refresh now' (rl_inner rl2 !! ip)) as Hr.
  { destruct (Hag ip) as [-> | (-> & s & -> & Hs)]; [done |]. unfold refresh, sat_sub. simpl. rewrite !elapsed_second.
    rewrite (proj2 (N.leb_le _ _)) by lia. by rewrite N.sub_diag. }
  unfold RateLimiter_check. rewrite Hr, Hm.
  assert (forall m1 m2 v, (forall j, j <> ip -> m1 !! j = rl_inner rl1 !! j) -> (forall j, j <> ip -> m2 !! j = rl_inner rl2 !! j) ->
    agree now' (mkRateLimiter (<[ip := v]> m1) (rl_max_per_second rl2)) (mkRateLimiter (<[ip := v]> m2) (rl_max_per_second rl2))) as Hins.
  { intros m1 m2 v H1 H2. split; [done |]. simpl. intros j. destruct (decide (ip = j)) as [<- |].
    - rewrite !lookup_insert_eq. by left.
    - rewrite !lookup_insert_ne, H1, H2 by done. destruct (Hag j) as [-> | (-> & s & -> & Hs)]; [by left |].
      right. split; [done |]. exists s. split; [done | lia]. }
  destruct (_ <=? _); simpl; (split; [done |]); by apply Hins.
Qed.

Lemma agree_cleanup now rl : agree now rl (RateLimiter_cleanup now rl).
Proof.
  split; [done |]. intros ip. simpl. destruct (rl_inner rl !! ip) as [s|] eqn:Hs.
  - destruct (decide (sat_sub now (rt_window_start s) / SECOND < 60)) as [Hd|Hd].
    + left. symmetry. apply map_lookup_filter_Some. by split.
    + right. split; [apply map_lookup_filter_None; right; intros s' Hs'; rewrite Hs in Hs'; injection Hs' as <-; exact Hd |].
      exists s. split; [done |]. unfold sat_sub, SECOND in *. apply N.nlt_ge in Hd.
      assert (60 * 1000000000 <= now - rt_window_start s) by (rewrite N.mul_comm; etrans;
        [apply N.mul_le_mono_l; exact Hd | apply N.Div0.mul_div_le]). lia.
  - left. symmetry. apply map_lookup_filter_None. by left.
Qed.

Lemma agree_serve now calls rl1 rl2 :
  agree now rl1 rl2 -> StronglySorted N.le (now :: calls.*1) -> (serve calls rl1).1 = (serve calls rl2).1.
Proof.
  revert now rl1 rl2. induction calls as [|[now' j] calls IH]; intros now rl1 rl2 Hag Hs; [done |]. simpl.
  simpl in Hs. apply StronglySorted_inv in Hs as [Hs Hle]. apply Forall_cons in Hle as [Hle _].
  destruct (agree_check now now' j rl1 rl2 Hag Hle) as [He Hag'].
  destruct (RateLimiter_check now' j rl1) as [a1 r1], (RateLimiter_check now' j rl2) as [a2 r2]. simpl in *. subst.
  specialize (IH now' r1 r2 Hag' Hs). destruct (serve calls r1), (serve calls r2). simpl in *. by subst.
Qed.

(** Cleaning up is invisible: no later request is answered differently for it. *)
Theorem cleanup_invisible now calls rl :
  StronglySorted N.le (now :: calls.*1) -> (serve calls (RateLimiter_cleanup now rl)).1 = (serve calls rl).1.
Proof. intros Hs. symmetry. eapply agree_serve; [apply agree_cleanup | done]. Qed.

(** ** The limit on contract views *)

(** The limiter that the server has for contract views, as one of these. *)
Definition as_limiter (m : gmap Ip (N * N)) : RateLimiter Ip :=
  mkRateLimiter ((fun p => mkRateState p.2 p.1) <$> m) CONTRACT_VIEW_RATE_LIMIT.

(** The two limiters in the repository are one: the one for views answers and counts
    as this one does with a limit of ten. *)
Theorem view_limiter_same now ip m :
  check_contract_view_rate now ip m =
  (let '(allowed, rl) := RateLimiter_check now ip (as_limiter m) in
   (allowed, (fun s => (rt_window_start s, rt_count s)) <$> rl_inner rl)).
Proof.
  assert (forall m : gmap Ip (N * N), (fun s => (rt_window_start s, rt_count s)) <$> ((fun p => mkRateState p.2 p.1) <$> m) = m) as Hid.
  { intros m'. rewrite <- map_fmap_compose. rewrite <- (map_fmap_id m') at 2. apply map_fmap_ext. by intros i [a b] _. }
  unfold check_contract_view_rate, RateLimiter_check, refresh, as_limiter. simpl. rewrite lookup_fmap, elapsed_second.
  unfold CONTRACT_VIEW_RATE_WINDOW, CONTRACT_VIEW_RATE_LIMIT.
  destruct (m !! ip) as [[start count]|] eqn:Hm; simpl.
  - destruct (SECOND <=? sat_sub now start); simpl; [by rewrite fmap_insert, Hid |].
    rewrite N.leb_antisym. destruct (count <? 10); simpl; by rewrite fmap_insert, Hid.
  - unfold sat_sub. rewrite N.sub_diag. simpl. by rewrite fmap_insert, Hid.
Qed.
End limiter.

(** ** Witnesses *)

(** Ten requests are the limit of a second, and nineteen get through in one: one
    at first, nine just before the window ends, and ten when the next one starts. *)
Definition toy_burst : list (N * N) := replicate 9 (999999999, 7) ++ replicate 10 (1000000000, 7).

Lemma burst_bound_witness :
  let served := (serve toy_burst (serve [(0, 7)] (RateLimiter_new 10)).2).1 in
  length (of_ip 7 served) = 19%nat /\ N.of_nat (length (of_ip 7 served)) <= 2 * 10 - 1.
Proof.
  intros served. split; [vm_compute; reflexivity |].
  apply (burst_bound 10 [(0, 7)] toy_burst 999999999 7); [done |].
  intros c [Hc | Hc]%elem_of_app; apply elem_of_replicate in Hc as [-> _]; done.
Defined.

Lemma cleanup_invisible_witness :
  let rl := (serve [(0, 7)] (RateLimiter_new 1)).2 in
  (serve [(61000000000, 7)] (RateLimiter_cleanup 61000000000 rl)).1 = [(61000000000, 7)].
Proof.
  intros rl. rewrite (cleanup_invisible 61000000000 [(61000000000, 7)] rl); [vm_compute; reflexivity |].
  repeat constructor; done.
Defined.
