(* ===== verification/Cli.v ===== *)
(** * The command line as a client ([node/src/main.rs])

    The commands that read amounts, addresses and the key file, build and sign a
    transaction and send it to a node over JSON-RPC.  The node is a server with a
    state of its own, which answers a request or cannot be reached; a command's
    result is the transaction hash it prints. *)

From stdpp Require Import pretty.
From Stdlib Require Import SpecFloat.
From S2P Require Import Prelude Interfaces Types Crypto Utf8 World HandlerBase Genesis Json Config Store RpcServer.
Notation length := List.length.

(** ** Numbers *)

(** [str::parse] of a [u128], with its error. *)
Fixpoint read_digits (acc : N) (digits : bytes) : result N string :=
  match digits with
  | [] => Ok acc
  | b :: digits =>
      if between 48 57 b then
        let acc := acc * 10 + (Byte.to_N b - 48) in
        if acc <? TWO128 then read_digits acc digits else Err "number too large to fit in target type"%string
      else Err "invalid digit found in string"%string
  end.

Definition read_u128 (digits : bytes) : result N string :=
  match digits with
  | [] => Err "cannot parse integer from empty string"%string
  | b :: rest =>
      if (Byte.to_N b =? 43) && negb (bool_decide (rest = [])) then read_digits 0 rest
      else read_digits 0 (b :: rest)
  end.

Definition labelled {A} (what : string) (r : result A string) : result A string :=
  match r with Ok a => Ok a | Err e => Err (what +:+ ": " +:+ e)%string end.

(** An amount in CLAW, into units of [10^-9] CLAW. *)
Definition parse_claw_amount (s : string) : result N string :=
  let s := trim (as_bytes s) in
  match split_once [x2e] s with
  | Some (whole_str, frac_str) =>
      let? whole := labelled "invalid amount" (read_u128 whole_str) in
      let frac_len := length frac_str in
      if (9 <? frac_len)%nat then Err "too many decimal places (max 9)"%string
      else
        let? frac := labelled "invalid decimal" (read_u128 frac_str) in
        let frac_scaled := u128_mul frac (10 ^ (9 - N.of_nat frac_len)) in
        Ok (u128_add (u128_mul whole 1000000000) frac_scaled)
  | None =>
      let? whole := labelled "invalid amount" (read_u128 s) in
      Ok (u128_add (u128_mul whole 1000000000) 0)
  end.

(** [{:.digits}] of a float that is not negative: rounded to the nearest, ties to
    even. *)
Definition round_half_even (n d : Z) : Z :=
  let q := (n / d)%Z in
  let r := (n mod d)%Z in
  if (2 * r <? d)%Z then q else if (d <? 2 * r)%Z then (q + 1)%Z else if Z.even q then q else (q + 1)%Z.

Definition padded (width : nat) (s : string) : string :=
  (string_of_bytes (replicate (width - String.length s) x30) +:+ s)%string.

Definition format_fixed (digits : nat) (x : spec_float) : string :=
  let scale := (10 ^ Z.of_nat digits)%Z in
  let n := match x with
           | S754_finite _ m e =>
               if (0 <=? e)%Z then (Z.pos m * 2 ^ e * scale)%Z else round_half_even (Z.pos m * scale) (2 ^ (- e))
           | _ => 0%Z
           end in
  (pretty (Z.to_N (n / scale)) +:+ "." +:+ padded digits (pretty (Z.to_N (n mod scale))))%string.

(** A balance of units as the error message shows it. *)
Definition show_claw (units : N) : string := format_fixed 4 (f64_div (f64_of units) (f64_of 1000000000)).

(** ** The client *)

Section client.
Context `{HB : Blake3} `{HE : Ed25519} `{TC : TxCodec} `{HX : Hex} `{HD : HexDecode} `{JT : JsonText} `{KC : KeyCipher}.
Context `{CW : Borsh MinerCheckinWitness}.
Context {W : Type} (server : RpcRequest -> ST W string RpcResponse).
Context (dir : DataDir) (password : option string).

Definition parse_hex_address (s : string) : result bytes string :=
  let? bs := labelled "invalid hex address" (hex_decode s) in
  if negb (length bs =? 32)%nat
  then Err ("address must be 64 hex chars (32 bytes), got " +:+ pretty (blen bs))%string
  else Ok bs.

(** A response as JSON; the fields that are absent are left out. *)
Definition response_json (r : RpcResponse) : Json :=
  let code e := if (er_code e <? 0)%Z then JNeg (er_code e) else JNum (Z.to_N (er_code e)) in
  JObj ([("jsonrpc"%string, JStr (rs_jsonrpc r)); ("id"%string, rs_id r)]
        ++ match rs_result r with Some v => [("result"%string, v)] | None => [] end
        ++ match rs_error r with
           | Some e => [("error"%string, JObj [("code"%string, code e); ("message"%string, JStr (er_message e))])]
           | None => []
           end).

Definition rpc_call (method : string) (params : list Json) : ST W string Json :=
  resp ← server (mkRpcRequest "2.0" (JNum 1) method (JArr params));
  let resp := response_json resp in
  match json_field resp "error" with
  | Some err => st_throw ("RPC error: " +:+ json_to_string err)%string
  | None => mret (default JNull (json_field resp "result"))
  end.

(** [?] on what a computation without a server returns. *)
Definition lift {A} (r : result A string) : ST W string A := map_err r id.

(** Loads the key, asks for the nonce, signs and sends. *)
Definition submit_tx (t : TxType) (payload : bytes) : ST W string string :=
  cfg ← lift (load_config password dir);
  nonce_result ← rpc_call "claw_getNonce" [JStr (hex_encode (nc_address cfg))];
  let nonce := u64_add (default 0 (as_u64_ nonce_result)) 1 in
  let tx := sign_transaction (mkTransaction t (nc_address cfg) nonce payload (replicate 64 x00)) (nc_signing_key_bytes cfg) in
  result ← rpc_call "claw_sendTransaction" [JStr (hex_encode (to_vec tx))];
  mret (default "unknown"%string (as_str result)).

(** The balance, as the server gives it. *)
Definition read_balance (v : Json) : N :=
  match as_str v ≫= parse_u128 with
  | Some n => n
  | None => default 0 (as_u64_ v)
  end.

Definition check_funds (raw_amount : N) (amount : string) : ST W string unit :=
  cfg ← lift (load_config password dir);
  balance_result ← rpc_call "claw_getBalance" [JStr (hex_encode (nc_address cfg))];
  let balance := read_balance balance_result in
  fail_if (balance <? raw_amount)
    ("insufficient balance: have " +:+ show_claw balance +:+ " CLAW, need " +:+ amount +:+ " CLAW")%string.

Definition handle_transfer_cli (to amount : string) : ST W string string :=
  to_addr ← lift (parse_hex_address to);
  raw_amount ← lift (parse_claw_amount amount);
  check_funds raw_amount amount;;
  submit_tx TokenTransfer (to_vec (mkTokenTransferPayload to_addr raw_amount)).

Definition commission_in_range (commission : N) : ST W string unit :=
  fail_if (10000 <? commission) ("commission must be 0-10000 basis points, got " +:+ pretty commission)%string.

Definition handle_stake_cli (amount : string) (validator_key : option string) (commission : N) : ST W string string :=
  raw_amount ← lift (parse_claw_amount amount);
  commission_in_range commission;;
  check_funds raw_amount amount;;
  validator ← match validator_key with Some hex => lift (parse_hex_address hex) | None => mret zeros32 end;
  submit_tx StakeDeposit (to_vec (mkStakeDepositPayload raw_amount validator commission)).

Definition handle_change_delegation_cli (validator_key new_owner : string) (commission : N) : ST W string string :=
  commission_in_range commission;;
  validator ← lift (parse_hex_address validator_key);
  owner ← lift (parse_hex_address new_owner);
  lift (load_config password dir);;
  submit_tx ChangeDelegation (to_vec (mkChangeDelegationPayload validator owner commission)).

Definition handle_unstake_cli (amount : string) (validator_key : option string) : ST W string string :=
  raw_amount ← lift (parse_claw_amount amount);
  lift (load_config password dir);;
  validator ← match validator_key with Some hex => lift (parse_hex_address hex) | None => mret zeros32 end;
  submit_tx StakeWithdraw (to_vec (mkStakeWithdrawPayload raw_amount validator)).

(** Nothing is sent when there is nothing to claim. *)
Definition handle_claim_stake_cli : ST W string (option string) :=
  cfg ← lift (load_config password dir);
  unbonding ← rpc_call "claw_getUnbonding" [JStr (hex_encode (nc_address cfg))];
  if match as_array unbonding with Some l => bool_decide (l = []) | None => true end then mret None
  else tx_hash ← submit_tx StakeClaim (to_vec mkStakeClaimPayload); mret (Some tx_hash).

(** [key=value], the first equals sign separating. *)
Fixpoint parse_metadata (entries : list string) (metadata : gmap string string) : result (gmap string string) string :=
  match entries with
  | [] => Ok metadata
  | entry :: entries =>
      match split_once [x3d] (as_bytes entry) with
      | Some (k, v) => parse_metadata entries (<[string_of_bytes k := string_of_bytes v]> metadata)
      | None => Err ("invalid metadata format '" +:+ entry +:+ "', expected key=value")%string
      end
  end.

Definition handle_register_agent_cli (name : string) (metadata_args : list string) : ST W string string :=
  lift (load_config password dir);;
  metadata ← lift (parse_metadata metadata_args ∅);
  submit_tx AgentRegister (to_vec (mkAgentRegisterPayload name metadata)).

Definition parse_raw (what amount : string) : result N string := labelled ("invalid " +:+ what)%string (read_u128 (as_bytes amount)).

Definition handle_transfer_token_cli (token_id to amount : string) : ST W string string :=
  token_id_bytes ← lift (parse_hex_address token_id);
  to_addr ← lift (parse_hex_address to);
  raw_amount ← lift (parse_raw "amount" amount);
  lift (load_config password dir);;
  submit_tx TokenMintTransfer (to_vec (mkTokenMintTransferPayload token_id_bytes to_addr raw_amount)).

Definition handle_create_token_cli (name symbol : string) (decimals : N) (initial_supply : string) : ST W string string :=
  total_supply ← lift (parse_raw "supply" initial_supply);
  lift (load_config password dir);;
  submit_tx TokenCreate (to_vec (mkTokenCreatePayload name symbol decimals total_supply)).

Definition handle_approve_token_cli (token_id spender amount : string) : ST W string string :=
  token_id_bytes ← lift (parse_hex_address token_id);
  spender_bytes ← lift (parse_hex_address spender);
  raw_amount ← lift (parse_raw "amount" amount);
  lift (load_config password dir);;
  submit_tx TokenApprove (to_vec (mkTokenApprovePayload token_id_bytes spender_bytes raw_amount)).

Definition handle_burn_token_cli (token_id amount : string) : ST W string string :=
  token_id_bytes ← lift (parse_hex_address token_id);
  raw_amount ← lift (parse_raw "amount" amount);
  lift (load_config password dir);;
  submit_tx TokenBurn (to_vec (mkTokenBurnPayload token_id_bytes raw_amount)).

(** Arguments in hexadecimal; nothing stands for no bytes. *)
Definition hex_args (what args : string) : result bytes string :=
  if String.eqb args "" then Ok [] else labelled ("invalid hex " +:+ what)%string (hex_decode args).

(** [file] is the content of the Wasm file, or why it cannot be read. *)
Definition handle_deploy_contract_cli (path : string) (file : result bytes string) (init_method init_args : string)
    : ST W string string :=
  code ← lift (labelled ("failed to read wasm file '" +:+ path +:+ "'")%string file);
  init_args_bytes ← lift (hex_args "init-args" init_args);
  lift (load_config password dir);;
  submit_tx ContractDeploy (to_vec (mkContractDeployPayload code init_method init_args_bytes)).

Definition handle_call_contract_cli (address method args value : string) : ST W string string :=
  contract_addr ← lift (parse_hex_address address);
  args_bytes ← lift (hex_args "args" args);
  raw_value ← lift (parse_claw_amount value);
  lift (load_config password dir);;
  submit_tx ContractCall (to_vec (mkContractCallPayload contract_addr method args_bytes raw_value)).

Definition handle_register_service_cli (service_type endpoint price description : string) : ST W string string :=
  price_amount ← lift (parse_claw_amount price);
  lift (load_config password dir);;
  submit_tx ServiceRegister
    (to_vec (mkServiceRegisterPayload service_type description zeros32 price_amount endpoint true)).

Definition handle_register_miner_cli (name : string) : ST W string string :=
  lift (load_config password dir);;
  submit_tx MinerRegister (to_vec (mkMinerRegisterPayload 1 (replicate 4 x00) name)).

(** ** Miners *)

(** 64 digits that can be decoded; zeros otherwise. *)
Definition hash_of_hex (hash_hex : string) : bytes :=
  if (slen hash_hex =? 64) then match hex_decode hash_hex with Ok bs => bs | Err _ => zeros32 end else zeros32.

(** The height and the hash that are printed. *)
Definition handle_miner_heartbeat_cli : ST W string (N * string) :=
  block_number ← rpc_call "claw_blockNumber" [];
  let height := default 0 (as_u64_ block_number) in
  block ← rpc_call "claw_getBlockByNumber" [JNum height];
  let latest_block_hash := hash_of_hex (default "" (json_field block "hash" ≫= as_str))%string in
  tx_hash ← submit_tx MinerHeartbeat (to_vec (mkMinerHeartbeatPayload latest_block_hash height));
  mret (height, tx_hash).

(** The key as this command reads it: always as a plain one.  A secret of fewer than
    32 bytes panics. *)
Definition read_checkin_key : result bytes string :=
  match dd_key_json dir with
  | None => Err "cannot read key file"%string
  | Some key_data =>
      let? key_json := json_from_str key_data in
      let? secret_hex := str_field key_json "secret_key" "missing secret_key in key file" in
      let? secret_bytes := hex_decode secret_hex in
      if (length secret_bytes <? 32)%nat
      then Err ("range end index 32 out of range for slice of length " +:+ pretty (blen secret_bytes))%string
      else Ok (take 32 secret_bytes)
  end.

(** Two blocks behind the tip, within its epoch. *)
Definition ref_height (tip : N) : N := sat_sub tip 2 `max` (tip / MINER_EPOCH_LENGTH * MINER_EPOCH_LENGTH).

(** A block's hash, as text or as a list of numbers. *)
Definition ref_hash (block : Json) : bytes :=
  match json_field block "hash" ≫= as_str with
  | Some hash_str => hash_of_hex hash_str
  | None =>
      match json_field block "hash" ≫= as_array with
      | Some hash_arr =>
          let bs := omap (fun v => (fun n => byte_of_N (n mod 256)) <$> as_u64_ v) hash_arr in
          if (length bs =? 32)%nat then bs else zeros32
      | None => zeros32
      end
  end.

(** The epoch, the height and the answer that are printed. *)
Definition handle_miner_checkin_cli : ST W string (N * N * Json) :=
  signing_key ← lift read_checkin_key;
  let miner_pubkey := vk_of_signing_key signing_key in
  block_number ← rpc_call "claw_blockNumber" [];
  let tip := default 0 (as_u64_ block_number) in
  let epoch := tip / MINER_EPOCH_LENGTH in
  let height := ref_height tip in
  block ← rpc_call "claw_getBlockByNumber" [JNum height];
  let ref_block_hash := ref_hash block in
  let sig := ed_sign signing_key (checkin_signable_bytes epoch ref_block_hash) in
  let witness := mkMinerCheckinWitness miner_pubkey epoch ref_block_hash height sig in
  result ← rpc_call "claw_submitMinerCheckin" [JStr (hex_encode (to_vec witness))];
  mret (epoch, height, result).

(** ** Contracts *)

Inductive ContractAction : Type :=
  | ContractInfo (address : string)
  | ContractStorage (address key : string)
  | ContractCode (address : string)
  | ContractView (address method args : string).

(** What is printed. *)
Definition handle_contract_cli (action : ContractAction) : ST W string string :=
  match action with
  | ContractInfo address =>
      result ← rpc_call "claw_getContractInfo" [JStr address];
      mret match result with JNull => "Contract not found"%string | _ => json_to_string_pretty result end
  | ContractStorage address key =>
      result ← rpc_call "claw_getContractStorage" [JStr address; JStr key];
      mret match result with
           | JNull => "Storage key not found"%string
           | _ => default (json_to_string result) (as_str result)
           end
  | ContractCode address =>
      result ← rpc_call "claw_getContractCode" [JStr address];
      mret match result with
           | JNull => "Contract not found"%string
           | _ =>
               let size := default 0 (json_field result "size" ≫= as_u64_) in
               let code_line := match json_field result "code" ≫= as_str with
                                | Some code =>
                                    if 128 <? slen code
                                    then ("Code (first 64 bytes): " +:+ String.substring 0 128 code +:+ "...")%string
                                    else ("Code: " +:+ code)%string
                                | None => ""%string
                                end in
               ("Code size: " +:+ pretty size +:+ " bytes" +:+ newline +:+ code_line)%string
           end
  | ContractView address method args =>
      result ← rpc_call "claw_callContractView" [JStr address; JStr method; JStr args];
      mret (json_to_string_pretty result)
  end.
End client.
