(* ===== verification/ContractTool.v ===== *)
(** * The contract developer's tool ([tools/claw-contract])

    Its own copy of the transaction format, its JSON-RPC client, and its commands:
    a project from the template, deployment, calls, verification of deployed code
    against a local build, and disassembly.  Files are a view of the disk; what a
    command writes there is its result.  An error is the list of its contexts, the
    outermost first. *)

From stdpp Require Import pretty.
From Stdlib Require Import Ascii.
From S2P Require Import Prelude Interfaces Types Utf8 World Genesis Json Config RpcServer Cli.
Notation length := List.length.

(** ** Errors and text *)

Abbreviation anyhow := (list string).

Definition context {A} (what : string) (r : result A anyhow) : result A anyhow :=
  match r with Ok a => Ok a | Err e => Err (what :: e) end.
Definition because {A} (r : result A string) : result A anyhow := match r with Ok a => Ok a | Err e => Err [e] end.
Definition some_or {A} (o : option A) (what : string) : result A anyhow :=
  match o with Some a => Ok a | None => Err [what] end.

(** The same for a computation with a server. *)
Definition try_ {W A} (r : result A anyhow) : ST W anyhow A := map_err r id.
Definition with_context {W A} (what : string) (m : ST W anyhow A) : ST W anyhow A := fun w =>
  match m w with (Err e, w) => (Err (what :: e), w) | r => r end.

(** [s.strip_prefix("0x").unwrap_or(s)]. *)
Definition strip_0x (s : string) : string :=
  match s with String.String "0"%char (String.String "x"%char rest) => rest | _ => s end.

(** [s.lines()]. *)
Definition strip_cr (line : bytes) : bytes :=
  match last line with Some b => if bool_decide (b = x0d) then removelast line else line | None => line end.
Fixpoint lines_from (line s : bytes) : list bytes :=
  match s with
  | [] => if bool_decide (line = []) then [] else [line]
  | b :: s => if bool_decide (b = x0a) then strip_cr line :: lines_from [] s else lines_from (line ++ [b]) s
  end.
Definition lines : bytes -> list bytes := lines_from [].

(** [s.trim_matches] of the double quote. *)
Definition trim_quotes (s : bytes) : bytes :=
  let s := trim_start_with [[x22]] (length s) s in
  reverse (trim_start_with [[x22]] (length s) (reverse s)).

Definition strip_prefix (p s : bytes) : option bytes := if prefix_of p s then Some (drop (length p) s) else None.
Definition has_byte (b : byte) (s : string) : bool := existsb (fun c => bool_decide (c = b)) (as_bytes s).
Definition lines_text (lines : list string) : string := foldr (fun line rest => line +:+ newline +:+ rest)%string ""%string lines.

(** ** A new project ([new.rs]) *)

Inductive FileEffect : Type :=
  | CreateDirAll (path : string)
  | WriteFile (path content : string)
  | Rename (from to : string)
  | RemoveFile (path : string).

(** What the disk holds. *)
Record Files : Type := mkFiles {
  path_exists : string -> bool;
  read_file : string -> result bytes string;
}.

Definition read_to_string (files : Files) (path : string) : result string string :=
  let? bs := read_file files path in
  match from_utf8 bs with Some s => Ok s | None => Err "stream did not contain valid UTF-8"%string end.

(** [base.join(p)]. *)
Definition path_join (base p : string) : string :=
  match as_bytes p with
  | x2f :: _ => p
  | _ => match last (as_bytes base) with
         | Some b => if bool_decide (b = x2f) then base +:+ p else base +:+ "/" +:+ p
         | None => p
         end
  end%string.

(** [debug]: how [{:?}] shows a text. *)
Definition validate_name (debug : string -> string) (name : string) : result unit anyhow :=
  if slen name =? 0 then Err ["contract name must not be empty"%string]
  else if existsb (fun w => bool_decide (is_Some (split_once w (as_bytes name)))) white_spaces
  then Err ["contract name must not contain whitespace: " +:+ debug name]%string
  else Ok tt.

Definition cargo_toml_content (name : string) : string :=
  lines_text [
      "[package]"; "name = " +:+ quoted name; "version = " +:+ quoted "0.1.0"; "edition = " +:+ quoted "2021"; "";
      "[lib]"; "crate-type = [" +:+ quoted "cdylib" +:+ "]"; ""; "[dependencies]";
      "claw-sdk = { git = " +:+ quoted "https://github.com/clawlabz/claw-network" +:+ ", package = " +:+ quoted "claw-sdk" +:+ " }";
      "borsh = { version = " +:+ quoted "1" +:+ ", features = [" +:+ quoted "derive" +:+ "] }"; "";
      "[profile.release]"; "opt-level = " +:+ quoted "z"; "lto = true"; "codegen-units = 1";
      "panic = " +:+ quoted "abort" ]%string.

Definition lib_rs_content : string :=
  lines_text [
      "//! Hello World contract for ClawNetwork."; "//!"; "//! Demonstrates a simple key-value store with:";
      "//!   - `init`: initializes the contract owner";
      "//!   - `set`:  stores a value under the key " +:+ quoted "data";
      "//!   - `get`:  retrieves the stored " +:+ quoted "data" +:+ " value"; ""; "use claw_sdk::{env, storage};"; "";
      "claw_sdk::setup_alloc!();"; ""; "/// Initialize the contract: store the caller as the owner."; "#[no_mangle]";
      "pub extern " +:+ quoted "C" +:+ " fn init() {"; "    let caller = env::get_caller();";
      "    storage::set(b" +:+ quoted "owner" +:+ ", &caller);";
      "    env::log(" +:+ quoted "contract initialized" +:+ ");"; "}"; "";
      "/// Set the " +:+ quoted "data" +:+ " key to the provided value.";
      "/// Only the contract owner may call this."; "#[no_mangle]";
      "pub extern " +:+ quoted "C" +:+ " fn set(args_ptr: i32, args_len: i32) {";
      "    claw_sdk::entry!(args_ptr, args_len, |value: Vec<u8>| {"; "        let caller = env::get_caller();";
      "        let owner = storage::get(b" +:+ quoted "owner" +:+ ").expect(" +:+ quoted "owner not set" +:+ ");";
      "        if caller != owner.as_slice() {";
      "            env::panic_msg(" +:+ quoted "only owner can set data" +:+ ");"; "        }";
      "        storage::set(b" +:+ quoted "data" +:+ ", &value);";
      "        env::log(" +:+ quoted "data updated" +:+ ");"; "        b" +:+ quoted "ok" +:+ ".to_vec()"; "    });";
      "}"; ""; "/// Get the current value stored under " +:+ quoted "data" +:+ "."; "#[no_mangle]";
      "pub extern " +:+ quoted "C" +:+ " fn get() {"; "    match storage::get(b" +:+ quoted "data" +:+ ") {";
      "        Some(value) => env::set_return_data(&value),";
      "        None => env::set_return_data(b" +:+ quote +:+ quote +:+ "),"; "    }"; "}" ]%string.

Definition readme_content (name : string) : string :=
  lines_text [
      "# " +:+ name; ""; "A ClawNetwork smart contract."; ""; "## Build"; ""; "```bash";
      "cargo build --target wasm32-unknown-unknown --release"; "```"; ""; "## Deploy"; ""; "```bash";
      "claw-contract deploy target/wasm32-unknown-unknown/release/" +:+ name +:+ ".wasm \"; "  --method init \";
      "  --args 0x \"; "  --rpc https://testnet-rpc.clawlabz.xyz \"; "  --key <your-private-key-hex>"; "```"; "";
      "## Call"; ""; "```bash"; "claw-contract call <contract-address> get \"; "  --args 0x \";
      "  --rpc https://testnet-rpc.clawlabz.xyz \"; "  --key <your-private-key-hex>"; "```" ]%string.

Definition create_contract_project (debug : string -> string) (files : Files) (parent_dir name : string) : result (list FileEffect) anyhow :=
  let? _ := validate_name debug name in
  let project_dir := path_join parent_dir name in
  if path_exists files project_dir then Err ["directory already exists: " +:+ project_dir]%string
  else
    let src_dir := path_join project_dir "src" in
    Ok [CreateDirAll src_dir;
        WriteFile (path_join project_dir "Cargo.toml") (cargo_toml_content name);
        WriteFile (path_join src_dir "lib.rs") lib_rs_content;
        WriteFile (path_join project_dir "README.md") (readme_content name)].

(** ** Building ([main.rs]) *)

Definition name_of_line (line : bytes) : option string :=
  rest ← strip_prefix (lit "name") (trim line);
  rest ← strip_prefix [x3d] (trim rest);
  let name := trim_quotes (trim rest) in
  if bool_decide (name = []) then None else Some (string_of_bytes name).

(** The first line that gives a name, whatever its table. *)
Fixpoint first_name (ls : list bytes) : option string :=
  match ls with
  | [] => None
  | line :: ls => match name_of_line line with Some name => Some name | None => first_name ls end
  end.

Definition extract_package_name (cargo_toml : string) : option string := first_name (lines (as_bytes cargo_toml)).

(** [name.replace('-', "_")]. *)
Definition wasm_name_of (pkg_name : string) : string :=
  string_of_bytes ((fun b => if bool_decide (b = x2d) then x5f else b) <$> as_bytes pkg_name).
Definition wasm_path_of (pkg_name : string) : string :=
  ("target/wasm32-unknown-unknown/release/" +:+ wasm_name_of pkg_name +:+ ".wasm")%string.

(** [wasm_opt]: whether it could be run, and whether it succeeded. *)
Definition run_wasm_opt (wasm_opt : string -> string -> option bool) (wasm_path : string) : list FileEffect :=
  let optimized_path := (wasm_path +:+ ".opt")%string in
  match wasm_opt wasm_path optimized_path with
  | Some true => [Rename optimized_path wasm_path]
  | Some false => [RemoveFile optimized_path]
  | None => []
  end.

(** [cargo_build]: the exit status in a directory, and the disk after it. *)
Definition cmd_build (files : Files) (cargo_build : string -> Files -> result bool string * Files)
    (wasm_opt : string -> string -> option bool) (optimize : bool) : result (string * list FileEffect) anyhow :=
  if negb (path_exists files "Cargo.toml")
  then Err ["no Cargo.toml found in current directory — run this inside a contract project"%string]
  else
    let? cargo_toml_str := context "reading Cargo.toml" (because (read_to_string files "Cargo.toml")) in
    let? pkg_name := some_or (extract_package_name cargo_toml_str) "could not determine package name from Cargo.toml" in
    let? status := context "running cargo build" (because (fst (cargo_build "." files))) in
    if negb status then Err ["cargo build failed"%string]
    else Ok (wasm_path_of pkg_name, if optimize then run_wasm_opt wasm_opt (wasm_path_of pkg_name) else []).

(** ** The local network *)

(** [path_env.split(':')]. *)
Fixpoint split_colon (dir s : bytes) : list bytes :=
  match s with
  | [] => [dir]
  | b :: s => if bool_decide (b = x3a) then dir :: split_colon [] s else split_colon (dir ++ [b]) s
  end.

Definition which_claw_node (files : Files) (path_env : option string) : option string :=
  path ← path_env;
  List.find (path_exists files) ((fun dir => path_join (string_of_bytes dir) "claw-node") <$> split_colon [] (as_bytes path)).

Definition find_claw_node_binary (files : Files) (path_env : option string) : option string :=
  match List.find (path_exists files)
          ["../../claw-node/target/release/claw-node"; "claw-node/target/release/claw-node"; "claw-node"]%string with
  | Some path => Some path
  | None => which_claw_node files path_env
  end.

Definition cmd_devnet (files : Files) (path_env : option string) (run : string -> list string -> result bool string)
    : result unit anyhow :=
  match find_claw_node_binary files path_env with
  | Some bin =>
      let? status := context ("running " +:+ bin) (because (run bin ["--network"; "devnet"; "--single"])) in
      if negb status then Err ["claw-node exited with non-zero status"] else Ok tt
  | None => Err ["claw-node binary not found. Build it first:" +:+ newline +:+ "cd claw-node && cargo build --release"
                 +:+ newline +:+ "Or add it to your PATH."]
  end%string.

(** ** Arguments and keys ([args.rs], [key.rs]) *)

Section keys.
Context `{HD : HexDecode}.

Definition parse_hex_or_empty (input : string) : result bytes anyhow :=
  let stripped := strip_0x input in
  if slen stripped =? 0 then Ok []
  else if negb (slen stripped mod 2 =? 0) then Err ["hex string has odd length: " +:+ pretty (slen stripped)]%string
  else match hex_decode stripped with Ok bs => Ok bs | Err e => Err ["invalid hex: " +:+ e]%string end.

(** A signing key is its 32 bytes. *)
Definition parse_hex_key (hex_str : string) : result bytes anyhow :=
  let stripped := strip_0x hex_str in
  if negb (slen stripped =? 64)
  then Err ["signing key must be 32 bytes (64 hex chars), got " +:+ pretty (slen stripped) +:+ " chars"]%string
  else
    let? bs := context "invalid hex in signing key" (because (hex_decode stripped)) in
    if (length bs =? 32)%nat then Ok bs else Err ["expected exactly 32 bytes"%string].

Definition load_signing_key (files : Files) (input : string) : result bytes anyhow :=
  let? hex_str :=
    if path_exists files input then
      let? contents := context ("reading key file: " +:+ input) (because (read_to_string files input)) in
      Ok (string_of_bytes (trim (as_bytes contents)))
    else if has_byte x2f input || has_byte x5c input then Err ["key file not found: " +:+ input]%string
    else Ok input in
  parse_hex_key hex_str.
End keys.

(** ** Transactions ([tx.rs]) *)

(** The node's types that the tool needs. *)
Inductive TxType : Type :=
  | ContractDeploy
  | ContractCall.

Definition tx_type_as_u8 (t : TxType) : N := match t with ContractDeploy => 6 | ContractCall => 7 end.

Record SignedTransaction : Type := mkSignedTransaction {
  sg_tx_type : TxType;
  sg_from : bytes;
  sg_nonce : N;
  sg_payload : bytes;
  sg_signature : bytes;
}.

Section transactions.
Context `{HB : Blake3} `{HE : Ed25519} `{BP : BorshPrims}.

Definition encode_contract_deploy_payload (code : bytes) (init_method : string) (init_args : bytes) : bytes :=
  ser_vec_u8 code ++ ser_string init_method ++ ser_vec_u8 init_args.

Definition encode_contract_call_payload (contract : bytes) (method : string) (args : bytes) (value : N) : bytes :=
  ser_array contract ++ ser_string method ++ ser_vec_u8 args ++ ser_u128 value.

Definition derive_contract_address (deployer : bytes) (nonce : N) : bytes :=
  blake3 (lit "claw_contract_v1:" ++ deployer ++ le64 nonce).

Definition build_and_sign_transaction (t : TxType) (signing_key : bytes) (nonce : N) (payload : bytes) : SignedTransaction :=
  let from := vk_of_signing_key signing_key in
  let signable := [byte_of_N (tx_type_as_u8 t)] ++ from ++ le64 nonce ++ payload in
  mkSignedTransaction t from nonce payload (ed_sign signing_key signable).

(** ** The client ([rpc.rs]) *)

Definition serialize_transaction_for_rpc (tx : SignedTransaction) : bytes :=
  [byte_of_N (tx_type_as_u8 (sg_tx_type tx))] ++ ser_array (sg_from tx) ++ ser_u64 (sg_nonce tx)
    ++ ser_vec_u8 (sg_payload tx) ++ ser_array (sg_signature tx).

Context `{HX : Hex} `{HD : HexDecode} `{JT : JsonText}.
Context {W : Type} (server : RpcRequest -> ST W string RpcResponse).

(** [JsonRpcResponse]: [null] counts as absent. *)
Record JsonRpcResponse : Type := mkJsonRpcResponse { jr_result : option Json; jr_error : option Json }.

Definition present (v : option Json) : option Json := match v with Some JNull => None | _ => v end.
Definition read_response (v : Json) : JsonRpcResponse :=
  mkJsonRpcResponse (present (json_field v "result")) (present (json_field v "error")).

Definition send_request (id : N) (method : string) (params : list Json) : ST W string JsonRpcResponse := fun w =>
  match server (mkRpcRequest "2.0" (JNum id) method (JArr params)) w with
  | (Ok resp, w) => (Ok (read_response (response_json resp)), w)
  | (Err e, w) => (Err e, w)
  end.

(** What a method returned: an error of the server ends the command. *)
Definition post (what doing : string) (id : N) (method : string) (params : list Json) : ST W anyhow (option Json) := fun w =>
  match send_request id method params w with
  | (Err e, w) => (Err ["sending " +:+ what +:+ " request"; e]%string, w)
  | (Ok response, w) =>
      (match jr_error response with
       | Some err => Err ["RPC error " +:+ doing +:+ ": " +:+ json_to_string err]%string
       | None => Ok (jr_result response)
       end, w)
  end.

Definition fetch_nonce (pubkey_hex : string) : ST W anyhow N :=
  result ← post "get_nonce" "fetching nonce" 1 "claw_getNonce" [JStr pubkey_hex];
  mret (default 0 (result ≫= as_u64_)).

Definition submit_transaction (tx : SignedTransaction) : ST W anyhow string :=
  let tx_hex := hex_encode (serialize_transaction_for_rpc tx) in
  result ← post "submit_transaction" "submitting transaction" 2 "claw_sendTransaction" [JStr tx_hex];
  result ← try_ (some_or result "submit_transaction response missing result");
  match as_str result with
  | Some s => mret s
  | None => match json_field result "hash" ≫= as_str with
            | Some h => mret h
            | None => st_throw ["submit_transaction response: could not extract tx hash from: " +:+ json_to_string result]%string
            end
  end.

Definition confirmed (data : Json) : bool :=
  bool_decide (is_Some (json_field data "block_height"))
  || bool_decide (json_field data "status" ≫= as_str = Some "confirmed"%string).

(** One round: whatever goes wrong, the loop goes on. *)
Definition poll_once (tx_hash : string) : ST W anyhow bool := fun w =>
  match send_request 3 "claw_getTransactionByHash" [JStr tx_hash] w with
  | (Ok body, w) =>
      (Ok (match jr_error body, jr_result body with None, Some data => confirmed data | _, _ => false end), w)
  | (Err _, w) => (Ok false, w)
  end.

Fixpoint poll (attempts : nat) (max_seconds : N) (tx_hash : string) : ST W anyhow unit :=
  match attempts with
  | O => st_throw ["transaction not confirmed after " +:+ pretty max_seconds +:+ "s: " +:+ tx_hash]%string
  | S attempts => ok ← poll_once tx_hash; if (ok : bool) then mret tt else poll attempts max_seconds tx_hash
  end.

(** Every two seconds. *)
Definition poll_confirmation (tx_hash : string) (max_seconds : N) : ST W anyhow unit :=
  poll (N.to_nat (max_seconds / 2)) max_seconds tx_hash.

Record ContractInfo : Type := mkContractInfo {
  cinf_address : string;
  cinf_code_hash : string;
  cinf_creator : string;
  cinf_deployed_at : N;
}.

Definition fetch_contract_info (address_hex : string) : ST W anyhow ContractInfo :=
  result ← post "claw_getContractInfo" "fetching contract info" 10 "claw_getContractInfo" [JStr address_hex];
  result ← try_ (some_or result "claw_getContractInfo returned no result");
  if match result with JNull => true | _ => false end then st_throw ["contract not found at address " +:+ address_hex]%string
  else
    code_hash ← try_ (some_or (json_field result "codeHash" ≫= as_str) "codeHash missing from response");
    mret (mkContractInfo (default address_hex (json_field result "address" ≫= as_str)) code_hash
            (default ""%string (json_field result "creator" ≫= as_str))
            (default 0 (json_field result "deployedAt" ≫= as_u64_))).

Definition fetch_contract_code (address_hex : string) : ST W anyhow bytes :=
  result ← post "claw_getContractCode" "fetching contract code" 11 "claw_getContractCode" [JStr address_hex];
  result ← try_ (some_or result "claw_getContractCode returned no result");
  if match result with JNull => true | _ => false end then st_throw ["contract code not found at address " +:+ address_hex]%string
  else
    code_hex ← try_ (some_or (json_field result "code" ≫= as_str) "code field missing from response");
    try_ (context "invalid hex in contract code response" (because (hex_decode code_hex))).

(** ** The commands ([main.rs]) *)

(** Asks for the nonce, signs with the next one and submits. *)
Definition next_nonce (signing_key : bytes) : ST W anyhow N :=
  nonce ← with_context "fetching nonce" (fetch_nonce (hex_encode (vk_of_signing_key signing_key)));
  mret (u64_add nonce 1).

Definition submit_and_wait (signed : SignedTransaction) : ST W anyhow string :=
  tx_hash ← with_context "submitting transaction" (submit_transaction signed);
  with_context "waiting for confirmation" (poll_confirmation tx_hash 30);;
  mret tx_hash.

(** The hash and the contract address it shows. *)
Definition cmd_deploy (files : Files) (wasm_file method args_hex key_input : string) : ST W anyhow (string * string) :=
  code ← try_ (context ("reading wasm file: " +:+ wasm_file)%string (because (read_file files wasm_file)));
  init_args ← try_ (context "parsing --args" (parse_hex_or_empty args_hex));
  signing_key ← try_ (context "loading signing key" (load_signing_key files key_input));
  deploy_nonce ← next_nonce signing_key;
  let payload := encode_contract_deploy_payload code method init_args in
  let signed := build_and_sign_transaction ContractDeploy signing_key deploy_nonce payload in
  tx_hash ← submit_and_wait signed;
  let contract_addr := derive_contract_address (sg_from signed) deploy_nonce in
  mret (tx_hash, "0x" +:+ hex_encode contract_addr)%string.

Definition cmd_call (files : Files) (contract_hex method args_hex : string) (value : N) (key_input : string) : ST W anyhow string :=
  contract ← try_ (context "parsing contract address" (because (hex_decode (strip_0x contract_hex))));
  fail_if (negb (length contract =? 32)%nat) ["contract address must be 32 bytes (64 hex chars)"%string];;
  call_args ← try_ (context "parsing --args" (parse_hex_or_empty args_hex));
  signing_key ← try_ (context "loading signing key" (load_signing_key files key_input));
  call_nonce ← next_nonce signing_key;
  let payload := encode_contract_call_payload contract method call_args value in
  submit_and_wait (build_and_sign_transaction ContractCall signing_key call_nonce payload).

(** What it shows of a contract whose code is the source's. *)
Definition cmd_verify (files : Files) (cargo_build : string -> Files -> result bool string * Files)
    (contract_hex source_dir : string) : ST W anyhow ContractInfo :=
  let address := strip_0x contract_hex in
  let cargo_toml := path_join source_dir "Cargo.toml" in
  fail_if (negb (path_exists files cargo_toml)) ["no Cargo.toml found in source directory: " +:+ source_dir]%string;;
  cargo_toml_str ← try_ (context "reading source Cargo.toml" (because (read_to_string files cargo_toml)));
  pkg_name ← try_ (some_or (extract_package_name cargo_toml_str) "could not determine package name from source Cargo.toml");
  let '(status, files) := cargo_build source_dir files in
  status ← try_ (context "running cargo build in source directory" (because status));
  fail_if (negb status) ["cargo build failed for source directory: " +:+ source_dir]%string;;
  let wasm_path := path_join source_dir (wasm_path_of pkg_name) in
  fail_if (negb (path_exists files wasm_path)) ["expected wasm output not found: " +:+ wasm_path]%string;;
  wasm_bytes ← try_ (context "reading compiled wasm" (because (read_file files wasm_path)));
  let local_hash_hex := hex_encode (blake3 wasm_bytes) in
  info ← with_context "fetching contract info from chain" (fetch_contract_info address);
  fail_if (negb (String.eqb local_hash_hex (cinf_code_hash info))) ["verification failed: hash mismatch"%string];;
  mret info.

(** The text, written to a file or shown. *)
Definition cmd_disassemble (files : Files) (print_bytes : bytes -> result string string) (target : string) (output : option string)
    : ST W anyhow (string * list FileEffect) :=
  wasm_bytes ← (if path_exists files target
                then try_ (context ("reading wasm file: " +:+ target)%string (because (read_file files target)))
                else with_context "fetching contract bytecode" (fetch_contract_code (strip_0x target)));
  wat ← try_ (context "failed to disassemble Wasm to WAT" (because (print_bytes wasm_bytes)));
  mret (wat, match output with Some path => [WriteFile path wat] | None => [] end).
End transactions.
