(* ===== verification/Startup.v ===== *)
(** * Starting a node ([Chain::new] of [node/src/chain.rs])

    A node takes its state from its store, or makes the genesis.  A stored state
    that does not fit its block makes it delete the store and start over.  What
    deleting and opening a file give is a parameter; a panic counts as an error. *)

From stdpp Require Import pretty.
From S2P Require Import Prelude Interfaces Types Crypto ConsensusTypes Slashing ValidatorSet Utf8 Vm World HandlerBase Contracts Store ApplyTx Rewards Epochs Node Chain BlockLedger Genesis Agreement Sync Snapshots NodeSteps Mining Concrete ConcreteState ConcreteTx ConcreteNode.

(** A placeholder address: an index and zeros. *)
Definition is_placeholder (addr : bytes) : bool :=
  match addr with
  | b :: rest => forallb (fun b => Byte.to_N b =? 0) rest && negb (Byte.to_N b =? 0)
  | [] => false
  end.

(** Placeholders go, unless there is nothing else. *)
Definition drop_placeholders (validator_stakes : list (bytes * N)) : list (bytes * N) :=
  if existsb (fun p => negb (is_placeholder p.1)) validator_stakes
  then filter (fun p => is_placeholder p.1 = false) validator_stakes
  else validator_stakes.

(** [entry(addr).or_insert(amount)]. *)
Definition or_insert (m : gmap bytes N) (p : bytes * N) : gmap bytes N :=
  match m !! p.1 with Some _ => m | None => <[p.1 := p.2]> m end.

Section startup.
Context `{HB : Blake3} `{HE : Ed25519} `{TC : TxCodec} `{HX : Hex} `{HD : HexDecode}.
Context `{SCd : StateCodec} `{RD : Redb} `{SC : StoreCodec} `{NC : NodeCodec}.

(** ** From the store *)

Definition store_op {A} (op : ST Db StoreError A) : ST Db string A := fun db =>
  match op db with
  | (Ok a, db) => (Ok a, db)
  | (Err e, db) => (Err (store_error_to_string e), db)
  end.

(** Delegations by users are not in the snapshot but stored on their own. *)
Definition restore_delegations (db : Db) (state : WorldState) : WorldState :=
  match get_user_delegations db with
  | Ok (Some ud_bytes) =>
      match try_from_slice ud_bytes with
      | Ok ud => state <| ws_user_delegations := ud |>
      | Err _ => state
      end
  | _ => state
  end.

(** State, latest block, stakes and genesis hash; nothing when the stored state
    does not fit the block. *)
Definition load_chain (genesis_config : GenesisConfig) (height : N)
    : ST Db string (option (WorldState * Block * list (bytes * N) * bytes)) :=
  store ← st_get;
  snapshot ← map_err (get_state_snapshot store) store_error_to_string;
  state_bytes ← ok_or snapshot "snapshot must exist if blocks exist"%string;
  state ← map_err (from_snapshot_bytes state_bytes) (fun e => ("snapshot deserialization failed: " +:+ e)%string);
  let state := restore_delegations store state in
  found ← map_err (get_block height store) store_error_to_string;
  block ← ok_or found "block must exist"%string;
  if negb (bool_decide (state_root state = b_state_root block)) then mret None
  else
    first ← map_err (get_block 0 store) store_error_to_string;
    stakes ← (if bool_decide (ws_stakes state = ∅)
              then map_err (build_validator_set (gc_validators genesis_config)) id
              else mret (addr_entries (ws_stakes state)));
    mret (Some (state, block, stakes, from_option b_hash zeros32 first)).

(** ** From the genesis *)

Definition refusal (db_path : string) : string :=
  ("No existing chain data found in " +:+ db_path +:+ ". Refusing to create a new genesis on mainnet/testnet. "
   +:+ "If you intend to initialize a fresh node, run: claw-node init --network <network> && "
   +:+ "claw-node start --network <network> --allow-genesis")%string.

Definition create_chain (db_path : string) (genesis_config : GenesisConfig) (allow_genesis : bool)
    : ST Db string (WorldState * Block * list (bytes * N) * bytes) :=
  fail_if (negb allow_genesis) (refusal db_path);;
  state ← map_err (create_genesis_state genesis_config) id;
  let block := create_genesis_block state genesis_config in
  store_op (put_block block);;
  store_op (put_state_snapshot (to_vec state));;
  stakes ← map_err (build_validator_set (gc_validators genesis_config)) id;
  mret (state, block, stakes, b_hash block).

(** ** The node *)

(** The transactions of the blocks that can be read. *)
Definition count_txs (db : Db) (height : N) : N :=
  foldl (fun n h => match get_block h db with
                    | Ok (Some block) => u64_add n (N.of_nat (length (b_transactions block)))
                    | _ => n
                    end) 0 (seqN 0 (height + 1)).

Definition start_node (clock : Clock) (signing_key : bytes) (chain_id : string)
    (loaded : WorldState * Block * list (bytes * N) * bytes) (db : Db) : ChainInner Db :=
  let '(state, latest_block, validator_stakes, genesis_hash) := loaded in
  let state := state <| ws_stakes ::= fun m => foldl or_insert m (drop_placeholders validator_stakes) |> in
  let slashing := slashing_of_state state in
  let boundary := is_epoch_boundary (b_height latest_block) in
  let inner :=
    mkChainInner Db
      (if boundary then state <| ws_validator_uptime := ∅ |> <| ws_validator_missed_slots := ∅ |>
                              <| ws_validator_assigned_slots := ∅ |> else state)
      db [] signing_key (vk_of_signing_key signing_key) latest_block (with_initial_stakes (ws_stakes state))
      genesis_hash chain_id (if boundary then reset_epoch_counters slashing else slashing) ∅ [] false []
      (ck_instant clock) (count_txs db (b_height latest_block)) 0 [] ∅ in
  inner <| ch_offline_validators := stored_offline_validators inner |>.

(** [remove_file] and the store that is opened next. *)
Context (remove_file : result unit string) (open_fresh : result Db StoreError).

Definition not_deleted (db_path : string) (height : N) (e : string) : string :=
  ("State snapshot mismatch at height " +:+ pretty height +:+ " and auto-delete failed: " +:+ e
   +:+ ". Manually delete " +:+ db_path +:+ " and restart.")%string.

Fixpoint chain_new (fuel : nat) (clock : Clock) (db_path : string) (signing_key : bytes)
    (genesis_config : GenesisConfig) (allow_genesis : bool) (chain_id : string) (store : Db)
    : option (result (ChainInner Db) string) :=
  match fuel with
  | O => None
  | S fuel =>
      match get_latest_height store with
      | Err e => Some (Err (store_error_to_string e))
      | Ok None =>
          Some (match create_chain db_path genesis_config allow_genesis store with
                | (Ok made, db) => Ok (start_node clock signing_key chain_id made db)
                | (Err e, _) => Err e
                end)
      | Ok (Some height) =>
          match load_chain genesis_config height store with
          | (Err e, _) => Some (Err e)
          | (Ok (Some loaded), db) => Some (Ok (start_node clock signing_key chain_id loaded db))
          | (Ok None, _) =>
              match remove_file, open_fresh with
              | Err e, _ => Some (Err (not_deleted db_path height e))
              | Ok _, Err e => Some (Err (store_error_to_string e))
              | Ok _, Ok store =>
                  chain_new fuel clock db_path signing_key genesis_config allow_genesis chain_id store
              end
          end
      end
  end.
End startup.

(** ** What a snapshot keeps

    The fields of the state that the encoding leaves out. *)
Definition persisted (w : WorldState) : WorldState :=
  w <| ws_epoch_checkins := ∅ |> <| ws_receipts := ∅ |> <| ws_user_delegations := ∅ |>.

Section facts.
Context `{HB : Blake3} `{HE : Ed25519} `{TC : TxCodec} `{HX : Hex} `{HD : HexDecode} `{VM : VmEngine} `{VS : VmSchedule}.
Context `{SCd : StateCodec} `{RD : Redb} `{!RedbLaws} `{SC : StoreCodec} `{NC : NodeCodec}.
Implicit Types (inner : ChainInner Db) (w : WorldState).

(** The state root does not read what a snapshot leaves out. *)
Lemma entries_persisted w : state_entries (persisted w) = state_entries w.
Proof.
  unfold state_entries.
  assert (account_entries (persisted w) = account_entries w) as -> by reflexivity.
  assert (reputation_entry (persisted w) = reputation_entry w) as -> by reflexivity.
  assert (contract_entries (persisted w) = contract_entries w) as -> by reflexivity.
  assert (stake_entries (persisted w) = stake_entries w) as -> by reflexivity.
  assert (activity_entries (persisted w) = activity_entries w) as -> by reflexivity.
  assert (delegation_entries (persisted w) = delegation_entries w) as -> by reflexivity.
  assert (slashing_entries (persisted w) = slashing_entries w) as -> by reflexivity.
  assert (miner_entries (persisted w) = miner_entries w) as -> by reflexivity.
  reflexivity.
Qed.

Lemma root_persisted w : state_root (persisted w) = state_root w.
Proof. unfold state_root. by rewrite entries_persisted. Qed.

Lemma root_of_persisted w w' : persisted w = persisted w' -> state_root w = state_root w'.
Proof. intros E. rewrite <- (root_persisted w), <- (root_persisted w'). by rewrite E. Qed.

(** *** Reads after the best-effort writes *)
Lemma put_meta_reads key data db t k :
  t <> META \/ k <> key -> read_table (put_meta key data db).2 t k = read_table db t k.
Proof.
  intros Hne. unfold put_meta, write_txn, table_insert, st_modify.
  destruct (redb_commit db _) as [db'|] eqn:Hc; [| done]. simpl. rewrite (read_commit _ _ _ _ _ Hc).
  rewrite last_write_other; [done |]. destruct Hne; [left | right]; congruence.
Qed.

Lemma put_receipts_reads receipts db t k :
  t <> RECEIPTS -> read_table (put_receipts receipts db).2 t k = read_table db t k.
Proof.
  intros Hne. unfold put_receipts. case_bool_decide; [done |]. unfold write_txn.
  destruct (for_each _ receipts []) as [[u|e] ws] eqn:Hrun; [| done].
  destruct (redb_commit db ws) as [db'|] eqn:Hc; [| done]. simpl. rewrite (read_commit _ _ _ _ _ Hc).
  assert (writes_only [RECEIPTS] (for_each (fun p => table_insert RECEIPTS p.1 (to_vec p.2)) receipts)) as Hw
    by (apply writes_only_for_each; intros p; apply writes_only_insert; left).
  destruct (Hw _ _ _ Hrun) as (extra & -> & He).
  by rewrite (last_write_app [] extra t k [RECEIPTS]) by (done || by intros ?%list_elem_of_singleton).
Qed.

Definition kept_read (t : Table) (k : bytes) : Prop :=
  t <> RECEIPTS /\ (t <> META \/ (k <> lit "user_delegations" /\ k <> lit "offline_validators")).

Lemma best_effort_store op inner : ch_store (store_best_effort op inner) = (op (ch_store inner)).2.
Proof. reflexivity. Qed.

Lemma rotate_store height inner : exists x y,
  ch_store (rotate_epoch height inner)
  = (put_meta (lit "offline_validators") x (put_meta (lit "user_delegations") y (ch_store inner)).2).2.
Proof. unfold rotate_epoch. cbv zeta. rewrite !best_effort_store. do 2 eexists. reflexivity. Qed.

Lemma after_stored_reads block inner t k :
  kept_read t k -> read_table (ch_store (after_stored block inner)) t k = read_table (ch_store inner) t k.
Proof.
  intros [Hr Hm]. unfold after_stored. cbv zeta. set (inner1 := persist_receipts block inner).
  assert (read_table (ch_store inner1) t k = read_table (ch_store inner) t k) as H1.
  { unfold inner1, persist_receipts. case_bool_decide; [done |]. rewrite best_effort_store. by apply put_receipts_reads. }
  rewrite <- H1. clearbody inner1. destruct (is_epoch_boundary (b_height block)); [| done].
  destruct (rotate_store (b_height block) (inner1 <| ch_total_tx_count ::= fun n => u64_add n (N.of_nat (length (b_transactions block))) |>))
    as (x & y & ->).
  by rewrite !put_meta_reads by tauto.
Qed.

Lemma stored_survives block inner :
  let inner' := after_stored block inner in
  (forall h, get_block h (ch_store inner') = get_block h (ch_store inner))
  /\ get_latest_height (ch_store inner') = get_latest_height (ch_store inner)
  /\ get_state_snapshot (ch_store inner') = get_state_snapshot (ch_store inner).
Proof.
  cbv zeta. split_and!; [intros h; unfold get_block | unfold get_latest_height | unfold get_state_snapshot];
    rewrite after_stored_reads; try done; (split; [done |]); first [by left | by right].
Qed.

(** *** Stakes *)
Lemma or_insert_present (l : list (bytes * N)) m :
  (forall p, p ∈ l -> is_Some (m !! p.1)) -> foldl or_insert m l = m.
Proof.
  induction l as [| p l IH]; intros Hl; [done |]. cbn [foldl]. unfold or_insert at 2.
  destruct (Hl p ltac:(by left)) as [x ->]. apply IH. intros q Hq. apply Hl. by right.
Qed.

Lemma elem_of_kept p l : p ∈ drop_placeholders l -> p ∈ l.
Proof. unfold drop_placeholders. destruct (existsb _ l); [| done]. by intros [_ ?]%list_elem_of_filter. Qed.

(** The stakes of the ledger are never changed by their own entries: filtering
    placeholders out of them has no effect. *)
Lemma own_stakes_kept (m : gmap bytes N) : foldl or_insert m (drop_placeholders (addr_entries m)) = m.
Proof. apply or_insert_present. intros [a x] Hp%elem_of_kept%elem_of_sorted_entries. simpl. by exists x. Qed.

(** *** Jail terms *)
Lemma foldl_delete (l : list bytes) (m : gmap bytes N) a :
  foldl (fun m a => delete a m) m l !! a = if decide (a ∈ l) then None else m !! a.
Proof.
  revert m. induction l as [| b l IH]; intros m; [done |]. cbn [foldl]. rewrite IH.
  destruct (decide (a ∈ l)) as [Hin | Hnin]; [by rewrite decide_True by (by right) |].
  destruct (decide (a = b)) as [-> | Hne]; [rewrite lookup_delete_eq, decide_True by (by left); done |].
  rewrite lookup_delete_ne, decide_False by (done || by intros [?|?]%elem_of_cons). done.
Qed.

Lemma unjailed_lookup height sl a :
  sl_jailed (unjail_expired height sl).2 !! a
  = (sl_jailed sl !! a) ≫= fun jail_until => if jail_until <=? height then None else Some jail_until.
Proof.
  unfold unjail_expired. cbn [snd]. upd. rewrite foldl_delete.
  destruct (decide (a ∈ _)) as [Hin | Hnin].
  - apply list_elem_of_fmap_1 in Hin as ([b u] & -> & [Hu Hp]%list_elem_of_filter). apply elem_of_sorted_entries in Hp.
    simpl in *. rewrite Hp. simpl. by rewrite (proj2 (N.leb_le _ _)).
  - destruct (sl_jailed sl !! a) as [u|] eqn:E; [| done]. simpl. destruct (N.leb_spec u height) as [Hle |]; [| done].
    exfalso. apply Hnin. apply (list_elem_of_fmap_2' fst _ (a, u)); [| done]. apply list_elem_of_filter.
    split; [done | by apply elem_of_sorted_entries].
Qed.

Lemma no_term_ended height sl :
  (forall a u, sl_jailed sl !! a = Some u -> height < u) -> sl_jailed (unjail_expired height sl).2 = sl_jailed sl.
Proof.
  intros Hall. apply map_eq. intros a. rewrite unjailed_lookup. destruct (sl_jailed sl !! a) as [u|] eqn:E; [| done].
  simpl. by rewrite (proj2 (N.leb_gt _ _)) by (by eapply Hall).
Qed.

Lemma restore_only_delegations (db : Db) w : exists m, restore_delegations db w = w <| ws_user_delegations := m |>.
Proof.
  assert (w = w <| ws_user_delegations := ws_user_delegations w |>) as Hw by (by destruct w).
  unfold restore_delegations. destruct (get_user_delegations db) as [[bs|]|]; [| by eexists ..].
  destruct (try_from_slice bs); by eexists.
Qed.

(** A store whose snapshot fits its latest block is loaded as it is. *)
Lemma load_stored config height (db : Db) snapshot w block g :
  get_state_snapshot db = Ok (Some snapshot) -> from_snapshot_bytes snapshot = Ok w ->
  get_block height db = Ok (Some block) -> get_block 0 db = Ok (Some g) ->
  state_root w = b_state_root block -> ws_stakes w <> ∅ ->
  exists m, load_chain config height db
    = (Ok (Some (w <| ws_user_delegations := m |>, block, addr_entries (ws_stakes w), b_hash g)), db).
Proof.
  intros Hs Hw Hb Hg Hr Hne. destruct (restore_only_delegations db w) as [m Hm]. exists m.
  unfold load_chain. rewrite bind_get, bind_map_err, Hs, bind_ok_or, bind_map_err, Hw, bind_map_err, Hb, bind_ok_or, Hm.
  assert (state_root (w <| ws_user_delegations := m |>) = b_state_root block) as Hr'
    by (rewrite <- Hr; apply root_of_persisted; reflexivity).
  rewrite bool_decide_eq_true_2 by done. cbn [negb]. rewrite bind_map_err, Hg.
  assert (ws_stakes (w <| ws_user_delegations := m |>) = ws_stakes w) as -> by reflexivity.
  rewrite bool_decide_eq_false_2 by done. reflexivity.
Qed.

(** ** Restarting *)

(** A node that has just stored a block and its state, before it goes on; both
    encodings are read back, the state's without the fields it leaves out. *)
Record just_stored (block : Block) w g inner : Prop := {
  js_height : b_height block < TWO64;
  js_block_codec : try_from_slice (to_vec block) = Ok block;
  js_state_codec : try_from_slice (to_vec w) = Ok (persisted w);
  js_root : state_root w = b_state_root block;
  js_stakes : ws_stakes w <> ∅;
  js_state : ch_state inner = w;
  js_slashing : sync_slashing (ch_slashing inner) w = w;
  js_stored : exists db, put_block_and_snapshot block (to_vec w) db = (Ok tt, ch_store inner);
  js_genesis : get_block 0 (ch_store inner) = Ok (Some g);
}.

Lemma sync_own w : sync_slashing (slashing_of_state w) w = w.
Proof. by destruct w. Qed.

Lemma rotated_state block w sl vs offline :
  sync_slashing sl w = w ->
  (rotated block (w, sl, vs, offline)).1.1.1
  = if is_epoch_boundary (b_height block) then
      w <| ws_validator_uptime := ∅ |> <| ws_validator_missed_slots := ∅ |> <| ws_validator_assigned_slots := ∅ |>
        <| ws_jailed_validators := sl_jailed (unjail_expired (b_height block) sl).2 |>
    else w.
Proof.
  intros Hsync. unfold rotated. destruct (is_epoch_boundary _); [| done].
  assert (sl_processed_evidence sl = ws_processed_evidence w) as Hp by (by rewrite <- Hsync).
  unfold sync_slashing. cbn [fst]. destruct w. unfold unjail_expired, reset_epoch_counters in *. simpl in *. subst.
  reflexivity.
Qed.

Lemma slashing_stored sl w : sync_slashing sl w = w -> slashing_of_state w = sl <| sl_evidence := [] |>.
Proof. intros <-. destruct sl. reflexivity. Qed.

Lemma rotated_slashing block w sl vs offline :
  (rotated block (w, sl, vs, offline)).1.1.2
  = if is_epoch_boundary (b_height block) then reset_epoch_counters (unjail_expired (b_height block) sl).2 else sl.
Proof. unfold rotated. by destruct (is_epoch_boundary _). Qed.

(** What a start makes of a loaded state. *)
Lemma started_from clock sk cid w block stakes h (db : Db) :
  foldl or_insert (ws_stakes w) (drop_placeholders stakes) = ws_stakes w ->
  let inner := start_node clock sk cid (w, block, stakes, h) db in
  ch_state inner
    = (if is_epoch_boundary (b_height block) then
         w <| ws_validator_uptime := ∅ |> <| ws_validator_missed_slots := ∅ |> <| ws_validator_assigned_slots := ∅ |>
       else w)
  /\ ch_slashing inner
    = (if is_epoch_boundary (b_height block) then reset_epoch_counters (slashing_of_state w) else slashing_of_state w)
  /\ ch_validator_set inner = with_initial_stakes (ws_stakes w)
  /\ ch_latest_block inner = block /\ ch_genesis_hash inner = h.
Proof.
  intros Hkeep. assert (w <| ws_stakes ::= fun m => foldl or_insert m (drop_placeholders stakes) |> = w) as Hw.
  { destruct w. unfold update, upd_ws_stakes. cbn [World.ws_stakes] in *. by rewrite Hkeep. }
  unfold start_node. rewrite Hw. by split_and!.
Qed.

Definition started clock sk cid w block h db :=
  started_from clock sk cid w block (addr_entries (ws_stakes w)) h db (own_stakes_kept (ws_stakes w)).

Context (remove_file : result unit string) (open_fresh : result Db StoreError).

Lemma restart_run block w g inner fuel clock path sk config allow cid :
  just_stored block w g inner ->
  let inner2 := after_stored block inner in
  exists m, chain_new remove_file open_fresh (S fuel) clock path sk config allow cid (ch_store inner2)
    = Some (Ok (start_node clock sk cid ((persisted w) <| ws_user_delegations := m |>, block, addr_entries (ws_stakes w), b_hash g)
                 (ch_store inner2))).
Proof.
  intros [Hh Hbc Hwc Hr Hne Hst Hsync [db Hput] Hg] inner2. destruct (stored_survives block inner) as (S1 & S2 & S3).
  fold inner2 in S1, S2, S3.
  pose proof (put_stored block (to_vec w) db Hh Hbc) as Hp. rewrite Hput in Hp. destruct Hp as [P1 P2 P3 _ _ _].
  destruct (load_stored config (b_height block) (ch_store inner2) (to_vec w) (persisted w) block g) as [m Hm].
  - by rewrite S3.
  - unfold from_snapshot_bytes. by rewrite Hwc.
  - by rewrite S1.
  - by rewrite S1.
  - by rewrite root_persisted.
  - done.
  - exists m. unfold chain_new. rewrite S2, P2, Hm. reflexivity.
Qed.


Lemma Some_Ok_inj {A E} (a b : A) : Some (Ok a : result A E) = Some (Ok b) -> a = b.
Proof. congruence. Qed.

(** What a restart does not take up: at an epoch boundary the running node
    has released the validators whose jail term has ended and dropped those still
    jailed from its validators, while the node that restarts keeps the ended terms
    on record and has every staked validator active, jailed or not, so the two
    disagree on the state and on who proposes. *)
Theorem restart_forgets_rotation block w g inner fuel clock path sk config allow cid restarted a jail_until :
  just_stored block w g inner -> is_epoch_boundary (b_height block) = true ->
  chain_new remove_file open_fresh (S fuel) clock path sk config allow cid (ch_store (after_stored block inner))
    = Some (Ok restarted) ->
  ws_jailed_validators w !! a = Some jail_until ->
  ws_jailed_validators (ch_state restarted) !! a = Some jail_until
  /\ (jail_until <= b_height block -> ws_jailed_validators (ch_state (after_stored block inner)) !! a = None)
  /\ (b_height block < jail_until ->
      forall n b m, ws_stakes w !! a = Some n -> MIN_STAKE <= n -> (size (ws_stakes w) <= MAX_VALIDATORS)%nat ->
        ws_stakes w !! b = Some m -> MIN_STAKE <= m -> ws_jailed_validators w !! b = None ->
        is_active (ch_validator_set restarted) a = true
        /\ is_active (ch_validator_set (after_stored block inner)) a = false).
Proof.
  intros Hjs Hbd Hnew Ha. destruct (restart_run block w g inner fuel clock path sk config allow cid Hjs) as [m Hrun].
  rewrite Hrun in Hnew. apply Some_Ok_inj in Hnew. subst restarted.
  destruct (started clock sk cid ((persisted w) <| ws_user_delegations := m |>) block (b_hash g) (ch_store (after_stored block inner)))
    as (T1 & _ & T3 & _).
  change (addr_entries (ws_stakes ((persisted w) <| ws_user_delegations := m |>))) with (addr_entries (ws_stakes w)) in T1, T3.
  rewrite T1, T3, Hbd. destruct Hjs as [_ _ _ _ _ Hst Hsync _ _].
  assert (ws_jailed_validators w = sl_jailed (ch_slashing inner)) as Hj by (by rewrite <- Hsync).
  pose proof (after_stored_ledger block inner) as Hled. unfold ledger_view in Hled. rewrite Hst in Hled.
  pose proof (rotated_state block w (ch_slashing inner) (ch_validator_set inner) (ch_offline_validators inner) Hsync) as Hrot.
  rewrite <- Hled, Hbd in Hrot. cbn [fst] in Hrot. split; [exact Ha |]. split.
  - intros Hle. rewrite Hrot. change (sl_jailed (unjail_expired (b_height block) (ch_slashing inner)).2 !! a = None).
    rewrite unjailed_lookup, <- Hj, Ha. simpl. by rewrite (proj2 (N.leb_le _ _)).
  - intros Hlt n b mb Hn Hmin Hsz Hb Hbm Hbj. split.
    + change (ws_stakes ((persisted w) <| ws_user_delegations := m |>)) with (ws_stakes w). unfold with_initial_stakes.
      apply (candidate_active _ _ _ _ _ _ n Hn); [| exact Hsz]. unfold eligible. cbn [fst snd]. rewrite andb_true_r. by apply N.leb_le.
    + pose proof (f_equal (fun x => x.1.2) Hled) as Hvs. cbn [fst snd] in Hvs. rewrite Hvs. unfold rotated. rewrite Hbd.
      cbn [fst snd]. eapply jailed_inactive; [| exact Hb |]; unfold eligible, is_jailed; cbn [fst snd].
      * rewrite unjailed_lookup, <- Hj, Ha. simpl. rewrite (proj2 (N.leb_gt _ _)) by done. by apply N.ltb_lt.
      * rewrite unjailed_lookup, <- Hj, Hbj. simpl. rewrite andb_true_r. by apply N.leb_le.
Qed.

(** ** What the encoding leaves out *)
Lemma heartbeat_accepted tx w w' :
  HEARTBEAT_V2_HEIGHT <= ws_block_height w -> handle_miner_heartbeat tx w = (Ok tt, w') ->
  is_ok (try_from_slice (A:=MinerHeartbeatPayload) (tx_payload tx)) = true
  /\ ws_epoch_checkins w' !! tx_from tx = Some true
  /\ exists m, ws_miners w' !! tx_from tx = Some m /\ mi_last_heartbeat m = ws_block_height w.
Proof.
  intros Hh Hrun. unfold handle_miner_heartbeat, decode, decode_bytes in Hrun. st_inv.
  destruct (N.leb_spec HEARTBEAT_V2_HEIGHT (ws_block_height w)); [| lia]. unfold heartbeat_v2 in Hrun. st_inv. split_and!.
  - match goal with H : try_from_slice _ = Ok _ |- _ => by rewrite H end.
  - upd. by rewrite lookup_insert_eq.
  - match goal with H : ws_miners w !! _ = Some ?m |- _ => exists (m <| mi_last_heartbeat := ws_block_height w |>); rename H into Hm end.
    upd. by rewrite lookup_alter_eq, Hm.
Qed.

(** The cache of check-ins is not safe to lose: a miner that has checked in
    in one epoch is refused by a node that still has the cache when it checks in in
    the first block of the next epoch, and accepted by a node that restarted in
    between, so the two compute different states. *)
Theorem checkin_cache_matters tx w1 w2 height :
  handle_miner_heartbeat tx w1 = (Ok tt, w2) -> HEARTBEAT_V2_HEIGHT <= ws_block_height w1 ->
  ws_block_height w1 / MINER_EPOCH_LENGTH < height / MINER_EPOCH_LENGTH -> height < CHECKIN_V3_HEIGHT ->
  let next := w2 <| ws_block_height := height |> in
  (exists allowed, (handle_miner_heartbeat tx next).1 = Err (HeartbeatTooEarly allowed height))
  /\ (handle_miner_heartbeat tx (persisted next)).1 = Ok tt
  /\ state_root (persisted next) = state_root next.
Proof.
  intros Hrun Hv2 Hep Hv3 next. destruct (heartbeat_accepted tx w1 w2 Hv2 Hrun) as (Hp & Hc & m & Hm & Hlast).
  destruct (try_from_slice (A:=MinerHeartbeatPayload) (tx_payload tx)) as [payload|] eqn:Hdec; [| done].
  assert (HEARTBEAT_V2_HEIGHT <= height) as Hv2'.
  { destruct (N.le_gt_cases (ws_block_height w1) height) as [|Hgt]; [lia |].
    pose proof (N.div_le_mono height (ws_block_height w1) MINER_EPOCH_LENGTH ltac:(done) ltac:(lia)). lia. }
  assert (forall w, ws_block_height w = height -> ws_miners w !! tx_from tx = Some m ->
    (handle_miner_heartbeat tx w).1 = (if contains_key (ws_epoch_checkins w) (tx_from tx)
      then Err (HeartbeatTooEarly (u64_mul (u64_add (height / MINER_EPOCH_LENGTH) 1) MINER_EPOCH_LENGTH) height)
      else Ok tt)) as Hgen.
  { intros w Hh Hw. unfold handle_miner_heartbeat, decode, decode_bytes.
    rewrite bind_gets, Hh, bind_fail_if, (proj2 (N.leb_gt _ _)) by done.
    rewrite bind_map_err, Hdec, bind_gets, Hw, bind_ok_or, (proj2 (N.leb_le _ _)) by done.
    unfold heartbeat_v2. rewrite bind_gets, Hh, bind_fail_if, Hlast, (proj2 (N.leb_gt _ _)) by done.
    rewrite bind_gets, bind_fail_if. by destruct (contains_key _ _). }
  split_and!.
  - rewrite Hgen by done. assert (contains_key (ws_epoch_checkins next) (tx_from tx) = true) as ->; [| by eexists].
    apply contains_key_true. by exists true.
  - rewrite Hgen by done. assert (contains_key (ws_epoch_checkins (persisted next)) (tx_from tx) = false) as ->; [| done].
    by apply contains_key_false.
  - apply root_persisted.
Qed.

(** ** Starting fresh *)
Lemma built_stakes l stakes :
  build_validator_set l = Ok stakes -> forall p, p ∈ stakes -> exists v, v ∈ l /\ p = (addr_of (gv_address v), units (gv_stake v)).
Proof.
  revert stakes. induction l as [| v l IH]; intros stakes Hl p Hp; simpl in Hl.
  { injection Hl as <-. by apply not_elem_of_nil in Hp. }
  destruct (parse_address (gv_address v) "validator") as [a|] eqn:Ha; [| done].
  destruct (parse_balance (gv_stake v) "validator stake") as [n|] eqn:Hn; [| done].
  destruct (build_validator_set l) as [rest|]; [| done]. injection Hl as <-.
  destruct (parsed _ _ _ _ _ _ Ha Hn) as [Ha' Hn']. rewrite Ha' in Ha. rewrite Hn' in Hn. injection Ha as <-. injection Hn as <-.
  apply elem_of_cons in Hp as [-> | Hp]; [exists v; split; [by left | done] |].
  destruct (IH rest eq_refl p Hp) as (v' & Hv' & ->). exists v'. split; [by right | done].
Qed.

Lemma store_op_Ok {A} (op : ST Db StoreError A) db a db' : store_op op db = (Ok a, db') -> op db = (Ok a, db').
Proof. unfold store_op. by destruct (op db) as [[|] ?]; intros [= <- <-]. Qed.

Lemma create_chain_Ok path config allow db made db' :
  create_chain path config allow db = (Ok made, db') ->
  exists w stakes db1, create_genesis_state config = Ok w /\ build_validator_set (gc_validators config) = Ok stakes
    /\ allow = true /\ made = (w, create_genesis_block w config, stakes, b_hash (create_genesis_block w config))
    /\ put_block (create_genesis_block w config) db = (Ok tt, db1) /\ put_state_snapshot (to_vec w) db1 = (Ok tt, db').
Proof.
  unfold create_chain. intros Hrun. rewrite bind_fail_if in Hrun. destruct allow; [| done]. cbn [negb] in Hrun.
  rewrite bind_map_err in Hrun. destruct (create_genesis_state config) as [w|] eqn:Hw; [| done].
  cbv zeta in Hrun. apply bind_Ok in Hrun as ([] & db1 & Hp%store_op_Ok & Hrun).
  apply bind_Ok in Hrun as ([] & db2 & Hs%store_op_Ok & Hrun). rewrite bind_map_err in Hrun.
  destruct (build_validator_set _) as [stakes|] eqn:Hst; [| done]. injection Hrun as <- <-.
  exists w, stakes, db1. by split_and!.
Qed.

Lemma initial_weights (stakes : gmap bytes N) :
  map_total stakes <= CLAW_TOTAL_SUPPLY ->
  lsum av_weight (vs_active (with_initial_stakes stakes)) < TWO64
  /\ wc_stake_bps (vs_weight_config (with_initial_stakes stakes)) + wc_score_bps (vs_weight_config (with_initial_stakes stakes)) <= 10000.
Proof.
  intros Hs. split; [| vm_compute; discriminate]. unfold with_initial_stakes.
  destruct (active_weights_bounds stakes [] None 0 ValidatorSet_new) as (_ & _ & Hb).
  - unfold CLAW_TOTAL_SUPPLY in Hs. lia.
  - vm_compute. discriminate.
  - eapply N.le_lt_trans; [exact Hb | vm_compute; reflexivity].
Qed.

(** A fresh chain is sound and stays so: a node that starts on an empty store
    from a validated configuration with distinct validators holds a sound ledger
    at height 0 with exactly the total supply, every node state it can run to is
    sound and has at most that supply, and the store it leaves holds its genesis. *)
Theorem fresh_node_sound `{KE : KeyErrors} fuel clock path sk config allow cid (store : Db) inner :
  get_latest_height store = Ok None -> validate config = Ok tt ->
  NoDup ((fun v => addr_of (gv_address v)) <$> gc_validators config) ->
  chain_new remove_file open_fresh (S fuel) clock path sk config allow cid store = Some (Ok inner) ->
  b_height (ch_latest_block inner) = 0 /\ supply (ch_state inner) = CLAW_TOTAL_SUPPLY
  /\ ch_genesis_hash inner = b_hash (ch_latest_block inner)
  /\ get_state_snapshot (ch_store inner) = Ok (Some (to_vec (ch_state inner)))
  /\ forall later, rtc chain_step inner later ->
       chain_sound later /\ supply (ch_state later) <= CLAW_TOTAL_SUPPLY.
Proof.
  intros Hempty Hval%validate_checked Hnd Hnew. cbn [chain_new] in Hnew. rewrite Hempty in Hnew.
  destruct (create_chain path config allow store) as [[made|] db] eqn:Hc; [| done]. apply Some_Ok_inj in Hnew. subst inner.
  apply create_chain_Ok in Hc as (w & stakes & db1 & Hw & Hst & _ & -> & _ & Hput).
  destruct (genesis_made config Hval) as [(v & _ & E) | (b & E & Ht)]; rewrite E in Hw; [done |].
  assert (w = default_WorldState <| ws_balances := b |> <| ws_stakes := with_stakes (gc_validators config) ∅ |>) as Hw'
    by congruence. clear Hw E.
  assert (map_total (with_stakes (gc_validators config) ∅) = lsum (fun v => units (gv_stake v)) (gc_validators config)) as Hwt.
  { rewrite with_stakes_total, msum_empty; [lia | done | intros; apply lookup_empty]. }
  assert (supply w = CLAW_TOTAL_SUPPLY) as Hs.
  { subst w. change (map_total b + map_total (with_stakes (gc_validators config) ∅) + 0 + (0 + 0) = CLAW_TOTAL_SUPPLY). lia. }
  assert (ws_stakes w = with_stakes (gc_validators config) ∅) as Hws by (by subst w).
  assert (foldl or_insert (ws_stakes w) (drop_placeholders stakes) = ws_stakes w) as Hkeep.
  { apply or_insert_present. intros p Hp%elem_of_kept. destruct (built_stakes _ _ Hst p Hp) as (v & Hv & ->). rewrite Hws.
    exists (units (gv_stake v)). apply with_stakes_lookup; [done |]. left. by exists v. }
  set (block := create_genesis_block w config) in *.
  destruct (started_from clock sk cid w block stakes (b_hash block) db Hkeep) as (T1 & _ & T3 & T4 & T5).
  set (inner := start_node clock sk cid _ db) in *. change (is_epoch_boundary (b_height block)) with false in T1. cbv iota in T1.
  assert (ch_store inner = db) as Hdb by reflexivity. clearbody inner.
  assert (chain_sound inner) as Hcs.
  { assert (map_total (ws_stakes w) <= CLAW_TOTAL_SUPPLY) as Hle by (rewrite Hws; lia).
    destruct (initial_weights (ws_stakes w) Hle) as [Hwt1 Hwt2]. constructor; rewrite ?T3; [| exact Hwt1 | exact Hwt2].
    rewrite T1, T4. change (b_height block) with 0. constructor; [by rewrite Hs | | |]; subst w; apply map_Forall_empty. }
  rewrite T1, T4, T5, Hdb. split_and!; [done | done | done | |].
  - unfold put_state_snapshot in Hput. unfold get_state_snapshot, put_meta, write_txn, table_insert, st_modify in *.
    destruct (redb_commit db1 _) as [db'|] eqn:Hcm; [| done]. injection Hput as <-.
    by rewrite (read_commit _ _ _ _ _ Hcm), last_write_here.
  - intros later Hrtc. destruct (reachable_run _ _ Hrtc Hcs) as (H1 & _ & H3). rewrite T1, Hs in H3. by split.
Qed.

(** ** Deleting a chain *)

(** What opening a store that was just deleted gives. *)
Definition opens_empty : Prop := forall db, open_fresh = Ok db -> get_latest_height db = Ok None.

(** Starting ends: whatever the store holds, two rounds are enough, since a
    store that was deleted is empty when it is opened again. *)
Theorem start_terminates clock path sk config allow cid (store : Db) :
  opens_empty -> exists r, forall extra,
    chain_new remove_file open_fresh (2 + extra) clock path sk config allow cid store = Some r.
Proof.
  intros Hempty. change (2 + ?e)%nat with (S (S e)). cbn [chain_new].
  destruct (get_latest_height store) as [[height|]|]; [| by eexists ..].
  destruct (load_chain config height store) as [[[loaded|]|] db]; [by eexists | | by eexists].
  destruct remove_file; [| by eexists]. destruct open_fresh as [fresh|] eqn:Hf; [| by eexists].
  rewrite (Hempty fresh Hf). by eexists.
Qed.

(** One bad root deletes the chain: a node whose stored state does not give the
    root of its latest block removes the whole store, blocks included; then it
    starts over from the genesis where that is allowed, and where it is not (as on
    the mainnet) it refuses to start at all. *)
Theorem mismatch_deletes_chain extra clock path sk config allow cid (store fresh : Db) height snapshot w block :
  get_latest_height store = Ok (Some height) -> get_state_snapshot store = Ok (Some snapshot) ->
  from_snapshot_bytes snapshot = Ok w -> get_block height store = Ok (Some block) -> state_root w <> b_state_root block ->
  remove_file = Ok tt -> open_fresh = Ok fresh -> opens_empty ->
  chain_new remove_file open_fresh (2 + extra) clock path sk config allow cid store
  = Some (if allow then match create_chain path config true fresh with
                        | (Ok made, db) => Ok (start_node clock sk cid made db)
                        | (Err e, _) => Err e
                        end
          else Err (refusal path)).
Proof.
  intros Hh Hs Hw Hb Hr Hrm Hop Hempty. change (2 + extra)%nat with (S (S extra)). cbn [chain_new]. rewrite Hh.
  destruct (restore_only_delegations store w) as [m Hm].
  assert (load_chain config height store = (Ok None, store)) as ->.
  { unfold load_chain. rewrite bind_get, bind_map_err, Hs, bind_ok_or, bind_map_err, Hw, bind_map_err, Hb, bind_ok_or, Hm.
    assert (state_root (w <| ws_user_delegations := m |>) = state_root w) as -> by (apply root_of_persisted; reflexivity).
    by rewrite bool_decide_eq_false_2. }
  rewrite Hrm, Hop, (Hempty fresh Hop). by destruct allow.
Qed.
End facts.

(** ** Witnesses *)

#[local] Existing Instance toy_blake3.
#[local] Existing Instance toy_ed25519.
#[local] Existing Instance toy_tx_codec.
#[local] Existing Instance toy_redb.
#[local] Existing Instance plain_hex.
#[local] Existing Instance plain_hex_decode.
#[local] Existing Instance toy_vm.
#[local] Existing Instance toy_schedule.
#[local] Existing Instance toy_codec.
#[local] Existing Instance toy_key_errors.

(** The state of [toy_jail] in block 900, where its jail term ends. *)
Definition toy_boundary_block : Block := mkBlock 900 zeros32 1000 toy_validator [] (state_root toy_jail) [x02] [] [] [].

(** Encodings that read that state and block back. *)
Definition boot_store_codec : StoreCodec := {|
  codec_block := {| to_vec b := le64 (b_height b);
                    try_from_slice bs := Ok (if le_value bs =? 900 then toy_boundary_block else toy_genesis 0) |};
  codec_receipt := {| to_vec _ := []; try_from_slice _ := Err "unused"%string |};
  codec_entries := {| to_vec := enc_entries; try_from_slice bs := Ok (dec_entries (length bs) bs) |};
  codec_attest := toy_decoder (fun _ => None);
|}.
Definition boot_codec : NodeCodec := {|
  codec_world := {| to_vec _ := lit "state"; try_from_slice _ := Ok (persisted toy_jail) |};
  codec_world_v2 := toy_borsh _;
  codec_world_v1 := toy_borsh _;
  codec_delegations := toy_borsh _;
  codec_addresses := toy_borsh _;
|}.
#[local] Existing Instance boot_store_codec.
#[local] Existing Instance boot_codec.

Definition with_genesis : Db := (put_block (toy_genesis 0) empty_db).2.
Definition boot_db : Db := (put_block_and_snapshot toy_boundary_block (to_vec toy_jail) with_genesis).2.
Definition toy_stored : ChainInner Db :=
  (toy_node 0 ∅ [] ∅) <| ch_state := toy_jail |> <| ch_store := boot_db |> <| ch_slashing := slashing_of_state toy_jail |>.

Lemma toy_just_stored : just_stored toy_boundary_block toy_jail (toy_genesis 0) toy_stored.
Proof.
  constructor.
  - vm_compute. reflexivity.
  - reflexivity.
  - reflexivity.
  - reflexivity.
  - intros E. apply (f_equal size) in E. vm_compute in E. discriminate E.
  - reflexivity.
  - exact (sync_own toy_jail).
  - exists with_genesis. apply run_eq. vm_compute. reflexivity.
  - vm_compute. reflexivity.
Qed.

Definition toy_restart : option (result (ChainInner Db) string) :=
  chain_new (Ok tt) (Ok empty_db) 2 toy_clock "chain.redb" toy_secret (toy_config []) false "toy"
    (ch_store (after_stored toy_boundary_block toy_stored)).


(** Validator 12 is released by the running node and still jailed after a restart. *)
Lemma restart_forgets_rotation_witness :
  ws_jailed_validators (ch_state (after_stored toy_boundary_block toy_stored)) !! toy_addr 12 = None
  /\ exists restarted, toy_restart = Some (Ok restarted)
     /\ ws_jailed_validators (ch_state restarted) !! toy_addr 12 = Some 900.
Proof.
  pose proof toy_redb_laws as Hlaws.
  destruct (restart_run (Ok tt) (Ok empty_db) toy_boundary_block toy_jail (toy_genesis 0) toy_stored 1 toy_clock
    "chain.redb" toy_secret (toy_config []) false "toy" toy_just_stored) as (m & Hrun).
  assert (is_epoch_boundary (b_height toy_boundary_block) = true) as Hbd by (vm_compute; reflexivity).
  assert (ws_jailed_validators toy_jail !! toy_addr 12 = Some 900) as Hj by (vm_compute; reflexivity).
  destruct (restart_forgets_rotation (Ok tt) (Ok empty_db) toy_boundary_block toy_jail (toy_genesis 0) toy_stored 1 toy_clock
    "chain.redb" toy_secret (toy_config []) false "toy" _ _ _ toy_just_stored Hbd Hrun Hj) as (H1 & H2 & _).
  split; [apply H2; vm_compute; discriminate |]. eexists. split; [exact Hrun | exact H1].
Defined.

(** A miner that checks in in block 225950 and again in block 226000. *)
Definition toy_beat : Transaction := toy_tx MinerHeartbeat (toy_addr 21) 1 (zeros32 ++ le64 225950).
Definition beat_state : WorldState :=
  (toy_ledger 225950 {[ toy_addr 21 := mkMinerInfo (toy_addr 21) Online "m"%string 0 0 [x0a] true 10000 0 0 0 0 0 ]}).

Lemma checkin_cache_matters_witness :
  let next := (handle_miner_heartbeat toy_beat beat_state).2 <| ws_block_height := 226000 |> in
  (handle_miner_heartbeat toy_beat (persisted next)).1 = Ok tt /\ (handle_miner_heartbeat toy_beat next).1 <> Ok tt.
Proof.
  intros next.
  assert (handle_miner_heartbeat toy_beat beat_state = (Ok tt, (handle_miner_heartbeat toy_beat beat_state).2)) as Hrun
    by (apply run_eq; vm_compute; reflexivity).
  destruct (checkin_cache_matters toy_beat beat_state _ 226000 Hrun) as ((allowed & H1) & H2 & _).
  - vm_compute. discriminate.
  - vm_compute. reflexivity.
  - vm_compute. reflexivity.
  - split; [exact H2 |]. fold next in H1. rewrite H1. discriminate.
Defined.

Definition fresh_start : option (result (ChainInner Db) string) :=
  chain_new (Ok tt) (Ok empty_db) 1 toy_clock "chain.redb" toy_secret (toy_config [toy_staker]) true "toy" empty_db.

Lemma fresh_node_sound_witness :
  exists inner, fresh_start = Some (Ok inner) /\ supply (ch_state inner) = CLAW_TOTAL_SUPPLY /\ chain_sound inner.
Proof.
  pose proof toy_redb_laws as Hlaws.
  assert ((match fresh_start with Some r => is_ok r | None => false end) = true) as Hok by (vm_compute; reflexivity).
  destruct fresh_start as [[inner|]|] eqn:Hrun; [| discriminate Hok | discriminate Hok].
  assert (get_latest_height empty_db = Ok None) as Hempty by (vm_compute; reflexivity).
  assert (validate (toy_config [toy_staker]) = Ok tt) as Hval by (vm_compute; reflexivity).
  assert (NoDup ((fun v => addr_of (gv_address v)) <$> gc_validators (toy_config [toy_staker]))) as Hnd by apply NoDup_singleton.
  unfold fresh_start in Hrun.
  pose proof (fresh_node_sound (Ok tt) (Ok empty_db) 0 toy_clock "chain.redb" toy_secret (toy_config [toy_staker]) true "toy"
    empty_db inner Hempty Hval Hnd Hrun) as H.
  destruct H as (_ & H2 & _ & _ & H5). fold fresh_start in Hrun.
  exists inner. split; [exact eq_refl |]. split; [exact H2 |]. apply (H5 inner). apply rtc_refl.
Defined.

Lemma toy_opens_empty : opens_empty (Ok empty_db).
Proof. intros db [= <-]. vm_compute. reflexivity. Qed.

Lemma start_terminates_witness :
  exists r, forall extra, chain_new (Ok tt) (Ok empty_db) (2 + extra) toy_clock "chain.redb" toy_secret (toy_config []) false
    "toy" boot_db = Some r.
Proof. apply start_terminates. exact toy_opens_empty. Defined.

(** A node whose stored state is that of [toy_jail] but whose block is another one. *)
Lemma mismatch_deletes_chain_witness :
  chain_new (Ok tt) (Ok empty_db) 2 toy_clock "chain.redb" toy_secret (toy_config []) false "toy"
    (put_state_snapshot [] with_genesis).2 = Some (Err (refusal "chain.redb")).
Proof.
  refine (mismatch_deletes_chain (Ok tt) (Ok empty_db) 0 toy_clock "chain.redb" toy_secret (toy_config []) false "toy" _
    empty_db 0 [] (persisted toy_jail) (toy_genesis 0) _ _ _ _ _ _ _ toy_opens_empty); try (vm_compute; reflexivity).
  vm_compute. discriminate.
Defined.
