(* ===== verification/Launch.v ===== *)
(** * Running the node ([main] of [node/src/main.rs])

    What the command line comes to: how [start] puts together arguments,
    [config.toml], key file, version manifest, genesis and store, and what the key
    commands do to the data directory.  Parsing of arguments is [clap]'s; sockets
    and the endless loops that the node then runs are outside. *)

From stdpp Require Import pretty.
From S2P Require Import Prelude Interfaces Types Crypto Utf8 Version Vm World HandlerBase Contracts Store Rewards Node Chain BlockLedger Genesis Sync Network Json Config ConcreteFiles NodeSteps Startup Concrete ConcreteState ConcreteTx ConcreteNode.
Notation length := List.length.

Record StartArgs : Type := mkStartArgs {
  sa_network : option Network;
  sa_rpc_port : option N;
  sa_p2p_port : option N;
  sa_bootstrap : list string;
  sa_single : bool;
  sa_sync_mode : string;
  sa_allow_genesis : bool;
  sa_skip_version_check : bool;
}.

(** A [start] without any flag. *)
Definition default_args : StartArgs := mkStartArgs None None None [] false "full" false false.

Section launch.
Context `{HB : Blake3} `{HE : Ed25519} `{TC : TxCodec} `{HX : Hex} `{HD : HexDecode} `{JT : JsonText} `{KC : KeyCipher}.
Context `{TM : Toml} `{GJ : GenesisJson}.
Context `{SCd : StateCodec} `{RD : Redb} `{SC : StoreCodec} `{NC : NodeCodec}.
Context {Peer Addr : Type} `{Countable Peer}.
Context (parse_multiaddr : string -> option Addr) (multiaddr_iter : Addr -> list (Protocol Peer)) (peer_to_string : Peer -> string).
Implicit Types (dir : DataDir) (password : option string) (args : StartArgs).

(** ** Resolving settings *)

(** A configuration that cannot be read counts as none. *)
Definition file_config dir : FileConfig := match load_file_config dir with Ok cfg => cfg | Err _ => default_FileConfig end.

Definition resolve_network (file_cfg : FileConfig) args : Network :=
  match sa_network args with
  | Some n => n
  | None => default Devnet (fc_network_name file_cfg ≫= parse_network)
  end.
Definition resolve_rpc_port (file_cfg : FileConfig) args : N :=
  default 9710 (match sa_rpc_port args with Some p => Some p | None => fc_rpc_port file_cfg end).
Definition resolve_p2p_port (file_cfg : FileConfig) args : N :=
  default 9711 (match sa_p2p_port args with Some p => Some p | None => fc_p2p_port file_cfg end).
Definition resolve_single (file_cfg : FileConfig) args : bool := sa_single args || default false (fc_single file_cfg).

Definition network_name (n : Network) : string :=
  match n with Mainnet => "mainnet" | Testnet => "testnet" | Devnet => "devnet" end.

(** Preset peers, then those of the file, then those of the command line. *)
Definition all_bootstrap (net_cfg : NetworkConfig) (file_cfg : FileConfig) args : list string :=
  nk_bootstrap_peers net_cfg ++ fc_bootstrap file_cfg ++ sa_bootstrap args.

Definition bootstrap_addrs (l : list string) : list Addr := omap parse_multiaddr l.
Definition bootstrap_peer_ids (addrs : list Addr) : list string :=
  omap (fun addr => peer_to_string <$> find_peer (multiaddr_iter addr)) addrs.

(** ** Version check

    [None] when the start is blocked; otherwise the manifest that is kept. *)
Definition version_gate (current_version : string) (fetched : option VersionManifest) args : option (option VersionManifest) :=
  if sa_skip_version_check args then Some None
  else
    match fetched with
    | None => Some None
    | Some manifest =>
        match check_version current_version manifest None with
        | Critical => None
        | _ => Some (Some manifest)
        end
    end.

(** ** [start] *)

Record Launch : Type := mkLaunch {
  la_dir : DataDir;
  la_chain : ChainInner Db;
  la_manifest : option VersionManifest;
  la_rpc_port : N;
  la_faucet_enabled : bool;
  la_prunes : bool;
  la_p2p : option (N * list Addr * string);
}.

Inductive StartOutcome : Type :=
  | Exit (code : N)
  | Failed (e : string)
  | Diverges
  | Running (l : Launch).

(** What the world gives: the version that was built, the manifest that was
    fetched, the environment's password, randomness, the clock, the genesis file,
    the store, what deleting and opening it again give, whether networking starts. *)
Record Outside : Type := mkOutside {
  wo_version : string;
  wo_manifest : option VersionManifest;
  wo_password : option string;
  wo_random : KeyRandom;
  wo_new_key : bytes;
  wo_clock : Clock;
  wo_genesis_file : option (result string string);
  wo_store : Db;
  wo_remove_file : result unit string;
  wo_open_fresh : result Db StoreError;
  wo_p2p_starts : bool;
}.

(** The key file is there, or is made. *)
Definition ensure_key (wo : Outside) (chain_id : string) dir : result DataDir string :=
  match dd_key_json dir with
  | Some _ => Ok dir
  | None =>
      match init_node (wo_random wo) (wo_new_key wo) (read_password_env (wo_password wo)) chain_id dir with
      | Ok (_, dir) => Ok dir
      | Err e => Err e
      end
  end.

(** Sync mode and bootstrap peers, set on a new chain. *)
Definition set_mode (mode : SyncMode) (inner : ChainInner Db) : ChainInner Db :=
  match mode with SyncFast => set_fast_sync inner | _ => inner end.
Definition set_peers (ids : list string) (inner : ChainInner Db) : ChainInner Db :=
  if bool_decide (ids = []) then inner else set_bootstrap_peers ids inner.

Definition launch (wo : Outside) (manifest : option VersionManifest) (file_cfg : FileConfig) args dir
    (inner : ChainInner Db) : Launch :=
  let net_cfg := network_config (resolve_network file_cfg args) in
  let mode := SyncMode_parse (sa_sync_mode args) in
  let inner := set_mode mode inner in
  let prunes := match mode with SyncLight => true | _ => false end in
  if resolve_single file_cfg args || nk_is_local net_cfg then
    mkLaunch dir inner manifest (resolve_rpc_port file_cfg args) (nk_faucet_enabled net_cfg) prunes None
  else
    let addrs := bootstrap_addrs (all_bootstrap net_cfg file_cfg args) in
    let inner := set_peers (bootstrap_peer_ids addrs) inner in
    mkLaunch dir inner manifest (resolve_rpc_port file_cfg args) (nk_faucet_enabled net_cfg) prunes
      (if wo_p2p_starts wo then Some (resolve_p2p_port file_cfg args, addrs, nk_chain_id net_cfg) else None).

Definition start (fuel : nat) (wo : Outside) args dir : StartOutcome :=
  let file_cfg := file_config dir in
  match version_gate (wo_version wo) (wo_manifest wo) args with
  | None => Exit 75
  | Some manifest =>
      let network := resolve_network file_cfg args in
      let net_cfg := network_config network in
      let password := read_password_env (wo_password wo) in
      match ensure_key wo (nk_chain_id net_cfg) dir with
      | Err e => Failed e
      | Ok dir =>
          match load_config password dir with
          | Err e => Failed e
          | Ok cfg =>
              match load_genesis_config "genesis.json" (wo_genesis_file wo) (network_name network) (Some (nc_address cfg)) with
              | Err e => Failed e
              | Ok genesis_cfg =>
                  let effective_allow_genesis := sa_allow_genesis args || bool_decide (network = Devnet) in
                  match chain_new (wo_remove_file wo) (wo_open_fresh wo) fuel (wo_clock wo) "chain.redb"
                          (nc_signing_key_bytes cfg) genesis_cfg effective_allow_genesis (nk_chain_id net_cfg) (wo_store wo) with
                  | None => Diverges
                  | Some (Err e) => Failed e
                  | Some (Ok inner) => Running (launch wo manifest file_cfg args dir inner)
                  end
              end
          end
      end
  end.

(** ** The key commands *)

Inductive KeyAction : Type :=
  | KeyGenerate
  | KeyShow
  | KeyImport (private_key_hex : string)
  | KeyExport.

(** What is printed: the address, and the secret for an export. *)
Definition key_command (wo : Outside) (action : KeyAction) dir : result (string * DataDir) string :=
  let password := read_password_env (wo_password wo) in
  match action with
  | KeyGenerate =>
      let? r := init_node (wo_random wo) (wo_new_key wo) password "claw-devnet" dir in
      Ok (hex_encode r.1, r.2)
  | KeyShow =>
      let? cfg := load_config password dir in
      Ok (hex_encode (nc_address cfg), dir)
  | KeyImport private_key_hex =>
      let private_key := trim (as_bytes private_key_hex) in
      if negb (length private_key =? 64)%nat then
        Err ("private key must be 64 hex characters (32 bytes), got " +:+ pretty (blen private_key) +:+ " chars")%string
      else
        match hex_decode (string_of_bytes private_key) with
        | Err e => Err ("invalid hex: " +:+ e)%string
        | Ok secret_key =>
            let? r := import_key (wo_random wo) password secret_key "claw-devnet" dir in
            Ok (hex_encode r.1, r.2)
        end
  | KeyExport =>
      let? r := export_key password dir in
      Ok (hex_encode r.2 +:+ " " +:+ hex_encode r.1, dir)%string
  end.

(** [init]. *)
Definition init_command (wo : Outside) (n : Network) dir : result (bytes * DataDir) string :=
  init_node (wo_random wo) (wo_new_key wo) (read_password_env (wo_password wo)) (nk_chain_id (network_config n)) dir.

(** [genesis]: the configuration that is printed. *)
Definition genesis_command (wo : Outside) (n : Network) dir : GenesisConfig :=
  let node_address := match load_config (read_password_env (wo_password wo)) dir with
                      | Ok cfg => Some (nc_address cfg)
                      | Err _ => None
                      end in
  default_for_network (network_name n) node_address.
End launch.

(** ** Facts *)

Section facts.
Context `{HB : Blake3} `{HE : Ed25519} `{TC : TxCodec} `{HX : Hex} `{HD : HexDecode} `{JT : JsonText} `{KC : KeyCipher}.
Context `{VM : VmEngine} `{VS : VmSchedule} `{KE : KeyErrors}.
Context `{TM : Toml} `{GJ : GenesisJson}.
Context `{SCd : StateCodec} `{RD : Redb} `{!RedbLaws} `{SC : StoreCodec} `{NC : NodeCodec}.
Context {Peer Addr : Type} `{Countable Peer}.
Context (parse_multiaddr : string -> option Addr) (multiaddr_iter : Addr -> list (Protocol Peer)) (peer_to_string : Peer -> string).
Implicit Types (dir : DataDir) (args : StartArgs) (wo : Outside).

Notation start := (start parse_multiaddr multiaddr_iter peer_to_string).
Notation launch := (launch parse_multiaddr multiaddr_iter peer_to_string).

(** What a running node was made of. *)
Lemma start_Running fuel wo args dir l :
  start fuel wo args dir = Running l ->
  let file_cfg := file_config dir in
  let network := resolve_network file_cfg args in
  exists manifest dir' cfg genesis_cfg inner,
    version_gate (wo_version wo) (wo_manifest wo) args = Some manifest
    /\ ensure_key wo (nk_chain_id (network_config network)) dir = Ok dir'
    /\ load_config (read_password_env (wo_password wo)) dir' = Ok cfg
    /\ load_genesis_config "genesis.json" (wo_genesis_file wo) (network_name network) (Some (nc_address cfg)) = Ok genesis_cfg
    /\ chain_new (wo_remove_file wo) (wo_open_fresh wo) fuel (wo_clock wo) "chain.redb" (nc_signing_key_bytes cfg) genesis_cfg
         (sa_allow_genesis args || bool_decide (network = Devnet)) (nk_chain_id (network_config network)) (wo_store wo)
       = Some (Ok inner)
    /\ l = launch wo manifest file_cfg args dir' inner.
Proof.
  intros Hrun file_cfg network. unfold Launch.start in Hrun. fold file_cfg in Hrun. fold network in Hrun.
  destruct (version_gate _ _ _) as [manifest|]; [| done].
  destruct (ensure_key _ _ _) as [dir'|] eqn:Hkey; [| done].
  destruct (load_config _ _) as [cfg|] eqn:Hcfg; [| done].
  destruct (load_genesis_config _ _ _ _) as [genesis_cfg|] eqn:Hgen; [| done].
  destruct (chain_new _ _ _ _ _ _ _ _ _ _) as [[inner|]|] eqn:Hnew; [| done | done].
  exists manifest, dir', cfg, genesis_cfg, inner. by injection Hrun as <-.
Qed.

(** The modes of a start do not touch the chain. *)
Lemma launched wo manifest file_cfg args dir inner :
  let c := la_chain (launch wo manifest file_cfg args dir inner) in
  quiet_view c = quiet_view inner /\ ch_store c = ch_store inner /\ ch_validator_address c = ch_validator_address inner
  /\ ch_signing_key c = ch_signing_key inner /\ ch_chain_id c = ch_chain_id inner.
Proof.
  unfold Launch.launch, set_mode, set_peers. destruct (SyncMode_parse _), (_ || _); simpl; try done; by case_bool_decide.
Qed.

Lemma launch_dir wo manifest file_cfg args dir inner : la_dir (launch wo manifest file_cfg args dir inner) = dir.
Proof. unfold Launch.launch. by destruct (_ || _). Qed.

Lemma started_key remove open fuel clock path sk config allow cid (store : Db) inner :
  get_latest_height store = Ok None ->
  chain_new remove open (S fuel) clock path sk config allow cid store = Some (Ok inner) ->
  ch_validator_address inner = vk_of_signing_key sk.
Proof.
  intros Hempty Hnew. cbn [chain_new] in Hnew. rewrite Hempty in Hnew.
  destruct (create_chain path config allow store) as [[[[[w block] stakes] h]|] db]; [| done].
  apply Some_Ok_inj in Hnew. by rewrite <- Hnew.
Qed.

(** Outside of a devnet a genesis has been validated. *)
Lemma genesis_validated path file network node config :
  network <> Devnet -> load_genesis_config path file (network_name network) node = Ok config -> validate config = Ok tt.
Proof.
  intros Hn. unfold load_genesis_config. destruct file as [[content|]|]; [| done |].
  - destruct (config_of_json content) as [c|]; [| done].
    destruct (validate c) as [[]|] eqn:Hv; [| done]. by intros [= <-].
  - assert (negb (bool_decide (network_name network ∈ ["devnet"; "claw-devnet"]%string)) = true) as -> by by destruct network.
    destruct (validate _) as [[]|] eqn:Hv; [| done]. by intros [= <-].
Qed.


(** Outside of a devnet nothing is created without being asked for. *)
Theorem start_refuses_genesis fuel wo args dir l :
  resolve_network (file_config dir) args <> Devnet -> sa_allow_genesis args = false ->
  get_latest_height (wo_store wo) = Ok None -> start (S fuel) wo args dir <> Running l.
Proof.
  intros Hnet Hallow Hempty Hrun.
  destruct (start_Running _ _ _ _ _ Hrun) as (_ & _ & cfg & config & made & _ & _ & _ & _ & Hnew & _).
  rewrite Hallow, bool_decide_eq_false_2 in Hnew by done. cbn [orb chain_new] in Hnew. rewrite Hempty in Hnew.
  unfold create_chain in Hnew. rewrite bind_fail_if in Hnew. done.
Qed.

(** A critical version stops a start before anything is touched, unless it is told
    not to look. *)
Theorem critical_version_blocks fuel wo args dir manifest :
  sa_skip_version_check args = false -> wo_manifest wo = Some manifest ->
  check_version (wo_version wo) manifest None = Critical -> start fuel wo args dir = Exit 75.
Proof. intros Hs Hm Hc. unfold Launch.start, version_gate. by rewrite Hs, Hm, Hc. Qed.

(** A configuration file that does not parse is passed over without a word: the node
    of any network comes up as a devnet, alone and free to make a genesis. *)
Theorem broken_config_is_devnet fuel wo dir content e l :
  dd_config_toml dir = Some content -> toml_from_str content = Err e ->
  start fuel wo default_args dir = Running l ->
  resolve_network (file_config dir) default_args = Devnet /\ la_p2p l = None /\ la_faucet_enabled l = true.
Proof.
  intros Hd Ht Hrun. destruct (start_Running _ _ _ _ _ Hrun) as (m & d & cfg & config & made & _ & _ & _ & _ & _ & ->).
  assert (file_config dir = default_FileConfig) as E by (unfold file_config, load_file_config; by rewrite Hd, Ht).
  rewrite E. split; [done |]. unfold Launch.launch, set_mode. by destruct (SyncMode_parse _).
Qed.
End facts.

(** ** From [init] to [start] *)

(** What the text of the configuration that [init] writes says. *)
Class TomlLaws `{Toml} : Prop := toml_default : forall name, name ∈ ["mainnet"; "testnet"; "devnet"]%string ->
  toml_from_str (default_config_text name) = Ok (mkFileConfig (Some name) (Some 9710) (Some 9711) [] None (Some "text"%string) None).

Section init.
Context `{HE : Ed25519} `{HX : Hex} `{HD : HexDecode} `{!HexLaws} `{JT : JsonText} `{KC : KeyCipher} `{!KeyFileLaws} `{TM : Toml} `{!TomlLaws}.
Context `{SCd : StateCodec} `{RD : Redb}.

(** What [init] wrote is what [start] finds: in a directory that was empty, the
    network that was initialised is the one that is started without a flag, and the
    key is the one that was made, kept as it is. *)
Theorem init_sticks (wo : Outside) n addr dir :
  length (wo_new_key wo) = 32%nat -> length (vk_of_signing_key (wo_new_key wo)) = 32%nat ->
  length (kr_salt (wo_random wo)) = 32%nat -> length (kr_nonce (wo_random wo)) = 12%nat ->
  init_command wo n (mkDataDir None None) = Ok (addr, dir) ->
  resolve_network (file_config dir) default_args = n
  /\ resolve_rpc_port (file_config dir) default_args = 9710 /\ resolve_p2p_port (file_config dir) default_args = 9711
  /\ (forall cid, ensure_key wo cid dir = Ok dir)
  /\ load_config (read_password_env (wo_password wo)) dir = Ok (mkNodeConfig (vk_of_signing_key (wo_new_key wo)) (wo_new_key wo)).
Proof.
  intros Hs Ha Hsalt Hnonce Hinit. unfold init_command, init_node in Hinit. cbn [dd_key_json] in Hinit.
  set (password := read_password_env (wo_password wo)) in *. set (cid := nk_chain_id (network_config n)) in *.
  destruct (key_json _ _ _ _ _) as [v|] eqn:Hv; [| done]. injection Hinit as <- <-.
  assert (file_config (write_default_config cid (write_key_file v (mkDataDir None None)))
    = mkFileConfig (Some (network_name n)) (Some 9710) (Some 9711) [] None (Some "text"%string) None) as Hf.
  { unfold file_config, load_file_config, write_default_config. cbn [dd_config_toml write_key_file].
    rewrite toml_default by (destruct n; vm_compute; set_solver). by destruct n. }
  rewrite Hf. split; [by destruct n |]. split; [done |]. split; [done |]. split.
  - intros c. unfold ensure_key, write_default_config. done.
  - rewrite load_ignores_config. unfold key_json in Hv. destruct password as [pw|] eqn:Hpw.
    + destruct (encrypt_key _ _ _) as [[[ct salt] nonce]|] eqn:Henc; [| done]. injection Hv as <-.
      exact (loads_encrypted _ _ pw _ _ _ _ _ _ Ha Hs Hsalt Hnonce Henc).
    + injection Hv as <-. by apply loads_plain.
Qed.
End init.

(** ** Witnesses *)

Section witnesses.
#[local] Existing Instance toy_blake3.
#[local] Existing Instance toy_ed25519.
#[local] Existing Instance toy_tx_codec.
#[local] Existing Instance plain_hex.
#[local] Existing Instance plain_hex_decode.
#[local] Existing Instance toy_json_text.
#[local] Existing Instance toy_cipher.
#[local] Existing Instance toy_redb.
#[local] Existing Instance boot_store_codec.
#[local] Existing Instance boot_codec.
#[local] Existing Instance toy_codec.
#[local] Existing Instance toy_vm.
#[local] Existing Instance toy_schedule.
#[local] Existing Instance toy_key_errors.

(** Only the default text of a testnet is understood. *)
Definition toy_toml : Toml := fun content =>
  match List.find (fun name => String.eqb content (default_config_text name)) ["mainnet"; "testnet"; "devnet"]%string with
  | Some name => Ok (mkFileConfig (Some name) (Some 9710) (Some 9711) [] None (Some "text"%string) None)
  | None => Err "expected a table"%string
  end.
Definition toy_genesis_json : GenesisJson := fun _ => Ok (toy_config [toy_staker]).
#[local] Existing Instance toy_toml.
#[local] Existing Instance toy_genesis_json.

Definition toy_outside : Outside :=
  mkOutside "1.0.0" None None toy_random (toy_addr 11) toy_clock (Some (Ok "genesis"%string)) empty_db (Ok tt) (Ok empty_db) true.
Definition testnet_args : StartArgs := mkStartArgs (Some Testnet) None None [] false "fast" true false.
Definition toy_start (args : StartArgs) (dir : DataDir) : StartOutcome :=
  start (Peer:=N) (Addr:=unit) (fun _ => None) (fun _ => []) (fun _ => ""%string) 1 toy_outside args dir.


Lemma toy_toml_laws : TomlLaws.
Proof.
  intros name Hn. repeat (apply elem_of_cons in Hn as [-> | Hn]; [vm_compute; reflexivity |]). by apply not_elem_of_nil in Hn.
Qed.

Lemma init_sticks_witness :
  exists addr dir, init_command toy_outside Testnet empty_dir = Ok (addr, dir)
  /\ resolve_network (file_config dir) default_args = Testnet.
Proof.
  destruct (init_command toy_outside Testnet empty_dir) as [[addr dir]|] eqn:Hinit;
    [| apply (f_equal is_ok) in Hinit; vm_compute in Hinit; discriminate].
  exists addr, dir. split; [exact eq_refl |].
  apply (init_sticks (H:=plain_hex_laws) (H0:=toy_key_file_laws) (H1:=toy_toml_laws) toy_outside Testnet addr dir);
    [vm_compute; reflexivity .. | exact Hinit].
Defined.
End witnesses.
