(* ===== verification/BlockLoop.v ===== *)
(** * The block loop ([run_block_loop] of [node/src/chain.rs])

    A node's main task: a tick of its timer, a version manifest that was fetched in
    a task of its own, the notice that this task gives, and the signal to stop, in
    any order that [select] may choose. *)

From stdpp Require Import relations.
From S2P Require Import Prelude Interfaces Types Concrete Crypto Utf8 Version Vm World ConcreteState HandlerBase ConcreteTx Contracts Store Rewards Node Chain ConcreteNode BlockLedger Genesis Sync Network Json Config ConcreteFiles Queries NodeSteps Startup Launch.

Section block_loop.
Context `{HB : Blake3} `{HE : Ed25519} `{TC : TxCodec} `{HX : Hex} `{VM : VmEngine} `{VS : VmSchedule}.
Context `{SCd : StateCodec} `{RD : Redb} `{SC : StoreCodec} `{NC : NodeCodec} `{KE : KeyErrors}.
Context {Peer Channel : Type} (current_version : string).
Implicit Types (inner : ChainInner Db) (manifest : VersionManifest).

(** The node, the manifest it keeps, whether a shutdown was asked for, and whether
    the loop still runs. *)
Record BlockLoop : Type := mkBlockLoop {
  bl_chain : ChainInner Db;
  bl_manifest : option VersionManifest;
  bl_critical_shutdown : bool;
  bl_running : bool;
}.

Inductive LoopEvent : Type :=
  | Tick (clock : Clock)
  | Fetched (manifest : option VersionManifest)
  | CriticalShutdown
  | CtrlC.

(** The task that looks at a manifest: it may ask for a shutdown, and keeps the
    manifest. *)
Definition version_tick (fetched : option VersionManifest) (l : BlockLoop) : BlockLoop :=
  match fetched with
  | None => l
  | Some manifest =>
      let upgrade_level := check_version current_version manifest (Some (get_block_number (bl_chain l))) in
      mkBlockLoop (bl_chain l) (Some manifest)
        (match upgrade_level with Critical => true | _ => bl_critical_shutdown l end) (bl_running l)
  end.

Definition loop_tick (clock : Clock) (l : BlockLoop) : list (P2pCommand Peer Channel) * BlockLoop :=
  let '(cmds, inner) := block_tick clock (bl_chain l) in
  (cmds, mkBlockLoop inner (bl_manifest l) (bl_critical_shutdown l) (bl_running l)).

(** One turn of the loop: what it sends, and what it comes to.  The notice wakes the
    loop once; a task that fetches a manifest goes on after the loop has ended. *)
Definition loop_event (e : LoopEvent) (l : BlockLoop) : list (P2pCommand Peer Channel) * BlockLoop :=
  match e with
  | Fetched manifest => ([], version_tick manifest l)
  | Tick clock => if bl_running l then loop_tick clock l else ([], l)
  | CriticalShutdown =>
      if bl_running l && bl_critical_shutdown l then ([], mkBlockLoop (bl_chain l) (bl_manifest l) false false) else ([], l)
  | CtrlC => ([], mkBlockLoop (bl_chain l) (bl_manifest l) (bl_critical_shutdown l) false)
  end.

Fixpoint run_block_loop (es : list LoopEvent) (l : BlockLoop) : list (P2pCommand Peer Channel) * BlockLoop :=
  match es with
  | [] => ([], l)
  | e :: es => let '(cmds, l) := loop_event e l in let '(more, l) := run_block_loop es l in (cmds ++ more, l)
  end.

(** ** Facts *)

(** A loop that has ended produces and sends nothing, whatever else happens. *)
Lemma ended_loop es : forall l, bl_running l = false ->
  let '(cmds, l') := run_block_loop es l in cmds = [] /\ bl_chain l' = bl_chain l /\ bl_running l' = false.
Proof.
  induction es as [| e es IH]; intros l Hl; [done |]. cbn [run_block_loop].
  assert (exists l', loop_event e l = ([], l') /\ bl_chain l' = bl_chain l /\ bl_running l' = false) as (l' & -> & Hc & Hr).
  { destruct e as [clock | [manifest|] | |]; cbn [loop_event version_tick]; rewrite ?Hl; eexists; (split; [reflexivity |]); (split; [reflexivity |]); first [reflexivity | exact Hl]. }
  specialize (IH l' Hr). destruct (run_block_loop es l') as [more l'']. by rewrite Hc in IH.
Qed.

(** A manifest whose halt height the chain has reached ends the loop: from then on
    the notice is there to be taken, and when it is taken no block follows. *)
Theorem halt_height_stops manifest halt (l : BlockLoop) es :
  vm_halt_height manifest = Some halt -> halt <= get_block_number (bl_chain l) -> bl_running l = true ->
  let '(cmds, l') := run_block_loop (Fetched (Some manifest) :: CriticalShutdown :: es) l in
  cmds = [] /\ bl_chain l' = bl_chain l /\ bl_running l' = false.
Proof.
  intros Hh Hle Hr. cbn [run_block_loop loop_event version_tick bl_running bl_critical_shutdown bl_chain bl_manifest].
  assert (check_version current_version manifest (Some (get_block_number (bl_chain l))) = Critical) as ->.
  { unfold check_version. rewrite Hh, (proj2 (N.leb_le _ _) Hle). destruct (vm_critical_minimum manifest) as [c|]; [by destruct (version_less_than current_version c) | done]. }
  rewrite Hr. cbn [andb]. pose proof (ended_loop es (mkBlockLoop (bl_chain l) (Some manifest) false false) eq_refl) as He.
  by destruct (run_block_loop es _) as [more l'].
Qed.

(** The start does not look at the halt height: the node that was stopped by it can be
    started again with the same manifest. *)
Theorem halted_node_starts_again manifest halt args :
  vm_halt_height manifest = Some halt ->
  match vm_critical_minimum manifest with Some critical => version_less_than current_version critical | None => false end = false ->
  exists kept, version_gate current_version (Some manifest) args = Some kept.
Proof.
  intros Hh Hc. unfold version_gate. destruct (sa_skip_version_check args); [by eexists |].
  unfold check_version. rewrite Hc, Hh. repeat case_match; simplify_eq; by eexists.
Qed.
End block_loop.
