(* ===== verification/Sdk.v ===== *)
(** * The contract SDK ([sdk/src])

    What contract code calls: wrappers around the imports of the virtual machine
    that pass their arguments in the contract's own memory.  A program is given by
    what it does with its continuation, so that it composes into a [guest]. *)

From S2P Require Import Prelude Interfaces Types Utf8 Vm Host.

(** ** Buffers

    [place b m] is where a buffer holding [b] gets allocated, and the memory with
    it; [live m p b] says that [p] points at a buffer that holds [b].  Allocation
    keeps the buffers there are, and the front of a buffer is one. *)
Class Linear `{GM : GuestMemory} : Type := {
  place : bytes -> Memory -> N * Memory;
  live : Memory -> N -> bytes -> Prop;
}.

Class LinearLaws `{LM : Linear} : Prop := {
  place_live : forall b m, live (place b m).2 (place b m).1 b;
  place_keeps : forall m p b b', live m p b -> live (place b' m).2 p b;
  live_prefix : forall m p b b', live m p (b ++ b') -> live m p b;
  live_read : forall m p b, live m p b -> mem_read m p (blen b) = Ok b;
  live_write : forall m p b d, live m p b -> blen d <= blen b ->
    exists m', mem_write m p d = Ok m' /\ live m' p (d ++ drop (length d) b);
}.

(** ** Programs *)

Section prog.
Context `{GM : GuestMemory}.

Definition prog (A : Type) : Type := (A -> guest) -> guest.

#[export] Instance prog_ret : MRet prog := fun A a k => k a.
#[export] Instance prog_bind : MBind prog := fun A B f p k => p (fun a => f a k).

(** Call an import. *)
Definition perform (i : import) : prog Z := fun k => g_import i k.

(** A panic of the Rust code, which is built with [panic = "abort"]. *)
Definition panic {A} (msg : string) : prog A := fun _ => g_trap msg.

(** Read the contract's own memory. *)
Definition fetch (p len : N) : prog bytes := fun k =>
  g_compute id (fun m => match mem_read m p len with Ok b => k b | Err e => g_trap e end).

Definition expect {A E} (r : result A E) (msg : string) : prog A :=
  match r with Ok a => mret a | Err _ => panic msg end.

Fixpoint prog_each {A} (f : A -> prog unit) (l : list A) : prog unit :=
  match l with
  | [] => mret tt
  | x :: l => f x;; prog_each f l
  end.

(** The body of an exported function. *)
Definition export_fn (p : prog unit) : guest := p (fun _ => g_return 0%Z).
End prog.

Section env.
Context `{LM : Linear}.

Definition buffer (b : bytes) : prog N := fun k =>
  g_compute id (fun m => g_compute (fun m => (place b m).2) (fun _ => k (place b m).1)).

(** ** [env.rs] *)

Definition STORAGE_READ_BUF : N := 16 * 1024.
Definition CROSS_CALL_RETURN_BUF : N := 16 * 1024.

Definition zeroed (n : N) : bytes := replicate (N.to_nat n) x00.

(** [let mut buf = [0u8; 32]; f(buf.as_mut_ptr()); buf]. *)
Definition out32 (f : N -> import) : prog bytes :=
  p ← buffer (zeroed 32);
  _ ← perform (f p);
  fetch p 32.

Definition get_caller : prog bytes := out32 caller.
Definition get_contract_address : prog bytes := out32 contract_address.
Definition get_block_height : prog N := z ← perform block_height; mret (as_u64 z).
Definition get_block_timestamp : prog N := z ← perform block_timestamp; mret (as_u64 z).

Definition get_value : prog N :=
  lo ← perform value_lo;
  hi ← perform value_hi;
  mret (N.lor (N.shiftl (as_u64 hi) 64) (as_u64 lo)).

(** [buf.truncate(len as usize)] keeps a buffer that is shorter. *)
Definition take_buffer (p capacity : N) (len : Z) : prog bytes := fetch p (N.min (Z.to_N len) capacity).

Definition storage_get (key : bytes) : prog (option bytes) :=
  kp ← buffer key;
  p ← buffer (zeroed STORAGE_READ_BUF);
  len ← perform (storage_read kp (blen key) p);
  if (len <? 0)%Z then mret None
  else b ← take_buffer p STORAGE_READ_BUF len; mret (Some b).

Definition storage_set (key value : bytes) : prog unit :=
  kp ← buffer key;
  vp ← buffer value;
  _ ← perform (storage_write kp (blen key) vp (blen value));
  mret tt.

Definition storage_exists (key : bytes) : prog bool :=
  kp ← buffer key;
  z ← perform (storage_has kp (blen key));
  mret (negb (z =? 0)%Z).

Definition storage_remove (key : bytes) : prog unit :=
  kp ← buffer key;
  _ ← perform (storage_delete kp (blen key));
  mret tt.

Definition get_agent_score (address : bytes) : prog N :=
  p ← buffer address;
  z ← perform (agent_get_score p);
  mret (as_u64 z).

Definition is_agent_registered (address : bytes) : prog bool :=
  p ← buffer address;
  z ← perform (agent_is_registered p);
  mret (negb (z =? 0)%Z).

Definition get_balance (address : bytes) : prog N :=
  p ← buffer address;
  lo ← perform (token_balance p);
  hi ← perform (token_balance_hi p);
  mret (N.lor (N.shiftl (as_u64 hi) 64) (as_u64 lo)).

Definition transfer (to : bytes) (amount : N) : prog bool :=
  p ← buffer to;
  z ← perform (token_transfer p (as_i64 amount) (as_i64 (N.shiftr amount 64)));
  mret (negb (z =? 0)%Z).

Definition log (msg : string) : prog unit :=
  p ← buffer (as_bytes msg);
  _ ← perform (log_msg p (slen msg));
  mret tt.

Definition set_return_data (data : bytes) : prog unit :=
  p ← buffer data;
  _ ← perform (return_data p (blen data));
  mret tt.

Definition emit_event_raw (topic : string) (data : bytes) : prog unit :=
  tp ← buffer (as_bytes topic);
  dp ← buffer data;
  _ ← perform (emit_event tp (slen topic) dp (blen data));
  mret tt.

Inductive CrossCallError : Type := Failed | Reentrancy | MaxDepth.

Definition call_contract_invoke (address : bytes) (method : string) (args : bytes) (value : N)
    : prog (result bytes CrossCallError) :=
  ap ← buffer address;
  mp ← buffer (as_bytes method);
  gp ← buffer args;
  z ← perform (call_contract ap mp (slen method) gp (blen args) (as_i64 value) (as_i64 (N.shiftr value 64)));
  if (z =? 0)%Z then
    p ← buffer (zeroed CROSS_CALL_RETURN_BUF);
    len ← perform (cross_call_return_data p);
    if (len <? 0)%Z then mret (Ok [])
    else b ← take_buffer p CROSS_CALL_RETURN_BUF len; mret (Ok b)
  else mret (Err (if (z =? -2)%Z then Reentrancy else if (z =? -3)%Z then MaxDepth else Failed)).

(** The host's [abort] ends the execution. *)
Definition panic_msg {A} (msg : string) : prog A :=
  p ← buffer (as_bytes msg);
  _ ← perform (abort p (slen msg));
  panic "unreachable".

(** ** [storage.rs] *)

Definition get {T} `{!Borsh T} (key : bytes) : prog (option T) :=
  b ← storage_get key;
  mret (b ≫= fun bytes => match try_from_slice bytes with Ok v => Some v | Err _ => None end).

Definition set {T} `{!Borsh T} (key : bytes) (value : T) : prog unit := storage_set key (to_vec value).

(** [get_u64] and [get_u128]: [n] bytes, little-endian. *)
Definition get_le (n : nat) (key : bytes) : prog (option N) :=
  b ← storage_get key;
  mret (b ≫= fun bytes => if (n <=? length bytes)%nat then Some (le_value (take n bytes)) else None).

Definition get_u64 : bytes -> prog (option N) := get_le 8.
Definition set_u64 (key : bytes) (value : N) : prog unit := storage_set key (le64 value).
Definition get_u128 : bytes -> prog (option N) := get_le 16.
Definition set_u128 (key : bytes) (value : N) : prog unit := storage_set key (le128 value).

(** ** [contract.rs] *)

(** [require!]. *)
Definition require_or_abort (cond : bool) (msg : string) : prog unit := if cond then mret tt else panic_msg msg.

(** [entry!]: decode the arguments, run the body, set its result. *)
Definition entry {T} `{!Borsh T} (args_ptr args_len : N) (body : T -> prog bytes) : prog unit :=
  slice ← fetch args_ptr args_len;
  args ← expect (try_from_slice slice) "failed to deserialize args";
  result ← body args;
  if bool_decide (result = []) then mret tt else set_return_data result.
End env.
