(* ===== verification/ArenaPool.v ===== *)
(** * The arena pool contract ([contracts/arena-pool])

    The state and the operations of [logic.rs] and [types.rs], over the state
    monad: a panic is an error, and the entry points that call these operations
    drop the state of a call that panics. *)

From S2P Require Import Prelude Interfaces Types.

(** ** State *)

Definition ACTIVE : N := 0.
Definition SETTLED : N := 1.
Definition REFUNDED : N := 2.

Definition BURN_ADDRESS : bytes := zeros32.
Definition EMERGENCY_TIMEOUT_SECS : N := 3600.

Record GameInfo : Type := mkGameInfo {
  gi_status : N;
  gi_entry_fee : N;
  gi_lock_time : N;
  gi_players : list bytes;
}.

Definition eta_GameInfo (g : GameInfo) : GameInfo :=
  mkGameInfo (gi_status g) (gi_entry_fee g) (gi_lock_time g) (gi_players g).
#[export] Instance upd_gi_status : Update gi_status := ltac:(solve_update eta_GameInfo gi_status).

Record ContractState : Type := mkContractState {
  ap_version : N;
  ap_paused : bool;
  ap_owner : bytes;
  ap_platform : bytes;
  ap_fee_bps : N;
  ap_burn_bps : N;
  ap_balance : gmap bytes N;
  ap_locked : gmap bytes N;
  ap_games : gmap bytes GameInfo;
  ap_total_fees_collected : N;
}.

Definition eta_ContractState (s : ContractState) : ContractState :=
  mkContractState (ap_version s) (ap_paused s) (ap_owner s) (ap_platform s) (ap_fee_bps s) (ap_burn_bps s)
    (ap_balance s) (ap_locked s) (ap_games s) (ap_total_fees_collected s).
#[export] Instance upd_ap_version : Update ap_version := ltac:(solve_update eta_ContractState ap_version).
#[export] Instance upd_ap_paused : Update ap_paused := ltac:(solve_update eta_ContractState ap_paused).
#[export] Instance upd_ap_owner : Update ap_owner := ltac:(solve_update eta_ContractState ap_owner).
#[export] Instance upd_ap_platform : Update ap_platform := ltac:(solve_update eta_ContractState ap_platform).
#[export] Instance upd_ap_fee_bps : Update ap_fee_bps := ltac:(solve_update eta_ContractState ap_fee_bps).
#[export] Instance upd_ap_burn_bps : Update ap_burn_bps := ltac:(solve_update eta_ContractState ap_burn_bps).
#[export] Instance upd_ap_balance : Update ap_balance := ltac:(solve_update eta_ContractState ap_balance).
#[export] Instance upd_ap_locked : Update ap_locked := ltac:(solve_update eta_ContractState ap_locked).
#[export] Instance upd_ap_games : Update ap_games := ltac:(solve_update eta_ContractState ap_games).
#[export] Instance upd_ap_total_fees_collected : Update ap_total_fees_collected := ltac:(solve_update eta_ContractState ap_total_fees_collected).

Definition default_ContractState : ContractState :=
  mkContractState 0 false zeros32 zeros32 0 0 ∅ ∅ ∅ 0.

Definition available (s : ContractState) (addr : bytes) : N :=
  sat_sub (default 0 (ap_balance s !! addr)) (default 0 (ap_locked s !! addr)).

(** ** Operations *)

Abbreviation arena := (ST ContractState string).
Definition transfers : Type := list (bytes * N).

Definition arena_require (cond : bool) (msg : string) : arena unit := fail_if (negb cond) msg.

Definition apply_init (owner platform : bytes) (fee_bps burn_bps : N) : arena unit :=
  arena_require (fee_bps + burn_bps <=? 10000) "fee_bps + burn_bps must be <= 10000";;
  st_modify (fun s => s <| ap_version := 1 |> <| ap_paused := false |> <| ap_owner := owner |>
    <| ap_platform := platform |> <| ap_fee_bps := fee_bps |> <| ap_burn_bps := burn_bps |>
    <| ap_total_fees_collected := 0 |>).

Definition apply_deposit (caller : bytes) (value : N) : arena unit :=
  s ← st_get;
  arena_require (negb (ap_paused s)) "contract is paused";;
  arena_require (0 <? value) "deposit value must be > 0";;
  st_modify (fun s => s <| ap_balance ::= entry_add TWO128 caller value |>).

Definition apply_withdraw (caller : bytes) (amount : N) : arena transfers :=
  arena_require (0 <? amount) "withdraw amount must be > 0";;
  s ← st_get;
  arena_require (amount <=? available s caller) "insufficient available balance";;
  st_modify (fun s => s <| ap_balance ::= entry_sub TWO128 caller amount |>);;
  mret [(caller, amount)].

Definition apply_lock_entries (caller game_hash : bytes) (players : list bytes) (entry_fee lock_time : N)
    : arena unit :=
  s ← st_get;
  arena_require (negb (ap_paused s)) "contract is paused";;
  arena_require (bool_decide (caller = ap_platform s)) "caller is not the platform";;
  arena_require (negb (bool_decide (players = []))) "players list must not be empty";;
  arena_require (0 <? entry_fee) "entry_fee must be > 0";;
  arena_require (bool_decide (ap_games s !! game_hash = None)) "game already exists (idempotency violation)";;
  for_each (fun p => arena_require (entry_fee <=? available s p) "player has insufficient available balance") players;;
  for_each (fun p => st_modify (fun s => s <| ap_locked ::= entry_add TWO128 p entry_fee |>)) players;;
  st_modify (fun s => s <| ap_games ::= <[game_hash := mkGameInfo ACTIVE entry_fee lock_time players]> |>).

(** [state.games.get(&game_hash).expect(..).clone()]. *)
Definition get_game (game_hash : bytes) : arena GameInfo :=
  s ← st_get;
  ok_or (ap_games s !! game_hash) "game does not exist"%string.

Definition require_active (game : GameInfo) : arena unit :=
  arena_require (gi_status game =? ACTIVE) "game is not active".

Definition set_status (game_hash : bytes) (status : N) : arena unit :=
  st_modify (fun s => s <| ap_games ::= alter (fun g => g <| gi_status := status |>) game_hash |>).

Definition apply_settle_game (caller game_hash : bytes) (winners : list bytes) (amounts : list N)
    : arena transfers :=
  s ← st_get;
  arena_require (bool_decide (caller = ap_platform s)) "caller is not the platform";;
  arena_require (length winners =? length amounts)%nat "winners and amounts length mismatch";;
  game ← get_game game_hash;
  require_active game;;
  for_each (fun w => arena_require (bool_decide (w ∈ gi_players game)) "winner is not a participant in this game")
    winners;;
  let total_pool := u128_mul (N.of_nat (length (gi_players game))) (gi_entry_fee game) in
  let platform_fee := u128_mul total_pool (ap_fee_bps s) / 10000 in
  let burn_amount := u128_mul total_pool (ap_burn_bps s) / 10000 in
  let winner_total := wsum TWO128 id amounts in
  arena_require (u128_add (u128_add winner_total platform_fee) burn_amount =? total_pool)
    "amounts + fee + burn must equal total_pool (conservation violation)";;
  for_each (fun p => st_modify (fun s => s <| ap_balance ::= entry_sub TWO128 p (gi_entry_fee game) |>
                                           <| ap_locked ::= entry_sub TWO128 p (gi_entry_fee game) |>))
    (gi_players game);;
  for_each (fun wa => st_modify (fun s => s <| ap_balance ::= entry_add TWO128 wa.1 wa.2 |>)) (zip winners amounts);;
  st_modify (fun s => s <| ap_total_fees_collected ::= fun f => u128_add f platform_fee |>);;
  set_status game_hash SETTLED;;
  mret (if 0 <? burn_amount then [(BURN_ADDRESS, burn_amount)] else []).

(** Unlocks every player and marks the game refunded. *)
Definition refund_players (game_hash : bytes) (game : GameInfo) : arena unit :=
  for_each (fun p => st_modify (fun s => s <| ap_locked ::= entry_sub TWO128 p (gi_entry_fee game) |>))
    (gi_players game);;
  set_status game_hash REFUNDED.

Definition apply_refund_game (caller game_hash : bytes) : arena unit :=
  s ← st_get;
  arena_require (bool_decide (caller = ap_platform s)) "caller is not the platform";;
  game ← get_game game_hash;
  require_active game;;
  refund_players game_hash game.

Definition apply_emergency_refund (caller game_hash : bytes) (now : N) : arena unit :=
  game ← get_game game_hash;
  require_active game;;
  arena_require (bool_decide (caller ∈ gi_players game)) "caller is not a participant in this game";;
  arena_require (u64_add (gi_lock_time game) EMERGENCY_TIMEOUT_SECS <=? now) "emergency timeout has not elapsed";;
  refund_players game_hash game.

Definition apply_claim_fees (caller : bytes) : arena transfers :=
  s ← st_get;
  arena_require (bool_decide (caller = ap_owner s)) "caller is not the owner";;
  arena_require (0 <? ap_total_fees_collected s) "no fees to claim";;
  st_modify (fun s => s <| ap_total_fees_collected := 0 |>);;
  mret [(ap_owner s, ap_total_fees_collected s)].

Definition apply_pause (caller : bytes) : arena unit :=
  s ← st_get;
  arena_require (bool_decide (caller = ap_owner s)) "caller is not the owner";;
  arena_require (negb (ap_paused s)) "contract is already paused";;
  st_modify (fun s => s <| ap_paused := true |>).

Definition apply_unpause (caller : bytes) : arena unit :=
  s ← st_get;
  arena_require (bool_decide (caller = ap_owner s)) "caller is not the owner";;
  arena_require (ap_paused s) "contract is not paused";;
  st_modify (fun s => s <| ap_paused := false |>).

Definition apply_cleanup_games (caller : bytes) (hashes : list bytes) : arena unit :=
  s ← st_get;
  arena_require (bool_decide (caller = ap_owner s)) "caller is not the owner";;
  for_each (fun hash =>
    game ← get_game hash;
    arena_require (negb (gi_status game =? ACTIVE)) "cannot delete an active game") hashes;;
  for_each (fun hash => st_modify (fun s => s <| ap_games ::= delete hash |>)) hashes.

(** The entry point [init] of [lib.rs] starts from the default state and not from
    the stored one; nothing asks who calls it, or whether it was called before. *)
Definition init_entry (owner platform : bytes) (fee_bps burn_bps : N) : arena unit := fun s =>
  match apply_init owner platform fee_bps burn_bps default_ContractState with
  | (Ok _, s') => (Ok tt, s')
  | (Err e, _) => (Err e, s)
  end.
