(* ===== verification/ArenaEntry.v ===== *)
(** * The exported functions of the arena pool ([contracts/arena-pool/src/lib.rs])

    What a call of the contract does on the chain: decode the arguments, load the
    state from the contract's storage, run the operation of [ArenaPool], save the
    state, and pay. *)

From S2P Require Import Prelude Interfaces Types Utf8 Vm Host Sdk ArenaPool.

(** ** Arguments ([types.rs]) *)

Record InitArgs : Type := mkInitArgs {
  ia_owner : bytes;
  ia_platform : bytes;
  ia_fee_bps : N;
  ia_burn_bps : N;
}.
Record DepositArgs : Type := mkDepositArgs {}.
Record WithdrawArgs : Type := mkWithdrawArgs { wa_amount : N }.
Record LockEntriesArgs : Type := mkLockEntriesArgs {
  lea_game_hash : bytes;
  lea_players : list bytes;
  lea_entry_fee : N;
}.
Record SettleGameArgs : Type := mkSettleGameArgs {
  sga_game_hash : bytes;
  sga_winners : list bytes;
  sga_amounts : list N;
}.
Record RefundGameArgs : Type := mkRefundGameArgs { rga_game_hash : bytes }.
Record EmergencyRefundArgs : Type := mkEmergencyRefundArgs { era_game_hash : bytes }.
Record ClaimFeesArgs : Type := mkClaimFeesArgs {}.
Record PauseArgs : Type := mkPauseArgs {}.
Record CleanupGamesArgs : Type := mkCleanupGamesArgs { cga_hashes : list bytes }.

(** The derived encodings. *)
Class ArenaCodec : Type := {
  codec_state :: Borsh ContractState;
  codec_init :: Borsh InitArgs;
  codec_deposit :: Borsh DepositArgs;
  codec_withdraw :: Borsh WithdrawArgs;
  codec_lock :: Borsh LockEntriesArgs;
  codec_settle :: Borsh SettleGameArgs;
  codec_refund :: Borsh RefundGameArgs;
  codec_emergency :: Borsh EmergencyRefundArgs;
  codec_claim :: Borsh ClaimFeesArgs;
  codec_pause :: Borsh PauseArgs;
  codec_cleanup :: Borsh CleanupGamesArgs;
}.

Section entries.
Context `{LM : Linear} `{AC : ArenaCodec}.

(** ** Loading, saving and paying *)

Definition STATE_KEY : bytes := lit "__state__".

Definition load_state : prog ContractState :=
  b ← storage_get STATE_KEY;
  match b with
  | Some bytes => expect (try_from_slice bytes) "state deserialize failed"
  | None => mret default_ContractState
  end.

Definition save_state (state : ContractState) : prog unit := storage_set STATE_KEY (to_vec state).

Definition flush_transfers (l : transfers) : prog unit :=
  prog_each (fun t =>
    if 0 <? t.2 then
      ok ← transfer t.1 t.2;
      require_or_abort ok "token_transfer failed"
    else mret tt) l.

(** An operation on the state; an assertion that fails panics. *)
Definition logic {A} (m : arena A) (state : ContractState) : prog (A * ContractState) :=
  match m state with
  | (Ok a, state') => mret (a, state')
  | (Err e, _) => panic e
  end.

Definition OK : bytes := lit "ok".

(** An entry that changes the state and one that pays as well. *)
Definition change {A} (m : arena A) : prog A :=
  state ← load_state;
  '(a, state) ← logic m state;
  save_state state;;
  mret a.

Definition updating (m : arena unit) : prog bytes := change m;; mret OK.
Definition paying (m : arena transfers) : prog bytes := l ← change m; flush_transfers l;; mret OK.

(** ** Entry points *)

Definition init (args_ptr args_len : N) : guest :=
  export_fn (entry args_ptr args_len (fun args : InitArgs =>
    '(_, state) ← logic (apply_init (ia_owner args) (ia_platform args) (ia_fee_bps args) (ia_burn_bps args))
      default_ContractState;
    save_state state;;
    mret OK)).

Definition deposit (args_ptr args_len : N) : guest :=
  export_fn (entry args_ptr args_len (fun _ : DepositArgs =>
    caller ← get_caller;
    value ← get_value;
    updating (apply_deposit caller value))).

Definition withdraw (args_ptr args_len : N) : guest :=
  export_fn (entry args_ptr args_len (fun args : WithdrawArgs =>
    caller ← get_caller;
    paying (apply_withdraw caller (wa_amount args)))).

Definition lock_entries (args_ptr args_len : N) : guest :=
  export_fn (entry args_ptr args_len (fun args : LockEntriesArgs =>
    caller ← get_caller;
    ts ← get_block_timestamp;
    updating (apply_lock_entries caller (lea_game_hash args) (lea_players args) (lea_entry_fee args) ts))).

Definition settle_game (args_ptr args_len : N) : guest :=
  export_fn (entry args_ptr args_len (fun args : SettleGameArgs =>
    caller ← get_caller;
    paying (apply_settle_game caller (sga_game_hash args) (sga_winners args) (sga_amounts args)))).

Definition refund_game (args_ptr args_len : N) : guest :=
  export_fn (entry args_ptr args_len (fun args : RefundGameArgs =>
    caller ← get_caller;
    updating (apply_refund_game caller (rga_game_hash args)))).

Definition refund_game_emergency (args_ptr args_len : N) : guest :=
  export_fn (entry args_ptr args_len (fun args : EmergencyRefundArgs =>
    caller ← get_caller;
    now ← get_block_timestamp;
    updating (apply_emergency_refund caller (era_game_hash args) now))).

Definition claim_fees (args_ptr args_len : N) : guest :=
  export_fn (entry args_ptr args_len (fun _ : ClaimFeesArgs =>
    caller ← get_caller;
    paying (apply_claim_fees caller))).

Definition pause (args_ptr args_len : N) : guest :=
  export_fn (entry args_ptr args_len (fun _ : PauseArgs =>
    caller ← get_caller;
    updating (apply_pause caller))).

Definition unpause (args_ptr args_len : N) : guest :=
  export_fn (entry args_ptr args_len (fun _ : PauseArgs =>
    caller ← get_caller;
    updating (apply_unpause caller))).

Definition cleanup_games (args_ptr args_len : N) : guest :=
  export_fn (entry args_ptr args_len (fun args : CleanupGamesArgs =>
    caller ← get_caller;
    updating (apply_cleanup_games caller (cga_hashes args)))).

(** The exports by name; all take [args_ptr] and [args_len]. *)
Definition arena_export (name : string) : option (N -> N -> guest) :=
  (if decide (name = "init") then Some init
  else if decide (name = "deposit") then Some deposit
  else if decide (name = "withdraw") then Some withdraw
  else if decide (name = "lock_entries") then Some lock_entries
  else if decide (name = "settle_game") then Some settle_game
  else if decide (name = "refund_game") then Some refund_game
  else if decide (name = "refund_game_emergency") then Some refund_game_emergency
  else if decide (name = "claim_fees") then Some claim_fees
  else if decide (name = "pause") then Some pause
  else if decide (name = "unpause") then Some unpause
  else if decide (name = "cleanup_games") then Some cleanup_games
  else None)%string.
End entries.
