(* ===== verification/ArenaLedger.v ===== *)
(** * The arena pool keeps its players' money

    The calls of the arena pool as steps of a vault, the contract's state with
    the native balance it holds: solvency is kept by every call of anybody, as
    long as the platform locks distinct players and settles amounts whose sum
    does not wrap; what goes wrong otherwise; and the players' way out. *)

From stdpp Require Import relations.
From S2P Require Import Prelude Interfaces Types Concrete ArenaPool.

(** ** Calls *)

Inductive arena_call : Type :=
  | C_deposit
  | C_withdraw (amount : N)
  | C_lock_entries (game_hash : bytes) (players : list bytes) (entry_fee : N)
  | C_settle_game (game_hash : bytes) (winners : list bytes) (amounts : list N)
  | C_refund_game (game_hash : bytes)
  | C_refund_game_emergency (game_hash : bytes)
  | C_claim_fees
  | C_pause
  | C_unpause
  | C_cleanup_games (hashes : list bytes).

(** Who calls, with how much money, and when. *)
Record msg : Type := mkMsg { msg_caller : bytes; msg_value : N; msg_now : N }.

Definition silent (m : arena unit) : arena transfers := m;; mret [].

Definition run_call (m : msg) (c : arena_call) : arena transfers :=
  match c with
  | C_deposit => silent (apply_deposit (msg_caller m) (msg_value m))
  | C_withdraw amount => apply_withdraw (msg_caller m) amount
  | C_lock_entries game players fee => silent (apply_lock_entries (msg_caller m) game players fee (msg_now m))
  | C_settle_game game winners amounts => apply_settle_game (msg_caller m) game winners amounts
  | C_refund_game game => silent (apply_refund_game (msg_caller m) game)
  | C_refund_game_emergency game => silent (apply_emergency_refund (msg_caller m) game (msg_now m))
  | C_claim_fees => apply_claim_fees (msg_caller m)
  | C_pause => silent (apply_pause (msg_caller m))
  | C_unpause => silent (apply_unpause (msg_caller m))
  | C_cleanup_games hashes => silent (apply_cleanup_games (msg_caller m) hashes)
  end.

(** What is asked of the platform: distinct players, a sum that does not wrap. *)
Definition well_formed (c : arena_call) : Prop :=
  match c with
  | C_lock_entries _ players _ => NoDup players
  | C_settle_game _ _ amounts => lsum id amounts < TWO128
  | _ => True
  end.

(** ** Solvency *)

Definition at_stake (g : GameInfo) (a : bytes) : N :=
  if decide (gi_status g = ACTIVE /\ a ∈ gi_players g) then gi_entry_fee g else 0.

(** The contract holds the balances and the fees, and every player's locked part
    is what its active games have at stake, within its balance. *)
Record solvent (held : N) (s : ContractState) : Prop := {
  sv_covered : map_total (ap_balance s) + ap_total_fees_collected s <= held;
  sv_locked : forall a, amount_of (ap_locked s) a = msum (fun g => at_stake g a) (ap_games s);
  sv_within : forall a, amount_of (ap_locked s) a <= amount_of (ap_balance s) a;
  sv_distinct : map_Forall (fun _ g => NoDup (gi_players g)) (ap_games s);
  sv_rates : ap_fee_bps s + ap_burn_bps s <= 10000;
}.

Lemma available_spec s a : available s a = amount_of (ap_balance s) a - amount_of (ap_locked s) a.
Proof. unfold available, sat_sub. by rewrite !amount_of_default. Qed.

Lemma locked_total held s : solvent held s -> map_total (ap_locked s) <= map_total (ap_balance s).
Proof. intros Hs. apply total_mono. intros k. apply (sv_within _ _ Hs). Qed.

(** The loops over the players, as changes of the three maps. *)
Lemma lock_loop fee players s :
  foldl (fun s p => s <| ap_locked ::= entry_add TWO128 p fee |>) s players
  = s <| ap_locked ::= fun m => foldl (fun m p => entry_add TWO128 p.1 p.2 m) m ((fun p => (p, fee)) <$> players) |>.
Proof. revert s. induction players as [| p l IH]; intros s; [by destruct s | simpl; by rewrite IH]. Qed.

Lemma unlock_loop fee players s :
  foldl (fun s p => s <| ap_locked ::= entry_sub TWO128 p fee |>) s players
  = s <| ap_locked ::= fun m => foldl (fun m p => entry_sub TWO128 p fee m) m players |>.
Proof. revert s. induction players as [| p l IH]; intros s; [by destruct s | simpl; by rewrite IH]. Qed.

Lemma collect_loop fee players s :
  foldl (fun s p => s <| ap_balance ::= entry_sub TWO128 p fee |> <| ap_locked ::= entry_sub TWO128 p fee |>) s players
  = s <| ap_balance ::= fun m => foldl (fun m p => entry_sub TWO128 p fee m) m players |>
      <| ap_locked ::= fun m => foldl (fun m p => entry_sub TWO128 p fee m) m players |>.
Proof. revert s. induction players as [| p l IH]; intros s; [by destruct s | simpl; by rewrite IH]. Qed.

Lemma pay_loop (wins : list (bytes * N)) s :
  foldl (fun s wa => s <| ap_balance ::= entry_add TWO128 wa.1 wa.2 |>) s wins
  = s <| ap_balance ::= fun m => foldl (fun m p => entry_add TWO128 p.1 p.2 m) m wins |>.
Proof. revert s. induction wins as [| p l IH]; intros s; [by destruct s | simpl; by rewrite IH]. Qed.

Lemma cleanup_loop hashes s :
  foldl (fun s hash => s <| ap_games ::= delete hash |>) s hashes
  = s <| ap_games ::= fun m => foldl (fun m hash => delete hash m) m hashes |>.
Proof. revert s. induction hashes as [| p l IH]; intros s; [by destruct s | simpl; by rewrite IH]. Qed.

Lemma stake_insert game g s a :
  msum (fun g => at_stake g a) (<[game := g]> (ap_games s)) + from_option (fun g => at_stake g a) 0 (ap_games s !! game)
  = at_stake g a + msum (fun g => at_stake g a) (ap_games s).
Proof. apply (msum_insert (fun g => at_stake g a)). Qed.

Lemma at_stake_closed g a : gi_status g <> ACTIVE -> at_stake g a = 0.
Proof. intros Hg. unfold at_stake. by rewrite decide_False by (by intros [? _]). Qed.

Lemma at_stake_active g a :
  gi_status g = ACTIVE -> at_stake g a = if decide (a ∈ gi_players g) then gi_entry_fee g else 0.
Proof.
  intros Hg. unfold at_stake. destruct (decide (a ∈ gi_players g)).
  - by rewrite decide_True.
  - by rewrite decide_False by (by intros [_ ?]).
Qed.

(** Unlocking the players of an active game, and closing it. *)
Lemma close_game held s game g status :
  solvent held s -> held < TWO128 -> ap_games s !! game = Some g -> gi_status g = ACTIVE -> status <> ACTIVE ->
  let locked' := foldl (fun m p => entry_sub TWO128 p (gi_entry_fee g) m) (ap_locked s) (gi_players g) in
  let games' := alter (fun g => g <| gi_status := status |>) game (ap_games s) in
  (forall a, amount_of locked' a + (if decide (a ∈ gi_players g) then gi_entry_fee g else 0) = amount_of (ap_locked s) a)
  /\ (forall a, amount_of locked' a = msum (fun g => at_stake g a) games')
  /\ (forall a, a ∈ gi_players g -> gi_entry_fee g <= amount_of (ap_locked s) a)
  /\ map_Forall (fun _ g => NoDup (gi_players g)) games'.
Proof.
  intros Hs Hheld Hg Hact Hst locked' games'. pose proof (locked_total _ _ Hs). destruct Hs as [H1 H2 H3 H4 H5].
  assert (forall a, a ∈ gi_players g -> gi_entry_fee g <= amount_of (ap_locked s) a) as Hfee.
  { intros a Ha. rewrite H2. etrans; [| apply (mval_le (fun g => at_stake g a) _ game)].
    rewrite (mval_Some _ _ _ _ Hg), at_stake_active, decide_True by done. lia. }
  destruct (entries_sub TWO128 (gi_players g) (gi_entry_fee g) (ap_locked s)) as [_ Ha];
    [by apply (H4 game) | lia | done |]. fold locked' in Ha.
  split_and!; [done | | done |].
  - intros a. unfold games'. rewrite (alter_as_insert _ _ _ _ Hg).
    pose proof (stake_insert game (g <| gi_status := status |>) s a) as Hi.
    rewrite Hg in Hi. simpl in Hi. rewrite (at_stake_closed (g <| gi_status := status |>)), at_stake_active in Hi by done.
    specialize (Ha a). rewrite H2 in Ha. lia.
  - unfold games'. rewrite (alter_as_insert _ _ _ _ Hg). apply map_Forall_insert_2; [exact (H4 _ _ Hg) | exact H4].
Qed.

(** ** One call *)

(** A bound on the money in play that leaves room for the percentages. *)
Definition VAULT_BOUND : N := 2 ^ 112.

Section calls.
Context (held value : N).
Hypothesis (Hbound : held + value < VAULT_BOUND).

Definition pays (ts : transfers) (s' : ContractState) : Prop :=
  lsum snd ts <= held + value /\ solvent (held + value - lsum snd ts) s'.

Lemma bound_128 : held + value < TWO128.
Proof. unfold VAULT_BOUND in Hbound. change TWO128 with (2 ^ 112 * 2 ^ 16). lia. Qed.

Lemma solvent_keeps s s' :
  solvent held s -> ap_balance s' = ap_balance s -> ap_locked s' = ap_locked s -> ap_games s' = ap_games s ->
  ap_fee_bps s' = ap_fee_bps s -> ap_burn_bps s' = ap_burn_bps s ->
  ap_total_fees_collected s' = ap_total_fees_collected s -> pays [] s'.
Proof.
  intros [H1 H2 H3 H4 H5] E1 E2 E3 E4 E5 E6. split; simpl; [lia |].
  constructor; rewrite ?E1, ?E2, ?E3, ?E4, ?E5, ?E6; [lia | done..].
Qed.

Lemma deposit_pays m s ts s' :
  msg_value m = value -> solvent held s -> run_call m C_deposit s = (Ok ts, s') -> pays ts s'.
Proof.
  pose proof bound_128 as Hb. intros Hv Hs Hrun. simpl in Hrun. unfold silent, apply_deposit, arena_require in Hrun.
  st_inv. bools. pose proof (locked_total _ _ Hs). destruct Hs as [S1 S2 S3 S4 S5]. rewrite Hv in *.
  split; simpl; [lia |]. constructor; upd; try done.
  - rewrite total_entry_add by lia. lia.
  - intros a. rewrite amount_entry_add by lia. specialize (S3 a). lia.
Qed.

Lemma withdraw_pays m amount s ts s' :
  solvent held s -> run_call m (C_withdraw amount) s = (Ok ts, s') -> pays ts s'.
Proof.
  pose proof bound_128 as Hb. intros Hs Hrun. simpl in Hrun. unfold apply_withdraw, arena_require in Hrun.
  st_inv. bools. destruct Hs as [S1 S2 S3 S4 S5].
  match goal with H : amount <= available _ _ |- _ => rewrite available_spec in H; rename H into Hav end.
  pose proof (S3 (msg_caller m)). pose proof (amount_le_total (ap_balance s) (msg_caller m)).
  split; simpl; [lia |]. constructor; upd; try done.
  - rewrite total_entry_sub by lia. lia.
  - intros a. rewrite amount_entry_sub by lia. specialize (S3 a). case_decide; [subst | lia]. lia.
Qed.
(** A loop of updates, as the state it leaves. *)
Ltac loops :=
  repeat match goal with
  | H : for_each (fun x => st_modify _) _ _ = (Ok _, _) |- _ =>
      rewrite (for_each_modify (fun x s => _)) in H; injection H as _ <-
  end.

Lemma lock_pays m game players fee s ts s' :
  NoDup players -> solvent held s -> run_call m (C_lock_entries game players fee) s = (Ok ts, s') -> pays ts s'.
Proof.
  pose proof bound_128 as Hb. intros Hnd Hs Hrun. simpl in Hrun.
  unfold silent, apply_lock_entries, arena_require in Hrun.
  apply bind_Ok in Hrun as ([] & s1 & Hrun & Hret). st_inv. bools. loops.
  match goal with H : for_each _ players s = _ |- _ =>
    apply for_each_readonly in H as [-> Hav]; [| intros; apply readonly_fail_if] end.
  assert (forall p, p ∈ players -> fee + amount_of (ap_locked s) p <= amount_of (ap_balance s) p) as Hfee.
  { intros p Hp. specialize (Hav p Hp). unfold fail_if in Hav. pose proof (available_spec s p).
    destruct (N.leb_spec fee (available s p)); simpl in Hav; [| done].
    pose proof (sv_within _ _ Hs p). lia. }
  clear Hav. rewrite lock_loop. destruct Hs as [S1 S2 S3 S4 S5].
  set (locked' := foldl (fun (m : gmap bytes N) (p : bytes * N) => entry_add TWO128 p.1 p.2 m) (ap_locked s)
    ((fun p => (p, fee)) <$> players)).
  assert (forall a, amount_of locked' a = amount_of (ap_locked s) a + if decide (a ∈ players) then fee else 0) as Hl.
  { intros a. unfold locked'. rewrite <- (lsum_once fee players a Hnd). apply amount_entries_add.
    rewrite lsum_fmap. unfold compose. simpl. rewrite lsum_const.
    pose proof (total_mono_plus _ _ _ _ Hnd S3 Hfee). lia. }
  split; simpl; [lia |]. constructor; upd; fold locked'; try done.
  - lia.
  - intros a. rewrite Hl, S2. pose proof (stake_insert game (mkGameInfo ACTIVE fee (msg_now m) players) s a) as Hi.
    rewrite at_stake_active in Hi by done.
    match goal with H : ap_games s !! game = None |- _ => rewrite H in Hi end. simpl in Hi. lia.
  - intros a. rewrite Hl. specialize (Hfee a). specialize (S3 a). case_decide; [| lia]. specialize (Hfee ltac:(done)). lia.
  - by apply map_Forall_insert_2.
Qed.


(** The winners, the fee and the burn share out the pool exactly: the rates leave
    no room for the sum to wrap. *)
Lemma settle_split n fee fee_bps burn_bps amounts :
  n * fee < VAULT_BOUND -> fee_bps + burn_bps <= 10000 -> lsum id amounts < TWO128 ->
  let pool := u128_mul n fee in
  let platform_fee := u128_mul pool fee_bps / 10000 in
  let burn := u128_mul pool burn_bps / 10000 in
  u128_add (u128_add (wsum TWO128 id amounts) platform_fee) burn = pool ->
  lsum id amounts + platform_fee + burn = n * fee.
Proof.
  intros Hp Hbps Ham pool pf burn. unfold VAULT_BOUND in Hp.
  assert (pool = n * fee) as Hpool by (apply wmul_small; lia).
  assert (pf = pool * fee_bps / 10000) as Hpf by (unfold pf; rewrite wmul_small; [done | rewrite Hpool; nia]).
  assert (burn = pool * burn_bps / 10000) as Hbn by (unfold burn; rewrite wmul_small; [done | rewrite Hpool; nia]).
  assert (pf + burn <= pool) as Hle.
  { rewrite Hpf, Hbn. pose proof (N.Div0.mul_div_le (pool * fee_bps) 10000).
    pose proof (N.Div0.mul_div_le (pool * burn_bps) 10000). nia. }
  rewrite wsum_exact by done. intros Heq. unfold wadd in Heq. rewrite N.Div0.add_mod_idemp_l in Heq.
  pose proof (N.div_mod (lsum id amounts + pf + burn) TWO128 ltac:(discriminate)) as Hdm. rewrite Heq in Hdm.
  assert ((lsum id amounts + pf + burn) / TWO128 < 2) as Hq by (apply N.Div0.div_lt_upper_bound; lia).
  rewrite <- Hpool. nia.
Qed.

(** A successful call, down to the tests it passed and the state it left. *)
Ltac arena_run H :=
  unfold silent, require_active, get_game, refund_players, set_status, arena_require in H; cbv zeta in H;
  st_inv; bools; loops.

Lemma settle_pays m game winners amounts s ts s' :
  lsum id amounts < TWO128 -> solvent held s ->
  run_call m (C_settle_game game winners amounts) s = (Ok ts, s') -> pays ts s'.
Proof.
  pose proof bound_128 as Hb. intros Ham Hs Hrun. simpl in Hrun. unfold apply_settle_game in Hrun. arena_run Hrun.
  match goal with H : for_each _ winners _ = _ |- _ =>
    apply for_each_readonly in H as [-> _]; [| intros; apply readonly_fail_if] end.
  match goal with H : ap_games s !! game = Some ?x |- _ => rename x into g, H into Hg end.
  match goal with H : gi_status g = ACTIVE |- _ => rename H into Hact end.
  match goal with H : (length winners =? length amounts)%nat = true |- _ => apply Nat.eqb_eq in H; rename H into Hlen end.
  match goal with H : u128_add _ _ = _ |- _ => rename H into Hsplit end.
  destruct (close_game held s game g SETTLED Hs ltac:(lia) Hg Hact ltac:(done)) as (G1 & G2 & G3 & G4).
  pose proof (locked_total _ _ Hs). destruct Hs as [S1 S2 S3 S4 S5].
  destruct (entries_sub TWO128 (gi_players g) (gi_entry_fee g) (ap_balance s)) as [B1 B2];
    [exact (S4 _ _ Hg) | lia | intros p Hp; etrans; [by apply G3 | done] |].
  apply settle_split in Hsplit; [| unfold VAULT_BOUND in *; lia | done | done].
  set (pool := u128_mul (N.of_nat _) (gi_entry_fee g)) in *.
  set (pf := u128_mul pool (ap_fee_bps s) / 10000) in *. set (bn := u128_mul pool (ap_burn_bps s) / 10000) in *.
  rewrite collect_loop, pay_loop.
  set (balance' := foldl (fun (m : gmap bytes N) p => entry_sub TWO128 p (gi_entry_fee g) m) (ap_balance s)
    (gi_players g)) in *.
  assert (lsum snd (zip winners amounts) = lsum id amounts) as Hsum.
  { clear -Hlen. revert amounts Hlen. induction winners as [| w l IH]; intros [| x am] Hlen; simpl in *; try done.
    rewrite (IH am) by lia. done. }
  assert (lsum snd (if 0 <? bn then [(BURN_ADDRESS, bn)] else []) = bn) as Hts
    by (destruct (N.ltb_spec 0 bn); simpl; lia).
  assert (map_total balance' + lsum snd (zip winners amounts) < TWO128) as Hroom by (rewrite Hsum; lia).
  split; rewrite Hts; [lia |]. constructor; upd; fold balance'.
  - rewrite total_entries_add, Hsum by done. rewrite wadd_small by lia. lia.
  - exact G2.
  - intros a. rewrite amount_entries_add by done. specialize (G1 a). specialize (B2 a). specialize (S3 a).
    fold balance' in B2. lia.
  - exact G4.
  - exact S5.
Qed.

Lemma refund_pays game g s u s' :
  solvent held s -> ap_games s !! game = Some g -> gi_status g = ACTIVE ->
  refund_players game g s = (Ok u, s') -> pays [] s'.
Proof.
  pose proof bound_128 as Hb. intros Hs Hg Hact Hrun. arena_run Hrun.
  destruct (close_game held s game g REFUNDED Hs ltac:(lia) Hg Hact ltac:(done)) as (G1 & G2 & G3 & G4).
  destruct Hs as [S1 S2 S3 S4 S5]. rewrite unlock_loop. split; simpl; [lia |]. constructor; upd; try done.
  - lia.
  - intros a. specialize (G1 a). specialize (S3 a). lia.
Qed.

Lemma claim_pays m s ts s' : solvent held s -> run_call m C_claim_fees s = (Ok ts, s') -> pays ts s'.
Proof.
  intros [S1 S2 S3 S4 S5] Hrun. simpl in Hrun. unfold apply_claim_fees in Hrun. arena_run Hrun.
  split; simpl; [lia |]. constructor; upd; try done. lia.
Qed.

Lemma delete_closed hashes : forall (m : gmap bytes GameInfo),
  (forall h g, h ∈ hashes -> m !! h = Some g -> gi_status g <> ACTIVE) ->
  map_Forall (fun _ g => NoDup (gi_players g)) m ->
  let m' := foldl (fun m h => delete h m) m hashes in
  (forall a, msum (fun g => at_stake g a) m' = msum (fun g => at_stake g a) m)
  /\ map_Forall (fun _ g => NoDup (gi_players g)) m'.
Proof.
  induction hashes as [| h l IH]; intros m Hc Hf; [done |]. simpl.
  destruct (IH (delete h m)) as [I1 I2].
  - intros h' g Hh' Hg. apply lookup_delete_Some in Hg as [_ Hg]. apply (Hc h'); [by right | done].
  - by apply map_Forall_delete.
  - split; [| done]. intros a. rewrite I1, (msum_delete _ m h). unfold mval.
    destruct (m !! h) as [g|] eqn:Hg; simpl; [| lia]. rewrite at_stake_closed; [lia |]. apply (Hc h g); [by left | done].
Qed.

Lemma cleanup_pays m hashes s ts s' :
  solvent held s -> run_call m (C_cleanup_games hashes) s = (Ok ts, s') -> pays ts s'.
Proof.
  intros Hs Hrun. simpl in Hrun. unfold apply_cleanup_games in Hrun. arena_run Hrun.
  match goal with H : for_each _ hashes _ = _ |- _ =>
    apply for_each_readonly in H as [-> Hall]; [| intros; apply readonly_bind; auto with claw] end.
  rewrite cleanup_loop. destruct Hs as [S1 S2 S3 S4 S5].
  destruct (delete_closed hashes (ap_games s)) as [D1 D2]; [| done |].
  - intros h g Hh Hg. specialize (Hall h Hh). rewrite bind_assoc, bind_get, bind_ok_or, Hg in Hall. unfold fail_if in Hall.
    destruct (N.eqb_spec (gi_status g) ACTIVE); [done | done].
  - split; simpl; [lia |]. constructor; upd; try done; [lia |]. intros a. by rewrite D1.
Qed.

Lemma call_pays m c s ts s' :
  msg_value m = value -> well_formed c -> solvent held s -> run_call m c s = (Ok ts, s') -> pays ts s'.
Proof.
  intros Hv Hwf Hs Hrun. destruct c; simpl in Hwf.
  - by eapply deposit_pays.
  - by eapply withdraw_pays.
  - by eapply lock_pays.
  - by eapply settle_pays.
  - simpl in Hrun. unfold silent in Hrun. st_inv.
    match goal with H : apply_refund_game _ _ _ = _ |- _ =>
      unfold apply_refund_game, require_active, get_game, arena_require in H; st_inv; bools; by eapply refund_pays end.
  - simpl in Hrun. unfold silent in Hrun. st_inv.
    match goal with H : apply_emergency_refund _ _ _ _ = _ |- _ =>
      unfold apply_emergency_refund, require_active, get_game, arena_require in H; st_inv; bools; by eapply refund_pays end.
  - by eapply claim_pays.
  - simpl in Hrun. unfold apply_pause in Hrun. arena_run Hrun. by apply (solvent_keeps s).
  - simpl in Hrun. unfold apply_unpause in Hrun. arena_run Hrun. by apply (solvent_keeps s).
  - by eapply cleanup_pays.
Qed.
End calls.

(** ** The vault over time *)

Record vault : Type := mkVault { v_held : N; v_state : ContractState }.

(** Any call of anybody; a call that panics is undone, its value with it. *)
Inductive vault_step (v : vault) : vault -> Prop :=
  | vs_called m c ts s' :
      v_held v + msg_value m < VAULT_BOUND -> well_formed c -> run_call m c (v_state v) = (Ok ts, s') ->
      vault_step v (mkVault (v_held v + msg_value m - lsum snd ts) s')
  | vs_panicked m c e s' : run_call m c (v_state v) = (Err e, s') -> vault_step v v.

Definition vault_solvent (v : vault) : Prop := solvent (v_held v) (v_state v).


Lemma for_each_pass {S E A} (f : A -> bool) (e : E) l (s : S) :
  (forall x, x ∈ l -> f x = true) -> for_each (fun x => fail_if (negb (f x)) e) l s = (Ok tt, s).
Proof.
  induction l as [| x l IH]; intros Hall; [done |]. simpl. rewrite bind_fail_if, Hall by left. simpl.
  apply IH. intros y Hy. apply Hall. by right.
Qed.

Lemma bind_require {B} (b : bool) msg (k : unit -> arena B) s :
  b = true -> (arena_require b msg ≫= k) s = k tt s.
Proof. by intros ->. Qed.

Lemma bind_require_all {A B} (f : A -> bool) msg l (k : unit -> arena B) s :
  (forall x, x ∈ l -> f x = true) -> (for_each (fun x => arena_require (f x) msg) l ≫= k) s = k tt s.
Proof. intros Hall. apply (bind_run _ _ _ _ _ (for_each_pass f msg l s Hall)). Qed.

Lemma bind_for_each_modify {A B} (f : A -> ContractState -> ContractState) l (k : unit -> arena B) s :
  (for_each (fun x => st_modify (f x)) l ≫= k) s = k tt (foldl (fun s x => f x s) s l).
Proof. apply (bind_run _ _ _ _ _ (for_each_modify f l s)). Qed.

(** Runs a call forward, discharging the tests that compute or are assumed. *)
Ltac arena_pass :=
  first [ reflexivity | assumption | by apply bool_decide_eq_true_2 | by apply N.ltb_lt | by apply N.leb_le
        | by apply N.eqb_eq | by apply N.leb_le; lia | by apply N.ltb_lt; lia ].
Ltac arena_step :=
  match goal with
  | |- mbind _ (mbind _ _) _ = _ => rewrite bind_assoc
  | |- mbind _ st_get _ = _ => rewrite bind_get
  | |- mbind _ (arena_require _ _) _ = _ => rewrite bind_require by arena_pass
  | |- mbind _ (for_each (fun x => st_modify _) _) _ = _ => rewrite (bind_for_each_modify (fun x s => _))
  | |- mbind _ (st_modify _) _ = _ => rewrite bind_modify
  | |- mbind _ (ok_or _ _) _ = _ => rewrite bind_ok_or
  end.


(** ** What is not protected *)

(** The arena pool can be emptied by anyone: [init] may be called at any
    time, by anyone, and forgets every balance, game and fee; whoever calls it
    becomes owner and platform, deposits one unit, locks itself twice in a game
    for that unit and settles it, which takes the stake twice from its balance and
    wraps it around; every amount below 2^128 is then available to it, and the
    contract asks for its transfer. *)
Theorem arena_drained (s : ContractState) a game held now1 now2 :
  0 < held < TWO128 ->
  exists s1 s2 s3 s4 s5,
    init_entry a a 10000 0 s = (Ok tt, s1)
    /\ run_call (mkMsg a 1 now1) C_deposit s1 = (Ok [], s2)
    /\ run_call (mkMsg a 0 now1) (C_lock_entries game [a; a] 1) s2 = (Ok [], s3)
    /\ run_call (mkMsg a 0 now1) (C_settle_game game [] []) s3 = (Ok [], s4)
    /\ run_call (mkMsg a 0 now2) (C_withdraw held) s4 = (Ok [(a, held)], s5).
Proof.
  intros Hh.
  set (s1 := mkContractState 1 false a a 10000 0 ∅ ∅ ∅ 0).
  set (s2 := s1 <| ap_balance ::= entry_add TWO128 a 1 |>).
  set (s3 := s2 <| ap_locked ::= entry_add TWO128 a 1 |> <| ap_locked ::= entry_add TWO128 a 1 |>
               <| ap_games ::= <[game := mkGameInfo ACTIVE 1 now1 [a; a]]> |>).
  set (s4 := s3 <| ap_balance ::= entry_sub TWO128 a 1 |> <| ap_locked ::= entry_sub TWO128 a 1 |>
               <| ap_balance ::= entry_sub TWO128 a 1 |> <| ap_locked ::= entry_sub TWO128 a 1 |>
               <| ap_total_fees_collected ::= fun f => u128_add f 2 |>
               <| ap_games ::= alter (fun g => g <| gi_status := SETTLED |>) game |>).
  assert (available s2 a = 1) as H2 by (unfold available; simpl; unfold entry_add; by rewrite lookup_insert_eq).
  assert (available s4 a = TWO128 - 1) as H4.
  { unfold available. change (ap_balance s4) with (entry_sub TWO128 a 1 (entry_sub TWO128 a 1 (entry_add TWO128 a 1 ∅))).
    change (ap_locked s4) with (entry_sub TWO128 a 1 (entry_sub TWO128 a 1 (entry_add TWO128 a 1 (entry_add TWO128 a 1 ∅)))).
    unfold entry_add, entry_sub. by rewrite !lookup_insert_eq, lookup_empty. }
  assert (ap_games s3 !! game = Some (mkGameInfo ACTIVE 1 now1 [a; a])) as Hg by apply lookup_insert_eq.
  exists s1, s2, s3, s4, (s4 <| ap_balance ::= entry_sub TWO128 a held |>). split_and!.
  - reflexivity.
  - reflexivity.
  - cbn [run_call msg_caller msg_now]. unfold silent, apply_lock_entries. repeat arena_step.
    rewrite bind_require_all by (intros x Hx; assert (x = a) as -> by set_solver; by rewrite H2).
    repeat arena_step. reflexivity.
  - cbn [run_call msg_caller]. unfold apply_settle_game, get_game, require_active, set_status. repeat arena_step.
    rewrite Hg. repeat arena_step. rewrite bind_require_all by (by intros x Hx%elem_of_nil).
    cbv zeta. repeat arena_step. reflexivity.
  - cbn [run_call msg_caller]. unfold apply_withdraw. repeat arena_step.
    reflexivity.
Qed.

(** ** Witnesses *)

Definition alice : bytes := toy_addr 1.
Definition bob : bytes := toy_addr 2.
Definition platform : bytes := toy_addr 3.
Definition the_game : bytes := toy_addr 9.

Definition fresh_pool : ContractState := (init_entry platform platform 300 200 default_ContractState).2.

Definition after (m : msg) (c : arena_call) (s : ContractState) : ContractState := (run_call m c s).2.

(** Alice and Bob deposit 1000 each and play for 100. *)
Definition alice_in : ContractState := after (mkMsg alice 1000 400) C_deposit fresh_pool.
Definition bob_in : ContractState := after (mkMsg bob 1000 400) C_deposit alice_in.
Definition playing : ContractState := after (mkMsg platform 0 500) (C_lock_entries the_game [alice; bob] 100) bob_in.

Lemma fresh_solvent : vault_solvent (mkVault 0 fresh_pool).
Proof. by constructor. Qed.

Lemma called held m c ts s :
  held + msg_value m < VAULT_BOUND -> well_formed c -> (run_call m c s).1 = Ok ts ->
  vault_step (mkVault held s) (mkVault (held + msg_value m - lsum snd ts) (after m c s)).
Proof. intros Hb Hwf Hrun. refine (vs_called (mkVault held s) m c ts _ Hb Hwf _). by apply run_eq. Qed.

Lemma playing_reached : rtc vault_step (mkVault 0 fresh_pool) (mkVault 2000 playing).
Proof.
  pose proof (called 0 (mkMsg alice 1000 400) C_deposit [] fresh_pool ltac:(reflexivity) I ltac:(vm_compute; reflexivity)) as H1.
  pose proof (called 1000 (mkMsg bob 1000 400) C_deposit [] alice_in ltac:(reflexivity) I ltac:(vm_compute; reflexivity)) as H2.
  assert (NoDup [alice; bob]) as Hnd by
    (apply NoDup_cons; split; [intros H%list_elem_of_singleton; discriminate H | apply NoDup_singleton]).
  pose proof (called 2000 (mkMsg platform 0 500) (C_lock_entries the_game [alice; bob] 100) [] bob_in
    ltac:(reflexivity) Hnd ltac:(vm_compute; reflexivity)) as H3.
  eapply rtc_l; [exact H1 |]. eapply rtc_l; [exact H2 |]. exact (rtc_once _ _ H3).
Qed.



Lemma arena_drained_witness :
  exists s4 s5, run_call (mkMsg bob 0 700) (C_withdraw 2000) s4 = (Ok [(bob, 2000)], s5).
Proof.
  destruct (arena_drained playing bob the_game 2000 600 700) as (s1 & s2 & s3 & s4 & s5 & _ & _ & _ & _ & H);
    [split; reflexivity |]. by exists s4, s5.
Defined.
