(* ===== verification/RewardVault.v ===== *)
(** * The reward vault contract ([contracts/reward-vault])

    The storage keys of [types.rs], the environment of [mock.rs] and the business
    rules of [logic.rs], which are the contract as its authors test it.  A panic
    and an [Err] are both errors of the monad; what has been written before stays
    written. *)

From stdpp Require Import pretty.
From S2P Require Import Prelude Interfaces Types Utf8.

(** ** Keys ([types.rs]) *)

Definition hex_digit (n : N) : Byte.byte := byte_of_N (if n <? 10 then 48 + n else 87 + n).

(** [format!("{:02x}", b)] of every byte. *)
Definition addr_to_hex (addr : bytes) : bytes :=
  b ← addr; [hex_digit (Byte.to_N b / 16); hex_digit (Byte.to_N b mod 16)].

(** Decimal digits of [n]. *)
Definition decimal (n : N) : bytes := as_bytes (pretty n).

Definition platform_key (addr : bytes) : bytes := lit "platform:" ++ addr_to_hex addr.
Definition claimed_key (addr : bytes) (day : N) : bytes := lit "claimed:" ++ addr_to_hex addr ++ lit ":" ++ decimal day.
Definition nonce_key (addr : bytes) : bytes := lit "nonce:" ++ addr_to_hex addr.
Definition day_from_timestamp (ts : N) : N := ts / 86400.

Definition KEY_VERSION : bytes := lit "version".
Definition KEY_PAUSED : bytes := lit "paused".
Definition KEY_OWNER : bytes := lit "owner".
Definition KEY_DAILY_CAP : bytes := lit "daily_cap".
Definition KEY_MIN_GAMES : bytes := lit "min_games".

(** ** The environment ([mock.rs]) *)

Record MockEnv : Type := mkMockEnv {
  me_storage : gmap bytes bytes;
  me_caller : bytes;
  me_value : N;
  me_timestamp : N;
  me_balances : gmap bytes N;
  me_contract_address : bytes;
}.

Definition eta_MockEnv (e : MockEnv) : MockEnv :=
  mkMockEnv (me_storage e) (me_caller e) (me_value e) (me_timestamp e) (me_balances e) (me_contract_address e).
#[export] Instance upd_me_storage : Update me_storage := ltac:(solve_update eta_MockEnv me_storage).
#[export] Instance upd_me_caller : Update me_caller := ltac:(solve_update eta_MockEnv me_caller).
#[export] Instance upd_me_value : Update me_value := ltac:(solve_update eta_MockEnv me_value).
#[export] Instance upd_me_timestamp : Update me_timestamp := ltac:(solve_update eta_MockEnv me_timestamp).
#[export] Instance upd_me_balances : Update me_balances := ltac:(solve_update eta_MockEnv me_balances).

Definition MockEnv_new : MockEnv :=
  let contract_address := replicate 32 xcc in
  mkMockEnv ∅ zeros32 0 0 {[ contract_address := 0 ]} contract_address.

Abbreviation vault := (ST MockEnv string).

Definition mock_get_balance (env : MockEnv) (addr : bytes) : N := default 0 (me_balances env !! addr).

Definition mock_transfer (to : bytes) (amount : N) : vault unit :=
  env ← st_get;
  let contract_bal := mock_get_balance env (me_contract_address env) in
  fail_if (contract_bal <? amount)
    ("mock: insufficient balance (" +:+ pretty contract_bal +:+ " < " +:+ pretty amount +:+ ")")%string;;
  st_modify (fun env => env <| me_balances ::= entry_sub TWO128 (me_contract_address env) amount |>);;
  st_modify (fun env => env <| me_balances ::= entry_add TWO128 to amount |>).

Definition credit_contract (amount : N) : vault unit :=
  st_modify (fun env => env <| me_balances ::= entry_add TWO128 (me_contract_address env) amount |>).

Definition storage_set (key value : bytes) : vault unit := st_modify (fun env => env <| me_storage ::= <[key := value]> |>).
Definition storage_remove (key : bytes) : vault unit := st_modify (fun env => env <| me_storage ::= delete key |>).
Definition storage_exists (env : MockEnv) (key : bytes) : bool := bool_decide (is_Some (me_storage env !! key)).

(** [b.first().copied().unwrap_or(0)] of a stored value, 0 without one. *)
Definition first_byte (v : option bytes) : N := match v with Some (b :: _) => Byte.to_N b | _ => 0 end.

(** [uN::from_le_bytes(b[..n])] of a stored value, 0 without one; a value that is
    too short panics. *)
Definition le_prefix (n : nat) (v : option bytes) : vault N :=
  match v with
  | None => mret 0
  | Some b => if (n <=? length b)%nat then mret (le_value (take n b)) 
      else st_throw ("range end index " +:+ pretty (N.of_nat n) +:+ " out of range for slice of length " +:+ pretty (blen b))%string
  end.

(** ** The rules ([logic.rs]) *)

(** The encodings of [u32] and [[u8; 32]]. *)
Class VaultCodec : Type := {
  codec_u32 :: Borsh N;
  codec_owner :: Borsh bytes;
}.

Section logic.
Context `{VC : VaultCodec}.

Definition apply_init (owner : bytes) (daily_cap min_games : N) (platforms : list bytes) : vault unit :=
  env ← st_get;
  fail_if (storage_exists env KEY_VERSION) "already initialized"%string;;
  storage_set KEY_VERSION (to_vec 1);;
  storage_set KEY_OWNER (to_vec owner);;
  storage_set KEY_DAILY_CAP (le128 daily_cap);;
  storage_set KEY_MIN_GAMES (le64 min_games);;
  storage_set KEY_PAUSED [x00];;
  for_each (fun addr => storage_set (platform_key addr) [x01]) platforms.

Definition apply_fund : vault unit :=
  env ← st_get;
  if 0 <? me_value env then credit_contract (me_value env) else mret tt.

Definition apply_claim_reward (recipient : bytes) (amount nonce : N) : vault unit :=
  env ← st_get;
  fail_if (first_byte (me_storage env !! KEY_PAUSED) =? 1) "paused: contract is paused"%string;;
  fail_if (negb (first_byte (me_storage env !! platform_key (me_caller env)) =? 1))
    ("unauthorized: " +:+ string_of_bytes (addr_to_hex (me_caller env)) +:+ " is not an authorised platform")%string;;
  stored_nonce ← le_prefix 8 (me_storage env !! nonce_key recipient);
  fail_if (negb (stored_nonce =? nonce))
    ("nonce mismatch: expected " +:+ pretty stored_nonce +:+ ", got " +:+ pretty nonce)%string;;
  let ckey := claimed_key recipient (day_from_timestamp (me_timestamp env)) in
  already_claimed ← le_prefix 16 (me_storage env !! ckey);
  daily_cap ← le_prefix 16 (me_storage env !! KEY_DAILY_CAP);
  fail_if (TWO128 <=? already_claimed + amount) "daily cap: arithmetic overflow"%string;;
  let new_total := already_claimed + amount in
  fail_if (daily_cap <? new_total)
    ("daily cap exceeded: " +:+ pretty already_claimed +:+ " + " +:+ pretty amount +:+ " > " +:+ pretty daily_cap)%string;;
  let balance := mock_get_balance env (me_contract_address env) in
  fail_if (balance <? amount)
    ("insufficient vault balance: " +:+ pretty balance +:+ " < " +:+ pretty amount)%string;;
  storage_set ckey (le128 new_total);;
  storage_set (nonce_key recipient) (le64 (u64_add stored_nonce 1));;
  mock_transfer recipient amount.

(** [borsh::from_slice::<[u8; 32]>(&b).ok().expect("owner not set")]. *)
Definition read_owner : vault bytes :=
  env ← st_get;
  ok_or (me_storage env !! KEY_OWNER ≫= fun b => match try_from_slice b with Ok owner => Some owner | Err _ => None end)
    "owner not set"%string.

Definition require_owner : vault unit :=
  env ← st_get;
  owner ← read_owner;
  fail_if (negb (bool_decide (me_caller env = owner)))
    ("caller is not the owner: " +:+ string_of_bytes (addr_to_hex (me_caller env)))%string.

Definition apply_set_daily_cap (new_cap : N) : vault unit := require_owner;; storage_set KEY_DAILY_CAP (le128 new_cap).
Definition apply_add_platform (addr : bytes) : vault unit := require_owner;; storage_set (platform_key addr) [x01].
Definition apply_remove_platform (addr : bytes) : vault unit := require_owner;; storage_remove (platform_key addr).
Definition apply_pause : vault unit := require_owner;; storage_set KEY_PAUSED [x01].
Definition apply_unpause : vault unit := require_owner;; storage_set KEY_PAUSED [x00].

Definition apply_withdraw (amount : N) : vault unit :=
  require_owner;;
  env ← st_get;
  let balance := mock_get_balance env (me_contract_address env) in
  fail_if (balance <? amount)
    ("insufficient vault balance: " +:+ pretty balance +:+ " < " +:+ pretty amount)%string;;
  owner ← read_owner;
  mock_transfer owner amount.

Definition apply_get_daily_claimed (addr : bytes) : vault N :=
  env ← st_get;
  le_prefix 16 (me_storage env !! claimed_key addr (day_from_timestamp (me_timestamp env))).

(** [0u64..before_day]. *)
Definition days_before (before_day : N) : list N := N.of_nat <$> seq 0 (N.to_nat before_day).

Definition remove_if_there (key : bytes) : vault unit :=
  env ← st_get;
  if storage_exists env key then storage_remove key else mret tt.

Definition apply_cleanup_claims (before_day : N) (addrs : list bytes) : vault unit :=
  require_owner;;
  for_each (fun addr => for_each (fun day => remove_if_there (claimed_key addr day)) (days_before before_day)) addrs.
End logic.
