(* ===== verification/VaultLedger.v ===== *)
(** * The reward vault keeps its promises

    Over every sequence of calls of the vault, and whatever the ledger does to its
    balance in between: what a recipient gets in a day stays within the daily cap,
    a nonce is used once, [init] works once, and only the owner governs. *)

From stdpp Require Import pretty relations.
From S2P Require Import Prelude Interfaces Types Concrete Utf8 RewardVault.

(** ** Keys *)
Lemma hex_digit_inj a b : a < 16 -> b < 16 -> hex_digit a = hex_digit b -> a = b.
Proof.
  intros Ha Hb Heq. apply (f_equal Byte.to_N) in Heq. unfold hex_digit in Heq.
  destruct (N.ltb_spec a 10), (N.ltb_spec b 10); rewrite !byte_to_of_N in Heq by lia; lia.
Qed.

Lemma addr_to_hex_cons x a :
  addr_to_hex (x :: a) = hex_digit (Byte.to_N x / 16) :: hex_digit (Byte.to_N x mod 16) :: addr_to_hex a.
Proof. done. Qed.

Lemma addr_to_hex_inj : Inj (=) (=) addr_to_hex.
Proof.
  intros a. induction a as [| x a IH]; intros [| y b] Heq; try discriminate Heq; [done |].
  rewrite !addr_to_hex_cons in Heq. injection Heq as H1 H2 Heq. f_equal; [| by apply IH].
  pose proof (Byte.to_N_bounded x). pose proof (Byte.to_N_bounded y).
  apply hex_digit_inj in H1; [| apply N.Div0.div_lt_upper_bound; lia ..].
  apply hex_digit_inj in H2; [| apply N.mod_lt; lia ..].
  assert (Byte.to_N x = Byte.to_N y) as Hxy
    by (rewrite (N.div_mod' (Byte.to_N x) 16), (N.div_mod' (Byte.to_N y) 16); congruence).
  apply (f_equal Byte.of_N) in Hxy. rewrite !Byte.of_to_N in Hxy. congruence.
Qed.

Lemma length_addr_to_hex a : length (addr_to_hex a) = (2 * length a)%nat.
Proof. induction a as [| x a IH]; [done |]. rewrite addr_to_hex_cons. simpl. rewrite IH. lia. Qed.

Lemma claimed_key_inj r1 r2 d1 d2 :
  length r1 = 32%nat -> length r2 = 32%nat -> claimed_key r1 d1 = claimed_key r2 d2 -> r1 = r2 /\ d1 = d2.
Proof.
  intros H1 H2 Heq. unfold claimed_key in Heq. apply app_inv_head in Heq.
  apply app_inj_1 in Heq as [Hr Hd]; [| by rewrite !length_addr_to_hex, H1, H2].
  apply addr_to_hex_inj in Hr. apply app_inv_head in Hd. split; [done |].
  apply (f_equal String.string_of_list_byte) in Hd. unfold decimal, as_bytes in Hd.
  rewrite !String.string_of_list_byte_of_string in Hd. by apply (inj pretty) in Hd.
Qed.

Lemma nonce_key_inj r1 r2 : nonce_key r1 = nonce_key r2 -> r1 = r2.
Proof. intros Heq. unfold nonce_key in Heq. apply app_inv_head in Heq. by apply addr_to_hex_inj. Qed.

Lemma platform_key_inj a1 a2 : platform_key a1 = platform_key a2 -> a1 = a2.
Proof. intros Heq. unfold platform_key in Heq. apply app_inv_head in Heq. by apply addr_to_hex_inj. Qed.

(** ** Calls *)

Section ledger.
Context `{VC : VaultCodec}.
Implicit Types (env : MockEnv).

Inductive vault_op : Type :=
  | V_init (owner : bytes) (daily_cap min_games : N) (platforms : list bytes)
  | V_fund
  | V_claim_reward (recipient : bytes) (amount nonce : N)
  | V_set_daily_cap (new_cap : N)
  | V_add_platform (addr : bytes)
  | V_remove_platform (addr : bytes)
  | V_pause
  | V_unpause
  | V_withdraw (amount : N)
  | V_cleanup_claims (before_day : N) (addrs : list bytes).

Definition run_op (op : vault_op) : vault unit :=
  match op with
  | V_init owner daily_cap min_games platforms => apply_init owner daily_cap min_games platforms
  | V_fund => apply_fund
  | V_claim_reward recipient amount nonce => apply_claim_reward recipient amount nonce
  | V_set_daily_cap new_cap => apply_set_daily_cap new_cap
  | V_add_platform addr => apply_add_platform addr
  | V_remove_platform addr => apply_remove_platform addr
  | V_pause => apply_pause
  | V_unpause => apply_unpause
  | V_withdraw amount => apply_withdraw amount
  | V_cleanup_claims before_day addrs => apply_cleanup_claims before_day addrs
  end.

Definition today env : N := day_from_timestamp (me_timestamp env).

(** The storage keys that a call may write or remove. *)
Definition touches (op : vault_op) env (k : bytes) : Prop :=
  match op with
  | V_init _ _ _ platforms =>
      k ∈ [KEY_VERSION; KEY_OWNER; KEY_DAILY_CAP; KEY_MIN_GAMES; KEY_PAUSED] \/ exists a, a ∈ platforms /\ k = platform_key a
  | V_fund | V_withdraw _ => False
  | V_claim_reward recipient _ _ => k = claimed_key recipient (today env) \/ k = nonce_key recipient
  | V_set_daily_cap _ => k = KEY_DAILY_CAP
  | V_add_platform addr | V_remove_platform addr => k = platform_key addr
  | V_pause | V_unpause => k = KEY_PAUSED
  | V_cleanup_claims before_day addrs => exists a d, a ∈ addrs /\ d < before_day /\ k = claimed_key a d
  end.

(** Loops that write or remove keys keep the others. *)
Lemma for_each_untouched {A} (f : A -> vault unit) (touched : A -> bytes -> Prop) l k :
  (forall x env u env', f x env = (Ok u, env') -> ~ touched x k -> me_storage env' !! k = me_storage env !! k) ->
  (forall x, x ∈ l -> ~ touched x k) ->
  forall env u env', for_each f l env = (Ok u, env') -> me_storage env' !! k = me_storage env !! k.
Proof.
  intros Hf. induction l as [| x l IH]; intros Hl env u env' Hrun.
  - by injection Hrun as _ <-.
  - apply bind_Ok in Hrun as ([] & env1 & Hx & Hrun). rewrite (IH (fun y Hy => Hl y (list_elem_of_further _ _ _ Hy)) _ _ _ Hrun).
    eapply Hf; [exact Hx | apply Hl, list_elem_of_here].
Qed.

(** The owner on record. *)
Definition stored_owner env : option bytes :=
  me_storage env !! KEY_OWNER ≫= fun b => match try_from_slice b with Ok owner => Some owner | Err _ => None end.

Lemma owner_guarded {A} (m : vault A) env a env' :
  (require_owner;; m) env = (Ok a, env') -> stored_owner env = Some (me_caller env) /\ m env = (Ok a, env').
Proof.
  unfold require_owner, read_owner. intros Hrun. repeat (rewrite ?bind_assoc, bind_get in Hrun).
  rewrite bind_ok_or in Hrun. fold (stored_owner env) in Hrun. destruct (stored_owner env) as [owner|]; [| done].
  rewrite bind_fail_if in Hrun. case_bool_decide as Hc; [| done]. by rewrite <- Hc.
Qed.

Lemma mock_transfer_run to amount env u env' :
  mock_transfer to amount env = (Ok u, env') ->
  amount <= mock_get_balance env (me_contract_address env)
  /\ env' = env <| me_balances ::= entry_sub TWO128 (me_contract_address env) amount |>
                <| me_balances ::= entry_add TWO128 to amount |>.
Proof. unfold mock_transfer. intros Hrun. st_exec Hrun; try done. injection Hrun as _ <-. bools. by split; [lia |]. Qed.

Lemma op_untouched op env env' k :
  run_op op env = (Ok tt, env') -> ~ touches op env k -> me_storage env' !! k = me_storage env !! k.
Proof.
  intros Hrun Hk. destruct op; cbn [run_op touches] in *.
  - unfold apply_init in Hrun. rewrite bind_get, bind_fail_if in Hrun. destruct (storage_exists _ _); [done |].
    unfold storage_set in Hrun. rewrite !bind_modify in Hrun.
    apply (for_each_untouched _ (fun a k => k = platform_key a)) with (k := k) in Hrun.
    + rewrite Hrun. upd. rewrite !lookup_insert_ne; [done | intros <-; apply Hk; left; set_solver ..].
    + intros x e u e' [= _ <-] Hx. upd. by rewrite lookup_insert_ne by (intros E; by apply Hx).
    + intros x Hx ->. apply Hk. right. by exists x.
  - unfold apply_fund in Hrun. rewrite bind_get in Hrun. destruct (0 <? _); injection Hrun as <-; done.
  - unfold apply_claim_reward, le_prefix in Hrun. st_exec Hrun; try done.
    all: apply mock_transfer_run in Hrun as [_ ->]; upd; rewrite !lookup_insert_ne; [done | intros <-; apply Hk; auto ..].
  - apply owner_guarded in Hrun as [_ [= <-]]. upd. by rewrite lookup_insert_ne by congruence.
  - apply owner_guarded in Hrun as [_ [= <-]]. upd. by rewrite lookup_insert_ne by congruence.
  - apply owner_guarded in Hrun as [_ [= <-]]. upd. by rewrite lookup_delete_ne by congruence.
  - apply owner_guarded in Hrun as [_ [= <-]]. upd. by rewrite lookup_insert_ne by congruence.
  - apply owner_guarded in Hrun as [_ [= <-]]. upd. by rewrite lookup_insert_ne by congruence.
  - apply owner_guarded in Hrun as [_ Hrun].
    unfold read_owner in Hrun. st_exec Hrun; try done; by apply mock_transfer_run in Hrun as [_ ->].
  - apply owner_guarded in Hrun as [_ Hrun].
    eapply (for_each_untouched _ (fun a k => exists d, d < before_day /\ k = claimed_key a d)) in Hrun; [exact Hrun | |].
    + intros a e u e' Hr Ha. eapply (for_each_untouched _ (fun d k => k = claimed_key a d)) in Hr; [exact Hr | |].
      * intros d e1 u1 e2 Hd Hn. unfold remove_if_there, storage_remove in Hd. rewrite bind_get in Hd.
        destruct (storage_exists _ _); injection Hd as _ <-; [| done]. upd. by rewrite lookup_delete_ne by congruence.
      * intros d Hd ->. apply Ha. exists d. split; [| done]. unfold days_before in Hd.
        apply list_elem_of_fmap in Hd as (n & -> & Hn). apply elem_of_seq in Hn. lia.
    + intros a Ha (d & Hd & ->). apply Hk. by exists a, d.
Qed.

(** ** What a claim does *)
Lemma le_prefix_run n v env r env' : le_prefix n v env = (r, env') -> env' = env.
Proof. unfold le_prefix. destruct v as [b|]; [destruct (n <=? length b)%nat |]; by intros [= _ <-]. Qed.

Lemma claim_run recipient amount nonce env env' :
  apply_claim_reward recipient amount nonce env = (Ok tt, env') ->
  exists claimed cap,
    first_byte (me_storage env !! KEY_PAUSED) <> 1
    /\ first_byte (me_storage env !! platform_key (me_caller env)) = 1
    /\ le_prefix 8 (me_storage env !! nonce_key recipient) env = (Ok nonce, env)
    /\ le_prefix 16 (me_storage env !! claimed_key recipient (today env)) env = (Ok claimed, env)
    /\ le_prefix 16 (me_storage env !! KEY_DAILY_CAP) env = (Ok cap, env)
    /\ claimed + amount < TWO128 /\ claimed + amount <= cap
    /\ amount <= mock_get_balance env (me_contract_address env)
    /\ me_storage env' = <[nonce_key recipient := le64 (u64_add nonce 1)]>
         (<[claimed_key recipient (today env) := le128 (claimed + amount)]> (me_storage env))
    /\ me_balances env' = entry_add TWO128 recipient amount
         (entry_sub TWO128 (me_contract_address env) amount (me_balances env)).
Proof.
  unfold apply_claim_reward. intros Hrun. rewrite bind_get, bind_fail_if in Hrun.
  destruct (_ =? 1) eqn:Hp; [done |]. rewrite bind_fail_if in Hrun. destruct (negb _) eqn:Hplat; [done |].
  apply bind_Ok in Hrun as (stored & e1 & Hn & Hrun). apply le_prefix_run in Hn as E. subst e1.
  rewrite bind_fail_if in Hrun. destruct (negb (stored =? nonce)) eqn:Hnonce; [done |].
  apply bind_Ok in Hrun as (claimed & e1 & Hcl & Hrun). apply le_prefix_run in Hcl as E. subst e1.
  apply bind_Ok in Hrun as (cap & e1 & Hcap & Hrun). apply le_prefix_run in Hcap as E. subst e1.
  rewrite bind_fail_if in Hrun. destruct (_ <=? claimed + amount) eqn:Hov; [done |]. rewrite bind_fail_if in Hrun.
  destruct (cap <? _) eqn:Hcapped; [done |]. rewrite bind_fail_if in Hrun. destruct (_ <? amount) eqn:Hbal; [done |].
  unfold storage_set in Hrun. rewrite !bind_modify in Hrun. apply mock_transfer_run in Hrun as [_ ->]. bools. subst stored.
  exists claimed, cap. by split_and!.
Qed.

(** ** Histories *)

Record claim : Type := mkClaim { cl_recipient : bytes; cl_amount : N; cl_nonce : N; cl_day : N }.

(** Addresses are 32 bytes and amounts 128 bits. *)
Definition typed (op : vault_op) : Prop :=
  match op with
  | V_claim_reward recipient amount _ => length recipient = 32%nat /\ amount < TWO128
  | V_add_platform addr | V_remove_platform addr => length addr = 32%nat
  | V_cleanup_claims _ addrs => forall a, a ∈ addrs -> length a = 32%nat
  | _ => True
  end.

Definition claims_of (op : vault_op) env : list claim :=
  match op with
  | V_claim_reward recipient amount nonce => [mkClaim recipient amount nonce (today env)]
  | _ => []
  end.

(** The first day whose records no cleanup has touched. *)
Definition cleaned_by (op : vault_op) : N := match op with V_cleanup_claims before_day _ => before_day | _ => 0 end.

(** A vault's history: its successful claims and the first day with all its
    records.  Between calls the ledger may do anything but write the storage. *)
Inductive vault_reach : list claim -> N -> MockEnv -> Prop :=
  | vr_new env : me_storage env = ∅ -> vault_reach [] 0 env
  | vr_ledger log floor env env' :
      vault_reach log floor env -> me_storage env' = me_storage env -> vault_reach log floor env'
  | vr_call log floor env op env' :
      vault_reach log floor env -> typed op -> run_op op env = (Ok tt, env') ->
      vault_reach (log ++ claims_of op env) (N.max floor (cleaned_by op)) env'.

(** What a recipient has claimed on a day, and how often ever. *)
Definition claimed_on (log : list claim) (r : bytes) (d : N) : N :=
  lsum cl_amount (filter (fun c => cl_recipient c = r /\ cl_day c = d) log).
Definition claims_by (log : list claim) (r : bytes) : N :=
  N.of_nat (length (filter (fun c => cl_recipient c = r) log)).

(** The storage says what has happened. *)
Record recorded (log : list claim) (floor : N) env : Prop := {
  rc_claimed : forall r d, length r = 32%nat -> floor <= d ->
    match me_storage env !! claimed_key r d with
    | Some b => b = le128 (claimed_on log r d) /\ claimed_on log r d < TWO128
    | None => claimed_on log r d = 0
    end;
  rc_nonce : forall r,
    match me_storage env !! nonce_key r with
    | Some b => b = le64 (claims_by log r)
    | None => claims_by log r = 0
    end;
  rc_order : forall c, c ∈ log -> cl_nonce c < claims_by log (cl_recipient c);
}.

Lemma claimed_on_snoc log c r d :
  claimed_on (log ++ [c]) r d = claimed_on log r d + (if decide (cl_recipient c = r /\ cl_day c = d) then cl_amount c else 0).
Proof.
  unfold claimed_on. rewrite filter_app, lsum_app. f_equal.
  rewrite filter_cons, filter_nil. case_decide; [| done]. by rewrite lsum_cons, N.add_0_r.
Qed.

Lemma claims_by_snoc log c r : claims_by (log ++ [c]) r = claims_by log r + (if decide (cl_recipient c = r) then 1 else 0).
Proof.
  unfold claims_by. rewrite filter_app, length_app, Nat2N.inj_add. f_equal.
  rewrite filter_cons, filter_nil. by case_decide.
Qed.

Lemma claims_by_le log r : claims_by log r <= N.of_nat (length log).
Proof. unfold claims_by. pose proof (length_filter (fun c => cl_recipient c = r) log). lia. Qed.

Lemma le_prefix_stored n x env : x < 256 ^ N.of_nat n -> le_prefix n (Some (le_bytes n x)) env = (Ok x, env).
Proof.
  intros Hx. unfold le_prefix. rewrite length_le_bytes, Nat.leb_refl, take_ge by (rewrite length_le_bytes; lia).
  by rewrite le_value_le_bytes.
Qed.

(** What the checks of a claim read. *)
Lemma read_claimed log floor env r d x :
  recorded log floor env -> length r = 32%nat -> floor <= d ->
  le_prefix 16 (me_storage env !! claimed_key r d) env = (Ok x, env) -> x = claimed_on log r d.
Proof.
  intros Hrec Hr Hd Hx. pose proof (rc_claimed _ _ _ Hrec r d Hr Hd) as H.
  destruct (me_storage env !! claimed_key r d) as [b|].
  - destruct H as [-> Hlt]. rewrite le_prefix_stored in Hx by exact Hlt. congruence.
  - injection Hx as <-. done.
Qed.

Lemma read_nonce log floor env r x :
  recorded log floor env -> N.of_nat (length log) < TWO64 ->
  le_prefix 8 (me_storage env !! nonce_key r) env = (Ok x, env) -> x = claims_by log r.
Proof.
  intros Hrec Hlen Hx. pose proof (rc_nonce _ _ _ Hrec r) as H. pose proof (claims_by_le log r).
  destruct (me_storage env !! nonce_key r) as [b|].
  - subst b. rewrite le_prefix_stored in Hx by (change (256 ^ N.of_nat 8) with TWO64; lia). congruence.
  - injection Hx as <-. done.
Qed.

Lemma recorded_claim log floor env r amount nonce env' :
  recorded log floor env -> N.of_nat (length log) + 1 < TWO64 -> length r = 32%nat ->
  apply_claim_reward r amount nonce env = (Ok tt, env') ->
  recorded (log ++ [mkClaim r amount nonce (today env)]) floor env'.
Proof.
  intros Hrec Hlen Hr Hrun. apply claim_run in Hrun as (claimed & cap & _ & _ & Hn & Hcl & _ & Hov & _ & _ & Hst & _).
  apply (read_nonce log floor) in Hn; [| done | lia]. pose proof (claims_by_le log r).
  assert (u64_add nonce 1 = nonce + 1) as Hsucc by (apply wadd_small; lia).
  constructor.
  - intros r' d Hr' Hd. rewrite Hst, lookup_insert_ne by discriminate. rewrite claimed_on_snoc. simpl.
    destruct (decide (r = r' /\ today env = d)) as [[<- <-] | Hne].
    + rewrite lookup_insert_eq. apply (read_claimed log floor) in Hcl; [| done ..]. subst claimed. done.
    + rewrite lookup_insert_ne by (intros E; apply claimed_key_inj in E; [by apply Hne | done | done]).
      rewrite N.add_0_r. by apply (rc_claimed _ _ _ Hrec).
  - intros r'. rewrite Hst, claims_by_snoc. simpl. destruct (decide (r = r')) as [<- | Hne].
    + rewrite lookup_insert_eq. congruence.
    + rewrite lookup_insert_ne by (intros E; by apply nonce_key_inj in E).
      rewrite lookup_insert_ne by discriminate. rewrite N.add_0_r. apply (rc_nonce _ _ _ Hrec).
  - intros c [Hc | ->%list_elem_of_singleton]%elem_of_app; rewrite claims_by_snoc; simpl.
    + pose proof (rc_order _ _ _ Hrec c Hc). lia.
    + rewrite decide_True by done. lia.
Qed.

(** Other calls leave the records alone, a cleanup those from its day on. *)
Lemma recorded_frame log floor floor' env env' :
  recorded log floor env -> floor <= floor' ->
  (forall r d, length r = 32%nat -> floor' <= d -> me_storage env' !! claimed_key r d = me_storage env !! claimed_key r d) ->
  (forall r, me_storage env' !! nonce_key r = me_storage env !! nonce_key r) ->
  recorded log floor' env'.
Proof.
  intros Hrec Hfl Hcl Hn. constructor.
  - intros r d Hr Hd. rewrite Hcl by done. apply (rc_claimed _ _ _ Hrec); [done | lia].
  - intros r. rewrite Hn. apply (rc_nonce _ _ _ Hrec).
  - apply (rc_order _ _ _ Hrec).
Qed.

Lemma setting_not_claimed r d : claimed_key r d ∉ [KEY_VERSION; KEY_OWNER; KEY_DAILY_CAP; KEY_MIN_GAMES; KEY_PAUSED].
Proof. rewrite !elem_of_cons, elem_of_nil. intros H. repeat destruct H as [H|H]; discriminate H || done. Qed.
Lemma setting_not_nonce r : nonce_key r ∉ [KEY_VERSION; KEY_OWNER; KEY_DAILY_CAP; KEY_MIN_GAMES; KEY_PAUSED].
Proof. rewrite !elem_of_cons, elem_of_nil. intros H. repeat destruct H as [H|H]; discriminate H || done. Qed.

Lemma reach_recorded log floor env :
  vault_reach log floor env -> N.of_nat (length log) < TWO64 -> recorded log floor env.
Proof.
  induction 1 as [env He | log floor env env' _ IH Hst | log floor env op env' _ IH Hty Hrun]; intros Hlen.
  - constructor; rewrite ?He.
    + intros r d _ _. by rewrite lookup_empty.
    + intros r. by rewrite lookup_empty.
    + by intros c Hc%elem_of_nil.
  - eapply recorded_frame; [by apply IH | done | by rewrite Hst | by rewrite Hst].
  - rewrite length_app, Nat2N.inj_add in Hlen. specialize (IH ltac:(lia)).
    destruct op; cbn [claims_of cleaned_by] in *; rewrite ?app_nil_r, ?N.max_0_r.
    3: { apply recorded_claim; [done | simpl in Hlen; lia | apply Hty | done]. }
    all: (eapply recorded_frame; [exact IH | lia | intros r d Hr Hd | intros r]);
      (eapply op_untouched; [exact Hrun |]); cbn [touches]; try discriminate; try tauto.
    + intros [H | (a & _ & H)]; [by apply setting_not_claimed in H | discriminate H].
    + intros [H | (a & _ & H)]; [by apply setting_not_nonce in H | discriminate H].
    + intros (a & d' & Ha & Hd' & E). apply claimed_key_inj in E as [_ ->]; [lia | done | by apply Hty].
    + intros (a & d' & _ & _ & E). discriminate E.
Qed.

(** ** Promises *)


(** C23. No claim is paid twice: whatever calls come after a successful claim, a
    claim for the same recipient with the same nonce fails, for any amount, on any
    day and from any platform. *)
Theorem claim_never_replayed log floor env c amount :
  vault_reach log floor env -> N.of_nat (length log) < TWO64 -> c ∈ log ->
  exists e, (apply_claim_reward (cl_recipient c) amount (cl_nonce c) env).1 = Err e.
Proof.
  intros Hreach Hlen Hc. pose proof (reach_recorded _ _ _ Hreach Hlen) as Hrec.
  destruct (apply_claim_reward _ _ _ env) as [[[]|e] env'] eqn:Hrun; [| by eexists].
  apply claim_run in Hrun as (claimed & cap & _ & _ & Hn & _).
  apply (read_nonce log floor) in Hn; [| done | done]. pose proof (rc_order _ _ _ Hrec c Hc). lia.
Qed.

(** One more call, or a change outside the vault's storage. *)
Inductive vault_move env : MockEnv -> Prop :=
  | vm_ledger env' : me_storage env' = me_storage env -> vault_move env env'
  | vm_call op env' : run_op op env = (Ok tt, env') -> vault_move env env'.

Lemma version_kept env env' :
  is_Some (me_storage env !! KEY_VERSION) -> rtc vault_move env env' -> is_Some (me_storage env' !! KEY_VERSION).
Proof.
  intros Hv Hm. revert Hv. induction Hm as [env | env env1 env2 Hstep _ IH]; intros Hv; [done |]. apply IH.
  destruct Hstep as [env1 Hst | op env1 Hrun]; [by rewrite Hst |].
  assert (touches op env KEY_VERSION -> exists o cap games ps, op = V_init o cap games ps) as Ht.
  { destruct op; simpl; intros H; try discriminate H; try tauto; [by eauto 10 | |].
    - destruct H as [H|H]; discriminate H.
    - destruct H as (a & d & _ & _ & H). discriminate H. }
  rewrite (op_untouched op env env1 _ Hrun); [done |]. intros (o & cap & games & ps & ->)%Ht.
  cbn [run_op] in Hrun. unfold apply_init in Hrun. rewrite bind_get, bind_fail_if in Hrun.
  unfold storage_exists in Hrun. by rewrite bool_decide_eq_true_2 in Hrun.
Qed.

(** The vault is initialised once: after a successful [init], whatever calls
    follow, another [init] is refused and changes nothing. *)
Theorem init_once env owner cap games platforms env1 env2 owner' cap' games' platforms' :
  apply_init owner cap games platforms env = (Ok tt, env1) -> rtc vault_move env1 env2 ->
  apply_init owner' cap' games' platforms' env2 = (Err "already initialized"%string, env2).
Proof.
  intros Hinit Hm. assert (is_Some (me_storage env1 !! KEY_VERSION)) as Hv.
  { unfold apply_init in Hinit. rewrite bind_get, bind_fail_if in Hinit. destruct (storage_exists _ _); [done |].
    unfold storage_set in Hinit. rewrite !bind_modify in Hinit.
    apply (for_each_untouched _ (fun a k => k = platform_key a)) with (k := KEY_VERSION) in Hinit.
    - rewrite Hinit. upd. rewrite !lookup_insert_ne by discriminate. by rewrite lookup_insert_eq.
    - intros x e u e' [= _ <-] Hx. upd. by rewrite lookup_insert_ne by (intros E; by apply Hx).
    - intros x _. discriminate. }
  apply (version_kept _ _ Hv) in Hm. unfold apply_init. rewrite bind_get, bind_fail_if.
  unfold storage_exists. by rewrite bool_decide_eq_true_2.
Qed.

(** The keys that say how the vault is run. *)
Definition governance (k : bytes) : Prop :=
  k ∈ [KEY_VERSION; KEY_OWNER; KEY_DAILY_CAP; KEY_MIN_GAMES; KEY_PAUSED] \/ exists a, k = platform_key a.

(** Only the owner governs: once the vault is initialised, no call of anyone
    but the owner on record changes the owner, the cap, the pause or who is a
    platform, nor withdraws anything. *)
Theorem only_owner_governs op env env' :
  is_Some (me_storage env !! KEY_VERSION) -> stored_owner env <> Some (me_caller env) ->
  run_op op env = (Ok tt, env') ->
  (forall k, governance k -> me_storage env' !! k = me_storage env !! k) /\ forall amount, op <> V_withdraw amount.
Proof.
  intros Hv Ho Hrun. assert (forall m, (require_owner;; m) env = (Ok tt, env') -> False) as Hguard.
  { intros m [Hown _]%owner_guarded. by apply Ho. }
  destruct op; cbn [run_op] in Hrun; try (exfalso; by eapply Hguard).
  - exfalso. unfold apply_init in Hrun. rewrite bind_get, bind_fail_if in Hrun. unfold storage_exists in Hrun.
    by rewrite bool_decide_eq_true_2 in Hrun.
  - split; [| done]. intros k Hk. apply (op_untouched V_fund); [done | tauto].
  - split; [| done]. intros k Hk. apply (op_untouched (V_claim_reward recipient amount nonce)); [done |].
    intros [-> | ->]; destruct Hk as [Hk | [a Hk]]; try discriminate Hk;
      [by apply setting_not_claimed in Hk | by apply setting_not_nonce in Hk].
Qed.
End ledger.

(** ** Witnesses *)

#[local] Instance toy_vault_codec : VaultCodec := {|
  codec_u32 := {| to_vec := le_bytes 4; try_from_slice b := Ok (le_value b) |};
  codec_owner := {| to_vec b := b; try_from_slice b := if (length b =? 32)%nat then Ok b else Err "Unexpected length of input"%string |};
|}.

Definition vault_owner : bytes := toy_addr 1.
Definition game_server : bytes := toy_addr 2.
Definition player : bytes := toy_addr 3.

Definition as_caller (caller : bytes) (ts : N) (env : MockEnv) : MockEnv := env <| me_caller := caller |> <| me_timestamp := ts |>.

(** A vault with a cap of 100 that holds 1000; 60 of them are claimed. *)
Definition opened : MockEnv := (apply_init vault_owner 100 1 [game_server] MockEnv_new).2.
Definition filled : MockEnv :=
  as_caller game_server 90000 (opened <| me_balances := {[ me_contract_address opened := 1000 ]} |>).
Definition first_claim : MockEnv := (apply_claim_reward player 60 0 filled).2.

Lemma opened_run : apply_init vault_owner 100 1 [game_server] MockEnv_new = (Ok tt, opened).
Proof. unfold opened. apply run_eq. vm_compute. reflexivity. Qed.

Lemma filled_reached : vault_reach [] 0 filled.
Proof.
  apply vr_ledger with (env := opened); [| reflexivity].
  refine (vr_call [] 0 MockEnv_new (V_init vault_owner 100 1 [game_server]) opened _ I opened_run). by apply vr_new.
Qed.

Lemma first_claim_run : apply_claim_reward player 60 0 filled = (Ok tt, first_claim).
Proof. unfold first_claim. apply run_eq. vm_compute. reflexivity. Qed.

Lemma first_claim_reached : vault_reach [mkClaim player 60 0 1] 0 first_claim.
Proof. refine (vr_call [] 0 filled (V_claim_reward player 60 0) first_claim filled_reached (conj eq_refl eq_refl) first_claim_run). Qed.

Definition second_claim : MockEnv := (apply_claim_reward player 40 1 first_claim).2.


Lemma claim_never_replayed_witness : exists e, (apply_claim_reward player 10 0 first_claim).1 = Err e.
Proof.
  refine (claim_never_replayed [mkClaim player 60 0 1] 0 first_claim (mkClaim player 60 0 1) 10 first_claim_reached eq_refl _).
  apply list_elem_of_here.
Defined.

Lemma init_once_witness :
  apply_init player 100000 0 [player] first_claim = (Err "already initialized"%string, first_claim).
Proof.
  refine (init_once MockEnv_new vault_owner 100 1 [game_server] opened first_claim player 100000 0 [player] opened_run _).
  eapply rtc_l; [by apply (vm_ledger opened filled) |]. apply rtc_once.
  exact (vm_call filled (V_claim_reward player 60 0) first_claim first_claim_run).
Defined.

Lemma only_owner_governs_witness :
  me_storage first_claim !! KEY_DAILY_CAP = me_storage filled !! KEY_DAILY_CAP.
Proof.
  refine (proj1 (only_owner_governs (V_claim_reward player 60 0) filled first_claim _ _ first_claim_run) KEY_DAILY_CAP _).
  - by eexists.
  - vm_compute. discriminate.
  - left. right. right. left.
Defined.
