(* ===== verification/VaultEntry.v ===== *)
(** * The exported functions of the reward vault ([contracts/reward-vault/src/lib.rs])

    The contract as it runs on the chain: the rules of [RewardVault] written again
    over the SDK. *)

From stdpp Require Import pretty.
From S2P Require Import Prelude Interfaces Types Utf8 RewardVault Vm Host Sdk.

(** ** Arguments ([types.rs]) *)

Record InitArgs : Type := mkInitArgs {
  ia_owner : bytes;
  ia_daily_cap : N;
  ia_min_games : N;
  ia_platforms : list bytes;
}.
Record ClaimRewardArgs : Type := mkClaimRewardArgs { cra_recipient : bytes; cra_amount : N; cra_nonce : N }.
Record FundArgs : Type := mkFundArgs {}.
Record SetDailyCapArgs : Type := mkSetDailyCapArgs { sdc_new_cap : N }.
Record PlatformArgs : Type := mkPlatformArgs { pa_addr : bytes }.
Record WithdrawArgs : Type := mkWithdrawArgs { wa_amount : N }.
Record GetDailyClaimedArgs : Type := mkGetDailyClaimedArgs { gdc_addr : bytes }.
Record CleanupClaimsArgs : Type := mkCleanupClaimsArgs { cca_before_day : N; cca_addrs : list bytes }.

(** The derived encodings, and that of [u128]. *)
Class VaultArgsCodec : Type := {
  codec_init :: Borsh InitArgs;
  codec_claim :: Borsh ClaimRewardArgs;
  codec_fund :: Borsh FundArgs;
  codec_cap :: Borsh SetDailyCapArgs;
  codec_platform_args :: Borsh PlatformArgs;
  codec_withdraw :: Borsh WithdrawArgs;
  codec_claimed :: Borsh GetDailyClaimedArgs;
  codec_cleanup :: Borsh CleanupClaimsArgs;
  ser_claimed : N -> bytes;
}.

Section entries.
Context `{LM : Linear} `{VC : VaultCodec} `{AC : VaultArgsCodec}.

Abbreviation store := Sdk.storage_set.

(** [storage_get(k).map(|b| b.first().copied().unwrap_or(0)).unwrap_or(0)]. *)
Definition flag (key : bytes) : prog N := v ← storage_get key; mret (first_byte v).

Definition require_owner : prog unit :=
  caller ← get_caller;
  stored ← get (T:=bytes) KEY_OWNER;
  owner ← expect (match stored with Some o => Ok o | None => Err tt end) "no owner";
  require_or_abort (bool_decide (caller = owner)) "caller is not the owner".

Definition show_addr (addr : bytes) : string := string_of_bytes (addr_to_hex addr).

Definition init (args_ptr args_len : N) : guest :=
  export_fn (entry args_ptr args_len (fun args : InitArgs =>
    version ← get (T:=N) KEY_VERSION;
    require_or_abort (bool_decide (version = None)) "already initialized";;
    set (T:=N) KEY_VERSION 1;;
    set (T:=bytes) KEY_OWNER (ia_owner args);;
    set_u128 KEY_DAILY_CAP (ia_daily_cap args);;
    set_u64 KEY_MIN_GAMES (ia_min_games args);;
    store KEY_PAUSED [x00];;
    prog_each (fun addr => store (platform_key addr) [x01]) (ia_platforms args);;
    log "reward-vault: initialized";;
    mret [])).

(** [checked_add(..).unwrap_or(u128::MAX)]. *)
Definition checked_total (claimed amount : N) : N := N.min (claimed + amount) (TWO128 - 1).

Definition claim_reward_body (args : ClaimRewardArgs) : prog bytes :=
  paused ← flag KEY_PAUSED;
  require_or_abort (paused =? 0) "paused";;
  caller ← get_caller;
  is_platform ← flag (platform_key caller);
  require_or_abort (is_platform =? 1) "unauthorized: caller is not a platform";;
  n ← get_u64 (nonce_key (cra_recipient args));
  let stored_nonce := default 0 n in
  require_or_abort (stored_nonce =? cra_nonce args) "nonce mismatch";;
  ts ← get_block_timestamp;
  let ckey := claimed_key (cra_recipient args) (day_from_timestamp ts) in
  c ← get_u128 ckey;
  let already_claimed := default 0 c in
  cap ← get_u128 KEY_DAILY_CAP;
  require_or_abort (checked_total already_claimed (cra_amount args) <=? default 0 cap) "daily cap exceeded";;
  self_addr ← get_contract_address;
  balance ← get_balance self_addr;
  require_or_abort (cra_amount args <=? balance) "insufficient vault balance";;
  set_u128 ckey (u128_add already_claimed (cra_amount args));;
  set_u64 (nonce_key (cra_recipient args)) (u64_add stored_nonce 1);;
  ok ← transfer (cra_recipient args) (cra_amount args);
  require_or_abort ok "token transfer failed";;
  log ("reward-vault: claimed " +:+ pretty (cra_amount args) +:+ " to " +:+ show_addr (cra_recipient args)
         +:+ " nonce=" +:+ pretty (cra_nonce args))%string;;
  mret [].

Definition claim_reward (args_ptr args_len : N) : guest := export_fn (entry args_ptr args_len claim_reward_body).

Definition fund (args_ptr args_len : N) : guest :=
  export_fn (entry args_ptr args_len (fun _ : FundArgs =>
    value ← get_value;
    log ("reward-vault: funded with " +:+ pretty value)%string;;
    mret [])).

(** An entry for the owner that changes one key and logs. *)
Definition owner_entry (change : prog unit) (msg : string) : prog bytes := require_owner;; change;; log msg;; mret [].

Definition set_daily_cap (args_ptr args_len : N) : guest :=
  export_fn (entry args_ptr args_len (fun args : SetDailyCapArgs =>
    owner_entry (set_u128 KEY_DAILY_CAP (sdc_new_cap args))
      ("reward-vault: daily_cap set to " +:+ pretty (sdc_new_cap args))%string)).

Definition add_platform (args_ptr args_len : N) : guest :=
  export_fn (entry args_ptr args_len (fun args : PlatformArgs =>
    owner_entry (store (platform_key (pa_addr args)) [x01])
      ("reward-vault: platform added " +:+ show_addr (pa_addr args))%string)).

Definition remove_platform (args_ptr args_len : N) : guest :=
  export_fn (entry args_ptr args_len (fun args : PlatformArgs =>
    owner_entry (Sdk.storage_remove (platform_key (pa_addr args)))
      ("reward-vault: platform removed " +:+ show_addr (pa_addr args))%string)).

Definition pause (args_ptr args_len : N) : guest :=
  export_fn (entry args_ptr args_len (fun _ : FundArgs => owner_entry (store KEY_PAUSED [x01]) "reward-vault: paused")).

Definition unpause (args_ptr args_len : N) : guest :=
  export_fn (entry args_ptr args_len (fun _ : FundArgs => owner_entry (store KEY_PAUSED [x00]) "reward-vault: unpaused")).

Definition withdraw (args_ptr args_len : N) : guest :=
  export_fn (entry args_ptr args_len (fun args : WithdrawArgs =>
    require_owner;;
    self_addr ← get_contract_address;
    balance ← get_balance self_addr;
    require_or_abort (wa_amount args <=? balance) "insufficient vault balance";;
    stored ← get (T:=bytes) KEY_OWNER;
    owner ← expect (match stored with Some o => Ok o | None => Err tt end) "no owner";
    ok ← transfer owner (wa_amount args);
    require_or_abort ok "token transfer failed";;
    log ("reward-vault: withdrew " +:+ pretty (wa_amount args))%string;;
    mret [])).

Definition get_daily_claimed (args_ptr args_len : N) : guest :=
  export_fn (entry args_ptr args_len (fun args : GetDailyClaimedArgs =>
    ts ← get_block_timestamp;
    c ← get_u128 (claimed_key (gdc_addr args) (day_from_timestamp ts));
    mret (ser_claimed (default 0 c)))).

Definition cleanup_claims (args_ptr args_len : N) : guest :=
  export_fn (entry args_ptr args_len (fun args : CleanupClaimsArgs =>
    require_owner;;
    require_or_abort (cca_before_day args <=? 365) "before_day too large — max 365";;
    require_or_abort (N.of_nat (length (cca_addrs args)) <=? 50) "too many addresses — max 50";;
    prog_each (fun addr => prog_each (fun day =>
      let k := claimed_key addr day in
      there ← Sdk.storage_exists k;
      if (there : bool) then Sdk.storage_remove k else mret tt) (days_before (cca_before_day args))) (cca_addrs args);;
    log ("reward-vault: cleaned up days before " +:+ pretty (cca_before_day args))%string;;
    mret [])).

(** The exports by name; all take [args_ptr] and [args_len]. *)
Definition vault_export (name : string) : option (N -> N -> guest) :=
  (if decide (name = "init") then Some init
  else if decide (name = "claim_reward") then Some claim_reward
  else if decide (name = "fund") then Some fund
  else if decide (name = "set_daily_cap") then Some set_daily_cap
  else if decide (name = "add_platform") then Some add_platform
  else if decide (name = "remove_platform") then Some remove_platform
  else if decide (name = "pause") then Some pause
  else if decide (name = "unpause") then Some unpause
  else if decide (name = "withdraw") then Some withdraw
  else if decide (name = "get_daily_claimed") then Some get_daily_claimed
  else if decide (name = "cleanup_claims") then Some cleanup_claims
  else None)%string.
End entries.
