(* ===== verification/ConcreteVm.v ===== *)
(** * A concrete machine

    A growing memory and modules that are given by their exports, in the place of
    Wasmer, and encodings of the arena pool's data; used only to evaluate the
    development at concrete inputs. *)

From S2P Require Import Prelude Interfaces Types Concrete Utf8 Vm Host Engine World ConcreteState HandlerBase ConcreteTx Sdk ArenaPool ArenaEntry.

(** ** Memory *)

Definition toy_read (m : bytes) (p len : N) : result bytes string :=
  if p + len <=? blen m then Ok (take (N.to_nat len) (drop (N.to_nat p) m)) else Err "out of bounds"%string.

Definition toy_write (m : bytes) (p : N) (d : bytes) : result bytes string :=
  if p + blen d <=? blen m then Ok (take (N.to_nat p) m ++ d ++ drop (N.to_nat p + length d) m)
  else Err "out of bounds"%string.

Definition toy_memory : GuestMemory := {| Memory := bytes; mem_read := toy_read; mem_write := toy_write |}.

Definition toy_linear : @Linear toy_memory := {|
  place b (m : @Memory toy_memory) := (blen m, m ++ b);
  live (m : @Memory toy_memory) p b := exists before after, m = before ++ b ++ after /\ p = blen before;
|}.

Lemma toy_linear_laws : @LinearLaws toy_memory toy_linear.
Proof.
  constructor.
  - intros b m. simpl. exists m, []. by rewrite app_nil_r.
  - intros m p b b' (u & v & -> & ->). simpl. exists u, (v ++ b'). by rewrite <- !app_assoc.
  - intros m p b b' (u & v & -> & ->). exists u, (b' ++ v). by rewrite <- !app_assoc.
  - intros m p b (u & v & -> & ->). simpl. unfold toy_read, blen. rewrite !length_app.
    destruct (N.leb_spec (N.of_nat (length u) + N.of_nat (length b)) (N.of_nat (length u + (length b + length v)))); [| lia].
    by rewrite !Nat2N.id, drop_app_length, take_app_length.
  - intros m p b d (u & v & -> & ->) Hd. simpl. unfold toy_write, blen in *. rewrite !length_app.
    destruct (N.leb_spec (N.of_nat (length u) + N.of_nat (length d)) (N.of_nat (length u + (length b + length v)))); [| lia].
    eexists. split; [reflexivity |]. exists u, v. split; [| done].
    rewrite Nat2N.id, take_app_length, drop_app_add, <- app_assoc, drop_app_le by lia. done.
Qed.

(** ** Modules *)

#[local] Existing Instance toy_memory.
#[local] Existing Instance toy_linear.
#[local] Existing Instance toy_parser_ret.
#[local] Existing Instance toy_parser_bind.

Definition toy_alloc (n : Z) : guest :=
  @g_compute toy_memory (fun m => m ++ zeroed (as_u32 n)) (fun m => g_return (as_i32 (blen m - as_u32 n))).

(** A machine whose modules export these functions, besides [alloc]. *)
Definition toy_wasmer (exports : string -> option (N -> N -> guest)) : Wasmer := {|
  wasm_memory := toy_memory;
  Module_ := unit;
  wasm_compile code := if bool_decide (code = []) then Err "empty"%string else Ok tt;
  wasm_serialize _ := Ok [];
  wasm_deserialize _ := Ok tt;
  wasm_memories _ := [(1, None)];
  wasm_link _ := Ok ([] : @Memory toy_memory, g_return 0%Z);
  wasm_get_memory _ := Ok tt;
  wasm_export _ name :=
    match exports name with
    | Some _ => Some 2
    | None => if bool_decide (name = "alloc"%string) then Some 1 else None
    end;
  wasm_call _ name args :=
    match exports name, args with
    | Some f, [p; l] => f (as_u32 p) (as_u32 l)
    | None, [n] => toy_alloc n
    | _, _ => g_trap "bad call"
    end;
  runtime_error msg := ("RuntimeError: " +:+ msg)%string;
  child_in_time _ := true;
|}.

(** ** The arena pool's data *)

Definition toy_unit_codec {A} (a : A) : Borsh A := {|
  to_vec _ := [];
  try_from_slice b := if bool_decide (b = []) then Ok a else Err "Unexpected length of input"%string;
|}.

Definition p_pair : toy_parser (bytes * N) := a ← p_take 32; n ← p_num 16; mret (a, n).
Fixpoint p_times {A} (p : toy_parser A) (n : nat) : toy_parser (list A) :=
  match n with O => mret [] | S n => x ← p; l ← p_times p n; mret (x :: l) end.
Definition p_list {A} (p : toy_parser A) : toy_parser (list A) := n ← p_num 4; p_times p (N.to_nat n).

Definition enc_map (m : gmap bytes N) : bytes :=
  le_bytes 4 (N.of_nat (size m)) ++ concat ((fun p => p.1 ++ le128 p.2) <$> map_to_list m).

(** The balances and who is in charge: all that the examples look at. *)
Definition toy_state_codec : Borsh ContractState := {|
  to_vec s := ap_owner s ++ ap_platform s ++ enc_map (ap_balance s);
  try_from_slice b :=
    match (o ← p_take 32; p ← p_take 32; l ← p_list p_pair; mret (o, p, l) : toy_parser _) b with
    | Some ((o, p, l), []) => Ok (mkContractState 1 false o p 300 200 (list_to_map l) ∅ ∅ 0)
    | _ => Err "Unexpected length of input"%string
    end;
|}.

Definition toy_arena_codec : ArenaCodec := {|
  codec_state := toy_state_codec;
  codec_init := toy_decoder (o ← p_take 32; p ← p_take 32; f ← p_num 2; b ← p_num 2; mret (mkInitArgs o p f b));
  codec_deposit := toy_unit_codec mkDepositArgs;
  codec_withdraw := toy_decoder (n ← p_num 16; mret (mkWithdrawArgs n));
  codec_lock := toy_decoder (g ← p_take 32; l ← p_list (p_take 32); n ← p_num 16; mret (mkLockEntriesArgs g l n));
  codec_settle := toy_decoder (g ← p_take 32; l ← p_list (p_take 32); a ← p_list (p_num 16); mret (mkSettleGameArgs g l a));
  codec_refund := toy_decoder (g ← p_take 32; mret (mkRefundGameArgs g));
  codec_emergency := toy_decoder (g ← p_take 32; mret (mkEmergencyRefundArgs g));
  codec_claim := toy_unit_codec mkClaimFeesArgs;
  codec_pause := toy_unit_codec mkPauseArgs;
  codec_cleanup := toy_decoder (l ← p_list (p_take 32); mret (mkCleanupGamesArgs l));
|}.
