(* ===== verification/HostSafety.v ===== *)
(** * What a contract can do

    Invariants of every execution, whatever the guest computes and calls: fuel is
    accounted for and bounds the effects, a view call changes nothing, and the
    recorded storage changes are the storage the guest sees. *)

From S2P Require Import Prelude Interfaces Types Concrete Utf8 Vm Host Engine Sdk World ConcreteVm Contracts.

(** A host function down to its steps. *)
Ltac host_unfold H :=
  unfold no_result, host_storage_read, host_storage_write, host_storage_has, host_storage_delete, host_caller,
    host_block_height, host_block_timestamp, host_contract_address, host_value_lo, host_value_hi,
    host_agent_get_score, host_agent_is_registered, host_token_balance, host_token_balance_hi,
    host_token_transfer, host_log, host_return_data, host_emit_event, host_abort, host_call_contract, host_cross_call_return_data in H.

Section runs.
Context `{GM : GuestMemory}.
Context (execute_child : bytes -> string -> bytes -> ExecutionContext -> gmap bytes bytes -> ChainState ->
                         result ExecutionResult VmError).
Context (child_in_time : ExecutionContext -> bool).
Implicit Types (env : HostEnv).

Abbreviation run := (run_guest execute_child child_in_time).
Abbreviation call := (run_import execute_child child_in_time).

Definition charged (cost : N) env : HostEnv :=
  env <| he_fuel_remaining := he_fuel_remaining env - cost |> <| he_fuel_consumed := u64_add (he_fuel_consumed env) cost |>.

Lemma bind_check_fuel {A} cost (k : unit -> host A) env r env' :
  (check_fuel cost ≫= k) env = (r, env') ->
  ((exists e, r = Err e) /\ env' = env)
  \/ (cost <= he_fuel_remaining env /\ k tt (charged cost env) = (r, env')).
Proof.
  unfold check_fuel, consume_fuel. rewrite bind_assoc, bind_get, bind_assoc, bind_map_err.
  destruct (N.ltb_spec (he_fuel_remaining env) cost); [intros [= <- <-]; left; eauto |].
  rewrite bind_modify. by right.
Qed.

(** A relation between environments that every import respects is respected by
    every guest. *)
Lemma run_guest_ind (R : HostEnv -> HostEnv -> Prop) :
  (forall env, R env env) -> (forall e1 e2 e3, R e1 e2 -> R e2 e3 -> R e1 e3) ->
  (forall env m, R env (env <| he_guest := m |>)) ->
  (forall i env r env', call i env = (r, env') -> R env env') ->
  forall g env r env', run g env = (r, env') -> R env env'.
Proof.
  intros Hrefl Htrans Hmem Hcall g. induction g as [z | msg | f k IH | i k IH]; intros env r env' Hrun.
  - by injection Hrun as <- <-.
  - by injection Hrun as <- <-.
  - simpl in Hrun. eapply Htrans; [apply Hmem | by eapply IH].
  - simpl in Hrun. destruct (call i env) as [[z|e] env1] eqn:Hi.
    + rewrite (bind_run _ _ _ _ _ Hi) in Hrun. eapply Htrans; [by eapply Hcall | by eapply IH].
    + rewrite (bind_run _ _ _ _ _ Hi) in Hrun. injection Hrun as <- <-. by eapply Hcall.
Qed.

Lemma write_bytes_Ok env ptr data env' :
  write_bytes env ptr data = Ok env' -> exists m, env' = env <| he_guest := m |>.
Proof. unfold write_bytes. destruct (negb _); [done |]. destruct (mem_write _ _ _); [| done]. intros [= <-]. eauto. Qed.

Lemma write_ignored_run ptr data env : exists m, write_ignored ptr data env = (Ok tt, env <| he_guest := m |>).
Proof.
  unfold write_ignored, st_modify. destruct (write_bytes env ptr data) as [env'|e] eqn:Hw.
  - apply write_bytes_Ok in Hw as [m ->]. eauto.
  - exists (he_guest env). by destruct env.
Qed.

(** The effect of one call of an import, after [cost] has been charged: nothing
    but the guest's own memory, one of the recorded effects, or a callee's. *)
Inductive effect env : N -> HostEnv -> Prop :=
  | ef_none cost : effect env cost env
  | ef_memory cost m : effect env cost (env <| he_guest := m |>)
  | ef_return cost bs : effect env cost (env <| he_return_data := bs |>)
  | ef_log cost s : effect env cost (env <| he_logs ::= fun l => l ++ [s] |>)
  | ef_write key val : ec_read_only (he_context env) = false ->
      effect env STORAGE_WRITE_FUEL
        (env <| he_storage ::= <[key := val]> |> <| he_storage_changes ::= fun l => l ++ [(key, Some val)] |>)
  | ef_delete key : ec_read_only (he_context env) = false ->
      effect env STORAGE_DELETE_FUEL
        (env <| he_storage ::= delete key |> <| he_storage_changes ::= fun l => l ++ [(key, None)] |>)
  | ef_transfer to amount : ec_read_only (he_context env) = false -> 0 < amount ->
      effect env TOKEN_TRANSFER_FUEL (env <| he_transfers ::= fun l => l ++ [(to, amount)] |>)
  | ef_event ev : N.of_nat (length (he_events env)) < MAX_EVENTS_PER_EXECUTION ->
      effect env EVENT_EMIT_FUEL (env <| he_events ::= fun l => l ++ [ev] |>)
  | ef_child cs target code method args value r env' :
      ec_read_only (he_context env) = false ->
      he_chain_state env = Some cs -> he_contract_code env !! target = Some code ->
      target ∉ he_executing_contracts env -> he_call_depth env < MAX_CALL_DEPTH ->
      run_child execute_child child_in_time target code method args value cs
        (env <| he_executing_contracts ::= union {[ target ]} |>) = (r, env') ->
      effect env CROSS_CALL_BASE_FUEL env'.

(** A host function that fails for want of fuel does nothing; otherwise it has an
    effect at its price. *)
Definition acts env env' : Prop :=
  env' = env \/ exists cost, cost <= he_fuel_remaining env /\ effect (charged cost env) cost env'.

Lemma read_or_trap_run what ptr len env r env' : read_or_trap what ptr len env = (r, env') -> env' = env.
Proof. unfold read_or_trap. rewrite bind_get. unfold map_err. by intros [= _ <-]. Qed.

Lemma union_undone target env :
  target ∉ he_executing_contracts env ->
  env <| he_executing_contracts ::= union {[ target ]} |> <| he_executing_contracts ::= fun x => x ∖ {[ target ]} |> = env.
Proof.
  intros Hni. destruct env. unfold update, upd_he_executing_contracts. simpl in *. f_equal. set_solver.
Qed.

Lemma call_acts i env r env' : call i env = (r, env') -> acts env env'.
Proof.
  intros Hrun. destruct i; cbn [run_import] in Hrun; host_unfold Hrun; rewrite ?bind_assoc in Hrun.
  all: try (apply bind_check_fuel in Hrun as [[_ ->] | [Hcost Hrun]]; [by left | right; eexists; split; [exact Hcost |]]).
  all: unfold read_or, not_read_only, read_or_trap in Hrun; st_exec Hrun; try apply ef_none.
  all: repeat match goal with
    | H : write_bytes _ _ _ = Ok _ |- _ => apply write_bytes_Ok in H as [? ->]
    end; try apply ef_memory.
  all: try (apply gets_run in Hrun as [-> _]; apply ef_none).
  all: bools; try (by first [apply ef_write | apply ef_delete | apply ef_return | apply ef_log
                            | apply ef_transfer; [done | lia] | apply ef_event; lia]).
  - destruct (write_ignored_run out_ptr (ec_caller (he_context (charged HOST_CALL_BASE_FUEL env)))
      (charged HOST_CALL_BASE_FUEL env)) as [m Hm].
    rewrite (bind_run _ _ _ _ _ Hm) in Hrun. injection Hrun as <- <-. apply ef_memory.
  - destruct (write_ignored_run out_ptr (ec_contract_address (he_context (charged HOST_CALL_BASE_FUEL env)))
      (charged HOST_CALL_BASE_FUEL env)) as [m Hm].
    rewrite (bind_run _ _ _ _ _ Hm) in Hrun. injection Hrun as <- <-. apply ef_memory.
  - by left.
  - by eapply ef_child.
  - rewrite union_undone by done. apply ef_none.
  - by eapply ef_child.
  - rewrite union_undone by done. apply ef_none.
Qed.

(** What comes back from a callee. *)
Lemma run_child_run target code method args value cs env r env' :
  run_child execute_child child_in_time target code method args value cs env = (r, env') ->
  let env1 := env <| he_executing_contracts ::= fun x => x ∖ {[ target ]} |> in
  let outcome := execute_child code method args (child_context env target value) ∅ cs in
  (exists res, outcome = Ok res /\ r = Ok 0%Z /\ env' = merge_child res (charge_child (er_fuel_consumed res) env1))
  \/ (r = Ok (-1)%Z
      /\ (env' = env1 <| he_last_cross_call_return := [] |>
          \/ exists used limit, outcome = Err (OutOfFuel used limit)
                /\ env' = (charge_child used env1) <| he_last_cross_call_return := [] |>)).
Proof.
  intros Hrun env1 outcome. unfold run_child in Hrun. rewrite bind_get in Hrun. cbv zeta in Hrun.
  rewrite bind_modify in Hrun. fold env1 outcome in Hrun. destruct (child_in_time _).
  - destruct outcome as [res|e] eqn:Ho.
    + rewrite !bind_modify in Hrun. injection Hrun as <- <-. left. eauto.
    + destruct e; rewrite ?bind_modify, ?bind_ret in Hrun; injection Hrun as <- <-; right;
        (split; [done |]); first [by left | right; eauto].
  - rewrite bind_ret, bind_modify in Hrun. injection Hrun as <- <-. right. split; [done | by left].
Qed.

(** ** Fuel *)

Definition effects_price (changes : list (bytes * option bytes)) (transfers : list (bytes * N))
    (events : list ContractEvent) : N :=
  STORAGE_DELETE_FUEL * N.of_nat (length changes) + TOKEN_TRANSFER_FUEL * N.of_nat (length transfers)
  + EVENT_EMIT_FUEL * N.of_nat (length events).

(** The fuel used and the fuel left make up the limit, and the fuel used pays for
    the effects. *)
Definition within_fuel env : Prop :=
  he_fuel_remaining env + he_fuel_consumed env = he_fuel_limit env
  /\ effects_price (he_storage_changes env) (he_transfers env) (he_events env) <= he_fuel_consumed env.

Definition paid_result (limit : N) (res : ExecutionResult) : Prop :=
  er_fuel_consumed res <= limit
  /\ effects_price (er_storage_changes res) (er_transfers res) (er_events res) <= er_fuel_consumed res.

(** What is known of the callee's engine. *)
Definition child_within : Prop := forall code method args ctx storage cs,
  ec_fuel_limit ctx < TWO64 ->
  match execute_child code method args ctx storage cs with
  | Ok res => paid_result (ec_fuel_limit ctx) res
  | Err (OutOfFuel used _) => used <= ec_fuel_limit ctx
  | Err _ => True
  end.

Definition fuel_step env env' : Prop :=
  he_fuel_limit env' = he_fuel_limit env
  /\ (he_fuel_limit env < TWO64 -> within_fuel env -> within_fuel env').

Lemma effects_price_app c1 c2 t1 t2 e1 e2 :
  effects_price (c1 ++ c2) (t1 ++ t2) (e1 ++ e2) = effects_price c1 t1 e1 + effects_price c2 t2 e2.
Proof. unfold effects_price. rewrite !length_app, !Nat2N.inj_add. lia. Qed.

Lemma child_fuel used n env :
  within_fuel env -> he_fuel_limit env < TWO64 -> used <= he_fuel_remaining env -> n <= used ->
  let env' := charge_child used env in
  he_fuel_limit env' = he_fuel_limit env
  /\ he_fuel_remaining env' + he_fuel_consumed env' = he_fuel_limit env'
  /\ effects_price (he_storage_changes env') (he_transfers env') (he_events env') + n <= he_fuel_consumed env'.
Proof.
  intros [Hf Hp] Hlim Hu Hn. unfold charge_child. upd. rewrite wadd_small by lia. split_and!; [done | lia | lia].
Qed.

Lemma call_fuel i env r env' : child_within -> call i env = (r, env') -> fuel_step env env'.
Proof.
  intros Hchild Hrun. apply call_acts in Hrun as [-> | (cost & Hcost & Heff)]; [by split |].
  assert (he_fuel_limit env < TWO64 -> within_fuel env ->
    he_fuel_remaining (charged cost env) + he_fuel_consumed (charged cost env) = he_fuel_limit env
    /\ effects_price (he_storage_changes env) (he_transfers env) (he_events env) + cost
       <= he_fuel_consumed (charged cost env)) as Hch.
  { intros Hlim [Hf Hp]. unfold charged. upd. rewrite wadd_small by lia. lia. }
  inversion Heff; subst; clear Heff;
    try (split; [done | intros Hlim Hw; destruct (Hch Hlim Hw) as [H1 H2]; split; [exact H1 |]; upd]).
  all: try (change (he_storage_changes (charged _ env)) with (he_storage_changes env);
            change (he_transfers (charged _ env)) with (he_transfers env);
            change (he_events (charged _ env)) with (he_events env)).
  all: try lia.
  all: try (unfold effects_price, STORAGE_DELETE_FUEL, STORAGE_WRITE_FUEL, TOKEN_TRANSFER_FUEL, EVENT_EMIT_FUEL in *;
            rewrite ?length_app, ?Nat2N.inj_add; simpl length; lia).
  match goal with H : run_child _ _ _ _ _ _ _ _ ?e = _ |- _ =>
    set (env0 := e) in *; rename H into Hchild_run end.
  assert (he_fuel_limit env0 = he_fuel_limit env) as Hlim0 by done.
  assert (he_fuel_limit env < TWO64 -> within_fuel env -> within_fuel env0) as Hw0.
  { intros Hlim Hw. destruct (Hch Hlim Hw) as [G1 G2]. split; [exact G1 |].
    change (effects_price (he_storage_changes env) (he_transfers env) (he_events env) <= he_fuel_consumed (charged CROSS_CALL_BASE_FUEL env)).
    lia. }
  clearbody env0. clear Hch Hcost. apply run_child_run in Hchild_run. cbv zeta in Hchild_run.
  set (env1 := env0 <| he_executing_contracts ::= _ |>) in *.
  pose proof (Hchild code method args (child_context env0 target value) ∅ cs) as Hc.
  change (ec_fuel_limit (child_context env0 target value)) with (he_fuel_remaining env0) in Hc.
  destruct Hchild_run as [(res & Ho & _ & ->) | (_ & [-> | (used & limit & Ho & ->)])].
  - rewrite Ho in Hc. split; [exact Hlim0 |]. intros Hlim Hw. pose proof (Hw0 Hlim Hw) as Hw1.
    destruct Hc as [Hc1 Hc2]; [destruct Hw1; lia |].
    destruct (child_fuel (er_fuel_consumed res) _ env1 Hw1 ltac:(rewrite <- Hlim0 in Hlim; exact Hlim) Hc1 Hc2) as (F1 & F2 & F3).
    split; [exact F2 |]. unfold merge_child. upd. rewrite effects_price_app. exact F3.
  - split; [exact Hlim0 |]. intros Hlim Hw. exact (Hw0 Hlim Hw).
  - rewrite Ho in Hc. split; [exact Hlim0 |]. intros Hlim Hw. pose proof (Hw0 Hlim Hw) as Hw1.
    destruct (child_fuel used 0 env1 Hw1 ltac:(rewrite <- Hlim0 in Hlim; exact Hlim)) as (F1 & F2 & F3);
      [apply Hc; destruct Hw1; lia | lia |].
    split; [exact F2 |]. etrans; [| exact F3]. upd. lia.
Qed.

Lemma fuel_step_trans e1 e2 e3 : fuel_step e1 e2 -> fuel_step e2 e3 -> fuel_step e1 e3.
Proof.
  intros [L1 S1] [L2 S2]. split; [by rewrite L2 |]. intros Hl Hw. apply S2; [by rewrite L1 | by apply S1].
Qed.

Lemma guest_fuel g env r env' : child_within -> run g env = (r, env') -> fuel_step env env'.
Proof.
  intros Hchild. apply (run_guest_ind fuel_step).
  - by split.
  - apply fuel_step_trans.
  - intros e m. by split.
  - intros i e r1 e'. by apply call_fuel.
Qed.

(** ** View calls *)

(** Everything that outlives an execution. *)
Definition lasting env :=
  (he_storage env, he_storage_changes env, he_transfers env, he_context env, he_executing_contracts env).

Lemma guest_read_only g env r env' :
  ec_read_only (he_context env) = true -> run g env = (r, env') -> lasting env' = lasting env.
Proof.
  intros Hro Hrun. revert Hro.
  apply (run_guest_ind (fun e e' => ec_read_only (he_context e) = true -> lasting e' = lasting e)) with (5 := Hrun).
  - done.
  - intros e1 e2 e3 H12 H23 H1. rewrite <- H12 by done. apply H23.
    specialize (H12 H1). unfold lasting in H12. injection H12 as _ _ _ -> _. done.
  - done.
  - intros i e r1 e' Hcall Hro. apply call_acts in Hcall as [-> | (cost & _ & Heff)]; [done |].
    inversion Heff; subst; try done;
      match goal with H : ec_read_only (he_context (charged _ e)) = false |- _ =>
        change (ec_read_only (he_context e) = false) in H; congruence end.
Qed.

(** ** Storage *)

(** Storage after a list of changes. *)
Definition replay (changes : list (bytes * option bytes)) (m : gmap bytes bytes) : gmap bytes bytes :=
  foldl (fun m c => match c.2 with Some v => <[c.1 := v]> m | None => delete c.1 m end) m changes.

Lemma replay_snoc changes c m :
  replay (changes ++ [c]) m = match c.2 with Some v => <[c.1 := v]> (replay changes m) | None => delete c.1 (replay changes m) end.
Proof. unfold replay. by rewrite foldl_app. Qed.

Definition mirrors (storage0 : gmap bytes bytes) env : Prop := he_storage env = replay (he_storage_changes env) storage0.

Lemma guest_mirrors storage0 g env r env' :
  he_contract_code env = ∅ -> mirrors storage0 env -> run g env = (r, env') -> mirrors storage0 env'.
Proof.
  intros Hnc Hm Hrun. enough (he_contract_code env' = ∅ /\ mirrors storage0 env') as [_ H] by exact H.
  assert (he_contract_code env = ∅ /\ mirrors storage0 env) as Hs by done. clear Hnc Hm. revert Hs.
  apply (run_guest_ind (fun e e' => he_contract_code e = ∅ /\ mirrors storage0 e ->
                                    he_contract_code e' = ∅ /\ mirrors storage0 e')) with (5 := Hrun).
  - done.
  - naive_solver.
  - done.
  - intros i e r1 e' Hcall [Hnc Hm]. apply call_acts in Hcall as [-> | (cost & _ & Heff)]; [done |].
    inversion Heff; subst; try done.
    + split; [done |]. unfold mirrors in *. upd. rewrite replay_snoc. simpl. by rewrite <- Hm.
    + split; [done |]. unfold mirrors in *. upd. rewrite replay_snoc. simpl. by rewrite <- Hm.
    + match goal with H : he_contract_code (charged _ e) !! _ = Some _ |- _ =>
        change (he_contract_code e !! target = Some code) in H; by rewrite Hnc in H end.
Qed.
End runs.

(** ** From the engine to the ledger *)

Section ledger.
Context `{GM : GuestMemory}.

Lemma lookup_storage_of (c : bytes) (m : gmap (bytes * bytes) bytes) (k : bytes) : storage_of c m !! k = m !! (c, k).
Proof.
  unfold storage_of. set (l := filter _ _). apply option_eq. intros v.
  rewrite <- elem_of_list_to_map.
  - rewrite list_elem_of_fmap. split.
    + intros ([[c' k'] v'] & [= -> ->] & Hin). unfold l in Hin. apply list_elem_of_filter in Hin as [Hc Hin].
      simpl in Hc. subst. by apply elem_of_map_to_list.
    + intros Hl. exists ((c, k), v). split; [done |]. apply list_elem_of_filter. split; [done |]. by apply elem_of_map_to_list.
  - unfold l. rewrite <- list_fmap_compose. apply NoDup_fmap_2_strong.
    + intros [[c1 k1] v1] [[c2 k2] v2] H1 H2 Hk. simpl in Hk. subst.
      apply list_elem_of_filter in H1 as [Hc1 H1]. apply list_elem_of_filter in H2 as [Hc2 H2]. simpl in *. subst.
      apply elem_of_map_to_list in H1, H2. congruence.
    + apply NoDup_filter, NoDup_map_to_list.
Qed.

Lemma apply_changes_replay (c : bytes) changes : forall s,
  storage_of c (ws_contract_storage (apply_storage_changes c changes s).2)
  = replay changes (storage_of c (ws_contract_storage s)).
Proof.
  induction changes as [| [key v] l IH]; intros s; [done |]. cbn [apply_storage_changes for_each].
  unfold apply_storage_changes in IH. simpl.
  destruct v as [v|]; rewrite (bind_modify (E:=StateError)); rewrite IH; unfold replay; simpl; f_equal;
    apply map_eq; intros k; rewrite lookup_storage_of; upd.
  - destruct (decide (k = key)) as [-> |].
    + by rewrite !lookup_insert_eq.
    + rewrite !lookup_insert_ne, lookup_storage_of by congruence. done.
  - destruct (decide (k = key)) as [-> |].
    + by rewrite !lookup_delete_eq.
    + rewrite !lookup_delete_ne, lookup_storage_of by congruence. done.
Qed.

End ledger.

Section engine.
Context `{HB : Blake3} `{WM : Wasmer}.

Lemma host_env_within m ctx storage cs chain_state code :
  within_fuel (host_env m ctx storage cs chain_state code).
Proof. split; [simpl; lia |]. unfold host_env, effects_price. simpl. lia. Qed.

Section with_child.
Context (execute_child : bytes -> string -> bytes -> ExecutionContext -> gmap bytes bytes -> ChainState ->
                         result ExecutionResult VmError).
Hypothesis (Hchild : child_within execute_child).

Definition outcome_within (limit : N) (r : result ExecutionResult VmError) : Prop :=
  match r with
  | Ok res => paid_result limit res
  | Err (OutOfFuel used _) => used <= limit
  | Err _ => True
  end.

Lemma write_args_fuel m args env r env' : write_args execute_child m args env = (r, env') ->
  fuel_step env env' /\ forall used limit, r <> Err (OutOfFuel used limit).
Proof.
  unfold write_args. case_bool_decide; [by intros [= <- <-] |]. destruct (wasm_export m "alloc"); [| by intros [= <- <-]].
  destruct (run_guest _ _ _ env) as [[z|e] env1] eqn:Hrun; apply guest_fuel in Hrun; try done.
  - destruct (mem_write _ _ _); intros [= <- <-]; by split.
  - intros [= <- <-]. by split.
Qed.

Lemma call_method_fuel m method args env :
  he_fuel_limit env < TWO64 -> within_fuel env ->
  outcome_within (he_fuel_limit env) (call_method execute_child m method args env).1.
Proof.
  intros Hlim Hw. unfold call_method. rewrite bind_map_err. destruct (wasm_get_memory m) as [[]|e]; [| done].
  rewrite bind_modify. set (env1 := env <| he_memory := true |>).
  assert (within_fuel env1 /\ he_fuel_limit env1 = he_fuel_limit env) as [Hw1 Hl1] by done. clearbody env1.
  destruct (write_args execute_child m args env1) as [r env2] eqn:Ha.
  pose proof (write_args_fuel _ _ _ _ _ Ha) as [[Hl2 Hs] Hno]. rewrite (bind_run _ _ _ _ _ Ha).
  destruct r as [ptr|e]; [| destruct e; try done; by destruct (Hno used limit)].
  rewrite bind_ok_or. destruct (wasm_export m method); [| done].
  unfold call_export. destruct (run_guest _ _ _ env2) as [[z|trap] env3] eqn:Hrun; apply guest_fuel in Hrun as [Hl3 Hs3]; try done;
    assert (within_fuel env3) as [F1 F2] by (apply Hs3; [congruence | apply Hs; [congruence | done]]); simpl.
  - split; simpl; [rewrite <- Hl1, <- Hl2, <- Hl3; lia | done].
  - unfold call_error. repeat case_match; simplify_eq; simpl; try done. rewrite <- Hl1, <- Hl2, <- Hl3; lia.
Qed.

Lemma run_engine_fuel code method args ctx storage cs chain_state contract_code cache :
  ec_fuel_limit ctx < TWO64 ->
  outcome_within (ec_fuel_limit ctx) (run_engine execute_child code method args ctx storage cs chain_state contract_code cache).1.
Proof.
  intros Hlim. unfold run_engine.
  destruct (load_module code cache) as [r c1] eqn:Hl. rewrite (bind_run _ _ _ _ _ Hl).
  assert (forall used limit, r <> Err (OutOfFuel used limit)) as Hno.
  { unfold load_module in Hl. repeat case_match; simplify_eq; done. }
  destruct r as [m|e]; [| destruct e; try done; by destruct (Hno used limit)].
  rewrite bind_map_err. destruct (check_memory_limits _) as [[]|e] eqn:Hm.
  2:{ destruct e; try done. exfalso. clear -Hm. induction (wasm_memories m) as [| [i [mx|]] l IH]; simpl in Hm; [done | |];
      repeat case_match; try done; by apply IH. }
  rewrite bind_map_err. destruct (wasm_link m) as [[mem start]|e]; [| done].
  destruct (run_guest _ _ start _) as [[z|e] env1] eqn:Hrun; [| done].
  apply guest_fuel in Hrun as [Hl1 Hs1]; [| done].
  pose proof (host_env_within mem ctx storage cs chain_state contract_code) as Hw.
  change (he_fuel_limit (host_env mem ctx storage cs chain_state contract_code)) with (ec_fuel_limit ctx) in *.
  pose proof (call_method_fuel m method args env1 ltac:(congruence) (Hs1 Hlim Hw)) as Hc. rewrite Hl1 in Hc.
  unfold map_err. by destruct (call_method _ _ _ _ env1).1.
Qed.
End with_child.

(** A successful execution: the module compiles and links, its start function and
    its method return, and the result is what the environment has recorded. *)
Lemma engine_Ok execute_child code method args ctx storage cs chain_state contract_code cache res :
  (run_engine execute_child code method args ctx storage cs chain_state contract_code cache).1 = Ok res ->
  exists m mem start z0 env0 ptr env1 nparams z env2,
    (load_module code cache).1 = Ok m /\ wasm_link m = Ok (mem, start)
    /\ run_guest execute_child child_in_time start (host_env mem ctx storage cs chain_state contract_code) = (Ok z0, env0)
    /\ write_args execute_child m args (env0 <| he_memory := true |>) = (Ok ptr, env1)
    /\ wasm_export m method = Some nparams
    /\ run_guest execute_child child_in_time (wasm_call m method (call_args nparams ptr args)) env1 = (Ok z, env2)
    /\ res = collect_result env2.
Proof.
  unfold run_engine. destruct (load_module code cache) as [[m|e] c1] eqn:Hl; rewrite (bind_run _ _ _ _ _ Hl); [| done].
  rewrite bind_map_err. destruct (check_memory_limits _) as [[]|]; [| done].
  rewrite bind_map_err. destruct (wasm_link m) as [[mem start]|] eqn:Hlink; [| done].
  destruct (run_guest _ _ start _) as [[z0|] env0] eqn:Hstart; [| done]. unfold map_err. simpl.
  destruct (call_method _ _ _ _ env0) as [[r|] e] eqn:Hc; [| done]. intros [= <-].
  unfold call_method in Hc. rewrite bind_map_err in Hc. destruct (wasm_get_memory m) as [[]|]; [| done].
  rewrite bind_modify in Hc. apply bind_Ok in Hc as (ptr & env1 & Hargs & Hc).
  rewrite bind_ok_or in Hc. destruct (wasm_export m method) as [nparams|] eqn:Hex; [| done].
  unfold call_export in Hc. destruct (run_guest _ _ (wasm_call _ _ _) env1) as [[z|] env2] eqn:Hrun; [| done].
  injection Hc as <- <-. exists m, mem, start, z0, env0, ptr, env1, nparams, z, env2. by split_and!.
Qed.

Lemma fresh_load code m n : wasm_compile code = Ok m -> (load_module code (ModuleCache_new n)).1 = Ok m.
Proof. intros Hc. unfold load_module, cache_get. simpl. rewrite lookup_empty, Hc. done. Qed.

(** C25. Fuel bounds every contract execution, nested ones included: whatever
    the code does, a successful execution has used at most its fuel limit, and
    the fuel used pays for all its effects: its storage changes at 10000 each,
    its transfers at 100000 and its events at 20000 (so the default limit allows
    at most 1000 changes, 100 transfers and 500 events), a callee's effects
    included; an execution that runs out reports no more than its limit. *)
Theorem fuel_bounds code method args ctx storage cs contract_code :
  ec_fuel_limit ctx < TWO64 ->
  match execute_with_cross_calls (VmEngine:=wasm_engine) code method args ctx storage cs contract_code with
  | Ok res =>
      er_fuel_consumed res <= ec_fuel_limit ctx
      /\ 10000 * N.of_nat (length (er_storage_changes res)) + 100000 * N.of_nat (length (er_transfers res))
         + 20000 * N.of_nat (length (er_events res)) <= er_fuel_consumed res
  | Err (OutOfFuel used _) => used <= ec_fuel_limit ctx
  | Err _ => True
  end.
Proof.
  apply run_engine_fuel. intros code' method' args' ctx' storage' cs' Hlim.
  apply (run_engine_fuel (fun _ _ _ _ _ _ => Err (ExecutionFailed ""))); [by intros ? ? ? ? ? ? | done].
Qed.
End engine.

(** ** Witnesses *)

#[local] Existing Instance toy_blake3.
#[local] Existing Instance toy_memory.
#[local] Existing Instance toy_linear.

(** [run] stores, pays and emits; [outer] stores and calls another contract's
    [run]. *)
Definition toy_run : prog unit :=
  storage_set [x01] [x02; x03];;
  _ ← transfer (toy_addr 5) 7;
  emit_event_raw "paid" [].

Definition toy_outer : prog unit :=
  storage_set [x04] [x05];;
  _ ← call_contract_invoke (toy_addr 9) "run" [] 0;
  mret tt.

Definition toy_exports (name : string) : option (N -> N -> guest) :=
  if decide (name = "run"%string) then Some (fun _ _ => export_fn toy_run)
  else if decide (name = "outer"%string) then Some (fun _ _ => export_fn toy_outer)
  else None.

#[local] Instance toy_machine : Wasmer := toy_wasmer toy_exports.

Definition toy_context : ExecutionContext :=
  new_top_level (toy_addr 1) (toy_addr 8) 10 1000 0 DEFAULT_FUEL_LIMIT false.
Definition toy_chain : ChainState := mkChainState (fun _ => 100) (fun _ => 0) (fun _ => false) (fun _ _ => None) (fun _ => None).

Definition toy_execution : result ExecutionResult VmError :=
  execute_with_cross_calls (VmEngine:=wasm_engine) [x01] "outer" [] toy_context ∅ toy_chain {[ toy_addr 9 := [x02] ]}.
Definition toy_result : ExecutionResult :=
  match toy_execution with Ok r => r | Err _ => mkExecutionResult [] 0 [] [] [] [] end.

Lemma toy_executes : toy_execution = Ok toy_result.
Proof. vm_compute. reflexivity. Qed.

Lemma fuel_bounds_witness :
  length (er_storage_changes toy_result) = 2%nat /\ length (er_transfers toy_result) = 1%nat
  /\ length (er_events toy_result) = 1%nat /\ 140000 <= er_fuel_consumed toy_result <= DEFAULT_FUEL_LIMIT.
Proof.
  split; [vm_compute; reflexivity |]. split; [vm_compute; reflexivity |]. split; [vm_compute; reflexivity |].
  pose proof (fuel_bounds [x01] "outer" [] toy_context ∅ toy_chain {[ toy_addr 9 := [x02] ]} eq_refl) as H.
  fold toy_execution in H. rewrite toy_executes in H. destruct H as [H1 H2]. split; [| exact H1].
  etransitivity; [| exact H2]. vm_compute. discriminate.
Defined.

Definition toy_env : HostEnv := (host_env (@nil byte) toy_context ∅ toy_chain (Some toy_chain) ∅) <| he_memory := true |>.
Definition toy_after : HostEnv := (run_guest (fun _ _ _ _ _ _ => Err (ExecutionFailed "")) (fun _ => true) (export_fn toy_run) toy_env).2.

