(* ===== verification/TestCalls.v ===== *)
(** * The test framework at work

    A contract called in the test environment and on the ledger. *)

From S2P Require Import Prelude Interfaces Types Concrete Utf8 Vm Host Engine World ConcreteState HandlerBase ConcreteTx Contracts TestEnv Sdk ConcreteVm.

#[local] Existing Instance toy_blake3.
#[local] Existing Instance toy_tx_codec.
#[local] Existing Instance toy_hex.
#[local] Existing Instance toy_memory.
#[local] Existing Instance toy_linear.

(** Any method stores a value and asks for a transfer of [amount]. *)
Definition paying (amount : N) : prog unit :=
  storage_set [x01] [x02; x03];;
  _ ← transfer (toy_addr 5) amount;
  mret tt.

Definition paying_exports (amount : N) (name : string) : option (N -> N -> guest) :=
  if decide (name = "alloc"%string) then None else Some (fun _ _ => export_fn (paying amount)).

Definition paying_machine (amount : N) : Wasmer := toy_wasmer (paying_exports amount).

#[local] Existing Instance toy_schedule.

(** The contract that [toy_call] calls, on the ledger and in a test. *)
Definition called_ledger : WorldState := toy_deployed.
Definition called_env : TestEnv :=
  mkTestEnv (ws_balances called_ledger) (ws_contract_code called_ledger) (ws_contract_storage called_ledger)
    (ws_block_height called_ledger) (ws_block_timestamp called_ledger) ∅.

Definition called_payload : ContractCallPayload := mkContractCallPayload toy_contract "pay" [x07] 20.
Definition called_result (amount : N) : ExecutionResult :=
  match @te_execute _ (paying_machine amount) (x00 :: lit "asm") "pay" [x07] (toy_addr 1) toy_contract 20
          (te_paid (toy_addr 1) toy_contract 20 called_env) with
  | Ok r => r
  | Err _ => mkExecutionResult [] 0 [] [] [] []
  end.


Lemma te_call_conserves_witness :
  map_total (te_balances (@te_call _ (paying_machine 1000) (toy_addr 1) toy_contract "pay" [x07] 20 called_env).2) = 50.
Proof.
  rewrite (@te_call_conserves _ (paying_machine 1000)); [vm_compute; reflexivity |]. vm_compute. done.
Defined.
