(* ===== verification/QueryCorrect.v ===== *)
(** * What the queries answer

    A transaction of an accepted block can be found by its hash, the scans return
    what a scan of all blocks would, a contract view changes nothing, and which
    answers are not what they are meant to be. *)

From stdpp Require Import pretty.
From S2P Require Import Prelude Interfaces Types Concrete Crypto ConsensusTypes Election Slashing ValidatorSet Utf8 Vm Host Engine Sdk World ConcreteState HandlerBase ConcreteTx ConcreteVm Contracts Store ApplyTx Rewards Epochs Node Chain ConcreteNode BlockLedger Genesis Agreement CatchUp Startup HostSafety Json Queries.

Section queries.
Context `{HB : Blake3} `{HE : Ed25519} `{TC : TxCodec} `{HX : Hex} `{VM : VmEngine} `{VS : VmSchedule}.
Context `{SCd : StateCodec} `{RD : Redb} `{SC : StoreCodec} `{NC : NodeCodec} `{KE : KeyErrors}.
Implicit Types (inner : ChainInner Db) (block : Block).

(** ** Recent transactions *)

Definition as_recent (h ts : N) (p : N * Transaction) : recent_tx := (h, p.1, p.2, ts).

(** The transactions of a block, last one first. *)
Definition block_txs inner (h : N) : list recent_tx :=
  match chain_get_block inner h with
  | Some block => as_recent h (b_timestamp block) <$> reverse (enumerate_from 0 (b_transactions block))
  | None => []
  end.

(** Every transaction the node can read, newest first. *)
Definition all_recent inner : list recent_tx :=
  concat (block_txs inner <$> reverse (seqN 0 (b_height (ch_latest_block inner) + 1))).

Lemma push_txs_spec limit h ts txs results :
  let n := N.to_nat (N.max 1 limit) in
  let all := results ++ (as_recent h ts <$> txs) in
  (length results < n)%nat ->
  push_txs limit h ts txs results = (take n all, bool_decide (n <= length all)%nat).
Proof.
  intros n. revert results. induction txs as [|[i tx] txs IH]; intros results all Hlen; subst all.
  - rewrite app_nil_r, take_ge by lia. by rewrite bool_decide_eq_false_2 by lia.
  - assert (results ++ (as_recent h ts <$> (i, tx) :: txs) = (results ++ [(h, i, tx, ts)]) ++ (as_recent h ts <$> txs))
      as -> by (by rewrite <- app_assoc).
    cbn [push_txs]. destruct (N.leb_spec limit (N.of_nat (length (results ++ [(h, i, tx, ts)])))) as [Hl|Hl];
      rewrite length_app in Hl; simpl in Hl.
    + assert (length (results ++ [(h, i, tx, ts)]) = n) as Hn by (rewrite length_app; simpl; lia).
      rewrite take_app_length' by done. rewrite bool_decide_eq_true_2; [done |]. rewrite length_app. lia.
    + apply IH. rewrite length_app. simpl. lia.
Qed.

Lemma scan_blocks_spec inner limit heights results :
  let n := N.to_nat (N.max 1 limit) in
  (length results < n)%nat ->
  scan_blocks inner limit heights results = take n (results ++ concat (block_txs inner <$> heights)).
Proof.
  intros n. revert results. induction heights as [|h heights IH]; intros results Hlen; simpl.
  { by rewrite app_nil_r, take_ge by lia. }
  unfold block_txs at 1. destruct (chain_get_block inner h) as [block|]; [| by apply IH].
  rewrite push_txs_spec by done. fold n. rewrite app_assoc. case_bool_decide as Hd.
  - symmetry. by apply take_app_le.
  - rewrite take_ge by lia. apply IH. lia.
Qed.

(** The scan for recent transactions is the front of the list of all of them, newest
    first; asked for none, it returns one. *)
Theorem recent_transactions_spec inner limit :
  get_recent_transactions inner limit = take (N.to_nat (N.max 1 limit)) (all_recent inner).
Proof. unfold get_recent_transactions. rewrite scan_blocks_spec; [done | simpl; lia]. Qed.

(** ** Finding a transaction *)
Lemma enumerate_elem {A} (l : list A) i p : p ∈ enumerate_from i l -> p.2 ∈ l.
Proof.
  revert i. induction l as [|a l IH]; intros i; simpl; [by intros ?%not_elem_of_nil |].
  intros [-> | Hin]%elem_of_cons; [left | right; by eapply IH].
Qed.

Lemma find_tx_some (txs : list Transaction) tx :
  tx ∈ txs -> exists i tx', find_tx (tx_hash tx) txs = Some (i, tx') /\ tx' ∈ txs /\ tx_hash tx' = tx_hash tx.
Proof.
  intros Hin. unfold find_tx. destruct (List.find _ (enumerate_from 0 txs)) as [[i tx']|] eqn:Hf.
  - apply List.find_some in Hf as [Hel Hd]. apply bool_decide_eq_true in Hd. exists i, tx'. split_and!; [done | | done].
    apply list_elem_of_In in Hel. by apply enumerate_elem in Hel.
  - exfalso. apply list_elem_of_lookup in Hin as [k Hk].
    assert (forall i, (i + N.of_nat k, tx) ∈ enumerate_from i txs) as Hel.
    { clear Hf. revert k Hk. induction txs as [|a txs IH]; intros [|k] Hk i; [done | done | |].
      - injection Hk as ->. rewrite N.add_0_r. left.
      - right. specialize (IH k Hk (i + 1)). by replace (i + N.of_nat (S k)) with (i + 1 + N.of_nat k) by lia. }
    specialize (Hel 0). apply list_elem_of_In in Hel. pose proof (List.find_none _ _ Hf _ Hel) as Hd. simpl in Hd.
    by rewrite bool_decide_eq_true_2 in Hd.
Qed.

(** What an accepted block leaves in the store. *)
Lemma accepted_stored clock block is_sync inner inner' :
  apply_remote_block_inner clock block is_sync inner = (Ok tt, inner') ->
  exists (w : WorldState) mid db, put_block_and_snapshot block (to_vec w) db = (Ok tt, ch_store mid)
    /\ ch_store inner' = ch_store (after_stored block mid) /\ ch_latest_block inner' = block.
Proof.
  intros Hrun. unfold apply_remote_block_inner in Hrun.
  rewrite bind_get in Hrun. cbv zeta in Hrun.
  do 3 (apply bind_Ok in Hrun as ([] & ? & _ & Hrun)).
  apply bind_Ok in Hrun as ([fees w0] & ? & _ & Hrun). apply bind_Ok in Hrun as (w1 & peer & _ & Hrun).
  rewrite bind_get in Hrun. repeat (rewrite bind_fail_if in Hrun; case_match; [done |]).
  rewrite bind_modify in Hrun. apply bind_Ok in Hrun as ([] & mid & Hstore & Hrun).
  unfold store_block in Hstore.
  match type of Hstore with context [put_block_and_snapshot ?b ?s ?d] =>
    destruct (put_block_and_snapshot b s d) as [[[]|e] db'] eqn:Hput; [| done] end.
  apply (f_equal snd) in Hstore. apply (f_equal snd) in Hrun. simpl in Hstore, Hrun.
  assert (ch_store mid = db') as <- by (by rewrite <- Hstore).
  eexists _, mid, _. split; [exact Hput |]. by rewrite <- Hrun.
Qed.

(** C31. Every transaction of an accepted block can be found: right after a node has
    accepted a block, each of its transactions is found by its hash, as a
    transaction of that block with that hash, with the block's height and time. *)
Theorem accepted_tx_found `{!RedbLaws} clock block is_sync inner inner' tx :
  apply_remote_block_inner clock block is_sync inner = (Ok tt, inner') ->
  b_height block < TWO64 -> try_from_slice (to_vec block) = Ok block -> tx ∈ b_transactions block ->
  exists tx', get_tx_by_hash inner' (tx_hash tx) = Some (tx', b_height block, b_timestamp block)
    /\ tx' ∈ b_transactions block /\ tx_hash tx' = tx_hash tx.
Proof.
  intros Hrun Hh Hcodec Hin. destruct (accepted_stored _ _ _ _ _ Hrun) as (w & mid & db & Hput & Hst & _).
  pose proof (put_stored block (to_vec w) db Hh Hcodec) as Hs. rewrite Hput in Hs.
  destruct (find_tx_some _ _ Hin) as (i & tx' & Hf & Hin' & Heq). exists tx'. split; [| done].
  unfold get_tx_by_hash, locate_tx, stored_block, get_tx_block_height. rewrite Hst.
  rewrite after_stored_reads by (split; [done | by left]).
  pose proof (sd_txs _ _ _ _ Hs tx Hin) as Hidx. unfold get_tx_block_height in Hidx. rewrite Hidx.
  destruct (stored_survives block mid) as (Hb & _). rewrite Hb, (sd_block _ _ _ _ Hs), Hf. done.
Qed.

(** ** Events *)
Lemma concat_events inner contract heights events :
  foldl (fun events height => events ++ events_at inner contract height) events heights
  = events ++ concat (events_at inner contract <$> heights).
Proof.
  revert events. induction heights as [|h heights IH]; intros events; simpl; [by rewrite app_nil_r |].
  by rewrite IH, <- app_assoc.
Qed.

(** The events of a contract in a range are those of the blocks in it that the node
    can read, in order, and nothing else. *)
Theorem contract_events_spec inner contract from_block to_block e :
  e ∈ get_contract_events inner contract from_block to_block <->
  exists h block, from_block <= h <= N.min to_block (b_height (ch_latest_block inner))
    /\ chain_get_block inner h = Some block /\ e ∈ b_events block /\ is_event_of contract e = true.
Proof.
  unfold get_contract_events. rewrite concat_events, app_nil_l, list_elem_of_In, in_concat. unfold get_block_number.
  split.
  - intros (l & Hl & He). apply list_elem_of_In, list_elem_of_fmap in Hl as (h & -> & Hh%elem_of_seqN).
    unfold events_at in He. destruct (chain_get_block inner h) as [block|] eqn:Hb; [| done].
    apply filter_In in He as [He Hof]. apply list_elem_of_In in He. exists h, block. split_and!; try done; lia.
  - intros (h & block & Hh & Hb & He & Hof). exists (events_at inner contract h). split.
    + apply list_elem_of_In, list_elem_of_fmap. exists h. split; [done |]. apply elem_of_seqN. lia.
    + unfold events_at. rewrite Hb. apply filter_In. split; [by apply list_elem_of_In | done].
Qed.

(** ** The supply audit *)

(** The audit's total leaves out the mining rewards that are not paid out yet, and
    is smaller than the supply by just these; the other query counts them. *)
Theorem audit_omits_mining h inner :
  sound h (ch_state inner) ->
  audited_supply (ch_state inner) + pending_mining (ch_state inner) = supply (ch_state inner)
  /\ u128_add (audited_supply (ch_state inner)) (pending_mining (ch_state inner)) = total_supply (ch_state inner).
Proof.
  intros Hs. pose proof (sound_fits _ _ Hs) as Hfit. unfold supply_fits in Hfit. split; [| done].
  rewrite <- total_supply_exact by lia. unfold supply in Hfit.
  change (map_total (ws_balances (ch_state inner))) with (lsum snd (map_to_list (ws_balances (ch_state inner)))) in *.
  change (map_total (ws_stakes (ch_state inner))) with (lsum snd (map_to_list (ws_stakes (ch_state inner)))) in *.
  unfold msum in Hfit. change (total_supply (ch_state inner))
    with (u128_add (audited_supply (ch_state inner)) (pending_mining (ch_state inner))).
  symmetry. apply wadd_small. unfold audited_supply, pending_mining, sum_balances, sum_stakes, sum_unbonding.
  rewrite !wsum_exact by lia. revert Hfit.
  generalize (lsum snd (map_to_list (ws_balances (ch_state inner)))) (lsum snd (map_to_list (ws_stakes (ch_state inner))))
    (lsum ub_amount (ws_unbonding_queue (ch_state inner))) (ws_epoch_reward_bucket (ch_state inner))
    (lsum (fun p : bytes * MinerInfo => mi_pending_rewards p.2) (map_to_list (ws_miners (ch_state inner)))).
  intros b k u e m Hs'. rewrite (wadd_small _ b k), (wadd_small _ e m) by lia. rewrite (wadd_small _ _ u) by lia. lia.
Qed.
End queries.

(** ** Miners by name *)

Section miners.
Context `{RD : Redb}.
Implicit Types (inner : ChainInner Db) (m e : MinerInfo).

Lemma prefers_false e m :
  prefers e m = false <->
  (mi_active m = true -> mi_active e = true)
  /\ (mi_active m = mi_active e -> mi_last_checkin_epoch m <= mi_last_checkin_epoch e).
Proof.
  unfold prefers. destruct (mi_active m), (mi_active e); simpl; rewrite ?N.ltb_ge; naive_solver.
Qed.

Lemma prefers_true e m :
  prefers e m = true ->
  (mi_active e = true -> mi_active m = true)
  /\ (mi_active m = mi_active e -> mi_last_checkin_epoch e <= mi_last_checkin_epoch m).
Proof.
  unfold prefers. destruct (mi_active m), (mi_active e); simpl; rewrite ?N.ltb_lt; try done; intros; split; intros; try done; lia.
Qed.

(** [groups] holds, for each name in [l], the best of its miners. *)
Definition best_by_name (l : list MinerInfo) (groups : gmap string MinerInfo) : Prop :=
  (forall n e, groups !! n = Some e -> e ∈ l /\ mi_name e = n /\ forall m, m ∈ l -> mi_name m = n -> prefers e m = false)
  /\ forall m, m ∈ l -> is_Some (groups !! mi_name m).

Lemma best_step l groups m : best_by_name l groups -> best_by_name (l ++ [m]) (group_by_name groups m).
Proof.
  intros [Hbest Hall].
  assert (forall x, x ∈ l ++ [m] <-> x ∈ l \/ x = m) as Hel
    by (intros x; rewrite elem_of_app, list_elem_of_singleton; tauto).
  assert (forall x, prefers x x = false) as Hirr by (intros x; by apply prefers_false).
  unfold group_by_name. destruct (groups !! mi_name m) as [old|] eqn:Hold.
  - destruct (Hbest _ _ Hold) as (Ho1 & Ho2 & Ho3). destruct (prefers old m) eqn:Hp.
    + split.
      * intros n e. destruct (decide (mi_name m = n)) as [<- |].
        -- rewrite lookup_insert_eq. intros [= <-]. rewrite Hel. split_and!; [by right | done |].
           intros x [Hx | ->]%Hel Hn; [| apply Hirr]. specialize (Ho3 x Hx Hn).
           apply prefers_false in Ho3 as [F1 F2]. apply prefers_true in Hp as [G1 G2]. apply prefers_false.
           split; [tauto |]. intros Heq. destruct (mi_active x), (mi_active m), (mi_active old); try done;
             try (specialize (F2 eq_refl)); try (specialize (G2 eq_refl)); try lia; by (destruct (F1 eq_refl) || destruct (G1 eq_refl)).
        -- rewrite lookup_insert_ne by done. intros He. destruct (Hbest _ _ He) as (H1 & H2 & H3).
           rewrite Hel. split_and!; [by left | done |]. intros x [Hx | ->]%Hel Hn; [by apply H3 | done].
      * intros x [Hx | ->]%Hel; [| rewrite lookup_insert_eq; eauto].
        destruct (decide (mi_name m = mi_name x)) as [<- |]; [rewrite lookup_insert_eq; eauto |].
        rewrite lookup_insert_ne by done. by apply Hall.
    + split.
      * intros n e He. destruct (Hbest _ _ He) as (H1 & H2 & H3). rewrite Hel. split_and!; [by left | done |].
        intros x [Hx | ->]%Hel Hn; [by apply H3 |]. rewrite Hn in Hold. congruence.
      * intros x [Hx | ->]%Hel; [by apply Hall |]. rewrite Hold. eauto.
  - split.
    + intros n e. destruct (decide (mi_name m = n)) as [<- |].
      * rewrite lookup_insert_eq. intros [= <-]. rewrite Hel. split_and!; [by right | done |].
        intros x [Hx | ->]%Hel Hn; [| apply Hirr]. destruct (Hall x Hx) as [y Hy]. rewrite Hn in Hy. congruence.
      * rewrite lookup_insert_ne by done. intros He. destruct (Hbest _ _ He) as (H1 & H2 & H3).
        rewrite Hel. split_and!; [by left | done |]. intros x [Hx | ->]%Hel Hn; [by apply H3 | done].
    + intros x [Hx | ->]%Hel; [| rewrite lookup_insert_eq; eauto].
      destruct (decide (mi_name m = mi_name x)) as [<- |]; [rewrite lookup_insert_eq; eauto |].
      rewrite lookup_insert_ne by done. by apply Hall.
Qed.

Lemma best_groups l : best_by_name l (foldl group_by_name ∅ l).
Proof.
  induction l as [|m l IH] using rev_ind; [split; [intros n e Hn; simpl in Hn; by rewrite lookup_empty in Hn | by intros m ?%not_elem_of_nil] |].
  rewrite foldl_app. by apply best_step.
Qed.

(** What is promised of a [HashMap]'s values: they are all there, in some order. *)
Definition lawful_values (into_values : gmap string MinerInfo -> list MinerInfo) : Prop :=
  forall groups, into_values groups ≡ₚ (map_to_list groups).*2.

(** The list of miners has, for each name that a miner has, exactly one entry, and
    no miner of that name is a better one. *)
Theorem dedup_miners_spec into_values inner :
  lawful_values into_values ->
  NoDup (mi_name <$> dedup_miners into_values inner)
  /\ (forall a m, ws_miners (ch_state inner) !! a = Some m ->
        exists e, e ∈ dedup_miners into_values inner /\ mi_name e = mi_name m /\ prefers e m = false)
  /\ forall e, e ∈ dedup_miners into_values inner -> exists a, ws_miners (ch_state inner) !! a = Some e.
Proof.
  intros Hlaw. unfold dedup_miners. pose proof (Hlaw (name_groups inner)) as Hp. unfold name_groups in *.
  set (l := (addr_entries (ws_miners (ch_state inner))).*2) in *. destruct (best_groups l) as [Hbest Hall].
  assert (forall m, m ∈ l <-> exists a, ws_miners (ch_state inner) !! a = Some m) as Hl.
  { intros m. unfold l. rewrite list_elem_of_fmap. split.
    - intros ([a x] & -> & Hin). exists a. by apply elem_of_sorted_entries in Hin.
    - intros [a Ha]. exists (a, m). split; [done | by apply elem_of_sorted_entries]. }
  assert (forall e, e ∈ into_values (foldl group_by_name ∅ l) <-> exists n, foldl group_by_name ∅ l !! n = Some e) as Hin.
  { intros e. rewrite Hp, list_elem_of_fmap. split.
    - intros ([n x] & -> & Hx). exists n. by apply elem_of_map_to_list in Hx.
    - intros [n Hn]. exists (n, e). split; [done | by apply elem_of_map_to_list]. }
  split_and!.
  - rewrite Hp, <- list_fmap_compose.
    assert (((mi_name ∘ snd) <$> map_to_list (foldl group_by_name ∅ l)) = (map_to_list (foldl group_by_name ∅ l)).*1) as ->;
      [| apply NoDup_fst_map_to_list].
    apply Forall_fmap_ext_1, Forall_forall. intros [n e] Hne%elem_of_map_to_list. by destruct (Hbest _ _ Hne) as (_ & <- & _).
  - intros a m Ha. assert (m ∈ l) as Hm by (apply Hl; eauto). destruct (Hall m Hm) as [e He].
    destruct (Hbest _ _ He) as (_ & Hn & Hpref). exists e. rewrite Hin. split_and!; [eauto | done | by apply Hpref].
  - intros e [n Hn]%Hin. apply Hl. by destruct (Hbest _ _ Hn).
Qed.
End miners.

(** ** Contract views *)

Section views.
Context `{HB : Blake3} `{WM : Wasmer} `{RD : Redb}.
Implicit Types (inner : ChainInner Db).

Lemma write_args_read_only execute_child m args env r env' :
  ec_read_only (he_context env) = true -> write_args execute_child m args env = (r, env') -> lasting env' = lasting env.
Proof.
  intros Hro. unfold write_args. case_bool_decide; [by intros [= <- <-] |].
  destruct (wasm_export m "alloc"); [| by intros [= <- <-]].
  destruct (run_guest _ _ _ env) as [[z|e] env1] eqn:Hrun; apply guest_read_only in Hrun; try done.
  - destruct (mem_write _ _ _); intros [= <- <-]; done.
  - by intros [= <- <-].
Qed.

(** A read-only execution records no change of storage and no transfer. *)
Lemma read_only_result code method args ctx storage cs r :
  ec_read_only ctx = true -> execute code method args ctx storage cs = Ok r ->
  er_storage_changes r = [] /\ er_transfers r = [].
Proof.
  intros Hro Hrun. apply engine_Ok in Hrun as (m & mem & start & z0 & env0 & ptr & env1 & np & z & env2 & _ & _ & H0 & H1 & _ & H2 & ->).
  apply guest_read_only in H0; [| done].
  assert (forall e e', lasting e' = lasting e -> ec_read_only (he_context e) = true -> ec_read_only (he_context e') = true) as Hk
    by (intros e e' He Hr; unfold lasting in He; injection He as _ _ _ -> _; done).
  pose proof (Hk _ _ H0 Hro) as Hro0. apply write_args_read_only in H1; [| done].
  pose proof (Hk _ _ H1 Hro0) as Hro1. apply guest_read_only in H2; [| done].
  assert (lasting env2 = lasting (host_env mem ctx storage cs None ∅)) as Hl by (rewrite H2, H1; exact H0).
  unfold lasting in Hl. injection Hl as _ Hc Ht _ _. by split.
Qed.

(** A contract view cannot change anything: an answer is that of an execution in
    which no storage changed and no transfer was asked for, whatever the contract
    computes, so clearing them afterwards loses only the events, which views do
    record; and it has used at most the fuel of a view. *)
Theorem view_is_pure in_time inner addr method args r :
  call_contract_view in_time inner addr method args = Ok r ->
  exists code r0,
    ws_contract_code (ch_state inner) !! addr = Some code
    /\ execute code method args
         (new_top_level zeros32 addr (ws_block_height (ch_state inner)) (get_last_block_timestamp inner) 0 VIEW_CALL_FUEL_LIMIT true)
         (storage_of addr (ws_contract_storage (ch_state inner))) (view_snapshot (ch_state inner)) = Ok r0
    /\ er_storage_changes r0 = [] /\ er_transfers r0 = []
    /\ r = mkExecutionResult (er_return_data r0) (er_fuel_consumed r0) [] (er_logs r0) [] []
    /\ er_fuel_consumed r <= VIEW_CALL_FUEL_LIMIT.
Proof.
  unfold call_contract_view. destruct (ws_contract_code (ch_state inner) !! addr) as [code|] eqn:Hcode; [| done].
  destruct in_time; [| done]. destruct (execute _ _ _ _ _ _) as [r0|e] eqn:Hrun; [| done]. intros [= <-].
  assert (er_storage_changes r0 = [] /\ er_transfers r0 = []) as [H1 H2]
    by (eapply read_only_result; [| exact Hrun]; reflexivity).
  exists code, r0. split_and!; try done. simpl.
  set (ctx := new_top_level _ _ _ _ _ _ _) in Hrun. unfold execute in Hrun.
  match type of Hrun with (run_engine ?ch _ _ _ _ ?st ?cs ?o ?cc ?cache).1 = _ =>
    pose proof (run_engine_fuel ch ltac:(by intros ? ? ? ? ? ?) code method args ctx st cs o cc cache eq_refl) as Hf end.
  rewrite Hrun in Hf. by destruct Hf.
Qed.
End views.

(** ** Witnesses and consequences *)

#[local] Existing Instance toy_blake3.
#[local] Existing Instance toy_ed25519.
#[local] Existing Instance toy_tx_codec.
#[local] Existing Instance toy_redb.
#[local] Existing Instance caught_codec.
#[local] Existing Instance toy_hex.
#[local] Existing Instance toy_vm.
#[local] Existing Instance toy_schedule.
#[local] Existing Instance toy_codec.
#[local] Existing Instance toy_node_codec.
#[local] Existing Instance toy_key_errors.

Lemma accepted_tx_found_witness :
  let inner' := (apply_remote_block_inner toy_clock caught_block false toy_busy).2 in
  exists tx', get_tx_by_hash inner' (tx_hash toy_payment) = Some (tx', b_height caught_block, b_timestamp caught_block)
    /\ tx' ∈ b_transactions caught_block /\ tx_hash tx' = tx_hash toy_payment.
Proof.
  pose proof toy_redb_laws as Hredb. intros inner'.
  assert ((apply_remote_block_inner toy_clock caught_block false toy_busy).1 = Ok tt) as Hok by (vm_compute; reflexivity).
  pose proof (run_eq _ _ _ Hok) as Hrun. fold inner' in Hrun. clearbody inner'. clear Hok. apply (accepted_tx_found toy_clock caught_block false toy_busy inner' toy_payment).
  - exact Hrun.
  - reflexivity.
  - reflexivity.
  - apply list_elem_of_here.
Defined.

(** Two miners, both active. *)
Definition toy_listed (i : N) (name : string) : MinerInfo :=
  mkMinerInfo (toy_addr i) Online name 1 1 [] true 10000 0 0 0 0 0.
Definition toy_miners : ChainInner Db :=
  toy_node 5 {[ toy_addr 1 := toy_listed 1 "one"; toy_addr 2 := toy_listed 2 "two" ]} [] ∅.

Definition values_forward (groups : gmap string MinerInfo) : list MinerInfo := (map_to_list groups).*2.
Definition values_backward (groups : gmap string MinerInfo) : list MinerInfo := reverse (map_to_list groups).*2.

Lemma forward_lawful : lawful_values values_forward.
Proof. by intros g. Qed.
Lemma backward_lawful : lawful_values values_backward.
Proof. intros g. unfold values_backward. by rewrite reverse_Permutation. Qed.

(** Pages of the list of miners do not fit together: every call makes a new hash map,
    and two pages made in different orders can list one miner twice and leave the
    other one out. *)
Theorem miner_pages_lose :
  exists (inner : ChainInner Db) o1 o2 m1 m2,
    lawful_values o1 /\ lawful_values o2
    /\ (map_to_list (ws_miners (ch_state inner))).*2 ≡ₚ [m1; m2] /\ m1 <> m2
    /\ mi_active m1 = true /\ mi_active m2 = true
    /\ get_miners o1 true 1 0 inner ++ get_miners o2 true 1 1 inner = [m1; m1].
Proof.
  assert (exists m1 m2, (map_to_list (ws_miners (ch_state toy_miners))).*2 ≡ₚ [m1; m2] /\ m1 <> m2
    /\ mi_active m1 = true /\ mi_active m2 = true
    /\ get_miners values_forward true 1 0 toy_miners ++ get_miners values_backward true 1 1 toy_miners = [m1; m1]) as (m1 & m2 & H).
  { destruct (get_miners values_forward true 1 0 toy_miners) as [|m1 [|]] eqn:E;
      vm_compute in E; try discriminate. injection E as <-.
    first [exists (toy_listed 1 "one"), (toy_listed 2 "two"); split_and!; [| discriminate | reflexivity | reflexivity | vm_compute; reflexivity]
          |exists (toy_listed 2 "two"), (toy_listed 1 "one"); split_and!; [| discriminate | reflexivity | reflexivity | vm_compute; reflexivity]];
      vm_compute; first [apply Permutation_refl | apply perm_swap]. }
  exists toy_miners, values_forward, values_backward, m1, m2. split; [apply forward_lawful |]. split; [apply backward_lawful | exact H].
Qed.

Lemma dedup_miners_spec_witness :
  exists e, e ∈ dedup_miners values_backward toy_miners /\ mi_name e = "two"%string /\ prefers e (toy_listed 2 "two") = false.
Proof.
  apply (proj1 (proj2 (dedup_miners_spec values_backward toy_miners backward_lawful)) (toy_addr 2) (toy_listed 2 "two")).
  vm_compute. reflexivity.
Defined.

(** Asked for no transactions, the scan returns one. *)
Lemma recent_zero_is_one : length (get_recent_transactions (ConcreteNode.toy_after toy_busy) 0) = 1%nat.
Proof. rewrite recent_transactions_spec. vm_compute. reflexivity. Qed.

(** A contract whose [peek] emits an event and answers. *)
#[local] Existing Instance toy_memory.
#[local] Existing Instance toy_linear.

Definition toy_peek : prog unit :=
  emit_event_raw "peeked" [];;
  set_return_data [x07].

Definition peek_exports (name : string) : option (N -> N -> guest) :=
  if decide (name = "peek"%string) then Some (fun _ _ => export_fn toy_peek) else None.

#[local] Instance peek_machine : Wasmer := toy_wasmer peek_exports.

Definition toy_viewed : ChainInner Db :=
  toy_busy <| ch_state ::= fun w => w <| ws_contract_code := {[ toy_addr 9 := [x01] ]} |> |>.

Lemma view_is_pure_witness :
  exists r r0 code, call_contract_view true toy_viewed (toy_addr 9) "peek" [] = Ok r /\ er_return_data r = [x07]
    /\ ws_contract_code (ch_state toy_viewed) !! toy_addr 9 = Some code
    /\ er_storage_changes r0 = [] /\ er_transfers r0 = [] /\ er_events r0 <> [] /\ er_events r = [].
Proof.
  destruct (call_contract_view true toy_viewed (toy_addr 9) "peek" []) as [r|e] eqn:E;
    [| exfalso; vm_compute in E; discriminate E].
  destruct (view_is_pure true toy_viewed (toy_addr 9) "peek" [] r E) as (code & r0 & Hc & Hrun & H1 & H2 & Hr & _).
  assert (ws_contract_code (ch_state toy_viewed) !! toy_addr 9 = Some [x01]) as Hc' by (vm_compute; reflexivity).
  pose proof Hc as Hcode. rewrite Hc' in Hc. injection Hc as <-. vm_compute in Hrun. injection Hrun as <-.
  eexists r, _, _. split; [reflexivity |]. split; [by rewrite Hr |]. split; [exact Hcode |].
  split; [exact H1 |]. split; [exact H2 |]. split; [discriminate | by rewrite Hr].
Defined.
