(* ===== verification/RpcSafety.v ===== *)
(** * What calls to the RPC server can do

    A call changes the node at most in its pool of transactions and its cache of
    check-ins; the faucet keeps its cooldown, and pays less than it says. *)

From stdpp Require Import relations pretty.
From S2P Require Import Prelude Interfaces Types Concrete Crypto ConsensusTypes Slashing ValidatorSet Utf8 Version Vm Host Engine World ConcreteState Score HandlerBase ConcreteTx ConcreteVm Contracts Store ApplyTx Rewards Epochs Node Chain ConcreteNode BlockLedger Genesis Agreement NodeSteps CatchUp Sync Json Queries RpcServer.

Section rpc.
Context `{HB : Blake3} `{HE : Ed25519} `{TC : TxCodec} `{HX : Hex} `{HD : HexDecode} `{VM : VmEngine} `{VS : VmSchedule}.
Context `{SCd : StateCodec} `{RD : Redb} `{SC : StoreCodec} `{NC : NodeCodec} `{KE : KeyErrors} `{WM : Wasmer} `{RC : RpcCodec}.
Context {Peer Channel Ip : Type} `{Countable Ip}.
Implicit Types (inner : ChainInner Db) (params : Json) (env : RpcEnv (Ip:=Ip)) (st : RpcState (Ip:=Ip)).

(** ** What a call changes *)

(** Only the pool and the cache differ: at most one transaction is new, and it is
    signed. *)
Inductive queued inner : ChainInner Db -> Prop :=
  | queued_none : queued inner inner
  | queued_tx tx : verify_transaction tx = Ok tt ->
      queued inner (inner <| ch_mempool := ch_mempool inner ++ [tx] |>)
  | queued_checkin w : validate_checkin_witness w inner = Ok tt ->
      queued inner (inner <| ch_checkin_cache := cache_insert w (ch_checkin_cache inner) |>).

Lemma submit_queued tx inner : queued inner (submit_tx tx inner).2.
Proof.
  destruct (submit_tx tx inner) as [r s] eqn:Hrun. apply submit_tx_run in Hrun. destruct r; [| subst; constructor].
  destruct Hrun as (_ & Hv & _ & _ & _ & Hs). simpl. subst. by constructor.
Qed.

Lemma checkin_queued w inner : queued inner (submit_miner_checkin w inner).2.
Proof.
  unfold submit_miner_checkin. rewrite bind_get, bind_fail_if. destruct (_ <? _); [constructor |].
  rewrite bind_map_err. destruct (validate_checkin_witness w inner) as [[]|e] eqn:Hv; [| constructor].
  rewrite bind_modify. simpl. by apply (queued_checkin inner w).
Qed.

Lemma faucet_run a inner r inner' :
  faucet_drip a inner = (r, inner') ->
  match r with
  | Ok hash =>
      exists tx, hash = tx_hash tx /\ tx_from tx = vk_of_signing_key (ch_signing_key inner)
        /\ tx_nonce tx = u64_add (get_nonce (ch_state inner) (ch_validator_address inner)) 1
        /\ tx_type tx = TokenTransfer /\ verify_transaction tx = Ok tt
        /\ inner' = inner <| ch_mempool := ch_mempool inner ++ [tx] |>
  | Err _ => inner' = inner
  end.
Proof.
  unfold faucet_drip. rewrite bind_get. cbv zeta. rewrite bind_fail_if. destruct (_ <? _); [by intros [= <- <-] |].
  rewrite bind_map_err. destruct (verify_transaction _) as [[]|e] eqn:Hv; [| by intros [= <- <-]].
  rewrite bind_modify. intros Hrun. apply (f_equal fst) in Hrun as Hr. apply (f_equal snd) in Hrun.
  cbn [fst snd st_modify mret ST_ret mbind ST_bind] in Hr, Hrun. subst r. match type of Hv with verify_transaction ?t = _ => exists t end.
  do 4 (split; [reflexivity |]). split; [exact Hv |]. symmetry. exact Hrun.
Qed.

Lemma faucet_queued a inner : queued inner (faucet_drip a inner).2.
Proof.
  destruct (faucet_drip a inner) as [r s] eqn:Hrun. apply faucet_run in Hrun. destruct r; [| subst; constructor].
  destruct Hrun as (tx & _ & _ & _ & _ & Hv & Hs). simpl. subst. by constructor.
Qed.

(** The methods that can act. *)
Definition acting : list string := ["claw_sendTransaction"; "claw_faucet"; "claw_submitMinerCheckin"]%string.

Lemma dispatch_chain env method params st o cmds st' :
  dispatch_rpc (Peer:=Peer) (Channel:=Channel) env method params st = (o, cmds, st') ->
  queued (rp_chain st) (rp_chain st') /\ (method ∉ acting -> rp_chain st' = rp_chain st /\ cmds = []).
Proof.
  unfold dispatch_rpc.
  destruct (String.eqb_spec method "claw_getBlockByNumber") as [-> |].
  { destruct (rpc_get_block_by_number params (rp_chain st)) as [v [e|]]; intros [= _ <- <-]; (split; [constructor | done]). }
  destruct (String.eqb_spec method "claw_sendTransaction") as [-> |].
  { unfold rpc_send_transaction. intros Hrun. split; [| by intros []; left].
    destruct (param_str params 0); [| injection Hrun as _ _ <-; constructor].
    destruct (hex_decode _); [| injection Hrun as _ _ <-; constructor].
    destruct (try_from_slice _) as [tx|]; [| injection Hrun as _ _ <-; constructor].
    pose proof (submit_queued tx (rp_chain st)) as Hq. destruct (submit_tx tx (rp_chain st)) as [[] node];
      injection Hrun as _ _ <-; exact Hq. }
  destruct (String.eqb_spec method "claw_callContractView") as [-> |].
  { unfold rpc_call_contract_view. destruct (check_contract_view_rate _ _ _) as [[] rate]; intros [= _ <- <-];
      (split; [constructor | done]). }
  destruct (String.eqb_spec method "claw_faucet") as [-> |].
  { unfold rpc_faucet. intros Hrun. split; [| by intros []; right; left].
    destruct (negb _); [injection Hrun as _ _ <-; constructor |].
    destruct (parse_address params 0) as [a|]; [| injection Hrun as _ _ <-; constructor].
    destruct (0 <? _); [injection Hrun as _ _ <-; constructor |].
    pose proof (faucet_queued a (rp_chain st)) as Hq. destruct (faucet_drip a (rp_chain st)) as [[] node];
      injection Hrun as _ _ <-; exact Hq. }
  destruct (String.eqb_spec method "claw_submitMinerCheckin") as [-> |].
  { unfold rpc_submit_miner_checkin. intros Hrun. split; [| by intros []; right; right; left].
    destruct (param_str params 0); [| injection Hrun as _ _ <-; constructor].
    destruct (hex_decode _); [| injection Hrun as _ _ <-; constructor].
    destruct (try_from_slice _) as [w|]; [| injection Hrun as _ _ <-; constructor].
    pose proof (checkin_queued w (rp_chain st)) as Hq. destruct (submit_miner_checkin w (rp_chain st)) as [[] node];
      injection Hrun as _ _ <-; exact Hq. }
  destruct (read_method _ _ _ _); intros [= _ <- <-]; (split; [constructor | done]).
Qed.

(** C32. No call of the RPC server reaches the ledger: whatever is asked, the node
    keeps its state, store, blocks, votes and validators, and what changes is one
    signed transaction added to the pool or one valid check-in added to the cache;
    and only the three methods that submit something can do that, or send anything
    to the network. *)
Theorem rpc_never_touches_ledger env req st resp cmds st' :
  handle_rpc (Peer:=Peer) (Channel:=Channel) env req st = (resp, cmds, st') ->
  queued (rp_chain st) (rp_chain st')
  /\ (rq_method req ∉ acting -> rp_chain st' = rp_chain st /\ cmds = []).
Proof.
  unfold handle_rpc. destruct (negb _); [intros [= _ <- <-]; split; [constructor | done] |].
  destruct (dispatch_rpc env (rq_method req) (rq_params req) st) as [[o c] s] eqn:Hd. apply dispatch_chain in Hd.
  by intros [= _ <- <-].
Qed.

(** ** The faucet's cooldown *)
Lemma dispatch_drips env method params st o cmds st' :
  dispatch_rpc (Peer:=Peer) (Channel:=Channel) env method params st = (o, cmds, st') ->
  rp_faucet_last_drip st' = rp_faucet_last_drip st
  \/ exists a, rp_faucet_last_drip st' = <[a := re_now env]> (rp_faucet_last_drip st).
Proof.
  unfold dispatch_rpc. intros Hrun.
  destruct (String.eqb method "claw_getBlockByNumber").
  { left. destruct (rpc_get_block_by_number params (rp_chain st)) as [v [e|]]; by injection Hrun as _ _ <-. }
  destruct (String.eqb method "claw_sendTransaction").
  { left. unfold rpc_send_transaction in Hrun.
    repeat (case_match; try (by injection Hrun as _ _ <-)). }
  destruct (String.eqb method "claw_callContractView").
  { left. unfold rpc_call_contract_view in Hrun. repeat (case_match; try (by injection Hrun as _ _ <-)). }
  destruct (String.eqb method "claw_faucet").
  { unfold rpc_faucet in Hrun. destruct (negb _); [left; by injection Hrun as _ _ <- |].
    destruct (parse_address params 0) as [a|]; [| left; by injection Hrun as _ _ <-].
    destruct (0 <? _); [left; by injection Hrun as _ _ <- |].
    destruct (faucet_drip a (rp_chain st)) as [[] node]; [right; exists a | left]; by injection Hrun as _ _ <-. }
  left. destruct (String.eqb method "claw_submitMinerCheckin").
  { unfold rpc_submit_miner_checkin in Hrun. repeat (case_match; try (by injection Hrun as _ _ <-)). }
  destruct (read_method _ _ _ _); by injection Hrun as _ _ <-.
Qed.

(** A server over time, from one instant to a later one: calls, while the node goes
    its own ways. *)
Inductive serves : N * RpcState -> N * RpcState -> Prop :=
  | serves_call env req now st resp cmds st' :
      handle_rpc (Peer:=Peer) (Channel:=Channel) env req st = (resp, cmds, st') -> now <= re_now env ->
      serves (now, st) (re_now env, st')
  | serves_node now st inner : serves (now, st) (now, with_chain inner st).

Lemma serves_drips s s' a last :
  rtc serves s s' -> last <= s.1 -> (exists t, rp_faucet_last_drip s.2 !! a = Some t /\ last <= t) ->
  s.1 <= s'.1 /\ exists t, rp_faucet_last_drip s'.2 !! a = Some t /\ last <= t.
Proof.
  induction 1 as [s | s1 s2 s3 Hstep _ IH]; [by intros |]. intros Hle Hl.
  destruct Hstep as [env req now st resp cmds st' Hrun Hnow | now st inner]; cbn [fst snd] in *; [| by apply IH].
  destruct IH as [H1 H2]; [lia | | split; [lia | done]].
  unfold handle_rpc in Hrun. destruct (negb _); [by injection Hrun as _ _ <- |].
  destruct (dispatch_rpc env (rq_method req) (rq_params req) st) as [[o c] s] eqn:Hd. injection Hrun as _ _ <-.
  apply dispatch_drips in Hd as [-> | [b ->]]; [done |].
  destruct (decide (b = a)) as [-> |]; [rewrite lookup_insert_eq | by rewrite lookup_insert_ne].
  exists (re_now env). split; [done | lia].
Qed.

(** The faucet keeps its cooldown: after it has paid an address, then whatever calls
    come and whatever the node does, another request for that address within the
    hour is refused and changes nothing. *)
Theorem faucet_cooldown env params st cmds a v st1 s2 env2 params2 :
  rpc_faucet (Peer:=Peer) (Channel:=Channel) env params st = (Answer (Ok v), cmds, st1) ->
  parse_address params 0 = Ok a ->
  rtc serves (re_now env, st1) s2 -> s2.1 <= re_now env2 -> re_now env2 < re_now env + FAUCET_COOLDOWN_SECS * SECOND ->
  re_faucet_enabled env2 = true -> parse_address params2 0 = Ok a ->
  exists msg, rpc_faucet (Peer:=Peer) (Channel:=Channel) env2 params2 s2.2 = (Refused (-32000) msg, [], s2.2).
Proof.
  intros Hrun Ha Hserve Hnow Hsoon Hen Ha2.
  assert (rp_faucet_last_drip st1 !! a = Some (re_now env)) as Hlast.
  { unfold rpc_faucet in Hrun. destruct (negb _); [done |]. rewrite Ha in Hrun. destruct (0 <? _); [done |].
    destruct (faucet_drip a (rp_chain st)) as [[] node]; [| done]. injection Hrun as _ _ <-. apply lookup_insert_eq. }
  destruct (serves_drips _ _ a (re_now env) Hserve) as [_ (t & Ht & Hle)]; [done | by exists (re_now env) |].
  unfold rpc_faucet. rewrite Hen, Ha2. cbn [negb]. cbv zeta. unfold cooldown_left. rewrite Ht.
  assert (sat_sub (re_now env2) t / SECOND < FAUCET_COOLDOWN_SECS) as Hlt.
  { apply N.div_lt_upper_bound; [done |]. unfold sat_sub, SECOND, FAUCET_COOLDOWN_SECS in *. lia. }
  rewrite (proj2 (N.ltb_lt _ _)) by lia. eexists. reflexivity.
Qed.

(** ** One payment per block *)
Lemma nonce_taken tx1 tx2 i j s out s1 s2 :
  tx_from tx1 = tx_from tx2 -> tx_nonce tx1 = tx_nonce tx2 -> tx_nonce tx1 <> 0 ->
  apply_tx tx1 i s = (Ok out, s1) -> later s1 s2 -> exists e, apply_tx tx2 j s2 = (Err e, s2).
Proof.
  intros Hfrom Hnonce Hnz Hrun Hl. apply apply_tx_nonces in Hrun as (_ & Hn & Hset).
  assert (get_nonce s1 (tx_from tx2) = tx_nonce tx2) as H1
    by (unfold get_nonce; by rewrite Hset, <- Hfrom, <- Hnonce, lookup_insert_eq).
  assert (tx_nonce tx2 < TWO64) as Hlt by (rewrite <- Hnonce, Hn; by apply wadd_lt).
  pose proof (later_nonce _ _ (tx_from tx2) Hl ltac:(lia)) as [Hge Hlt2].
  destruct (apply_tx tx2 j s2) as [r s3] eqn:Hagain.
  destruct (apply_tx_inv _ _ _ _ _ Hagain) as [(e & -> & ->) | (_ & _ & Hn2 & _)]; [by exists e | exfalso].
  unfold wadd in Hn2. set (n := get_nonce s2 (tx_from tx2)) in *.
  destruct (decide (n + 1 < TWO64)); [rewrite N.mod_small in Hn2 by done; lia |].
  replace n with (TWO64 - 1) in Hn2 by lia. rewrite Hnonce in Hnz. vm_compute in Hn2. done.
Qed.

(** The faucet pays one address per block: it answers every request with a hash, but
    two requests that it takes on the same state get transactions with one nonce, so
    whichever of the two is accepted first, the other one never is. *)
Theorem faucet_one_per_block a b inner h1 inner1 h2 inner2 :
  faucet_drip a inner = (Ok h1, inner1) -> faucet_drip b inner1 = (Ok h2, inner2) ->
  get_nonce (ch_state inner) (ch_validator_address inner) + 1 < TWO64 ->
  exists tx1 tx2, h1 = tx_hash tx1 /\ h2 = tx_hash tx2
    /\ ch_mempool inner2 = ch_mempool inner ++ [tx1; tx2]
    /\ (forall i s out s1 s2 j, apply_tx tx1 i s = (Ok out, s1) -> later s1 s2 -> exists e, apply_tx tx2 j s2 = (Err e, s2))
    /\ (forall i s out s1 s2 j, apply_tx tx2 i s = (Ok out, s1) -> later s1 s2 -> exists e, apply_tx tx1 j s2 = (Err e, s2)).
Proof.
  intros H1 H2 Hn. apply faucet_run in H1 as (tx1 & -> & F1 & N1 & _ & _ & ->).
  apply faucet_run in H2 as (tx2 & -> & F2 & N2 & _ & _ & ->).
  set (inner1 := inner <| ch_mempool := ch_mempool inner ++ [tx1] |>) in *.
  change (vk_of_signing_key (ch_signing_key inner1)) with (vk_of_signing_key (ch_signing_key inner)) in F2.
  change (get_nonce (ch_state inner1) (ch_validator_address inner1))
    with (get_nonce (ch_state inner) (ch_validator_address inner)) in N2.
  rewrite wadd_small in N1, N2 by lia. exists tx1, tx2. split; [done |]. split; [done |]. split.
  { change (ch_mempool (inner1 <| ch_mempool := ch_mempool inner1 ++ [tx2] |>)) with ((ch_mempool inner ++ [tx1]) ++ [tx2]).
    by rewrite <- app_assoc. }
  split; intros i s out s1 s2 j Hrun Hl; eapply nonce_taken; try exact Hrun; try exact Hl; congruence || lia.
Qed.
End rpc.

(** ** Witnesses *)

#[local] Existing Instance toy_blake3.
#[local] Existing Instance toy_ed25519.
#[local] Existing Instance toy_tx_codec.
#[local] Existing Instance toy_redb.
#[local] Existing Instance toy_store_codec.
#[local] Existing Instance plain_hex.
#[local] Existing Instance plain_hex_decode.
#[local] Existing Instance toy_vm.
#[local] Existing Instance toy_schedule.
#[local] Existing Instance toy_codec.
#[local] Existing Instance toy_node_codec.
#[local] Existing Instance toy_key_errors.
#[local] Existing Instance toy_memory.

Definition toy_rpc_codec : RpcCodec := {|
  ser_block _ := Err "toy"%string;
  ser_agent _ := Err "toy"%string;
  ser_reputation _ := Err "toy"%string;
  ser_services _ := Err "toy"%string;
  ser_token _ := Err "toy"%string;
  ser_miner _ := Err "toy"%string;
  ser_miners _ := Err "toy"%string;
  codec_checkin := toy_borsh _;
|}.
#[local] Existing Instance toy_rpc_codec.
#[local] Instance toy_machine : Wasmer := toy_wasmer (fun _ => None).

Definition toy_env (now : N) : RpcEnv (Ip:=N) :=
  mkRpcEnv true true now 7 true (fun g => (map_to_list g).*2).
Definition toy_server : RpcState (Ip:=N) := mkRpcState (toy_node 5 ∅ [] ∅) ∅ ∅.
Definition toy_request (method : string) : RpcRequest :=
  mkRpcRequest "2.0" (JNum 1) method (JArr [JStr (hex_encode (toy_addr 12))]).

(** A query leaves the node alone, and answers. *)
Lemma rpc_never_touches_ledger_witness :
  let '(resp, cmds, st') := handle_rpc (Peer:=N) (Channel:=unit) (toy_env 5) (toy_request "claw_getStake") toy_server in
  rs_result resp = Some (JStr "0") /\ rp_chain st' = rp_chain toy_server /\ cmds = [].
Proof.
  destruct (handle_rpc (Peer:=N) (Channel:=unit) (toy_env 5) (toy_request "claw_getStake") toy_server) as [[resp cmds] st'] eqn:E.
  split.
  - apply (f_equal (fun o => rs_result o.1.1)) in E. cbn [fst] in E. rewrite <- E. vm_compute. reflexivity.
  - apply (proj2 (rpc_never_touches_ledger _ _ _ _ _ _ E)). intros Hin. vm_compute in Hin.
    repeat (apply elem_of_cons in Hin as [Hin|Hin]; [discriminate |]). by apply not_elem_of_nil in Hin.
Defined.

Definition toy_params : Json := JArr [JStr (hex_encode (toy_addr 12))].
Definition toy_dripped : RpcState (Ip:=N) := (rpc_faucet (Peer:=N) (Channel:=unit) (toy_env 5) toy_params toy_server).2.

Lemma faucet_cooldown_witness :
  exists msg, rpc_faucet (Peer:=N) (Channel:=unit) (toy_env 3000000000) toy_params toy_dripped
              = (Refused (-32000) msg, [], toy_dripped).
Proof.
  destruct (rpc_faucet (Peer:=N) (Channel:=unit) (toy_env 5) toy_params toy_server) as [[o cmds] st1] eqn:E.
  assert (exists v, o = Answer (Ok v)) as [v ->].
  { apply (f_equal (fun x => x.1.1)) in E. cbn [fst] in E. vm_compute in E. rewrite <- E. by eexists. }
  assert (toy_dripped = st1) as -> by (unfold toy_dripped; by rewrite E).
  apply (faucet_cooldown (toy_env 5) toy_params toy_server cmds (toy_addr 12) v st1 (5, st1)); try done.
Defined.

Lemma faucet_one_per_block_witness :
  let inner := rp_chain toy_server in
  exists tx1 tx2 inner2, (faucet_drip (toy_addr 13) (faucet_drip (toy_addr 12) inner).2).2 = inner2
    /\ ch_mempool inner2 = ch_mempool inner ++ [tx1; tx2].
Proof.
  intros inner. destruct (faucet_drip (toy_addr 12) inner) as [r1 inner1] eqn:E1.
  assert (exists h1, r1 = Ok h1) as [h1 ->]
    by (apply (f_equal fst) in E1; vm_compute in E1; rewrite <- E1; by eexists).
  cbn [snd]. destruct (faucet_drip (toy_addr 13) inner1) as [r2 inner2] eqn:E2.
  assert (exists h2, r2 = Ok h2) as [h2 ->].
  { apply (f_equal snd) in E1. cbn [snd] in E1. subst inner1. apply (f_equal fst) in E2. vm_compute in E2. rewrite <- E2. by eexists. }
  destruct (faucet_one_per_block (toy_addr 12) (toy_addr 13) inner h1 inner1 h2 inner2 E1 E2 ltac:(reflexivity))
    as (tx1 & tx2 & _ & _ & Hm & _).
  exists tx1, tx2, inner2. split; [reflexivity | exact Hm].
Defined.
