(* ===== verification/CliCorrect.v ===== *)
(** * The command line against the node

    Amounts are read exactly, and what a command sends reaches the pool of the
    node that serves it, where it is a valid transaction: client, RPC server and
    ledger together. *)

From stdpp Require Import pretty.
From S2P Require Import Prelude Interfaces Types Concrete Crypto ConsensusTypes Slashing ValidatorSet Utf8 Vm Host Engine World HandlerBase ConcreteState ConcreteTx Tokens Contracts Store ApplyTx Rewards Epochs Node Chain ConcreteNode BlockLedger Genesis Sync Json Config ConcreteFiles Queries NodeSteps RpcServer Cli ConcreteVm RpcSafety.
Notation length := List.length.

(** ** Numbers *)

Definition is_digit : byte -> bool := between 48 57.

(** The number that decimal digits stand for. *)
Definition digits_value (acc : N) (ds : bytes) : N := foldl (fun n b => n * 10 + (Byte.to_N b - 48)) acc ds.

Lemma digits_value_le ds : forall acc, acc <= digits_value acc ds.
Proof. induction ds as [| b ds IH]; intros acc; simpl; [done | specialize (IH (acc * 10 + (Byte.to_N b - 48))); lia]. Qed.

Lemma digits_value_lt ds : forall acc, forallb is_digit ds = true ->
  digits_value acc ds < (acc + 1) * 10 ^ N.of_nat (length ds).
Proof.
  induction ds as [| b ds IH]; intros acc Hd; [simpl; lia |]. simpl in Hd. apply andb_prop in Hd as [Hb Hd].
  unfold is_digit, between in Hb. bools. cbn [digits_value foldl length]. specialize (IH (acc * 10 + (Byte.to_N b - 48)) Hd).
  unfold digits_value in IH. rewrite Nat2N.inj_succ, N.pow_succ_r'. nia.
Qed.

Lemma read_digits_value ds : forall acc, forallb is_digit ds = true -> digits_value acc ds < TWO128 ->
  read_digits acc ds = Ok (digits_value acc ds).
Proof.
  induction ds as [| b ds IH]; intros acc Hd Hv; [done |]. simpl in Hd. apply andb_prop in Hd as [Hb Hd].
  cbn [read_digits]. unfold is_digit in Hb. rewrite Hb. cbn [digits_value foldl] in *.
  pose proof (digits_value_le ds (acc * 10 + (Byte.to_N b - 48))) as Hle. unfold digits_value in Hle.
  rewrite (proj2 (N.ltb_lt _ _)) by lia. by apply IH.
Qed.

(** Leading digits have no sign among them. *)
Lemma read_u128_digits ds : ds <> [] -> forallb is_digit ds = true -> digits_value 0 ds < TWO128 ->
  read_u128 ds = Ok (digits_value 0 ds).
Proof.
  intros Hne Hd Hv. destruct ds as [| b ds]; [done |]. unfold read_u128.
  assert ((Byte.to_N b =? 43) = false) as ->.
  { simpl in Hd. apply andb_prop in Hd as [Hb _]. unfold is_digit, between in Hb. bools. apply N.eqb_neq. lia. }
  by apply read_digits_value.
Qed.

Lemma as_bytes_app a b : as_bytes (a +:+ b) = as_bytes a ++ as_bytes b.
Proof. induction a as [| c a IH]; [done |]. change (Ascii.byte_of_ascii c :: as_bytes (a +:+ b) = Ascii.byte_of_ascii c :: as_bytes a ++ as_bytes b). by rewrite IH. Qed.

Lemma as_bytes_cons c s : as_bytes (String.String c s) = Ascii.byte_of_ascii c :: as_bytes s.
Proof. done. Qed.

(** The digits of a printed number, one after the other. *)
Lemma pretty_go_digits x : forall s, exists ds,
  as_bytes (pretty_N_go x s) = ds ++ as_bytes s /\ forallb is_digit ds = true /\ digits_value 0 ds = x
  /\ (0 < x -> ds <> []).
Proof.
  induction x as [x IH] using (well_founded_induction N.lt_wf_0). intros s.
  destruct (decide (x = 0)) as [-> | Hx]; [exists []; by rewrite pretty_N_go_0 |].
  rewrite pretty_N_go_step by lia.
  destruct (IH (x `div` 10) ltac:(apply N.div_lt; lia) (String.String (pretty_N_char (x `mod` 10)) s)) as (ds & H1 & H2 & H3 & _).
  assert (is_digit (Ascii.byte_of_ascii (pretty_N_char (x `mod` 10))) = true
    /\ Byte.to_N (Ascii.byte_of_ascii (pretty_N_char (x `mod` 10))) - 48 = x `mod` 10) as [Hc1 Hc2].
  { assert (x `mod` 10 < 10) as Hlt by (apply N.mod_lt; lia).
    destruct (x `mod` 10) as [| [[[[]|[]|]|[[]|[]|]|]|[[[]|[]|]|[[]|[]|]|]|]]; try (exfalso; lia); by vm_compute. }
  exists (ds ++ [Ascii.byte_of_ascii (pretty_N_char (x `mod` 10))]). rewrite H1, as_bytes_cons, <- app_assoc. split_and!.
  - done.
  - rewrite forallb_app, H2. simpl. by rewrite Hc1.
  - unfold digits_value in *. rewrite foldl_app, H3. simpl. rewrite Hc2. pose proof (N.div_mod x 10 ltac:(lia)). lia.
  - intros _ Hnil. by destruct ds.
Qed.

Lemma pretty_digits n : exists ds,
  as_bytes (pretty n) = ds /\ ds <> [] /\ forallb is_digit ds = true /\ digits_value 0 ds = n.
Proof.
  destruct (decide (n = 0)) as [-> | Hn]; [by eexists |].
  assert (pretty n = pretty_N_go n "") as -> by (unfold pretty, pretty_N; by rewrite decide_False).
  destruct (pretty_go_digits n "") as (ds & H1 & H2 & H3 & H4). exists ds. rewrite H1. cbn [as_bytes String.list_byte_of_string].
  rewrite app_nil_r. split_and!; [done | apply H4; lia | done | done].
Qed.

(** [to_string] and [parse] of a [u128]. *)
Lemma read_u128_pretty n : n < TWO128 -> read_u128 (as_bytes (pretty n)) = Ok n.
Proof. intros Hn. destruct (pretty_digits n) as (ds & -> & H1 & H2 & <-). by apply read_u128_digits. Qed.

Lemma parse_digits_read ds : forall acc n, read_digits acc ds = Ok n -> Genesis.parse_digits acc ds = Some n.
Proof.
  induction ds as [| b ds IH]; intros acc n; [by intros [= <-] |]. cbn [read_digits Genesis.parse_digits].
  destruct (between 48 57 b); [| done]. destruct (_ <? TWO128); [apply IH | done].
Qed.

Lemma parse_pretty n : n < TWO128 -> Genesis.parse_u128 (pretty n) = Some n.
Proof.
  intros Hn. pose proof (read_u128_pretty n Hn) as Hr. unfold Genesis.parse_u128, read_u128 in *.
  destruct (as_bytes (pretty n)) as [| b ds]; [done |]. destruct (_ && _); by apply parse_digits_read.
Qed.

(** ** Amounts *)

(** A byte with which no white space begins or ends. *)
Definition begins_none (spaces : list bytes) (b : byte) : bool :=
  forallb (fun w => match w with c :: _ => negb (bool_decide (c = b)) | [] => false end) spaces.
Definition solid (b : byte) : bool := begins_none white_spaces b && begins_none (reverse <$> white_spaces) b.

Lemma digit_solid b : is_digit b = true -> solid b = true.
Proof. by destruct b. Qed.

Lemma trim_start_none spaces fuel b s : begins_none spaces b = true -> trim_start_with spaces fuel (b :: s) = b :: s.
Proof.
  intros Hs. destruct fuel as [| fuel]; [done |]. cbn [trim_start_with].
  assert (List.find (fun w => prefix_of w (b :: s)) spaces = None) as ->; [| done].
  unfold begins_none in Hs. induction spaces as [| w spaces IH]; [done |]. cbn [forallb] in Hs. apply andb_prop in Hs as [Hw Hs].
  cbn [List.find]. assert (prefix_of w (b :: s) = false) as ->; [| by apply IH].
  destruct w as [| c w]; [done |]. apply bool_decide_eq_false_2. simpl. intros [= -> _]. by rewrite bool_decide_eq_true_2 in Hw.
Qed.

Lemma trim_end_none s c : solid c = true -> last s = Some c ->
  reverse (trim_start_with (reverse <$> white_spaces) (length s) (reverse s)) = s.
Proof.
  intros [_ Hc]%andb_prop Hl. destruct (exists_last (l := s)) as (l & c' & ->); [by intros -> |].
  rewrite last_snoc in Hl. injection Hl as ->. rewrite reverse_snoc, trim_start_none by done. by rewrite reverse_cons, reverse_involutive.
Qed.

(** A text that begins and ends with such bytes. *)
Lemma trim_between b s c : solid b = true -> solid c = true -> last (b :: s) = Some c -> trim (b :: s) = b :: s.
Proof.
  intros [Hb _]%andb_prop Hc Hl. unfold trim. rewrite trim_start_none by done. by apply (trim_end_none _ c).
Qed.

Lemma last_digit ds : ds <> [] -> forallb is_digit ds = true -> exists c, last ds = Some c /\ is_digit c = true.
Proof.
  intros Hne Hd. destruct (exists_last Hne) as (l & c & ->). exists c. rewrite last_snoc. split; [done |].
  rewrite forallb_app in Hd. apply andb_prop in Hd as [_ Hc]. simpl in Hc. by apply andb_prop in Hc as [? _].
Qed.

Lemma split_at_dot ds rest : forallb is_digit ds = true -> split_once [x2e] (ds ++ x2e :: rest) = Some (ds, rest).
Proof.
  induction ds as [| b ds IH]; intros Hd; [done |]. simpl in Hd. apply andb_prop in Hd as [Hb Hd].
  cbn [app split_once]. assert (prefix_of [x2e] (b :: ds ++ x2e :: rest) = false) as ->; [by destruct b | by rewrite IH].
Qed.

Lemma no_dot ds : forallb is_digit ds = true -> split_once [x2e] ds = None.
Proof.
  induction ds as [| b ds IH]; intros Hd; [done |]. simpl in Hd. apply andb_prop in Hd as [Hb Hd].
  cbn [split_once]. assert (prefix_of [x2e] (b :: ds) = false) as ->; [by destruct b | by rewrite IH].
Qed.

(** The units of an amount with [frac] after the dot. *)
Definition frac_units (frac : bytes) : N := digits_value 0 frac * 10 ^ (9 - N.of_nat (length frac)).

Lemma frac_units_lt frac : forallb is_digit frac = true -> (length frac <= 9)%nat -> frac_units frac < 1000000000.
Proof.
  intros Hd Hl. unfold frac_units. pose proof (digits_value_lt frac 0 Hd) as Hv.
  assert (10 ^ N.of_nat (length frac) * 10 ^ (9 - N.of_nat (length frac)) = 1000000000) as Hp.
  { rewrite <- N.pow_add_r. by replace (N.of_nat (length frac) + (9 - N.of_nat (length frac))) with 9 by lia. }
  assert (0 < 10 ^ (9 - N.of_nat (length frac))) by (apply N.neq_0_lt_0, N.pow_nonzero; lia). nia.
Qed.

(** Amounts are read exactly: a whole number of tokens, with up to nine decimal
    places or none, is read as its number of units, and only from 2^128 units on
    does it wrap around. *)
Theorem parse_claw_amount_correct w frac :
  w < TWO128 -> forallb is_digit frac = true -> (1 <= length frac <= 9)%nat ->
  parse_claw_amount (pretty w +:+ "." +:+ string_of_bytes frac) = Ok ((w * 1000000000 + frac_units frac) mod TWO128)
  /\ parse_claw_amount (pretty w) = Ok ((w * 1000000000) mod TWO128).
Proof.
  intros Hw Hf Hl. destruct (pretty_digits w) as (ds & Hds & Hne & Hd & Hv).
  assert (exists b ds', ds = b :: ds' /\ is_digit b = true) as (b & ds' & E & Hb).
  { destruct ds as [| b ds']; [done |]. simpl in Hd. apply andb_prop in Hd as [? _]. by exists b, ds'. }
  assert (frac <> []) as Hfne by (by destruct frac; simpl in Hl; [lia |]).
  assert (read_u128 ds = Ok w) as Hrw by (rewrite <- Hv; apply read_u128_digits; [done.. | by rewrite Hv]).
  pose proof (frac_units_lt frac Hf ltac:(lia)) as Hfl.
  assert (read_u128 frac = Ok (digits_value 0 frac)) as Hrf.
  { apply read_u128_digits; [done | done |]. pose proof (digits_value_lt frac 0 Hf).
    assert (10 ^ N.of_nat (length frac) <= 10 ^ 9) by (apply N.pow_le_mono_r; lia). lia. }
  unfold parse_claw_amount. cbv zeta. split.
  - assert (as_bytes (pretty w +:+ "." +:+ string_of_bytes frac) = ds ++ x2e :: frac) as ->.
    { rewrite !as_bytes_app, Hds. unfold string_of_bytes, as_bytes. by rewrite String.list_byte_of_string_of_list_byte. }
    destruct (last_digit frac Hfne Hf) as (c & Hlast & Hc).
    assert (trim (ds ++ x2e :: frac) = ds ++ x2e :: frac) as ->.
    { rewrite E. cbn [app]. apply (trim_between b _ c); [by apply digit_solid.. |]. rewrite app_comm_cons, last_app_cons.
      destruct frac; [done |]. exact Hlast. }
    rewrite split_at_dot, Hrw by done. cbn [labelled]. rewrite (proj2 (Nat.ltb_ge _ _)), Hrf by lia. cbn [labelled].
    fold (frac_units frac). f_equal. unfold u128_add, u128_mul, wadd, wmul. unfold frac_units in *.
    rewrite (N.mod_small (digits_value 0 frac * _)) by lia. by rewrite N.Div0.add_mod_idemp_l.
  - destruct (last_digit ds Hne Hd) as (c & Hlast & Hc).
    assert (trim ds = ds) as Htrim by (rewrite E in *; by apply (trim_between b ds' c); [apply digit_solid.. |]).
    rewrite Hds, Htrim, no_dot, Hrw by done. cbn [labelled]. f_equal. unfold wadd, wmul. rewrite N.add_0_r. apply N.Div0.mod_mod.
Qed.

Lemma parse_claw_amount_correct_witness :
  forallb is_digit [x32; x35] = true /\ parse_claw_amount "1.25" = Ok 1250000000.
Proof.
  split; [reflexivity |].
  apply (proj1 (parse_claw_amount_correct 1 [x32; x35] ltac:(reflexivity) ltac:(reflexivity) ltac:(simpl; lia))).
Defined.

(** The smallest amount of whole tokens that wraps is read as less than one. *)
Example huge_amount_wraps : parse_claw_amount "340282366920938463463374607432" = Ok 231788544.
Proof. vm_compute. reflexivity. Qed.

(** A sign behind the dot counts as a digit that is not there: [1.+5] is 1.05. *)
Example sign_after_dot : parse_claw_amount "1.+5" = Ok 1050000000.
Proof. vm_compute. reflexivity. Qed.

(** ** A command and the node that serves it *)

Section served.
Context `{HB : Blake3} `{HE : Ed25519} `{!Ed25519Laws} `{TC : TxCodec} `{HX : Hex} `{HD : HexDecode} `{!HexLaws}.
Context `{VM : VmEngine} `{VS : VmSchedule} `{SCd : StateCodec} `{RD : Redb} `{SC : StoreCodec} `{NC : NodeCodec} `{KE : KeyErrors}.
Context `{WM : Wasmer} `{RC : RpcCodec} `{JT : JsonText} `{KC : KeyCipher}.
Context {Peer Channel Ip : Type} `{Countable Ip}.
Context (dir : DataDir) (password : option string).

(** What the node has sent to the network, and its server's state. *)
Abbreviation served := (list (P2pCommand Peer Channel) * RpcState (Ip:=Ip))%type.

(** The node as a server: every request is answered. *)
Definition node_server (env : RpcEnv) : RpcRequest -> ST served string RpcResponse := fun req w =>
  let '(resp, cmds, st) := handle_rpc env req w.2 in (Ok resp, (w.1 ++ cmds, st)).

Implicit Types (w : served) (env : RpcEnv (Ip:=Ip)).

(** A call is what its method answers. *)
Lemma rpc_call_answer env method params w :
  rpc_call (node_server env) method params w
  = let '(o, cmds, st) := dispatch_rpc env method (JArr params) w.2 in
    (match o with
     | Answer (Ok v) => Ok v
     | Answer (Err msg) => Err ("RPC error: " +:+ json_to_string (JObj [("code", JNeg (-32000)); ("message", JStr msg)]))
     | Refused code msg =>
         Err ("RPC error: " +:+ json_to_string
                (JObj [("code", if (code <? 0)%Z then JNeg code else JNum (Z.to_N code)); ("message", JStr msg)]))
     end%string, (w.1 ++ cmds, st)).
Proof.
  unfold rpc_call, node_server, handle_rpc, mbind, ST_bind. cbn [rq_jsonrpc rq_method rq_params rq_id].
  change (negb (String.eqb "2.0" "2.0")) with false. cbv iota.
  destruct (dispatch_rpc _ _ _ _) as [[o cmds] st]. by destruct o as [[v|msg]|code msg].
Qed.

Lemma param_address a rest : length a = 32%nat -> RpcServer.parse_address (JArr (JStr (hex_encode a) :: rest)) 0 = Ok a.
Proof. intros Ha. unfold RpcServer.parse_address. cbn. rewrite hex_decode_encode. by rewrite Ha. Qed.

Lemma asked_nonce env a w : length a = 32%nat ->
  rpc_call (node_server env) "claw_getNonce" [JStr (hex_encode a)] w = (Ok (JNum (get_nonce (ch_state (rp_chain w.2)) a)), w).
Proof.
  intros Ha. rewrite rpc_call_answer.
  change (dispatch_rpc env "claw_getNonce" (JArr [JStr (hex_encode a)]) w.2)
    with (Answer (rpc_get_nonce (JArr [JStr (hex_encode a)]) (rp_chain w.2)), [] : commands (Peer:=Peer) (Channel:=Channel), w.2).
  unfold rpc_get_nonce, with_address. rewrite param_address by done. cbn [fst snd]. by rewrite app_nil_r; destruct w.
Qed.

Lemma asked_balance env a w : length a = 32%nat ->
  rpc_call (node_server env) "claw_getBalance" [JStr (hex_encode a)] w
  = (Ok (jdec (World.get_balance (ch_state (rp_chain w.2)) a)), w).
Proof.
  intros Ha. rewrite rpc_call_answer.
  change (dispatch_rpc env "claw_getBalance" (JArr [JStr (hex_encode a)]) w.2)
    with (Answer (rpc_get_balance (JArr [JStr (hex_encode a)]) (rp_chain w.2)), [] : commands (Peer:=Peer) (Channel:=Channel), w.2).
  unfold rpc_get_balance, with_address. rewrite param_address by done. cbn [fst snd]. by rewrite app_nil_r; destruct w.
Qed.

(** ** The ledger takes a transfer *)
Lemma transfer_accepted tx p i s :
  tx_type tx = TokenTransfer -> blen (tx_payload tx) <= MAX_TX_PAYLOAD_SIZE -> verify_transaction tx = Ok tt ->
  tx_nonce tx = u64_add (get_nonce s (tx_from tx)) 1 -> try_from_slice (tx_payload tx) = Ok p ->
  supply_fits s -> 0 < ttp_amount p -> ttp_amount p + GAS_FEE <= World.get_balance s (tx_from tx) ->
  exists out s', apply_tx tx i s = (Ok out, s')
  /\ forall a, World.get_balance s' a + (if decide (a = tx_from tx) then ttp_amount p + GAS_FEE else 0)
               = World.get_balance s a + (if decide (a = ttp_to p) then ttp_amount p else 0).
Proof.
  intros Ht Hlen Hsig Hn Hp Hs Hpos Hbal. unfold apply_tx, mbind at 1, ST_bind at 1.
  assert (precheck_tx tx s = (Ok tt, charged tx s)) as ->.
  { unfold precheck_tx. rewrite bind_fail_if, (proj2 (N.ltb_ge _ _)) by done.
    rewrite bind_map_err, Hsig, bind_gets. cbv zeta. rewrite bind_fail_if, Hn, N.eqb_refl. cbn [negb].
    unfold charged. rewrite Ht. cbn [gas_free negb].
    rewrite bind_gets, bind_fail_if, (proj2 (N.ltb_ge (World.get_balance s (tx_from tx)) GAS_FEE)) by lia. done. }
  assert (supply (charged tx s) + GAS_FEE = supply s) as Hsup.
  { pose proof (supply_charged tx s Hs) as Hc. unfold fee_of in Hc. rewrite Ht in Hc. apply Hc. intros _. lia. }
  assert (forall a, World.get_balance (charged tx s) a + (if decide (a = tx_from tx) then GAS_FEE else 0) = World.get_balance s a) as Hch.
  { intros a. pose proof (balance_le_supply s (tx_from tx)) as Hle. unfold supply_fits, supply in Hs, Hle.
    unfold charged. rewrite Ht. cbn [gas_free]. unfold World.get_balance in *. upd. rewrite <- !amount_of_default in *.
    rewrite amount_entry_sub by lia. repeat case_decide; subst; (congruence || lia). }
  unfold finish_tx. rewrite Ht. cbn [gas_free]. unfold dispatch. rewrite Ht. unfold no_receipt, mbind, ST_bind.
  assert (supply_fits (charged tx s)) as Hs' by (unfold supply_fits in *; lia).
  pose proof (token_transfer_outcome tx (charged tx s) Hs') as Hout.
  destruct (handle_token_transfer tx (charged tx s)) as [[[]|e] s'].
  - destruct Hout as (p' & Hp' & _ & _ & _ & _ & Hb). rewrite Hp in Hp'. injection Hp' as <-.
    cbn [mret ST_ret]. eexists _, _. split; [reflexivity |]. intros a. specialize (Hb a). specialize (Hch a).
    change (World.get_balance (accept_tx tx GAS_FEE None s') a) with (World.get_balance s' a).
    repeat case_decide; lia.
  - destruct Hout as [_ Hno]. specialize (Hno p Hp). specialize (Hch (tx_from tx)).
    rewrite decide_True in Hch by done. lia.
Qed.

(** ** What a command sends *)

(** The transaction that a key file's owner signs for a payload, on a state. *)
Definition cli_tx (cfg : NodeConfig) (t : TxType) (payload : bytes) (s : WorldState) : Transaction :=
  sign_transaction (mkTransaction t (nc_address cfg) (u64_add (get_nonce s (nc_address cfg)) 1) payload (replicate 64 x00))
    (nc_signing_key_bytes cfg).

(** A key file whose address is the one of its key. *)
Definition own_key (cfg : NodeConfig) : Prop :=
  load_config password dir = Ok cfg /\ nc_address cfg = vk_of_signing_key (nc_signing_key_bytes cfg)
  /\ length (nc_address cfg) = 32%nat.

(** The pool has room for a transaction that it does not hold yet. *)
Definition room_for (tx : Transaction) (inner : ChainInner Db) : Prop :=
  N.of_nat (length (ch_mempool inner)) < MAX_MEMPOOL_SIZE /\ forall m, m ∈ ch_mempool inner -> tx_hash m <> tx_hash tx.

(** The pool can take what the client sends. *)
Definition takes (tx : Transaction) (inner : ChainInner Db) : Prop :=
  try_from_slice (to_vec tx) = Ok tx /\ room_for tx inner.

Definition pooled (tx : Transaction) (env : RpcEnv (Ip:=Ip)) w : served :=
  (w.1 ++ if_p2p env (BroadcastTx tx), with_chain ((rp_chain w.2) <| ch_mempool ::= fun l => l ++ [tx] |>) w.2).

Lemma cli_tx_fields cfg t payload s : nc_address cfg = vk_of_signing_key (nc_signing_key_bytes cfg) ->
  tx_from (cli_tx cfg t payload s) = nc_address cfg /\ tx_type (cli_tx cfg t payload s) = t
  /\ tx_payload (cli_tx cfg t payload s) = payload
  /\ tx_nonce (cli_tx cfg t payload s) = u64_add (get_nonce s (nc_address cfg)) 1
  /\ verify_transaction (cli_tx cfg t payload s) = Ok tt.
Proof. intros Ha. split_and!; try done. apply verify_sign_transaction. Qed.

Lemma pool_takes tx inner :
  room_for tx inner -> verify_transaction tx = Ok tt -> tx_nonce tx = u64_add (get_nonce (ch_state inner) (tx_from tx)) 1 ->
  Chain.submit_tx tx inner = (Ok (tx_hash tx), inner <| ch_mempool ::= fun l => l ++ [tx] |>).
Proof.
  intros (Hroom & Hnew) Hsig Hn. unfold Chain.submit_tx. rewrite bind_get, bind_fail_if, (proj2 (N.leb_gt _ _)) by done.
  rewrite bind_map_err, Hsig, bind_fail_if, Hn, N.eqb_refl. cbn [negb]. rewrite bind_fail_if.
  assert (existsb (fun m => bool_decide (tx_hash m = tx_hash tx)) (ch_mempool inner) = false) as ->; [| done].
  destruct (existsb _ _) eqn:He; [| done]. apply existsb_exists in He as (m & Hm & Heq%bool_decide_eq_true).
  by apply list_elem_of_In, Hnew in Hm.
Qed.

(** Whatever its type, a transaction of the owner of a key file gets into the pool. *)
Lemma cli_submits env cfg t payload w :
  own_key cfg -> let tx := cli_tx cfg t payload (ch_state (rp_chain w.2)) in takes tx (rp_chain w.2) ->
  Cli.submit_tx (node_server env) dir password t payload w = (Ok (hex_encode (tx_hash tx)), pooled tx env w).
Proof.
  intros (Hload & Ha & Hlen) tx Htake. destruct (cli_tx_fields cfg t payload (ch_state (rp_chain w.2)) Ha) as (F1 & _ & _ & F4 & F5).
  fold tx in F1, F4, F5. unfold Cli.submit_tx, lift. rewrite bind_map_err, Hload.
  rewrite (bind_run _ _ _ _ _ (asked_nonce env (nc_address cfg) w Hlen)). cbn [as_u64_ default from_option].
  change (sign_transaction _ _) with tx. unfold mbind, ST_bind at 1. rewrite rpc_call_answer.
  change (dispatch_rpc env "claw_sendTransaction" (JArr [JStr (hex_encode (to_vec tx))]) w.2)
    with (rpc_send_transaction (Peer:=Peer) (Channel:=Channel) env (JArr [JStr (hex_encode (to_vec tx))]) w.2).
  unfold rpc_send_transaction. cbn [param_str json_get mbind option_bind as_str lookup list_lookup].
  rewrite hex_decode_encode. destruct Htake as (Hread & Hrest). rewrite Hread.
  rewrite (pool_takes tx (rp_chain w.2) Hrest F5) by (by rewrite F1). reflexivity.
Qed.

(** C35. A transfer from the command line arrives: the owner of a key file who has the
    amount and the fee, and whose node's pool has room, gets the hash of a
    transaction that is now in the pool and was sent to the network, and nothing
    else has changed; on the node's state that transaction is accepted and moves
    the amount, and the fee, to the last unit. *)
Theorem cli_transfer_arrives env cfg b amount raw i w :
  let inner := rp_chain w.2 in let s := ch_state inner in let p := mkTokenTransferPayload b raw in
  let tx := cli_tx cfg TokenTransfer (to_vec p) s in
  own_key cfg -> takes tx inner -> length b = 32%nat -> parse_claw_amount amount = Ok raw ->
  try_from_slice (to_vec p) = Ok p -> blen (to_vec p) <= MAX_TX_PAYLOAD_SIZE ->
  supply_fits s -> 0 < raw -> raw + GAS_FEE <= World.get_balance s (nc_address cfg) ->
  handle_transfer_cli (node_server env) dir password (hex_encode b) amount w
  = (Ok (hex_encode (tx_hash tx)), pooled tx env w)
  /\ exists out s', apply_tx tx i s = (Ok out, s')
     /\ forall a, World.get_balance s' a + (if decide (a = nc_address cfg) then raw + GAS_FEE else 0)
                  = World.get_balance s a + (if decide (a = b) then raw else 0).
Proof.
  intros inner s p tx Hown Htake Hb Hraw Hp Hsize Hs Hpos Hbal. destruct Hown as (Hload & Ha & Hlen).
  destruct (cli_tx_fields cfg TokenTransfer (to_vec p) s Ha) as (F1 & F2 & F3 & F4 & F5). fold tx in F1, F2, F3, F4, F5.
  split.
  - unfold handle_transfer_cli, lift, parse_hex_address, labelled. rewrite hex_decode_encode, bind_map_err, Hb. cbn [Nat.eqb negb].
    rewrite bind_map_err, Hraw. unfold check_funds, lift. rewrite bind_assoc, bind_map_err, Hload.
    rewrite bind_assoc, (bind_run _ _ _ _ _ (asked_balance env (nc_address cfg) w Hlen)).
    assert (read_balance (jdec (World.get_balance (ch_state (rp_chain w.2)) (nc_address cfg))) = World.get_balance s (nc_address cfg)) as ->.
    { unfold read_balance, jdec. cbn [as_str mbind option_bind].
      rewrite parse_pretty; [done |].
      pose proof (balance_le_supply s (nc_address cfg)) as Hle. rewrite amount_of_default in Hle.
      unfold World.get_balance, supply_fits in *. fold inner s. lia. }
    cbv beta zeta. rewrite bind_fail_if, (proj2 (N.ltb_ge (World.get_balance s (nc_address cfg)) raw) ltac:(lia)).
    apply (cli_submits env cfg TokenTransfer (to_vec p) w); [by split_and! | done].
  - destruct (transfer_accepted tx p i s F2) as (out & s' & Hrun & Hb'); rewrite ?F1, ?F3; try done.
    exists out, s'. split; [done |]. intros a. specialize (Hb' a). by rewrite F1 in Hb'.
Qed.

(** Two commands before the next block: both are told that they were submitted, and
    whichever is accepted, the other never is. *)
Theorem cli_one_per_block cfg t1 p1 t2 p2 (s : WorldState) :
  nc_address cfg = vk_of_signing_key (nc_signing_key_bytes cfg) -> get_nonce s (nc_address cfg) + 1 < TWO64 ->
  let tx1 := cli_tx cfg t1 p1 s in let tx2 := cli_tx cfg t2 p2 s in
  forall i j out s0 s1 s2, apply_tx tx1 i s0 = (Ok out, s1) -> later s1 s2 -> exists e, apply_tx tx2 j s2 = (Err e, s2).
Proof.
  intros Ha Hn tx1 tx2 i j out s0 s1 s2 Hrun Hl.
  destruct (cli_tx_fields cfg t1 p1 s Ha) as (F1 & _ & _ & F4 & _), (cli_tx_fields cfg t2 p2 s Ha) as (G1 & _ & _ & G4 & _).
  fold tx1 in F1, F4. fold tx2 in G1, G4. rewrite wadd_small in F4, G4 by lia.
  eapply nonce_taken; [| | | exact Hrun | exact Hl]; [congruence | congruence | lia].
Qed.

(** ** Check-ins *)

(** The encryption of keys and the check-in command do not go together: once a key
    has been imported with a password, every other command loads it, and the
    check-in finds no key, whatever the node answers. *)
Theorem encrypted_key_cannot_checkin `{!KeyFileLaws} {W} (server : RpcRequest -> ST W string RpcResponse) rng pw sk cid d0 (u : W) :
  length sk = 32%nat -> length (vk_of_signing_key sk) = 32%nat -> length (kr_salt rng) = 32%nat -> length (kr_nonce rng) = 12%nat ->
  exists d, import_key rng (Some pw) sk cid d0 = Ok (vk_of_signing_key sk, d)
  /\ load_config (Some pw) d = Ok (mkNodeConfig (vk_of_signing_key sk) sk)
  /\ handle_miner_checkin_cli server d u = (Err "missing secret_key in key file"%string, u).
Proof.
  intros Hs Ha Hsalt Hnonce. unfold import_key, key_json. destruct (encrypts rng sk pw Hs Hnonce) as [ct Henc]. rewrite Henc.
  eexists. split; [reflexivity |]. rewrite load_ignores_config.
  split; [exact (loads_encrypted _ _ pw _ _ _ _ _ _ Ha Hs Hsalt Hnonce Henc) |].
  destruct (written_encrypted d0 (vk_of_signing_key sk) ct (kr_salt rng) (kr_nonce rng) cid) as (v & Hv & _ & _ & _ & _ & _ & Hno).
  unfold handle_miner_checkin_cli, lift. rewrite bind_map_err. unfold read_checkin_key.
  assert (dd_key_json (write_default_config cid (write_key_file (build_encrypted_key_json (vk_of_signing_key sk) ct (kr_salt rng) (kr_nonce rng) cid) d0))
    = Some (json_to_string_pretty (build_encrypted_key_json (vk_of_signing_key sk) ct (kr_salt rng) (kr_nonce rng) cid))) as ->
    by (unfold write_default_config; by destruct (dd_config_toml _)).
  unfold read_key_json in Hv. cbn [dd_key_json write_key_file] in Hv. rewrite Hv. unfold str_field. by rewrite Hno.
Qed.

(** A block serialises to an object with its hash as a list of numbers. *)
Definition block_serialised : Prop := forall b, exists v, to_value b = Ok v
  /\ json_field v "hash" = Some (JArr ((fun x => JNum (Byte.to_N x)) <$> b_hash b)).

Lemma hash_kept (b : Block) v : json_field (add_hashes b v) "hash" = json_field v "hash".
Proof.
  destruct v as [| | | | | | | fields]; try done. cbn [add_hashes json_field]. f_equal. induction fields as [| [k x] fields IH]; [done |].
  cbn [fmap list_fmap List.find]. cbn [fst snd]. destruct (decide (k = "transactions"%string)) as [-> |]; cbn [fst].
  - change (String.eqb "transactions" "hash") with false. cbv iota. exact IH.
  - destruct (String.eqb k "hash"); [done | exact IH].
Qed.

Lemma ref_hash_read bs v : length bs = 32%nat ->
  json_field v "hash" = Some (JArr ((fun x => JNum (Byte.to_N x)) <$> bs)) -> ref_hash v = bs.
Proof.
  intros Hl Hv. unfold ref_hash. rewrite Hv. cbn [mbind option_bind as_str as_array].
  assert (omap (fun v => (fun n => byte_of_N (n mod 256)) <$> as_u64_ v) ((fun x => JNum (Byte.to_N x)) <$> bs) = bs) as ->.
  { clear. induction bs as [| b bs IH]; [done |]. cbn [fmap list_fmap omap list_omap as_u64_ option_fmap option_map].
    rewrite N.mod_small by (pose proof (Byte.to_N_bounded b); lia). rewrite byte_of_to_N. by f_equal. }
  by rewrite Hl.
Qed.

Lemma asked_height env w :
  rpc_call (node_server env) "claw_blockNumber" [] w = (Ok (JNum (b_height (ch_latest_block (rp_chain w.2)))), w).
Proof.
  rewrite rpc_call_answer.
  change (dispatch_rpc env "claw_blockNumber" (JArr []) w.2)
    with (Answer (Ok (JNum (b_height (ch_latest_block (rp_chain w.2))))), [] : commands (Peer:=Peer) (Channel:=Channel), w.2).
  cbn [fst snd]. by rewrite app_nil_r; destruct w.
Qed.

Lemma asked_block env w height b : block_serialised -> chain_get_block (rp_chain w.2) height = Some b ->
  exists v, rpc_call (node_server env) "claw_getBlockByNumber" [JNum height] w = (Ok v, w)
    /\ json_field v "hash" = Some (JArr ((fun x => JNum (Byte.to_N x)) <$> b_hash b)).
Proof.
  intros Hser Hb. destruct (Hser b) as (v & Hv & Hf). exists (add_hashes b v). split; [| by rewrite hash_kept].
  rewrite rpc_call_answer.
  change (dispatch_rpc env "claw_getBlockByNumber" (JArr [JNum height]) w.2)
    with (match rpc_get_block_by_number (JArr [JNum height]) (rp_chain w.2) with
          | (v, None) => (Answer (Ok v), [] : commands (Peer:=Peer) (Channel:=Channel), w.2)
          | (_, Some e) => (Refused (-32603) e, [], w.2)
          end).
  unfold rpc_get_block_by_number. change (default 0 (param_u64 (JArr [JNum height]) 0)) with height.
  rewrite Hb, Hv. cbn [fst snd]. by rewrite app_nil_r; destruct w.
Qed.

(** A check-in from the command line is accepted: for a registered miner with a
    plain key, on a node whose blocks are stored, the command picks a block of the
    current epoch, and its witness passes every check of the node and is cached and
    sent to the network. *)
Theorem cli_checkin_accepted env w sk known :
  let inner := rp_chain w.2 in let tip := b_height (ch_latest_block inner) in
  let epoch := tip / MINER_EPOCH_LENGTH in let height := ref_height tip in
  let wit := mkMinerCheckinWitness (vk_of_signing_key sk) epoch (b_hash known) height
               (ed_sign sk (checkin_signable_bytes epoch (b_hash known))) in
  read_checkin_key dir = Ok sk -> block_serialised ->
  ws_block_height (ch_state inner) = tip -> CHECKIN_V3_HEIGHT <= tip -> tip < TWO64 ->
  contains_key (ws_miners (ch_state inner)) (vk_of_signing_key sk) = true ->
  get_block height (ch_store inner) = Ok (Some known) -> (height = tip -> ch_latest_block inner = known) ->
  length (b_hash known) = 32%nat -> try_from_slice (to_vec wit) = Ok wit ->
  handle_miner_checkin_cli (node_server env) dir w
  = (Ok (epoch, height, JStr "checkin accepted"),
     (w.1 ++ if_p2p env (BroadcastCheckin wit), with_chain (inner <| ch_checkin_cache ::= cache_insert wit |>) w.2)).
Proof.
  intros inner tip epoch height wit Hkey Hser Hh Hv3 Htip Hreg Hstore Hlatest Hlen Hread.
  assert (chain_get_block inner height = Some known) as Hget.
  { unfold chain_get_block, stored_block. rewrite Hstore. fold tip. destruct (N.eqb_spec height tip) as [E |]; [by rewrite Hlatest | done]. }
  destruct (asked_block env w height known Hser Hget) as (v & Hv & Hf).
  unfold handle_miner_checkin_cli, lift. rewrite bind_map_err, Hkey.
  rewrite (bind_run _ _ _ _ _ (asked_height env w)). cbn [as_u64_ default from_option id]. cbv zeta. fold inner tip epoch height.
  rewrite (bind_run _ _ _ _ _ Hv), (ref_hash_read _ _ Hlen Hf). fold wit.
  unfold mbind at 1, ST_bind at 1. rewrite rpc_call_answer.
  change (dispatch_rpc env "claw_submitMinerCheckin" (JArr [JStr (hex_encode (to_vec wit))]) w.2)
    with (rpc_submit_miner_checkin (Peer:=Peer) (Channel:=Channel) env (JArr [JStr (hex_encode (to_vec wit))]) w.2).
  unfold rpc_submit_miner_checkin. change (param_str (JArr [JStr (hex_encode (to_vec wit))]) 0) with (Some (hex_encode (to_vec wit))).
  cbv iota beta. rewrite hex_decode_encode, Hread. fold inner.
  assert (submit_miner_checkin wit inner = (Ok "checkin accepted"%string, inner <| ch_checkin_cache ::= cache_insert wit |>)) as ->; [| done].
  unfold submit_miner_checkin. rewrite bind_get, bind_fail_if, Hh, (proj2 (N.ltb_ge _ _)) by done.
  rewrite bind_map_err.
  assert (validate_checkin_witness wit inner = Ok tt) as ->; [| done].
  assert (epoch * MINER_EPOCH_LENGTH <= height /\ height <= tip) as [Hlo Hhi].
  { unfold height, ref_height, sat_sub. fold epoch. pose proof (N.Div0.mul_div_le tip MINER_EPOCH_LENGTH).
    unfold epoch in *. lia. }
  unfold validate_checkin_witness, wit. cbn [w_miner w_epoch w_ref_block_hash w_ref_block_height w_signature].
  rewrite Hh, Hreg. fold epoch tip. rewrite N.eqb_refl. cbn [negb]. rewrite !andb_false_r. cbn [andb].
  assert (u64_mul epoch MINER_EPOCH_LENGTH = epoch * MINER_EPOCH_LENGTH) as -> by (apply N.mod_small; lia).
  rewrite (proj2 (N.ltb_ge height (epoch * MINER_EPOCH_LENGTH)) Hlo), (proj2 (N.ltb_ge tip height) Hhi). cbn [orb].
  rewrite Hstore, bool_decide_eq_true_2, vk_of_signing_key_valid, verify_sign by done. done.
Qed.
End served.

(** ** Witnesses *)

Definition tx_type_of_u8 (n : N) : option TxType :=
  List.find (fun t => tx_type_u8 t =? n)
    [AgentRegister; TokenTransfer; TokenCreate; TokenMintTransfer; ReputationAttest; ServiceRegister; ContractDeploy;
     ContractCall; StakeDeposit; StakeWithdraw; StakeClaim].

(** The examples' decoders, with transactions and transfers that can be written too. *)
Definition wire_codec : TxCodec := {|
  codec_tx := {|
    to_vec tx := [byte_of_N (tx_type_u8 (tx_type tx))] ++ tx_from tx ++ le64 (tx_nonce tx)
                   ++ enc_vec (tx_payload tx) ++ tx_signature tx;
    try_from_slice bs :=
      let '(t, from, nonce, rest) := (take 1 bs, take 32 (drop 1 bs), take 8 (drop 33 bs), drop 41 bs) in
      let n := N.to_nat (le_value (take 4 rest)) in
      match tx_type_of_u8 (le_value t) with
      | Some t => Ok (mkTransaction t from (le_value nonce) (take n (drop 4 rest)) (drop (4 + n) rest))
      | None => Err "Invalid variant index"%string
      end |};
  codec_agent_register := @codec_agent_register toy_tx_codec;
  codec_token_transfer := {|
    to_vec p := ttp_to p ++ le_bytes 16 (ttp_amount p);
    try_from_slice := @try_from_slice _ (@codec_token_transfer toy_tx_codec) |};
  codec_token_create := @codec_token_create toy_tx_codec;
  codec_token_mint_transfer := @codec_token_mint_transfer toy_tx_codec;
  codec_service_register := @codec_service_register toy_tx_codec;
  codec_contract_deploy := @codec_contract_deploy toy_tx_codec;
  codec_contract_call := @codec_contract_call toy_tx_codec;
  codec_stake_deposit := @codec_stake_deposit toy_tx_codec;
  codec_stake_deposit_legacy := @codec_stake_deposit_legacy toy_tx_codec;
  codec_stake_withdraw := @codec_stake_withdraw toy_tx_codec;
  codec_stake_claim := @codec_stake_claim toy_tx_codec;
  codec_token_approve := @codec_token_approve toy_tx_codec;
  codec_token_burn := @codec_token_burn toy_tx_codec;
  codec_change_delegation := @codec_change_delegation toy_tx_codec;
  codec_activity_report := @codec_activity_report toy_tx_codec;
  codec_miner_register := @codec_miner_register toy_tx_codec;
  codec_miner_heartbeat := @codec_miner_heartbeat toy_tx_codec;
  codec_upgrade_announce := @codec_upgrade_announce toy_tx_codec;
  codec_upgrade_execute := @codec_upgrade_execute toy_tx_codec;
|}.

Section witnesses.
#[local] Existing Instance toy_blake3.
#[local] Existing Instance toy_ed25519.
#[local] Existing Instance toy_ed25519_laws.
#[local] Existing Instance wire_codec.
#[local] Existing Instance toy_redb.
#[local] Existing Instance toy_store_codec.
#[local] Existing Instance plain_hex.
#[local] Existing Instance plain_hex_decode.
#[local] Existing Instance plain_hex_laws.
#[local] Existing Instance toy_vm.
#[local] Existing Instance toy_schedule.
#[local] Existing Instance toy_codec.
#[local] Existing Instance toy_node_codec.
#[local] Existing Instance toy_key_errors.
#[local] Existing Instance toy_memory.
#[local] Existing Instance toy_rpc_codec.
#[local] Existing Instance toy_machine.
#[local] Existing Instance toy_json_text.
#[local] Existing Instance toy_cipher.
#[local] Existing Instance toy_key_file_laws.

Definition toy_config : NodeConfig := mkNodeConfig (toy_addr 11) (toy_addr 11).
Definition toy_served : list (P2pCommand N unit) * RpcState (Ip:=N) := ([], toy_server).

(** Two tokens and a half from the command line. *)
Lemma cli_transfer_arrives_witness :
  exists h w', handle_transfer_cli (node_server (toy_env 5)) plain_dir None (hex_encode (toy_addr 12)) "2.5" toy_served = (Ok h, w')
  /\ length (ch_mempool (rp_chain w'.2)) = 1%nat /\ length w'.1 = 1%nat.
Proof.
  destruct (cli_transfer_arrives plain_dir None (toy_env 5) toy_config (toy_addr 12) "2.5" 2500000000 0 toy_served) as [H _].
  - split_and!; vm_compute; reflexivity.
  - split; [vm_compute; reflexivity | split; [vm_compute; reflexivity |]]. intros m Hm. exact (False_ind _ (not_elem_of_nil m Hm)).
  - vm_compute. reflexivity.
  - vm_compute. reflexivity.
  - vm_compute. reflexivity.
  - vm_compute. discriminate.
  - vm_compute. reflexivity.
  - vm_compute. reflexivity.
  - vm_compute. discriminate.
  - eexists. eexists. split; [exact H |]. split; vm_compute; reflexivity.
Defined.

(** A node that cannot even be reached. *)
Lemma encrypted_key_cannot_checkin_witness :
  exists d, import_key toy_random (Some "secret"%string) (toy_addr 11) "claw-devnet" empty_dir = Ok (toy_addr 11, d)
  /\ handle_miner_checkin_cli (fun _ n => (Err "connection refused"%string, n)) d 0
     = (Err "missing secret_key in key file"%string, 0).
Proof.
  destruct (encrypted_key_cannot_checkin (fun _ n => (Err "connection refused"%string, n)) toy_random "secret" (toy_addr 11)
    "claw-devnet" empty_dir 0) as (d & H1 & _ & H2); [vm_compute; reflexivity .. |].
  exists d. split; [exact H1 | exact H2].
Defined.
End witnesses.
