(* ===== verification/ToolCorrect.v ===== *)
(** * The developer's tool against the node

    The tool signs what the node accepts, and its transactions arrive; but it
    never sees one confirmed, and the address it would show for a contract is not
    the contract's.  What it says of deployed code is true. *)

From stdpp Require Import pretty.
From S2P Require Import Prelude Interfaces Types Concrete Crypto ConsensusTypes Slashing ValidatorSet Utf8 Vm Host Engine World HandlerBase ConcreteState ConcreteTx Tokens Contracts Store ApplyTx Rewards Epochs Node Chain ConcreteNode BlockLedger Genesis Sync Json Config ConcreteFiles Queries NodeSteps RpcServer Cli ContractTool ConcreteVm RpcSafety CliCorrect.
Notation length := List.length.

(** ** The transaction *)

(** The node's type of a transaction of the tool, and the transaction as the node
    reads it. *)
Definition node_type (t : ContractTool.TxType) : Types.TxType :=
  match t with ContractTool.ContractDeploy => Types.ContractDeploy | ContractTool.ContractCall => Types.ContractCall end.
Definition node_tx (sg : SignedTransaction) : Transaction :=
  mkTransaction (node_type (sg_tx_type sg)) (sg_from sg) (sg_nonce sg) (sg_payload sg) (sg_signature sg).

Lemma tool_signs `{Ed25519} t sk nonce payload :
  node_tx (build_and_sign_transaction t sk nonce payload)
  = sign_transaction (mkTransaction (node_type t) (vk_of_signing_key sk) nonce payload (replicate 64 x00)) sk.
Proof. by destruct t. Qed.

(** ** A node that answers *)

Section served.
Context `{HB : Blake3} `{HE : Ed25519} `{!Ed25519Laws} `{TC : TxCodec} `{HX : Hex} `{HD : HexDecode} `{!HexLaws}.
Context `{VM : VmEngine} `{VS : VmSchedule} `{SCd : StateCodec} `{RD : Redb} `{SC : StoreCodec} `{NC : NodeCodec} `{KE : KeyErrors}.
Context `{WM : Wasmer} `{RC : RpcCodec} `{JT : JsonText}.
Context {Peer Channel Ip : Type} `{Countable Ip}.

Abbreviation served := (list (P2pCommand Peer Channel) * RpcState (Ip:=Ip))%type.
Implicit Types (w : served) (env : RpcEnv (Ip:=Ip)).

(** A request that its method answers. *)
Lemma send_ok env id method params w v cmds st :
  dispatch_rpc env method (JArr params) w.2 = (Answer (Ok v), cmds, st) ->
  send_request (node_server env) id method params w = (Ok (mkJsonRpcResponse (present (Some v)) None), (w.1 ++ cmds, st)).
Proof.
  intros Hd. unfold send_request, node_server, handle_rpc. cbn [rq_jsonrpc rq_method rq_params rq_id].
  change (negb (String.eqb "2.0" "2.0")) with false. cbv iota. by rewrite Hd.
Qed.

Lemma post_ok env what doing id method params w v cmds st :
  dispatch_rpc env method (JArr params) w.2 = (Answer (Ok v), cmds, st) ->
  post (node_server env) what doing id method params w = (Ok (present (Some v)), (w.1 ++ cmds, st)).
Proof. intros Hd. unfold post. by rewrite (send_ok _ _ _ _ _ _ _ _ Hd). Qed.

Lemma nothing_sent w : (w.1 ++ [], w.2) = w.
Proof. rewrite app_nil_r. by destruct w. Qed.

Lemma tool_asks_nonce env a w : length a = 32%nat ->
  fetch_nonce (node_server env) (hex_encode a) w = (Ok (get_nonce (ch_state (rp_chain w.2)) a), w).
Proof.
  intros Ha. unfold fetch_nonce. erewrite bind_run.
  2: { eapply post_ok with (v := JNum (get_nonce (ch_state (rp_chain w.2)) a)) (cmds := []).
       change (dispatch_rpc env "claw_getNonce" (JArr [JStr (hex_encode a)]) w.2)
         with (Answer (rpc_get_nonce (JArr [JStr (hex_encode a)]) (rp_chain w.2)), [] : commands (Peer:=Peer) (Channel:=Channel), w.2).
       unfold rpc_get_nonce, with_address. by rewrite param_address. }
  by rewrite nothing_sent.
Qed.

(** ** Waiting *)

(** A server that gives, to each request, what the node answers in some state, or
    cannot be reached: the node may move on between two requests. *)
Definition node_like {W} (server : RpcRequest -> ST W string RpcResponse) : Prop := forall req (u : W) resp u',
  server req u = (Ok resp, u') ->
  exists env (st : RpcState (Ip:=Ip)), resp = (handle_rpc (Peer:=Peer) (Channel:=Channel) env req st).1.1.

Lemma node_server_like env : node_like (node_server (Peer:=Peer) (Channel:=Channel) env).
Proof.
  intros req w resp w'. unfold node_server. destruct (handle_rpc env req w.2) as [[r cmds] st] eqn:E.
  intros [= <- _]. exists env, w.2. by rewrite E.
Qed.

(** No answer counts as a confirmation. *)
Lemma never_confirmed env h st :
  let resp := (handle_rpc (Peer:=Peer) (Channel:=Channel) env (mkRpcRequest "2.0" (JNum 3) "claw_getTransactionByHash" (JArr [JStr h])) st).1.1 in
  match jr_error (read_response (response_json resp)), jr_result (read_response (response_json resp)) with
  | None, Some data => confirmed data
  | _, _ => false
  end = false.
Proof.
  cbv zeta. unfold handle_rpc. cbn [rq_jsonrpc rq_method rq_params rq_id].
  change (negb (String.eqb "2.0" "2.0")) with false. cbv iota.
  change (dispatch_rpc env "claw_getTransactionByHash" (JArr [JStr h]) st)
    with (Answer (rpc_get_transaction_by_hash (JArr [JStr h]) (rp_chain st)), [] : commands (Peer:=Peer) (Channel:=Channel), st).
  unfold rpc_get_transaction_by_hash, with_address. destruct (RpcServer.parse_address _ _); [| done].
  destruct (get_tx_by_hash _ _) as [[[tx height] timestamp]|]; [| done].
  cbn [fst snd]. unfold tx_json. by destruct (extract_to_and_amount tx).
Qed.

Lemma poll_fails {W} (server : RpcRequest -> ST W string RpcResponse) (Hs : node_like server) h secs n : forall u, exists u',
  poll server n secs h u = (Err ["transaction not confirmed after " +:+ pretty secs +:+ "s: " +:+ h]%string, u').
Proof.
  induction n as [| n IH]; intros u; [by exists u |]. cbn [poll].
  assert (exists u', poll_once server h u = (Ok false, u')) as (u' & Hp).
  { unfold poll_once, send_request. destruct (server _ u) as [[resp|e] u'] eqn:E; [| by exists u'].
    exists u'. apply Hs in E as (env & st & ->). by rewrite never_confirmed. }
  rewrite (bind_run _ _ _ _ _ Hp). apply IH.
Qed.

Lemma wait_fails {W} (server : RpcRequest -> ST W string RpcResponse) (Hs : node_like server) sg u :
  exists e u', submit_and_wait server sg u = (Err e, u').
Proof.
  unfold submit_and_wait, mbind at 1, ST_bind at 1, with_context at 1.
  destruct (submit_transaction server sg u) as [[h|e] u1]; [| by eexists _, _].
  unfold mbind, ST_bind, with_context, poll_confirmation.
  destruct (poll_fails server Hs h 30 (N.to_nat (30 / 2)) u1) as (u' & ->). by eexists _, _.
Qed.

(** Every command ends in the error of a part of it. *)
Lemma always_fails_bind {S E A B} (m : ST S E A) (f : A -> ST S E B) :
  (forall a s, exists e s', f a s = (Err e, s')) -> forall s, exists e s', (m ≫= f) s = (Err e, s').
Proof. intros Hf s. unfold mbind, ST_bind. destruct (m s) as [[a|e] s1]; [apply Hf | by eexists _, _]. Qed.

(** C36. Neither a deployment nor a call with the tool ever succeeds against the node:
    whatever happens to the transaction, and however the node moves on while the
    tool waits, the tool ends in an error, since it looks for a block height under
    a name that the node's answer does not have. *)
Theorem tool_never_confirms {W} (server : RpcRequest -> ST W string RpcResponse) files wasm_file contract method args value key (u : W) :
  node_like server ->
  (exists e u', cmd_deploy server files wasm_file method args key u = (Err e, u'))
  /\ (exists e u', cmd_call server files contract method args value key u = (Err e, u')).
Proof.
  intros Hs. split.
  - unfold cmd_deploy. revert u. do 4 (apply always_fails_bind; intros ?). intros u. cbv zeta.
    unfold mbind, ST_bind. destruct (wait_fails server Hs (build_and_sign_transaction ContractTool.ContractDeploy a1 a2
      (encode_contract_deploy_payload a method a0)) u) as (e & u' & ->). by eexists _, _.
  - unfold cmd_call. revert u. do 5 (apply always_fails_bind; intros ?). intros u. cbv zeta. by apply wait_fails.
Qed.

(** ** What arrives *)

(** The transaction the tool signs on a state for a payload. *)
Definition tool_tx (t : ContractTool.TxType) (sk payload : bytes) (s : WorldState) : SignedTransaction :=
  build_and_sign_transaction t sk (u64_add (get_nonce s (vk_of_signing_key sk)) 1) payload.

(** The node reads what the tool writes, and its pool has room for it. *)
Definition tool_takes (sg : SignedTransaction) (inner : ChainInner Db) : Prop :=
  try_from_slice (serialize_transaction_for_rpc sg) = Ok (node_tx sg) /\ room_for (node_tx sg) inner.

Lemma node_tx_fields t sk payload s : let tx := node_tx (tool_tx t sk payload s) in
  tx_from tx = vk_of_signing_key sk /\ tx_nonce tx = u64_add (get_nonce s (vk_of_signing_key sk)) 1
  /\ verify_transaction tx = Ok tt.
Proof. cbv zeta. unfold tool_tx. rewrite tool_signs. split_and!; [done | done | apply verify_sign_transaction]. Qed.

Lemma tool_submits env t sk payload w :
  let sg := tool_tx t sk payload (ch_state (rp_chain w.2)) in tool_takes sg (rp_chain w.2) ->
  submit_transaction (node_server env) sg w = (Ok (hex_encode (tx_hash (node_tx sg))), pooled (node_tx sg) env w).
Proof.
  intros sg (Hread & Hroom). destruct (node_tx_fields t sk payload (ch_state (rp_chain w.2))) as (F1 & F2 & F3). fold sg in F1, F2, F3.
  unfold submit_transaction. erewrite bind_run.
  2: { eapply post_ok with (v := JStr (hex_encode (tx_hash (node_tx sg)))).
       change (dispatch_rpc env "claw_sendTransaction" (JArr [JStr (hex_encode (serialize_transaction_for_rpc sg))]) w.2)
         with (rpc_send_transaction (Peer:=Peer) (Channel:=Channel) env (JArr [JStr (hex_encode (serialize_transaction_for_rpc sg))]) w.2).
       unfold rpc_send_transaction. cbn [param_str json_get mbind option_bind as_str lookup list_lookup].
       rewrite hex_decode_encode, Hread, (pool_takes (node_tx sg) (rp_chain w.2) Hroom F3) by (by rewrite F1). reflexivity. }
  reflexivity.
Qed.

(** Nothing changes while the tool waits for a node that stands still. *)
Lemma poll_still env h secs n w :
  poll (node_server env) n secs h w = (Err ["transaction not confirmed after " +:+ pretty secs +:+ "s: " +:+ h]%string, w).
Proof.
  induction n as [| n IH]; [done |]. cbn [poll].
  assert (poll_once (node_server env) h w = (Ok false, w)) as Hp; [| rewrite (bind_run _ _ _ _ _ Hp); apply IH].
  unfold poll_once, send_request. pose proof (never_confirmed env h w.2) as Hn. cbv zeta in Hn.
  unfold node_server. destruct (handle_rpc _ _ w.2) as [[resp cmds] st] eqn:E. cbn [fst] in Hn.
  assert (cmds = [] /\ st = w.2) as [-> ->].
  { unfold handle_rpc in E. cbn [rq_jsonrpc rq_method rq_params rq_id] in E.
    change (negb (String.eqb "2.0" "2.0")) with false in E. cbv iota in E.
    change (dispatch_rpc env "claw_getTransactionByHash" (JArr [JStr h]) w.2)
      with (Answer (rpc_get_transaction_by_hash (JArr [JStr h]) (rp_chain w.2)), [] : commands (Peer:=Peer) (Channel:=Channel), w.2) in E.
    by injection E as _ <- <-. }
  by rewrite Hn, nothing_sent.
Qed.

(** A deployment arrives although the tool says it failed: with a key, a Wasm file
    and arguments that can be read, the transaction it signs is one that the node
    verifies, has the next nonce, and is now in the pool and sent to the network;
    all that the tool reports is that it was not confirmed. *)
Theorem tool_deploy_arrives env files wasm_file method args key code init_args sk w :
  let s := ch_state (rp_chain w.2) in
  let sg := tool_tx ContractTool.ContractDeploy sk (encode_contract_deploy_payload code method init_args) s in
  read_file files wasm_file = Ok code -> parse_hex_or_empty args = Ok init_args -> load_signing_key files key = Ok sk ->
  length (vk_of_signing_key sk) = 32%nat -> tool_takes sg (rp_chain w.2) ->
  cmd_deploy (node_server env) files wasm_file method args key w
  = (Err ["waiting for confirmation"; "transaction not confirmed after 30s: " +:+ hex_encode (tx_hash (node_tx sg))]%string,
     pooled (node_tx sg) env w)
  /\ verify_transaction (node_tx sg) = Ok tt /\ tx_nonce (node_tx sg) = u64_add (get_nonce s (tx_from (node_tx sg))) 1.
Proof.
  intros s sg Hcode Hargs Hkey Hlen Htake. split; [| destruct (node_tx_fields ContractTool.ContractDeploy sk
    (encode_contract_deploy_payload code method init_args) s) as (F1 & F2 & F3); fold sg in F1, F2, F3; by rewrite F1].
  unfold cmd_deploy, try_. rewrite Hcode, Hargs, Hkey. cbn [because context]. rewrite !bind_map_err.
  unfold next_nonce, with_context at 1. rewrite bind_assoc. erewrite bind_run by (rewrite tool_asks_nonce by done; reflexivity).
  cbn iota. rewrite bind_ret. cbv zeta.
  change (build_and_sign_transaction _ _ _ _) with sg. unfold submit_and_wait. rewrite bind_assoc.
  pose proof (tool_submits env _ _ _ w Htake) as Hsub.
  change (submit_transaction (node_server env) sg w = (Ok (hex_encode (tx_hash (node_tx sg))), pooled (node_tx sg) env w)) in Hsub.
  erewrite bind_run by (unfold with_context; rewrite Hsub; reflexivity). cbn iota.
  rewrite bind_assoc. unfold mbind at 1, ST_bind at 1, with_context, poll_confirmation. by rewrite poll_still.
Qed.

(** ** The address of a deployment *)

(** An accepted deployment registers one contract, whose address comes from the
    sender's nonce before the transaction. *)
Lemma deploy_registers tx i s out s' :
  supply_fits s -> tx_type tx = Types.ContractDeploy -> apply_tx tx i s = (Ok out, s') ->
  exists inst, ws_contracts s !! Vm.derive_contract_address (tx_from tx) (get_nonce s (tx_from tx)) = None
    /\ ws_contracts s' = <[Vm.derive_contract_address (tx_from tx) (get_nonce s (tx_from tx)) := inst]> (ws_contracts s).
Proof.
  intros Hs Ht Hrun. destruct (apply_tx_inv _ _ _ _ _ Hrun) as [(e & [=] & _) | (_ & _ & _ & Hgas & rd & s1 & Hd & Hout)].
  pose proof (supply_charged tx s Hs Hgas) as Hc. destruct rd as [[evs rc]|e]; [| by destruct Hout as [[=] _]].
  destruct Hout as [_ ->]. unfold dispatch, with_receipt, mbind, ST_bind in Hd. rewrite Ht in Hd.
  destruct (handle_contract_deploy tx i (charged tx s)) as [[[]|e] s2] eqn:Em; [injection Hd as <- <- <- | discriminate Hd].
  apply contract_deploy_outcome in Em; [| unfold supply_fits in Hs; lia]. destruct Em as (p & _ & Hnew & _ & Heff).
  assert (get_nonce (charged tx s) (tx_from tx) = get_nonce s (tx_from tx)) as En by (unfold charged; by destruct (gas_free _)).
  assert (ws_contracts (charged tx s) = ws_contracts s) as Ec by (unfold charged; by destruct (gas_free _)).
  rewrite En, Ec in Hnew. eexists. split; [exact Hnew |].
  transitivity (ws_contracts s2); [unfold accept_tx; by destruct (Some _) |]. rewrite Heff. unfold with_contract. upd.
  rewrite En, Ec. reflexivity.
Qed.


(** ** Deployed code *)
Lemma hex_encode_inj a b : hex_encode a = hex_encode b -> a = b.
Proof. intros E. apply (f_equal hex_decode) in E. rewrite !hex_decode_encode in E. by injection E. Qed.

(** No byte is written with an x. *)
Lemma strip_hex a : strip_0x (hex_encode a) = hex_encode a.
Proof.
  rewrite hex_encode_digits. destruct a as [| x a]; [done |].
  cbn [mbind list_bind fmap list_fmap app]. by destruct x.
Qed.

Lemma strip_0x_hex a : strip_0x ("0x" +:+ hex_encode a) = hex_encode a.
Proof. done. Qed.

Definition info_of (i : ContractInstance) : ContractInfo :=
  mkContractInfo (hex_encode (ci_address i)) (hex_encode (ci_code_hash i)) (hex_encode (ci_creator i)) (ci_deployed_at i).

Lemma tool_asks_info env a w : length a = 32%nat ->
  fetch_contract_info (node_server env) (hex_encode a) w
  = (match ws_contracts (ch_state (rp_chain w.2)) !! a with
     | Some i => Ok (info_of i)
     | None => Err ["claw_getContractInfo returned no result"%string]
     end, w).
Proof.
  intros Ha. unfold fetch_contract_info. erewrite bind_run.
  2: { eapply post_ok with (cmds := []) (st := w.2)
         (v := match ws_contracts (ch_state (rp_chain w.2)) !! a with
               | Some i => JObj [("address", jhex (ci_address i)); ("codeHash", jhex (ci_code_hash i));
                                 ("creator", jhex (ci_creator i)); ("deployedAt", JNum (ci_deployed_at i))]%string
               | None => JNull end).
       change (dispatch_rpc env "claw_getContractInfo" (JArr [JStr (hex_encode a)]) w.2)
         with (Answer (rpc_get_contract_info (JArr [JStr (hex_encode a)]) (rp_chain w.2)), [] : commands (Peer:=Peer) (Channel:=Channel), w.2).
       unfold rpc_get_contract_info, with_address. rewrite param_address by done. unfold get_contract_info. by destruct (_ !! a). }
  rewrite nothing_sent. by destruct (_ !! a).
Qed.

Lemma tool_asks_code env a w : length a = 32%nat ->
  fetch_contract_code (node_server env) (hex_encode a) w
  = (match ws_contract_code (ch_state (rp_chain w.2)) !! a with
     | Some code => Ok code
     | None => Err ["claw_getContractCode returned no result"%string]
     end, w).
Proof.
  intros Ha. unfold fetch_contract_code. erewrite bind_run.
  2: { eapply post_ok with (cmds := []) (st := w.2)
         (v := match ws_contract_code (ch_state (rp_chain w.2)) !! a with
               | Some code => JObj [("code", jhex code); ("size", JNum (blen code))]%string
               | None => JNull end).
       change (dispatch_rpc env "claw_getContractCode" (JArr [JStr (hex_encode a)]) w.2)
         with (Answer (rpc_get_contract_code (JArr [JStr (hex_encode a)]) (rp_chain w.2)), [] : commands (Peer:=Peer) (Channel:=Channel), w.2).
       unfold rpc_get_contract_code, with_address. rewrite param_address by done. unfold get_contract_code. by destruct (_ !! a). }
  rewrite nothing_sent. destruct (_ !! a) as [code|]; [| done]. cbn [present some_or]. unfold try_. rewrite bind_map_err.
  change (json_field (JObj [("code", jhex code); ("size", JNum (blen code))]%string) "code" ≫= as_str) with (Some (hex_encode code)).
  cbn [some_or]. rewrite bind_map_err. unfold map_err. by rewrite hex_decode_encode.
Qed.

(** A project whose package is [pkg] and whose build gives [wasm]. *)
Definition project_builds (files : Files) (cargo_build : string -> Files -> result bool string * Files)
    (source_dir : string) (wasm : bytes) : Prop :=
  let cargo_toml := path_join source_dir "Cargo.toml" in
  exists toml pkg built, path_exists files cargo_toml = true /\ read_to_string files cargo_toml = Ok toml
    /\ extract_package_name toml = Some pkg /\ cargo_build source_dir files = (Ok true, built)
    /\ path_exists built (path_join source_dir (wasm_path_of pkg)) = true
    /\ read_file built (path_join source_dir (wasm_path_of pkg)) = Ok wasm.

Lemma verify_run env files cargo_build source_dir wasm a w :
  project_builds files cargo_build source_dir wasm -> length a = 32%nat ->
  cmd_verify (node_server env) files cargo_build ("0x" +:+ hex_encode a) source_dir w
  = (match ws_contracts (ch_state (rp_chain w.2)) !! a with
     | Some i => if String.eqb (hex_encode (blake3 wasm)) (hex_encode (ci_code_hash i)) then Ok (info_of i)
                 else Err ["verification failed: hash mismatch"%string]
     | None => Err ["fetching contract info from chain"; "claw_getContractInfo returned no result"]%string
     end, w).
Proof.
  intros (toml & pkg & built & P1 & P2 & P3 & P4 & P5 & P6) Ha. unfold cmd_verify. cbv zeta.
  rewrite strip_0x_hex, P1. cbn [negb]. rewrite bind_fail_if. unfold try_. rewrite P2. cbn [because context].
  rewrite bind_map_err, P3. cbn [some_or]. rewrite bind_map_err, P4. cbn [because context]. rewrite bind_map_err. cbn [negb].
  rewrite bind_fail_if, P5. cbn [negb]. rewrite bind_fail_if, P6. cbn [because context]. rewrite bind_map_err.
  unfold mbind at 1, ST_bind at 1, with_context. rewrite tool_asks_info by done.
  destruct (_ !! a) as [i|]; [| done]. cbn [cinf_code_hash info_of]. rewrite bind_fail_if. by destruct (String.eqb _ _).
Qed.

(** C38. Verification tells the truth about the node's ledger: on a ledger that keeps its
    invariants, a contract whose stored code is what the source builds to is
    verified, with its creator and height; and what is verified has exactly that
    code stored, unless the hash function has a collision. *)
Theorem verify_tells_the_truth env files cargo_build source_dir wasm a w :
  let s := ch_state (rp_chain w.2) in
  let run := cmd_verify (node_server env) files cargo_build ("0x" +:+ hex_encode a) source_dir w in
  contracts_ok s -> project_builds files cargo_build source_dir wasm -> length a = 32%nat ->
  (ws_contract_code s !! a = Some wasm -> exists i, ws_contracts s !! a = Some i /\ run = (Ok (info_of i), w))
  /\ (is_ok run.1 = true -> ws_contract_code s !! a = Some wasm \/ collision).
Proof.
  intros s run [Hcode Hhash _] Hproj Ha. unfold run. rewrite (verify_run env _ _ _ _ _ _ Hproj Ha). fold s. split.
  - intros Hc. destruct (ws_contracts s !! a) as [i|] eqn:Hi.
    + exists i. split; [done |]. by rewrite (Hhash _ _ _ Hi Hc), String.eqb_refl.
    + assert (is_Some (ws_contracts s !! a)) as [? Hs] by (apply Hcode; eauto). by rewrite Hi in Hs.
  - destruct (ws_contracts s !! a) as [i|] eqn:Hi; [| done]. destruct (String.eqb_spec (hex_encode (blake3 wasm)) (hex_encode (ci_code_hash i))) as [E|]; [| done].
    intros _. apply hex_encode_inj in E.
    assert (is_Some (ws_contract_code s !! a)) as [code Hc] by (apply Hcode; eauto).
    rewrite (Hhash _ _ _ Hi Hc) in E. destruct (decide (wasm = code)) as [-> |]; [by left | right; by exists wasm, code].
Qed.

(** What is disassembled is the code that the node stores. *)
Theorem disassembles_stored_code env files print_bytes a code output w :
  length a = 32%nat -> path_exists files ("0x" +:+ hex_encode a) = false ->
  ws_contract_code (ch_state (rp_chain w.2)) !! a = Some code ->
  cmd_disassemble (node_server env) files print_bytes ("0x" +:+ hex_encode a) output w
  = (match print_bytes code with
     | Ok wat => Ok (wat, match output with Some path => [WriteFile path wat] | None => [] end)
     | Err e => Err ["failed to disassemble Wasm to WAT"; e]%string
     end, w).
Proof.
  intros Ha Hf Hc. unfold cmd_disassemble. rewrite Hf, strip_0x_hex.
  erewrite bind_run by (unfold with_context; rewrite tool_asks_code, Hc by done; reflexivity). cbn iota.
  unfold try_. rewrite bind_map_err. by destruct (print_bytes code).
Qed.
End served.

(** ** A new project *)
Lemma lines_line l rest : forall cur, x0a ∉ l -> lines_from cur (l ++ x0a :: rest) = strip_cr (cur ++ l) :: lines_from [] rest.
Proof.
  induction l as [| b l IH]; intros cur Hl.
  - cbn [app lines_from]. rewrite bool_decide_eq_true_2 by done. by rewrite app_nil_r.
  - apply not_elem_of_cons in Hl as [Hb Hl]. cbn [app lines_from]. rewrite bool_decide_eq_false_2 by done.
    rewrite IH by done. by rewrite <- app_assoc.
Qed.

(** A space in front of a text that begins and ends with solid bytes. *)
Lemma trim_space b s c : solid b = true -> solid c = true -> last (b :: s) = Some c -> trim (x20 :: b :: s) = b :: s.
Proof.
  intros Hb Hc Hl. unfold trim.
  assert (trim_start_with white_spaces (length (x20 :: b :: s)) (x20 :: b :: s) = b :: s) as ->; [| by apply (trim_end_none _ c)].
  change (length (x20 :: b :: s)) with (S (S (length s))). remember (S (length s)) as fuel. cbn [trim_start_with].
  assert (List.find (fun w => prefix_of w (x20 :: b :: s)) white_spaces = Some [x20]) as -> by reflexivity.
  change (drop (length [x20]) (x20 :: b :: s)) with (b :: s). apply trim_start_none. by apply andb_prop in Hb as [? _].
Qed.

(** Quotes around a text that has none are taken off. *)
Lemma trim_quotes_around s : s <> [] -> x22 ∉ s -> trim_quotes (x22 :: s ++ [x22]) = s.
Proof.
  intros Hne Hq. destruct s as [| b s]; [done |].
  assert (forall b, b <> x22 -> begins_none [[x22]] b = true) as Hnone.
  { intros c Hc. unfold begins_none. cbn [forallb]. by rewrite bool_decide_eq_false_2 by congruence. }
  pose proof Hq as [Hb _]%not_elem_of_cons. unfold trim_quotes. cbn [length trim_start_with].
  assert (forall t, List.find (fun w => prefix_of w (x22 :: t)) [[x22]] = Some [x22]) as Hfind by done.
  rewrite Hfind. cbn [length]. change (drop 1 (x22 :: (b :: s) ++ [x22])) with (b :: s ++ [x22]).
  rewrite trim_start_none by (apply Hnone; congruence).
  change (b :: s ++ [x22]) with ((b :: s) ++ [x22]). rewrite reverse_snoc, length_app, Nat.add_1_r. cbn [trim_start_with].
  rewrite Hfind. change (drop (length [x22]) (x22 :: reverse (b :: s))) with (reverse (b :: s)).
  destruct (exists_last (l := b :: s)) as (l & c & E); [done |]. rewrite E in *. rewrite reverse_snoc.
  rewrite trim_start_none; [by rewrite reverse_cons, reverse_involutive |]. apply Hnone. intros ->. apply Hq.
  apply elem_of_app. right. by left.
Qed.

Lemma named_line nm : nm <> [] -> x22 ∉ nm -> name_of_line (lit "name = " ++ x22 :: nm ++ [x22]) = Some (string_of_bytes nm).
Proof.
  intros Hne Hq. unfold name_of_line.
  assert (forall t, last (t ++ [x22]) = Some x22) as Hlast by (intros t; apply last_snoc).
  change (lit "name = " ++ x22 :: nm ++ [x22]) with (x6e :: (lit "ame = " ++ x22 :: nm) ++ [x22]).
  rewrite (trim_between x6e _ x22) by (done || apply (Hlast (x6e :: _))).
  change (strip_prefix (lit "name") _) with (Some (x20 :: x3d :: x20 :: (x22 :: nm) ++ [x22])). cbn [mbind option_bind].
  rewrite (trim_space x3d _ x22) by (done || apply (Hlast (x3d :: x20 :: x22 :: nm))).
  change (strip_prefix [x3d] _) with (Some (x20 :: x22 :: nm ++ [x22])). cbn [mbind option_bind].
  rewrite (trim_space x22 _ x22) by (done || apply (Hlast (x22 :: nm))). rewrite trim_quotes_around by done.
  by rewrite bool_decide_eq_false_2.
Qed.

Lemma byte_in_split b s : b ∈ s -> is_Some (split_once [b] s).
Proof.
  induction s as [| c s IH]; [by intros ?%not_elem_of_nil |]. intros Hin. cbn [split_once].
  destruct (prefix_of [b] (c :: s)) eqn:Hp; [by eexists |].
  apply elem_of_cons in Hin as [<- | Hin]; [| destruct (IH Hin) as [x ->]; by eexists].
  unfold prefix_of in Hp. simpl in Hp. by rewrite bool_decide_eq_true_2 in Hp.
Qed.

(** A new project has the name it was asked for: what the tool writes into its
    [Cargo.toml] is what it reads back from there when it builds or verifies the
    project. *)
Theorem new_project_named debug files parent name effects :
  create_contract_project debug files parent name = Ok effects -> has_byte x22 name = false ->
  exists toml, WriteFile (path_join (path_join parent name) "Cargo.toml") toml ∈ effects
    /\ extract_package_name toml = Some name.
Proof.
  intros Hrun Hq. unfold create_contract_project in Hrun.
  destruct (validate_name debug name) as [[]|e] eqn:Hval; [| done].
  destruct (path_exists files _); [done |]. injection Hrun as <-.
  exists (cargo_toml_content name). split; [right; left |].
  unfold validate_name in Hval. destruct (N.eqb_spec (slen name) 0) as [|Hne]; [done |].
  destruct (existsb _ white_spaces) eqn:Hws; [done |].
  assert (x0a ∉ as_bytes name) as Hnl.
  { intros Hin. apply byte_in_split in Hin. apply not_true_iff_false in Hws. apply Hws. apply existsb_exists. exists [x0a].
    split; [by right; left |]. by apply bool_decide_eq_true_2. }
  assert (x22 ∉ as_bytes name) as Hnq.
  { intros Hin. apply not_true_iff_false in Hq. apply Hq. apply existsb_exists. exists x22. split; [by apply list_elem_of_In |].
    by apply bool_decide_eq_true_2. }
  assert (exists rest, as_bytes (cargo_toml_content name)
    = lit "[package]" ++ x0a :: (lit "name = " ++ x22 :: as_bytes name ++ [x22]) ++ x0a :: rest) as [rest Hrest].
  { unfold cargo_toml_content. unfold lines_text. cbn [foldr]. unfold quoted. rewrite !as_bytes_app. eexists. reflexivity. }
  unfold extract_package_name, lines. rewrite Hrest, lines_line by (intros Hin%list_elem_of_In; vm_compute in Hin; intuition discriminate).
  rewrite lines_line.
  2: { rewrite !elem_of_app. intros [Hin|Hin]; [apply list_elem_of_In in Hin; vm_compute in Hin; intuition discriminate |].
       apply elem_of_cons in Hin as [? | [Hin | Hin]%elem_of_app]; [done | done | by apply elem_of_cons in Hin as [?|?%not_elem_of_nil]]. }
  cbn [first_name]. change (name_of_line (strip_cr ([] ++ lit "[package]"))) with (@None string). cbv iota.
  assert (strip_cr ([] ++ lit "name = " ++ x22 :: as_bytes name ++ [x22]) = lit "name = " ++ x22 :: as_bytes name ++ [x22]) as ->.
  { unfold strip_cr. cbn [app]. rewrite app_comm_cons, app_assoc, last_snoc. by rewrite bool_decide_eq_false_2. }
  rewrite named_line; [unfold string_of_bytes, as_bytes; by rewrite String.string_of_list_byte_of_string | | done].
  intros Hnil. apply Hne. by destruct name.
Qed.

(** A trailing comment becomes part of the name, and so of the path of the Wasm
    file that is looked for. *)
Example comment_is_in_the_name : extract_package_name ("name = " +:+ quoted "token" +:+ " # mine")%string
  = Some ("token" +:+ quote +:+ " # mine")%string.
Proof. vm_compute. reflexivity. Qed.

(** A project's name may be a path: the project is then made elsewhere. *)
Example project_elsewhere :
  create_contract_project id (mkFiles (fun _ => false) (fun _ => Err "no such file"%string)) "work" "/tmp/x"
  = Ok [CreateDirAll "/tmp/x/src"; WriteFile "/tmp/x/Cargo.toml" (cargo_toml_content "/tmp/x");
        WriteFile "/tmp/x/src/lib.rs" lib_rs_content; WriteFile "/tmp/x/README.md" (readme_content "/tmp/x")]%string.
Proof. reflexivity. Qed.

(** ** Witnesses *)

Section witnesses.
#[local] Existing Instance toy_blake3.
#[local] Existing Instance toy_ed25519.
#[local] Existing Instance toy_ed25519_laws.
#[local] Existing Instance wire_codec.
#[local] Existing Instance toy_redb.
#[local] Existing Instance toy_store_codec.
#[local] Existing Instance plain_hex.
#[local] Existing Instance plain_hex_decode.
#[local] Existing Instance plain_hex_laws.
#[local] Existing Instance toy_vm.
#[local] Existing Instance toy_schedule.
#[local] Existing Instance toy_codec.
#[local] Existing Instance toy_node_codec.
#[local] Existing Instance toy_key_errors.
#[local] Existing Instance toy_memory.
#[local] Existing Instance toy_rpc_codec.
#[local] Existing Instance toy_machine.
#[local] Existing Instance toy_json_text.

(** A project, its build and a compiled contract. *)
Definition toy_wasm : bytes := x00 :: lit "asm".
Definition toy_path : string := path_join "token" (wasm_path_of "my-token").
Definition toy_files : Files := mkFiles
  (fun p => bool_decide (p ∈ ["token/Cargo.toml"; toy_path]%string))
  (fun p => if String.eqb p "token/Cargo.toml" then Ok (as_bytes (cargo_toml_content "my-token"))
            else if String.eqb p toy_path then Ok toy_wasm else Err "No such file or directory"%string).
Definition toy_build : string -> Files -> result bool string * Files := fun _ files => (Ok true, files).
Definition toy_key_hex : string := hex_encode (toy_addr 11).

Lemma tool_never_confirms_witness :
  exists e u', cmd_deploy (node_server (toy_env 5)) toy_files toy_path "" "0x" toy_key_hex toy_served = (Err e, u').
Proof.
  destruct (tool_never_confirms (Peer:=N) (Channel:=unit) (Ip:=N) (node_server (toy_env 5)) toy_files toy_path "" "" "0x" 0
    toy_key_hex toy_served) as [H _]; [apply node_server_like | exact H].
Defined.

Lemma tool_deploy_arrives_witness :
  exists e w', cmd_deploy (node_server (toy_env 5)) toy_files toy_path "init" "0x0102" toy_key_hex toy_served = (Err e, w')
  /\ length (ch_mempool (rp_chain w'.2)) = 1%nat.
Proof.
  destruct (tool_deploy_arrives (toy_env 5) toy_files toy_path "init" "0x0102" toy_key_hex toy_wasm [x01; x02] (toy_addr 11)
    toy_served) as [H _]; [vm_compute; reflexivity .. | |].
  - split; [vm_compute; reflexivity | split; [vm_compute; reflexivity |]].
    intros m Hm. exact (False_ind _ (not_elem_of_nil m Hm)).
  - eexists. eexists. split; [exact H |]. vm_compute. reflexivity.
Defined.

Definition toy_deployment : SignedTransaction :=
  build_and_sign_transaction ContractTool.ContractDeploy (toy_addr 11) 1 (encode_contract_deploy_payload toy_wasm "" []).
Definition toy_state : WorldState := ch_state (rp_chain toy_server).


(** A node whose ledger has the contract of that code. *)
Definition toy_with_contract : list (P2pCommand N unit) * RpcState (Ip:=N) :=
  ([], mkRpcState ((toy_node 5 ∅ [] ∅) <| ch_state := toy_upgradable |>) ∅ ∅).

Lemma verify_tells_the_truth_witness :
  exists i, ws_contracts toy_upgradable !! toy_contract = Some i
  /\ cmd_verify (node_server (toy_env 5)) toy_files toy_build ("0x" +:+ hex_encode toy_contract) "token" toy_with_contract
     = (Ok (info_of i), toy_with_contract).
Proof.
  apply (proj1 (verify_tells_the_truth (toy_env 5) toy_files toy_build "token" toy_wasm toy_contract toy_with_contract
    toy_upgradable_ok ltac:(eexists _, _, _; split_and!; vm_compute; reflexivity) ltac:(vm_compute; reflexivity))).
  vm_compute. reflexivity.
Defined.
End witnesses.
