(* ===== verification/CommandLine.v ===== *)
(** * The whole command line ([main] of [node/src/main.rs])

    The dispatch of the commands, and what any of them can do: to the node it talks
    to, and to the key in the data directory. *)

From stdpp Require Import pretty.
From S2P Require Import Prelude Interfaces Types Concrete Crypto ConsensusTypes Slashing ValidatorSet Utf8 Version Vm Host Engine World ConcreteState HandlerBase ConcreteTx Tokens Contracts Store ApplyTx Rewards Epochs Node Chain ConcreteNode BlockLedger Genesis Sync Network Json Config ConcreteFiles Queries NodeSteps RpcServer Cli Startup Launch ConcreteVm RpcSafety CliCorrect.
Notation length := List.length.

(** ** The commands *)

Inductive Commands : Type :=
  | CmdInit (network : Network)
  | CmdStart (args : StartArgs)
  | CmdStatus
  | CmdKey (action : KeyAction)
  | CmdEncryptKey
  | CmdGenesis (network : Network)
  | CmdTransfer (to amount : string)
  | CmdStake (amount : string) (validator_key : option string) (commission : N)
  | CmdUnstake (amount : string) (validator_key : option string)
  | CmdClaimStake
  | CmdChangeDelegation (validator_key new_owner : string) (commission : N)
  | CmdRegisterAgent (name : string) (metadata : list string)
  | CmdTransferToken (token_id to amount : string)
  | CmdCreateToken (name symbol : string) (decimals : N) (initial_supply : string)
  | CmdApproveToken (token_id spender amount : string)
  | CmdBurnToken (token_id amount : string)
  | CmdDeployContract (wasm_file init_method init_args : string)
  | CmdCallContract (address method args value : string)
  | CmdRegisterService (service_type endpoint price description : string)
  | CmdContract (action : ContractAction)
  | CmdRegisterMiner (name : string)
  | CmdMinerHeartbeat
  | CmdMinerCheckin.

(** How a command ends: a node that was started, an error, or what it printed (the
    essential values) and the data directory it leaves. *)
Inductive Outcome : Type :=
  | Stopped (o : string)
  | Printed (lines : list string) (dir : DataDir)
  | PrintedGenesis (config : GenesisConfig).

Section main.
Context `{HB : Blake3} `{HE : Ed25519} `{TC : TxCodec} `{HX : Hex} `{HD : HexDecode} `{JT : JsonText} `{KC : KeyCipher}.
Context `{TM : Toml} `{GJ : GenesisJson} `{SCd : StateCodec} `{RD : Redb} `{SC : StoreCodec} `{NC : NodeCodec}.
Context `{CW : Borsh MinerCheckinWitness}.
Context {Peer Addr : Type} `{Countable Peer}.
Context (parse_multiaddr : string -> option Addr) (multiaddr_iter : Addr -> list (Protocol Peer)) (peer_to_string : Peer -> string).
Context {W : Type} (server : RpcRequest -> ST W string RpcResponse) (read_file : string -> result bytes string).
Implicit Types (dir : DataDir) (w : W).

(** A computation with the server, and what is printed of its result. *)
Definition finish {A} (show : A -> list string) dir (m : ST W string A) : W -> Outcome * W := fun w =>
  match m w with
  | (Ok a, w) => (Printed (show a) dir, w)
  | (Err e, w) => (Stopped e, w)
  end.

Definition show_one (s : string) : list string := [s].
Definition show_optional (o : option string) : list string := match o with Some s => [s] | None => [] end.
Definition show_heartbeat (r : N * string) : list string := [pretty r.1; r.2].
Definition show_checkin (r : N * N * Json) : list string := [pretty r.1.1; pretty r.1.2; json_to_string r.2].

(** The commands that talk to a node; the others leave it alone. *)
Definition run_client (password : option string) (c : Commands) dir : W -> Outcome * W :=
  let tx := finish show_one dir in
  match c with
  | CmdTransfer to amount => tx (handle_transfer_cli server dir password to amount)
  | CmdStake amount vk commission => tx (handle_stake_cli server dir password amount vk commission)
  | CmdUnstake amount vk => tx (handle_unstake_cli server dir password amount vk)
  | CmdClaimStake => finish show_optional dir (handle_claim_stake_cli server dir password)
  | CmdChangeDelegation vk owner commission => tx (handle_change_delegation_cli server dir password vk owner commission)
  | CmdRegisterAgent name metadata => tx (handle_register_agent_cli server dir password name metadata)
  | CmdTransferToken id to amount => tx (handle_transfer_token_cli server dir password id to amount)
  | CmdCreateToken name symbol decimals supply => tx (handle_create_token_cli server dir password name symbol decimals supply)
  | CmdApproveToken id spender amount => tx (handle_approve_token_cli server dir password id spender amount)
  | CmdBurnToken id amount => tx (handle_burn_token_cli server dir password id amount)
  | CmdDeployContract file method args => tx (handle_deploy_contract_cli server dir password file (read_file file) method args)
  | CmdCallContract address method args value => tx (handle_call_contract_cli server dir password address method args value)
  | CmdRegisterService t endpoint price description =>
      tx (handle_register_service_cli server dir password t endpoint price description)
  | CmdContract action => tx (handle_contract_cli server action)
  | CmdRegisterMiner name => tx (handle_register_miner_cli server dir password name)
  | CmdMinerHeartbeat => finish show_heartbeat dir (handle_miner_heartbeat_cli server dir password)
  | CmdMinerCheckin => finish show_checkin dir (handle_miner_checkin_cli server dir)
  | _ => fun w => (Printed [] dir, w)
  end.

Definition printed (r : result (list string * DataDir) string) : Outcome :=
  match r with Ok (l, dir) => Printed l dir | Err e => Stopped e end.

(** [inl]: a node that was started, or was not; [inr]: any other command. *)
Definition main (fuel : nat) (wo : Outside) (c : Commands) dir : W -> (StartOutcome + Outcome) * W := fun w =>
  let password := read_password_env (wo_password wo) in
  match c with
  | CmdStart args => (inl (start parse_multiaddr multiaddr_iter peer_to_string fuel wo args dir), w)
  | CmdInit network => (inr (printed (let? r := init_command wo network dir in Ok ([hex_encode r.1], r.2))), w)
  | CmdStatus => (inr (Printed ["claw-node status: use RPC at http://localhost:9710"%string] dir), w)
  | CmdKey action => (inr (printed (let? r := key_command wo action dir in Ok ([r.1], r.2))), w)
  | CmdEncryptKey =>
      (inr (printed (let? r := encrypt_existing_key (wo_random wo) password dir in Ok ([hex_encode r.1], r.2))), w)
  | CmdGenesis network => (inr (PrintedGenesis (genesis_command wo network dir)), w)
  | _ => let '(o, w) := run_client password c dir w in (inr o, w)
  end.

(** The data directory that a command leaves, when it held a key before. *)
Definition dir_after (o : StartOutcome (Addr:=Addr) + Outcome) dir : DataDir :=
  match o with
  | inl (Running l) => la_dir l
  | inr (Printed _ dir) => dir
  | _ => dir
  end.
End main.

(** ** What a command can do to a node *)

Section effects.
Context `{HB : Blake3} `{HE : Ed25519} `{TC : TxCodec} `{HX : Hex} `{HD : HexDecode} `{JT : JsonText} `{KC : KeyCipher}.
Context `{TM : Toml} `{GJ : GenesisJson} `{SCd : StateCodec} `{RD : Redb} `{SC : StoreCodec} `{NC : NodeCodec}.
Context `{VM : VmEngine} `{VS : VmSchedule} `{KE : KeyErrors} `{WM : Wasmer} `{RC : RpcCodec}.
Context {Peer Addr Channel Ip : Type} `{Countable Peer} `{Countable Ip}.
Context (env : RpcEnv (Ip:=Ip)) (dir : DataDir) (password : option string).

Abbreviation served := (list (P2pCommand Peer Channel) * RpcState (Ip:=Ip))%type.
Abbreviation server := (node_server (Peer:=Peer) (Channel:=Channel) env).
Implicit Types (w : served).

(** A computation that leaves the node alone, and one that submits at most one thing. *)
Definition reads {A} (m : ST served string A) : Prop := forall w, rp_chain (m w).2.2 = rp_chain w.2.
Definition submits {A} (m : ST served string A) : Prop := forall w, queued (rp_chain w.2) (rp_chain (m w).2.2).

Lemma reads_submits {A} (m : ST served string A) : reads m -> submits m.
Proof. intros Hm w. rewrite Hm. constructor. Qed.

Lemma reads_lift {A} (r : result A string) : reads (lift r).
Proof. intros w. by destruct r. Qed.
Lemma reads_ret {A} (a : A) : reads (mret a).
Proof. by intros w. Qed.
Lemma reads_fail_if b e : reads (fail_if b e).
Proof. by intros w. Qed.

Lemma reads_bind {A B} (m : ST served string A) (f : A -> ST served string B) :
  reads m -> (forall a, reads (f a)) -> reads (m ≫= f).
Proof.
  intros Hm Hf w. specialize (Hm w). unfold mbind, ST_bind. destruct (m w) as [[a|e] w']; cbn [snd] in *; [| done].
  by rewrite Hf.
Qed.

(** The submission comes last, or only prints follow. *)
Lemma submits_bind {A B} (m : ST served string A) (f : A -> ST served string B) :
  reads m -> (forall a, submits (f a)) -> submits (m ≫= f).
Proof.
  intros Hm Hf w. specialize (Hm w). unfold mbind, ST_bind. destruct (m w) as [[a|e] w']; cbn [snd] in *; rewrite <- Hm; [apply Hf | constructor].
Qed.
Lemma submits_then {A B} (m : ST served string A) (f : A -> ST served string B) :
  submits m -> (forall a, reads (f a)) -> submits (m ≫= f).
Proof.
  intros Hm Hf w. specialize (Hm w). unfold mbind, ST_bind. destruct (m w) as [[a|e] w']; cbn [snd] in *; [by rewrite Hf | done].
Qed.

Lemma call_submits method params : submits (rpc_call server method params).
Proof.
  intros w. unfold rpc_call, node_server, handle_rpc, mbind, ST_bind. cbn [rq_jsonrpc rq_method rq_params rq_id].
  change (negb (String.eqb "2.0" "2.0")) with false. cbv iota.
  destruct (dispatch_rpc env method (JArr params) w.2) as [[o cmds] st] eqn:Hd. apply dispatch_chain in Hd as [Hq _].
  by destruct o as [[v|msg]|code msg].
Qed.

Lemma call_reads method params : method ∉ acting -> reads (rpc_call server method params).
Proof.
  intros Hm w. unfold rpc_call, node_server, handle_rpc, mbind, ST_bind. cbn [rq_jsonrpc rq_method rq_params rq_id].
  change (negb (String.eqb "2.0" "2.0")) with false. cbv iota.
  destruct (dispatch_rpc env method (JArr params) w.2) as [[o cmds] st] eqn:Hd. apply dispatch_chain in Hd as [_ Hr].
  destruct (Hr Hm) as [Heq _]. by destruct o as [[v|msg]|code msg].
Qed.

Lemma tx_submits t payload : submits (Cli.submit_tx server dir password t payload).
Proof.
  unfold Cli.submit_tx. apply submits_bind; [apply reads_lift | intros cfg].
  apply submits_bind; [apply call_reads; intros Hin%list_elem_of_In; vm_compute in Hin; intuition discriminate | intros v].
  apply submits_then; [apply call_submits | intros ?; apply reads_ret].
Qed.

Ltac reading := first
  [ solve [auto] | apply reads_lift | apply reads_ret | apply reads_fail_if
  | apply call_reads; intros Hin%list_elem_of_In; vm_compute in Hin; intuition discriminate
  | apply reads_bind; [reading | intros ?; reading]
  | match goal with |- reads (match ?x with _ => _ end) => destruct x; reading end ].
Ltac submitting := first
  [ apply tx_submits
  | match goal with |- submits (match ?x with _ => _ end) => destruct x; submitting end
  | apply submits_bind; [reading | intros ?; submitting]
  | apply submits_then; [submitting | intros ?; reading]
  | apply call_submits
  | apply reads_submits; reading ].

Lemma funds_reads raw amount : reads (check_funds server dir password raw amount).
Proof. unfold check_funds. cbv zeta. reading. Qed.

Lemma commission_reads c : reads (commission_in_range (W:=served) c).
Proof. apply reads_fail_if. Qed.

Hint Resolve funds_reads commission_reads : core.

Lemma client_submits {A} (m : ST served string A) show w :
  submits m -> queued (rp_chain w.2) (rp_chain (finish show dir m w).2.2).
Proof. intros Hm. specialize (Hm w). unfold finish. by destruct (m w) as [[a|e] w']. Qed.

Lemma run_client_submits read_file c w : queued (rp_chain w.2) (rp_chain (run_client server read_file password c dir w).2.2).
Proof.
  destruct c; cbn [run_client]; try constructor; apply client_submits.
  - unfold handle_transfer_cli. submitting.
  - unfold handle_stake_cli. submitting.
  - unfold handle_unstake_cli. submitting.
  - unfold handle_claim_stake_cli. submitting.
  - unfold handle_change_delegation_cli. submitting.
  - unfold handle_register_agent_cli. submitting.
  - unfold handle_transfer_token_cli. submitting.
  - unfold handle_create_token_cli. submitting.
  - unfold handle_approve_token_cli. submitting.
  - unfold handle_burn_token_cli. submitting.
  - unfold handle_deploy_contract_cli. submitting.
  - unfold handle_call_contract_cli. submitting.
  - unfold handle_register_service_cli. submitting.
  - unfold handle_contract_cli. submitting.
  - unfold handle_register_miner_cli. submitting.
  - unfold handle_miner_heartbeat_cli. submitting.
  - unfold handle_miner_checkin_cli. submitting.
Qed.
End effects.

(** ** What a command can do to the key *)

Section keys.
Context `{HB : Blake3} `{HE : Ed25519} `{TC : TxCodec} `{HX : Hex} `{HD : HexDecode} `{!HexLaws} `{JT : JsonText} `{KC : KeyCipher}.
Context `{!KeyFileLaws} `{TM : Toml} `{GJ : GenesisJson} `{SCd : StateCodec} `{RD : Redb} `{SC : StoreCodec} `{NC : NodeCodec}.
Context `{VM : VmEngine} `{VS : VmSchedule} `{KE : KeyErrors} `{WM : Wasmer} `{RC : RpcCodec}.
Context {Peer Addr Channel Ip : Type} `{Countable Peer} `{Countable Ip}.
Context (parse_multiaddr : string -> option Addr) (multiaddr_iter : Addr -> list (Protocol Peer)) (peer_to_string : Peer -> string).
Implicit Types (dir : DataDir) (wo : Outside) (c : Commands).

Abbreviation served := (list (P2pCommand Peer Channel) * RpcState (Ip:=Ip))%type.
Abbreviation main_on env := (main parse_multiaddr multiaddr_iter peer_to_string (node_server (Peer:=Peer) (Channel:=Channel) env)).

(** A key that is there is loaded from a file that is there. *)
Lemma loads_file password dir cfg : load_config password dir = Ok cfg -> is_Some (dd_key_json dir).
Proof. unfold load_config, read_key_json. destruct (dd_key_json dir); [by eexists | done]. Qed.

Lemma init_keeps rng sk password cid dir cfg r :
  load_config password dir = Ok cfg -> init_node rng sk password cid dir = Ok r -> load_config password r.2 = Ok cfg.
Proof.
  intros Hload. unfold init_node. destruct (loads_file _ _ _ Hload) as [text ->]. rewrite Hload.
  intros [= <-]. cbn [snd]. by rewrite load_ignores_config.
Qed.

(** A plain key needs no password. *)
Lemma plain_any_password p q dir v cfg :
  read_key_json dir = Ok v -> is_encrypted v = false -> load_config p dir = Ok cfg -> load_config q dir = Ok cfg.
Proof. intros Hv He. unfold load_config. by rewrite Hv, He. Qed.

Lemma encrypt_keeps rng password dir cfg r :
  length (kr_salt rng) = 32%nat -> length (kr_nonce rng) = 12%nat ->
  load_config password dir = Ok cfg -> encrypt_existing_key rng password dir = Ok r -> load_config password r.2 = Ok cfg.
Proof.
  intros Hsalt Hnonce Hload Hrun. destruct (read_key_json dir) as [v|] eqn:Hv; [| unfold encrypt_existing_key in Hrun; by rewrite Hv in Hrun].
  destruct (is_encrypted v) eqn:He; [unfold encrypt_existing_key in Hrun; by rewrite Hv, He in Hrun |].
  destruct password as [pw|]; [| unfold encrypt_existing_key in Hrun; by rewrite Hv, He in Hrun].
  destruct (encrypt_keeps_key rng pw dir v cfg Hv He (plain_any_password _ _ _ _ _ Hv He Hload) Hsalt Hnonce)
    as (dir' & Henc & Hload' & _). rewrite Hrun in Henc. by injection Henc as ->.
Qed.

Lemma start_keeps fuel wo args dir cfg l :
  load_config (read_password_env (wo_password wo)) dir = Ok cfg ->
  start parse_multiaddr multiaddr_iter peer_to_string fuel wo args dir = Running l ->
  load_config (read_password_env (wo_password wo)) (la_dir l) = Ok cfg.
Proof.
  intros Hload Hrun. apply start_Running in Hrun as (manifest & dir' & cfg' & genesis_cfg & inner & _ & Hkey & Hl & _ & _ & ->).
  unfold ensure_key in Hkey. destruct (loads_file _ _ _ Hload) as [text Htext]. rewrite Htext in Hkey. injection Hkey as <-.
  unfold launch. by destruct (_ || _).
Qed.

(** C39. No command loses the key, and none but an import replaces it: when the key in
    the data directory can be loaded, then after any other command, whether it
    started a node, initialised, encrypted the key or talked to a node, the same key
    can be loaded with the same password. *)
Theorem commands_keep_key env read_file fuel wo c dir cfg (w : served) :
  let password := read_password_env (wo_password wo) in
  length (kr_salt (wo_random wo)) = 32%nat -> length (kr_nonce (wo_random wo)) = 12%nat ->
  (forall hex, c <> CmdKey (KeyImport hex)) ->
  load_config password dir = Ok cfg ->
  load_config password (dir_after (main_on env read_file fuel wo c dir w).1 dir) = Ok cfg.
Proof.
  intros password Hsalt Hnonce Himp Hload. destruct c as [n | args | | action | | n | | | | | | | | | | | | | | | | |]; cbn [main];
    try (match goal with |- context [run_client ?s ?rf ?p ?cmd ?d ?w0] => destruct (run_client s rf p cmd d w0) as [o w'] eqn:Ho end;
         cbn [fst dir_after]; cbn [run_client finish] in Ho; unfold finish in Ho;
         match type of Ho with match ?m with _ => _ end = _ => destruct m as [[a|e] w1] end; injection Ho as <- _; exact Hload).
  - unfold init_command. destruct (init_node _ _ _ _ dir) as [r|] eqn:Hr; cbn [printed fst dir_after]; [by eapply init_keeps | done].
  - cbn [fst dir_after]. destruct (start _ _ _ _ _ _ _) as [| | | l] eqn:Hs; try done. by eapply start_keeps.
  - done.
  - unfold key_command. fold password. destruct action as [| | hex |]; [| | by destruct (Himp hex) |].
    + destruct (init_node _ _ _ _ dir) as [r|] eqn:Hr; cbn [printed fst snd dir_after]; [by eapply init_keeps | done].
    + by rewrite Hload.
    + unfold export_key. by rewrite Hload.
  - destruct (encrypt_existing_key _ _ dir) as [r|] eqn:Hr; cbn [printed fst snd dir_after]; [by eapply encrypt_keeps | done].
  - done.
Qed.

(** No command touches the ledger of the node it talks to: whatever is run, with
    whatever arguments, files and answers, the node keeps its state, store, blocks,
    votes and validators, and what changes is at most one signed transaction added
    to its pool or one valid check-in added to its cache. *)
Theorem command_submits_at_most_one env read_file fuel wo c dir (w : served) :
  queued (rp_chain w.2) (rp_chain (main_on env read_file fuel wo c dir w).2.2).
Proof.
  pose proof (run_client_submits env dir (read_password_env (wo_password wo)) read_file c w) as Hq.
  unfold main. cbv zeta. destruct c; cbn [fst snd]; try constructor;
    destruct (run_client _ _ _ _ dir w) as [o w']; exact Hq.
Qed.
End keys.

(** ** Witness *)

Section witnesses.
#[local] Existing Instance toy_blake3.
#[local] Existing Instance toy_ed25519.
#[local] Existing Instance toy_tx_codec.
#[local] Existing Instance plain_hex.
#[local] Existing Instance plain_hex_decode.
#[local] Existing Instance plain_hex_laws.
#[local] Existing Instance toy_json_text.
#[local] Existing Instance toy_cipher.
#[local] Existing Instance toy_key_file_laws.
#[local] Existing Instance toy_redb.
#[local] Existing Instance boot_store_codec.
#[local] Existing Instance boot_codec.
#[local] Existing Instance toy_codec.
#[local] Existing Instance toy_vm.
#[local] Existing Instance toy_schedule.
#[local] Existing Instance toy_key_errors.
#[local] Existing Instance toy_memory.
#[local] Existing Instance toy_rpc_codec.
#[local] Existing Instance toy_machine.
#[local] Existing Instance toy_toml.
#[local] Existing Instance toy_genesis_json.

Definition toy_protected : Outside :=
  mkOutside "1.0.0" None (Some "secret"%string) toy_random (toy_addr 12) toy_clock None empty_db (Ok tt) (Ok empty_db) true.
Definition toy_main (c : Commands) (dir : DataDir) :=
  main (Peer:=N) (Addr:=unit) (fun _ => None) (fun _ => []) (fun _ => ""%string)
    (node_server (Peer:=N) (Channel:=unit) (toy_env 5)) (fun _ => Err "no file"%string) 1 toy_protected c dir ([], toy_server).

(** A plain key that is encrypted, and then an [init]. *)
Lemma commands_keep_key_witness :
  let dir := dir_after (toy_main CmdEncryptKey plain_dir).1 plain_dir in
  dir <> plain_dir
  /\ load_config (Some "secret"%string) dir = Ok (mkNodeConfig (toy_addr 11) (toy_addr 11))
  /\ load_config (Some "secret"%string) (dir_after (toy_main (CmdInit Testnet) dir).1 dir) = Ok (mkNodeConfig (toy_addr 11) (toy_addr 11)).
Proof.
  intros dir.
  assert (forall c d, (forall hex, c <> CmdKey (KeyImport hex)) ->
    load_config (Some "secret"%string) d = Ok (mkNodeConfig (toy_addr 11) (toy_addr 11)) ->
    load_config (Some "secret"%string) (dir_after (toy_main c d).1 d) = Ok (mkNodeConfig (toy_addr 11) (toy_addr 11))) as Hkeep.
  { intros c d Hc Hd. apply (commands_keep_key (fun _ => None) (fun _ => []) (fun _ => ""%string) (toy_env 5)
      (fun _ => Err "no file"%string) 1 toy_protected c d _ ([], toy_server)); [vm_compute; reflexivity .. | exact Hc | exact Hd]. }
  assert (load_config (Some "secret"%string) dir = Ok (mkNodeConfig (toy_addr 11) (toy_addr 11))) as Hdir
    by (apply Hkeep; [intros hex; discriminate | vm_compute; reflexivity]).
  split; [| split; [exact Hdir | apply Hkeep; [intros hex; discriminate | exact Hdir]]].
  intros E. apply (f_equal (fun d => bool_decide (dd_key_json d = dd_key_json plain_dir))) in E. vm_compute in E. discriminate E.
Defined.
End witnesses.
