(* ===== verification/SdkCorrect.v ===== *)
(** * The SDK on the host functions

    What each wrapper of the SDK does when the host functions run it: the
    encodings of amounts and buffers round-trip, storage reads what was written;
    and what the two sides do not agree on. *)

From S2P Require Import Prelude Interfaces Types Utf8 Vm Host Engine Sdk World Contracts HostSafety.

(** ** Numbers across the interface *)
Lemma as_u64_as_i64 n : as_u64 (as_i64 n) = n mod TWO64.
Proof.
  unfold as_u64, as_i64. pose proof (N.mod_lt n TWO64 ltac:(done)) as Hm. set (m := n mod TWO64) in *.
  change TWO64 with 18446744073709551616 in *. clearbody m. destruct (m <? 2 ^ 63).
  - rewrite Z.mod_small by lia. lia.
  - replace (Z.of_N m - 2 ^ 64)%Z with (Z.of_N m + (-1) * 2 ^ 64)%Z by lia. rewrite Z.mod_add by lia.
    rewrite Z.mod_small by lia. lia.
Qed.

Lemma low64_mod x : low64 x = x mod TWO64.
Proof. unfold low64. change 18446744073709551615 with (N.ones 64). by rewrite N.land_ones. Qed.

(** An amount passed in two halves is the amount. *)
Lemma halves x : x < TWO128 -> N.lor (N.shiftl (N.shiftr x 64) 64) (x mod TWO64) = x.
Proof.
  intros Hx. change TWO64 with (2 ^ 64). rewrite <- N.land_ones. apply N.bits_inj. intros i.
  rewrite N.lor_spec. destruct (N.lt_ge_cases i 64).
  - rewrite N.shiftl_spec_low, N.land_spec, N.ones_spec_low by lia. by rewrite andb_true_r.
  - rewrite N.shiftl_spec_high', N.shiftr_spec' by lia. rewrite N.land_spec, N.ones_spec_high by lia.
    rewrite andb_false_r, orb_false_r. f_equal. lia.
Qed.

Lemma shiftr64_small x : x < TWO128 -> N.shiftr x 64 mod TWO64 = N.shiftr x 64.
Proof.
  intros Hx. apply N.mod_small. rewrite N.shiftr_div_pow2. apply N.Div0.div_lt_upper_bound.
  change (x < TWO128). done.
Qed.

Lemma join64_halves x : x < TWO128 -> join64 (as_i64 x) (as_i64 (N.shiftr x 64)) = x.
Proof.
  intros Hx. unfold join64. rewrite !as_u64_as_i64, shiftr64_small by done. rewrite N.lor_comm. by apply halves.
Qed.

Lemma slen_as_bytes s : slen s = blen (as_bytes s).
Proof.
  unfold slen, blen, as_bytes, String.list_byte_of_string. rewrite length_map. f_equal.
  induction s as [| c s IH]; [done |]. simpl. by rewrite IH.
Qed.

(** ** Programs on the host *)

Section programs.
Context `{LM : Linear}.
Context (execute_child : bytes -> string -> bytes -> ExecutionContext -> gmap bytes bytes -> ChainState ->
                         result ExecutionResult VmError).
Context (child_in_time : ExecutionContext -> bool).
Implicit Types (env : HostEnv).

Abbreviation run := (run_guest execute_child child_in_time).
Abbreviation call := (run_import execute_child child_in_time).

Lemma run_compute f k env : run (g_compute f k) env = run (k (f (he_guest env))) (env <| he_guest := f (he_guest env) |>).
Proof. done. Qed.

Lemma guest_same env : env <| he_guest := he_guest env |> = env.
Proof. by destruct env. Qed.

(** A program from [env] goes on with [a] in [env']. *)
Definition returns {A} (p : prog A) env (a : A) env' : Prop := forall k, run (p k) env = run (k a) env'.

(** Whatever follows, a program from [env] that does not trap goes on with a
    result and an environment that satisfy [Q]. *)
Definition ensures {A} (p : prog A) env (Q : A -> HostEnv -> Prop) : Prop := forall k z env',
  run (p k) env = (Ok z, env') -> exists a env1, Q a env1 /\ run (k a) env1 = (Ok z, env').

Lemma returns_ret {A} (a : A) env : returns (mret a) env a env.
Proof. by intros k. Qed.

Lemma returns_bind {A B} (p : prog A) (f : A -> prog B) env a env1 b env2 :
  returns p env a env1 -> returns (f a) env1 b env2 -> returns (p ≫= f) env b env2.
Proof. intros Hp Hf k. unfold mbind, prog_bind. rewrite Hp. apply Hf. Qed.

Lemma returns_perform i env z env' : call i env = (Ok z, env') -> returns (perform i) env z env'.
Proof. intros Hcall k. cbn [perform run_guest]. by rewrite (bind_run _ _ _ _ _ Hcall). Qed.

Lemma returns_buffer b env :
  returns (buffer b) env (place b (he_guest env)).1 (env <| he_guest := (place b (he_guest env)).2 |>).
Proof. intros k. unfold buffer. rewrite !run_compute. unfold id. by rewrite guest_same. Qed.

Lemma returns_fetch p len b env : mem_read (he_guest env) p len = Ok b -> returns (fetch p len) env b env.
Proof. intros Hr k. unfold fetch. rewrite run_compute. unfold id. by rewrite guest_same, Hr. Qed.

Lemma ensures_ret {A} (a : A) env (Q : A -> HostEnv -> Prop) : Q a env -> ensures (mret a) env Q.
Proof. intros HQ k z env' Hrun. by exists a, env. Qed.

Lemma ensures_bind {A B} (p : prog A) (f : A -> prog B) env Q :
  ensures p env (fun a env1 => ensures (f a) env1 Q) -> ensures (p ≫= f) env Q.
Proof.
  intros Hp k z env' Hrun. destruct (Hp (fun a => f a k) z env' Hrun) as (a & env1 & Hf & Hrun1). by apply Hf.
Qed.

Lemma ensures_mono {A} (p : prog A) env (Q R : A -> HostEnv -> Prop) :
  ensures p env Q -> (forall a env1, Q a env1 -> R a env1) -> ensures p env R.
Proof. intros Hp HQR k z env' Hrun. destruct (Hp k z env' Hrun) as (a & env1 & HQ & H). exists a, env1. eauto. Qed.

Lemma ensures_perform i env (Q : Z -> HostEnv -> Prop) :
  (forall z env', call i env = (Ok z, env') -> Q z env') -> ensures (perform i) env Q.
Proof.
  intros HQ k z env' Hrun. cbn [perform run_guest] in Hrun.
  apply bind_Ok in Hrun as (z1 & env1 & Hcall & Hrun). exists z1, env1. eauto.
Qed.

Lemma ensures_panic {A} msg env (Q : A -> HostEnv -> Prop) : ensures (panic msg) env Q.
Proof. by intros k z env' [=]. Qed.

Lemma ensures_returns {A} (p : prog A) env a env' (Q : A -> HostEnv -> Prop) :
  returns p env a env' -> Q a env' -> ensures p env Q.
Proof. intros Hp HQ k z env1 Hrun. rewrite Hp in Hrun. by exists a, env'. Qed.

Lemma ensures_fetch p len env (Q : bytes -> HostEnv -> Prop) : (forall b, Q b env) -> ensures (fetch p len) env Q.
Proof.
  intros HQ k z env' Hrun. unfold fetch in Hrun. rewrite run_compute in Hrun. unfold id in Hrun.
  rewrite guest_same in Hrun. destruct (mem_read _ _ _) as [b|e]; [| done]. exists b, env. eauto.
Qed.

Lemma ensures_panic_msg {A} msg env (Q : A -> HostEnv -> Prop) : ensures (panic_msg msg) env Q.
Proof.
  unfold panic_msg. apply ensures_bind. eapply ensures_returns; [apply returns_buffer |].
  apply ensures_bind, ensures_perform. intros z env' Hcall. cbn [run_import] in Hcall.
  unfold no_result, host_abort in Hcall. by rewrite bind_assoc, bind_get, bind_throw in Hcall.
Qed.

(** ** Programs that ask for no transfer *)

(** Every way to go on is without a new transfer. *)
Definition no_transfer {A} (p : prog A) : Prop := forall env,
  ensures p env (fun _ env' => he_transfers env' = he_transfers env).

Definition pays (i : import) : bool :=
  match i with token_transfer _ _ _ | call_contract _ _ _ _ _ _ _ => true | _ => false end.

Lemma quiet_import i env r env' :
  pays i = false -> call i env = (r, env') -> he_transfers env' = he_transfers env.
Proof.
  intros Hq Hrun. destruct i; try discriminate Hq; cbn [run_import] in Hrun; host_unfold Hrun; rewrite ?bind_assoc in Hrun.
  all: try (apply bind_check_fuel in Hrun as [[_ ->] | [_ Hrun]]; [done |]).
  all: unfold read_or, not_read_only, read_or_trap in Hrun; st_exec Hrun; try done.
  all: repeat match goal with
    | H : write_bytes _ _ _ = Ok _ |- _ => apply write_bytes_Ok in H as [? ->]
    end; try done.
  all: try (by apply gets_run in Hrun as [-> _]).
  all: match type of Hrun with (write_ignored ?p ?b ≫= _) ?e = _ =>
      destruct (write_ignored_run p b e) as [m Hm]; rewrite (bind_run _ _ _ _ _ Hm) in Hrun; by injection Hrun as <- <- end.
Qed.

Lemma no_transfer_ret {A} (a : A) : no_transfer (mret a).
Proof. intros env. by apply ensures_ret. Qed.

Lemma no_transfer_bind {A B} (p : prog A) (f : A -> prog B) :
  no_transfer p -> (forall a, no_transfer (f a)) -> no_transfer (p ≫= f).
Proof.
  intros Hp Hf env. apply ensures_bind. eapply ensures_mono; [apply Hp |]. intros a env1 H1.
  eapply ensures_mono; [apply Hf |]. simpl. congruence.
Qed.

Lemma no_transfer_perform i : pays i = false -> no_transfer (perform i).
Proof. intros Hq env. apply ensures_perform. intros z env' Hcall. by eapply quiet_import. Qed.

Lemma no_transfer_buffer b : no_transfer (buffer b).
Proof. intros env. by eapply ensures_returns; [apply returns_buffer |]. Qed.

Lemma no_transfer_fetch p len : no_transfer (fetch p len).
Proof. intros env. by apply ensures_fetch. Qed.

Lemma no_transfer_panic {A} msg : no_transfer (panic (A:=A) msg).
Proof. intros env. apply ensures_panic. Qed.

Lemma no_transfer_panic_msg {A} msg : no_transfer (panic_msg (A:=A) msg).
Proof. intros env. apply ensures_panic_msg. Qed.

Lemma no_transfer_expect {A E} (r : result A E) msg : no_transfer (expect r msg).
Proof. destruct r; [apply no_transfer_ret | apply no_transfer_panic]. Qed.

Lemma no_transfer_each {A} (f : A -> prog unit) l : (forall x, no_transfer (f x)) -> no_transfer (prog_each f l).
Proof. intros Hf. induction l as [| x l IH]; [apply no_transfer_ret | by apply no_transfer_bind]. Qed.

(** The SDK's [transfer] answers [false] exactly when the host has taken the
    transfer: the host returns 0 for success, and the SDK tests for non-zero. *)
Lemma transfer_inverted to amount env :
  ensures (transfer to amount) env (fun ok env' => ok = true -> he_transfers env' = he_transfers env).
Proof.
  unfold transfer. apply ensures_bind. eapply ensures_returns; [apply returns_buffer |].
  set (env0 := env <| he_guest := _ |>). change (he_transfers env) with (he_transfers env0). clearbody env0.
  apply ensures_bind, ensures_perform. intros z env' Hcall. apply ensures_ret. intros Hok.
  cbn [run_import] in Hcall. host_unfold Hcall. apply bind_check_fuel in Hcall as [[[e [=]] _] | [_ Hcall]].
  unfold not_read_only, read_or in Hcall. st_exec Hcall; try done.
  all: by injection Hcall as <- <-.
Qed.

Lemma no_transfer_paid to amount msg : no_transfer (transfer to amount ≫= fun ok => require_or_abort ok msg).
Proof.
  intros env. apply ensures_bind. eapply ensures_mono; [apply transfer_inverted |]. intros [] env1 H1.
  - apply ensures_ret. auto.
  - apply ensures_panic_msg.
Qed.

Lemma no_transfer_require cond msg : no_transfer (require_or_abort cond msg).
Proof. destruct cond; [apply no_transfer_ret | apply no_transfer_panic_msg]. Qed.

Lemma no_transfer_paid_then {A} to amount msg (p : prog A) :
  no_transfer p -> no_transfer (transfer to amount ≫= fun ok => require_or_abort ok msg ≫= fun _ => p).
Proof.
  intros Hp. change (no_transfer ((transfer to amount ≫= fun ok => require_or_abort ok msg) ≫= fun _ => p)).
  apply no_transfer_bind; [apply no_transfer_paid | done].
Qed.

Lemma no_transfer_out32 f : (forall p, pays (f p) = false) -> no_transfer (out32 f).
Proof.
  intros Hf. apply no_transfer_bind; [apply no_transfer_buffer | intros p]. apply no_transfer_bind; [| intros _].
  - by apply no_transfer_perform.
  - apply no_transfer_fetch.
Qed.

Lemma no_transfer_export p env z env' :
  no_transfer p -> run (export_fn p) env = (Ok z, env') -> he_transfers env' = he_transfers env.
Proof. intros Hp Hrun. destruct (Hp env _ _ _ Hrun) as ([] & env1 & <- & [= _ <-]). done. Qed.

(** ** What the wrappers return *)

Context {LML : LinearLaws}.

Lemma check_fuel_run cost env :
  cost <= he_fuel_remaining env -> check_fuel cost env = (Ok tt, charged cost env).
Proof.
  intros Hc. unfold check_fuel, consume_fuel. rewrite bind_get, bind_map_err.
  by destruct (N.ltb_spec (he_fuel_remaining env) cost); [lia |].
Qed.

Lemma bind_charged {A} cost (k : unit -> host A) env :
  cost <= he_fuel_remaining env -> (check_fuel cost ≫= k) env = k tt (charged cost env).
Proof. intros Hc. by rewrite (bind_run _ _ _ _ _ (check_fuel_run cost env Hc)). Qed.

Lemma read_or_live {A} (dflt : A) ptr b k env :
  he_memory env = true -> live (he_guest env) ptr b -> blen b <= MAX_HOST_BUFFER_SIZE ->
  read_or dflt ptr (blen b) k env = k b env.
Proof.
  intros Hm Hl Hb. unfold read_or, read_bytes. rewrite bind_get, Hm, (live_read _ _ _ Hl).
  by destruct (N.ltb_spec MAX_HOST_BUFFER_SIZE (blen b)); [lia |].
Qed.

(** A host value of 32 bytes, out of the buffer it is written to. *)
Lemma write_live env p b d :
  he_memory env = true -> live (he_guest env) p b -> length d = length b ->
  exists m, write_bytes env p d = Ok (env <| he_guest := m |>) /\ mem_read m p (blen b) = Ok d.
Proof.
  intros Hm Hl Hd. destruct (live_write _ _ _ d Hl) as (m & Hw & Hl'); [unfold blen; lia |].
  exists m. unfold write_bytes. rewrite Hm, Hw. split; [done |].
  rewrite drop_ge, app_nil_r in Hl' by lia. apply live_read in Hl'. unfold blen in *. by rewrite <- Hd.
Qed.

(** [env'] is [env] with [cost] fuel less and another memory of the guest. *)
Definition spent (cost : N) env env' : Prop := exists m, env' = (charged cost env) <| he_guest := m |>.

Lemma charged_spent cost env : spent cost env (charged cost env).
Proof. exists (he_guest (charged cost env)). by rewrite guest_same. Qed.

Lemma charged_charged c1 c2 env : charged c2 (charged c1 env) = charged (c1 + c2) env.
Proof.
  unfold charged. destruct env. unfold update, upd_he_fuel_remaining, upd_he_fuel_consumed. simpl. f_equal; [lia |].
  unfold wadd. rewrite N.Div0.add_mod_idemp_l. f_equal. lia.
Qed.

Lemma spent_trans c1 c2 e1 e2 e3 : spent c1 e1 e2 -> spent c2 e2 e3 -> spent (c1 + c2) e1 e3.
Proof. intros [m1 ->] [m2 ->]. exists m2. by rewrite <- charged_charged. Qed.

(** [p] goes on with [a] in an environment that satisfies [P]. *)
Definition gives {A} (p : prog A) env (a : A) (P : HostEnv -> Prop) : Prop :=
  exists env', P env' /\ returns p env a env'.

Lemma gives_ret {A} (a : A) env (P : HostEnv -> Prop) : P env -> gives (mret a) env a P.
Proof. intros HP. exists env. split; [done | apply returns_ret]. Qed.

Lemma gives_bind {A B} (p : prog A) (f : A -> prog B) env a b P :
  gives p env a (fun env1 => gives (f a) env1 b P) -> gives (p ≫= f) env b P.
Proof. intros (env1 & (env2 & HP & Hf) & Hp). exists env2. split; [done |]. by eapply returns_bind. Qed.

Lemma gives_mono {A} (p : prog A) env a (P Q : HostEnv -> Prop) :
  gives p env a P -> (forall env', P env' -> Q env') -> gives p env a Q.
Proof. intros (env' & HP & Hr) HPQ. exists env'. eauto. Qed.

Lemma gives_buffer {A} b (f : N -> prog A) env a P :
  (forall p m, live m p b -> (forall q c, live (he_guest env) q c -> live m q c) ->
     gives (f p) (env <| he_guest := m |>) a P) ->
  gives (buffer b ≫= f) env a P.
Proof.
  intros Hf. apply gives_bind with (a := (place b (he_guest env)).1).
  eexists. split; [| apply returns_buffer]. apply Hf; [apply place_live | intros q c; apply place_keeps].
Qed.

Lemma gives_perform {A} i (f : Z -> prog A) env z env1 a P :
  call i env = (Ok z, env1) -> gives (f z) env1 a P -> gives (perform i ≫= f) env a P.
Proof. intros Hc Hf. apply gives_bind with (a := z). exists env1. split; [done | by apply returns_perform]. Qed.

Lemma gives_fetch {A} p len (f : bytes -> prog A) env b a P :
  mem_read (he_guest env) p len = Ok b -> gives (f b) env a P -> gives (fetch p len ≫= f) env a P.
Proof. intros Hr Hf. apply gives_bind with (a := b). exists env. split; [done | by apply returns_fetch]. Qed.

(** ** The context of the call *)
Lemma gives_out32 f d env :
  he_memory env = true -> HOST_CALL_BASE_FUEL <= he_fuel_remaining env -> length d = 32%nat ->
  (forall p m, call (f p) (env <| he_guest := m |>)
     = no_result (write_ignored p d) (charged HOST_CALL_BASE_FUEL (env <| he_guest := m |>))) ->
  gives (out32 f) env d (spent HOST_CALL_BASE_FUEL env).
Proof.
  intros Hm Hf Hd Himp. apply gives_buffer. intros p m Hl _.
  set (env1 := charged HOST_CALL_BASE_FUEL (env <| he_guest := m |>)).
  destruct (write_live env1 p (zeroed 32) d) as (m' & Hw & Hr); [done | done | by rewrite Hd |].
  apply gives_perform with (z := 0%Z) (env1 := env1 <| he_guest := m' |>).
  - rewrite Himp. unfold no_result, write_ignored. fold env1. by rewrite bind_modify, Hw.
  - exists (env1 <| he_guest := m' |>). split; [by exists m' | by apply returns_fetch].
Qed.

Lemma gives_get_caller env :
  he_memory env = true -> HOST_CALL_BASE_FUEL <= he_fuel_remaining env -> length (ec_caller (he_context env)) = 32%nat ->
  gives get_caller env (ec_caller (he_context env)) (spent HOST_CALL_BASE_FUEL env).
Proof.
  intros Hm Hf Hd. apply gives_out32; [done | done | done |]. intros p m.
  cbn [run_import]. unfold host_caller, no_result. by rewrite bind_assoc, bind_charged.
Qed.

Lemma gives_get_contract_address env :
  he_memory env = true -> HOST_CALL_BASE_FUEL <= he_fuel_remaining env -> length (ec_contract_address (he_context env)) = 32%nat ->
  gives get_contract_address env (ec_contract_address (he_context env)) (spent HOST_CALL_BASE_FUEL env).
Proof.
  intros Hm Hf Hd. apply gives_out32; [done | done | done |]. intros p m.
  cbn [run_import]. unfold host_contract_address, no_result. by rewrite bind_assoc, bind_charged.
Qed.

Lemma gives_get_block_timestamp env :
  HOST_CALL_BASE_FUEL <= he_fuel_remaining env -> ec_block_timestamp (he_context env) < TWO64 ->
  gives get_block_timestamp env (ec_block_timestamp (he_context env)) (spent HOST_CALL_BASE_FUEL env).
Proof.
  intros Hf Ht. eapply gives_perform.
  - cbn [run_import]. unfold host_block_timestamp. by rewrite bind_charged.
  - change (he_context (charged HOST_CALL_BASE_FUEL env)) with (he_context env). rewrite as_u64_as_i64, N.mod_small by done.
    apply gives_ret, charged_spent.
Qed.

(** The value of the call survives its way through two 64-bit halves. *)
Lemma gives_get_value env :
  2 * HOST_CALL_BASE_FUEL <= he_fuel_remaining env -> ec_value (he_context env) < TWO128 ->
  gives get_value env (ec_value (he_context env)) (spent (2 * HOST_CALL_BASE_FUEL) env).
Proof.
  intros Hf Hv. set (v := ec_value (he_context env)). eapply gives_perform.
  - cbn [run_import]. unfold host_value_lo. rewrite bind_charged by lia. reflexivity.
  - eapply gives_perform.
    + cbn [run_import]. unfold host_value_hi. rewrite bind_charged by (unfold charged; upd; lia). reflexivity.
    + rewrite charged_charged. change (HOST_CALL_BASE_FUEL + HOST_CALL_BASE_FUEL) with (2 * HOST_CALL_BASE_FUEL).
      change (ec_value (he_context (charged HOST_CALL_BASE_FUEL env))) with v.
      change (ec_value (he_context (charged (2 * HOST_CALL_BASE_FUEL) env))) with v.
      rewrite !as_u64_as_i64, low64_mod, N.Div0.mod_mod, shiftr64_small, halves by done. apply gives_ret, charged_spent.
Qed.

(** ** Storage *)
Lemma as_i32_small n : n < 2 ^ 31 -> as_i32 n = Z.of_N n.
Proof.
  intros Hn. unfold as_i32. rewrite N.mod_small by (change TWO32 with (2 ^ 32); lia).
  by destruct (N.ltb_spec n (2 ^ 31)); [| lia].
Qed.

(** A stored value of at most 16 KB is what the SDK reads. *)
Lemma gives_storage_get key env :
  he_memory env = true -> STORAGE_READ_FUEL <= he_fuel_remaining env -> blen key <= MAX_HOST_BUFFER_SIZE ->
  (forall v, he_storage env !! key = Some v -> blen v <= STORAGE_READ_BUF) ->
  gives (storage_get key) env (he_storage env !! key) (spent STORAGE_READ_FUEL env).
Proof.
  intros Hm Hf Hk Hv. apply gives_buffer. intros kp m1 Hlk _. apply gives_buffer. intros p m2 Hlp Hkeep. upd.
  apply Hkeep in Hlk. set (env0 := env <| he_guest := m1 |> <| he_guest := m2 |>).
  set (env1 := charged STORAGE_READ_FUEL env0).
  assert (forall z env2, match he_storage env !! key with
      | Some val => match write_bytes env1 p val with Ok env' => (Ok (as_i32 (blen val)), env') | Err _ => (Ok (-1)%Z, env1) end
      | None => (Ok (-1)%Z, env1)
      end = (Ok z, env2 : HostEnv) :> result Z string * HostEnv -> host_storage_read kp (blen key) p env0 = (Ok z, env2)) as Hread.
  { intros z env2 <-. unfold host_storage_read. rewrite bind_charged by done. fold env1. rewrite read_or_live by done.
    rewrite bind_get. change (he_storage env1) with (he_storage env).
    destruct (he_storage env !! key) as [val|]; [| done]. by destruct (write_bytes env1 p val). }
  destruct (he_storage env !! key) as [v|] eqn:Hl.
  - specialize (Hv v eq_refl). assert (blen v < 2 ^ 31) as Hv31 by (unfold STORAGE_READ_BUF in Hv; lia).
    destruct (live_write _ _ _ v Hlp) as (m & Hw & Hlm); [unfold blen, zeroed in *; rewrite length_replicate, N2Nat.id; done |].
    apply gives_perform with (z := as_i32 (blen v)) (env1 := env1 <| he_guest := m |>).
    + apply Hread. unfold write_bytes. change (he_memory env1) with (he_memory env).
      change (he_guest env1) with m2. by rewrite Hm, Hw.
    + rewrite as_i32_small by done. destruct (Z.ltb_spec (Z.of_N (blen v)) 0); [lia |].
      unfold take_buffer. rewrite N2Z.id, N.min_l by done.
      apply gives_fetch with (b := v); [apply live_read; by eapply live_prefix |]. apply gives_ret. by exists m.
  - apply gives_perform with (z := (-1)%Z) (env1 := env1); [by apply Hread |]. apply gives_ret. by exists m2.
Qed.

Definition stored (key value : bytes) env : HostEnv :=
  env <| he_storage ::= <[key := value]> |> <| he_storage_changes ::= fun l => l ++ [(key, Some value)] |>.

Lemma gives_storage_set key value env :
  he_memory env = true -> STORAGE_WRITE_FUEL <= he_fuel_remaining env -> ec_read_only (he_context env) = false ->
  blen key <= MAX_HOST_BUFFER_SIZE -> blen value <= MAX_HOST_BUFFER_SIZE ->
  gives (storage_set key value) env tt (spent STORAGE_WRITE_FUEL (stored key value env)).
Proof.
  intros Hm Hf Hro Hk Hv. apply gives_buffer. intros kp m1 Hlk _. apply gives_buffer. intros vp m2 Hlv Hkeep. upd.
  apply Hkeep in Hlk. eapply gives_perform.
  - cbn [run_import]. unfold no_result, host_storage_write. rewrite bind_assoc, bind_charged by done.
    rewrite bind_assoc. unfold not_read_only. rewrite bind_assoc, bind_get, bind_fail_if.
    change (ec_read_only (he_context (charged _ _))) with (ec_read_only (he_context env)). rewrite Hro.
    erewrite bind_run by (rewrite !read_or_live by done; reflexivity). reflexivity.
  - apply gives_ret. exists m2. destruct env. reflexivity.
Qed.

Lemma gives_set_return_data data env :
  he_memory env = true -> HOST_CALL_BASE_FUEL <= he_fuel_remaining env -> blen data <= MAX_HOST_BUFFER_SIZE ->
  gives (set_return_data data) env tt (spent HOST_CALL_BASE_FUEL (env <| he_return_data := data |>)).
Proof.
  intros Hm Hf Hd. apply gives_buffer. intros p m Hl _. eapply gives_perform.
  - cbn [run_import]. unfold no_result, host_return_data. rewrite bind_assoc, bind_charged by done.
    erewrite bind_run by (rewrite !read_or_live by done; reflexivity). reflexivity.
  - apply gives_ret. exists m. destruct env. reflexivity.
Qed.

Definition removed (key : bytes) env : HostEnv :=
  env <| he_storage ::= delete key |> <| he_storage_changes ::= fun l => l ++ [(key, None)] |>.

Lemma gives_storage_remove key env :
  he_memory env = true -> STORAGE_DELETE_FUEL <= he_fuel_remaining env -> ec_read_only (he_context env) = false ->
  blen key <= MAX_HOST_BUFFER_SIZE ->
  gives (storage_remove key) env tt (spent STORAGE_DELETE_FUEL (removed key env)).
Proof.
  intros Hm Hf Hro Hk. apply gives_buffer. intros kp m1 Hlk _. upd. eapply gives_perform.
  - cbn [run_import]. unfold no_result, host_storage_delete. rewrite bind_assoc, bind_charged by done.
    rewrite bind_assoc. unfold not_read_only. rewrite bind_assoc, bind_get, bind_fail_if.
    change (ec_read_only (he_context (charged _ _))) with (ec_read_only (he_context env)). rewrite Hro.
    erewrite bind_run by (rewrite !read_or_live by done; reflexivity). reflexivity.
  - apply gives_ret. exists m1. destruct env. reflexivity.
Qed.

Lemma gives_get_balance addr env :
  he_memory env = true -> 2 * HOST_CALL_BASE_FUEL <= he_fuel_remaining env -> length addr = 32%nat ->
  default 0 (he_balances env !! addr) < TWO128 ->
  gives (Sdk.get_balance addr) env (default 0 (he_balances env !! addr)) (spent (2 * HOST_CALL_BASE_FUEL) env).
Proof.
  intros Hm Hf Ha Hb. set (v := default 0 (he_balances env !! addr)) in *. apply gives_buffer. intros p m Hl _.
  set (env0 := env <| he_guest := m |>). assert (32 = blen addr) as H32 by (unfold blen; by rewrite Ha).
  assert (blen addr <= MAX_HOST_BUFFER_SIZE) as Hmax by (by rewrite <- H32).
  eapply gives_perform with (env1 := charged HOST_CALL_BASE_FUEL env0).
  - cbn [run_import]. unfold host_token_balance. rewrite bind_charged by (unfold env0; upd; lia).
    rewrite H32, read_or_live by done. unfold st_gets. reflexivity.
  - eapply gives_perform with (env1 := charged (2 * HOST_CALL_BASE_FUEL) env0).
    + cbn [run_import]. unfold host_token_balance_hi. rewrite bind_charged by (unfold charged, env0; upd; lia).
      rewrite charged_charged. change (HOST_CALL_BASE_FUEL + HOST_CALL_BASE_FUEL) with (2 * HOST_CALL_BASE_FUEL).
      rewrite H32, read_or_live by done. unfold st_gets. reflexivity.
    + change (he_balances (charged HOST_CALL_BASE_FUEL env0)) with (he_balances env).
      change (he_balances (charged (2 * HOST_CALL_BASE_FUEL) env0)) with (he_balances env). fold v.
      rewrite !as_u64_as_i64, low64_mod, N.Div0.mod_mod, shiftr64_small, halves by done. apply gives_ret. by exists m.
Qed.

(** A log line is kept or, from the hundredth on or when it is too long, dropped. *)
Lemma gives_log msg env :
  he_memory env = true -> HOST_CALL_BASE_FUEL <= he_fuel_remaining env ->
  exists logs, gives (log msg) env tt (spent HOST_CALL_BASE_FUEL (env <| he_logs := logs |>)).
Proof.
  intros Hm Hf. set (env0 m := charged HOST_CALL_BASE_FUEL (env <| he_guest := m |>)).
  exists (if (MAX_HOST_BUFFER_SIZE <? slen msg) || (MAX_LOG_ENTRIES <=? N.of_nat (length (he_logs env))) then he_logs env
          else he_logs env ++ [from_utf8_lossy (as_bytes msg)]).
  apply gives_buffer. intros p m Hlive _.
  assert (host_log p (slen msg) (env <| he_guest := m |>) = (Ok tt, (env0 m) <| he_logs :=
    if (MAX_HOST_BUFFER_SIZE <? slen msg) || (MAX_LOG_ENTRIES <=? N.of_nat (length (he_logs env))) then he_logs env
    else he_logs env ++ [from_utf8_lossy (as_bytes msg)] |>)) as Hlog.
  { unfold host_log. rewrite bind_charged by done. fold (env0 m). unfold read_or, read_bytes. rewrite bind_get.
    destruct (N.ltb_spec MAX_HOST_BUFFER_SIZE (slen msg)); simpl; [destruct env; reflexivity |].
    change (he_memory (env0 m)) with (he_memory env). change (he_guest (env0 m)) with m.
    rewrite Hm, slen_as_bytes, (live_read _ _ _ Hlive). simpl. rewrite bind_get.
    change (he_logs (env0 m)) with (he_logs env). destruct (MAX_LOG_ENTRIES <=? _); destruct env; reflexivity. }
  eapply gives_perform.
  - cbn [run_import]. unfold no_result. rewrite (bind_run _ _ _ _ _ Hlog). reflexivity.
  - apply gives_ret. exists m. destruct env; reflexivity.
Qed.

(** A transfer of nothing is refused, which the SDK reads as a success. *)
Lemma gives_transfer_zero to env :
  he_memory env = true -> TOKEN_TRANSFER_FUEL <= he_fuel_remaining env -> ec_read_only (he_context env) = false ->
  length to = 32%nat ->
  gives (transfer to 0) env true (spent TOKEN_TRANSFER_FUEL env).
Proof.
  intros Hm Hf Hro Hto. apply gives_buffer. intros p m Hl _.
  set (env1 := charged TOKEN_TRANSFER_FUEL (env <| he_guest := m |>)).
  apply gives_perform with (z := (-1)%Z) (env1 := env1).
  - cbn [run_import]. unfold host_token_transfer. rewrite bind_charged by done. fold env1.
    unfold not_read_only. rewrite bind_assoc, bind_get, bind_fail_if.
    change (ec_read_only (he_context env1)) with (ec_read_only (he_context env)). rewrite Hro.
    change 32 with (N.of_nat 32). rewrite <- Hto. fold (blen to). by rewrite read_or_live by (done || (unfold blen; rewrite Hto; done)).
  - apply gives_ret. by exists m.
Qed.

(** ** Aborts *)

(** Whatever follows, the program traps with this message. *)
Definition traps {A} (p : prog A) env (msg : string) : Prop := forall k, (run (p k) env).1 = Err msg.

Lemma traps_bind {A B} (p : prog A) (f : A -> prog B) env msg : traps p env msg -> traps (p ≫= f) env msg.
Proof. intros Hp k. apply Hp. Qed.

Lemma gives_traps {A B} (p : prog A) (f : A -> prog B) env a msg :
  gives p env a (fun env1 => traps (f a) env1 msg) -> traps (p ≫= f) env msg.
Proof. intros (env1 & Hf & Hp) k. unfold mbind, prog_bind. rewrite Hp. apply Hf. Qed.

Lemma traps_buffer {A} b (f : N -> prog A) env msg :
  (forall p m, live m p b -> (forall q c, live (he_guest env) q c -> live m q c) ->
     traps (f p) (env <| he_guest := m |>) msg) ->
  traps (buffer b ≫= f) env msg.
Proof.
  intros Hf. apply gives_traps with (a := (place b (he_guest env)).1).
  eexists. split; [| apply returns_buffer]. apply Hf; [apply place_live | intros q c; apply place_keeps].
Qed.

Lemma traps_panic {A} msg env : traps (panic (A:=A) msg) env msg.
Proof. done. Qed.

Lemma traps_perform {A} i (f : Z -> prog A) env msg env1 :
  call i env = (Err msg, env1) -> traps (perform i ≫= f) env msg.
Proof.
  intros Hc k. change ((run (g_import i (fun z => f z k)) env).1 = Err msg). cbn [run_guest].
  by rewrite (bind_run _ _ _ _ _ Hc).
Qed.

Lemma traps_panic_msg {A} msg env :
  he_memory env = true -> slen msg <= MAX_HOST_BUFFER_SIZE ->
  traps (panic_msg (A:=A) msg) env ("contract abort: " +:+ from_utf8_lossy (as_bytes msg)).
Proof.
  intros Hm Hl. pose proof (slen_as_bytes msg) as Hs. apply traps_buffer. intros p m Hlive _. eapply traps_perform.
  cbn [run_import]. unfold no_result, host_abort. rewrite bind_assoc, bind_get, Hs.
  unfold read_bytes. upd. rewrite Hm, (live_read _ _ _ Hlive).
  destruct (N.ltb_spec MAX_HOST_BUFFER_SIZE (blen (as_bytes msg))); [lia |]. reflexivity.
Qed.

(** A transfer that the host takes is a failure to the SDK. *)
Lemma gives_transfer to amount env :
  he_memory env = true -> TOKEN_TRANSFER_FUEL <= he_fuel_remaining env -> ec_read_only (he_context env) = false ->
  length to = 32%nat -> 0 < amount < TWO128 ->
  gives (transfer to amount) env false
    (spent TOKEN_TRANSFER_FUEL (env <| he_transfers ::= fun l => l ++ [(to, amount)] |>)).
Proof.
  intros Hm Hf Hro Hto Ha. apply gives_buffer. intros p m Hl _.
  set (env1 := charged TOKEN_TRANSFER_FUEL (env <| he_guest := m |>)).
  apply gives_perform with (z := 0%Z) (env1 := env1 <| he_transfers ::= fun l => l ++ [(to, amount)] |>).
  - cbn [run_import]. unfold host_token_transfer. rewrite bind_charged by done. fold env1.
    unfold not_read_only. rewrite bind_assoc, bind_get, bind_fail_if.
    change (ec_read_only (he_context env1)) with (ec_read_only (he_context env)). rewrite Hro.
    change 32 with (N.of_nat 32). rewrite <- Hto. fold (blen to). rewrite read_or_live by (done || (unfold blen; rewrite Hto; done)).
    cbv zeta. rewrite join64_halves by lia. destruct (N.eqb_spec amount 0); [lia |]. by rewrite bind_modify.
  - apply gives_ret. exists m. destruct env. reflexivity.
Qed.

(** ** Calls with enough fuel *)

(** A call that can be made: enough fuel, and a caller, value and time as the ledger has
    them. *)
Record callable (fuel : N) env : Prop := {
  cb_memory : he_memory env = true;
  cb_writes : ec_read_only (he_context env) = false;
  cb_fuel : fuel <= he_fuel_remaining env;
  cb_caller : length (ec_caller (he_context env)) = 32%nat;
  cb_value : ec_value (he_context env) < TWO128;
  cb_time : ec_block_timestamp (he_context env) < TWO64;
}.

(** [env'] is [env] but for at most [cost] fuel and the guest's memory. *)
Definition within (cost : N) env env' : Prop := exists c, c <= cost /\ spent c env env'.

Lemma within_trans c1 c2 e1 e2 e3 : within c1 e1 e2 -> within c2 e2 e3 -> within (c1 + c2) e1 e3.
Proof. intros (a & Ha & H1) (b & Hb & H2). exists (a + b). split; [lia | by eapply spent_trans]. Qed.

Lemma within_mono c1 c2 e1 e2 : c1 <= c2 -> within c1 e1 e2 -> within c2 e1 e2.
Proof. intros Hc (a & Ha & H). exists a. split; [lia | done]. Qed.

Lemma within_keeps cost env env' : within cost env env' ->
  he_memory env' = he_memory env /\ he_context env' = he_context env /\ he_storage env' = he_storage env
  /\ he_fuel_remaining env - cost <= he_fuel_remaining env'.
Proof. intros (c & Hc & m & ->). split_and!; try done. unfold charged. upd. lia. Qed.

Lemma within_stored cost key value env env' :
  within cost env env' -> within cost (stored key value env) (stored key value env').
Proof. intros (c & Hc & m & ->). exists c. split; [done |]. exists m. by destruct env. Qed.

Lemma callable_within fuel c env env1 : callable fuel env -> within c env env1 -> callable (fuel - c) env1.
Proof.
  intros [Hm Hro Hf Hc Hv Ht] Hw. apply within_keeps in Hw as (Hm1 & Hc1 & _ & Hf1).
  constructor; rewrite ?Hm1, ?Hc1; done || lia.
Qed.

Lemma caller_within fuel env : callable fuel env -> 5000 <= fuel -> gives get_caller env (ec_caller (he_context env)) (within 5000 env).
Proof.
  intros [Hm _ Hf Hc _ _] Hfuel. eapply gives_mono; [apply gives_get_caller; [done | unfold HOST_CALL_BASE_FUEL; lia | done] |].
  intros env' Hs. by exists 5000.
Qed.

Lemma value_within fuel env : callable fuel env -> 10000 <= fuel -> gives get_value env (ec_value (he_context env)) (within 10000 env).
Proof.
  intros [_ _ Hf _ Hv _] Hfuel. eapply gives_mono; [apply gives_get_value; [unfold HOST_CALL_BASE_FUEL; lia | done] |].
  intros env' Hs. by exists 10000.
Qed.

Lemma time_within fuel env : callable fuel env -> 5000 <= fuel ->
  gives get_block_timestamp env (ec_block_timestamp (he_context env)) (within 5000 env).
Proof.
  intros [_ _ Hf _ _ Ht] Hfuel. eapply gives_mono; [apply gives_get_block_timestamp; [unfold HOST_CALL_BASE_FUEL; lia | done] |].
  intros env' Hs. by exists 5000.
Qed.
End programs.

(** A program that is made of calls other than payments asks for no transfer. *)
Ltac quiet_step :=
  lazymatch goal with
  | |- no_transfer _ _ (mbind _ (transfer _ _)) => apply no_transfer_paid_then
  | |- no_transfer _ _ (require_or_abort _ _) => apply no_transfer_require
  | |- no_transfer _ _ (mbind _ _) => apply no_transfer_bind; [| intros ?]
  | |- no_transfer _ _ (mret _) => apply no_transfer_ret
  | |- no_transfer _ _ (buffer _) => apply no_transfer_buffer
  | |- no_transfer _ _ (fetch _ _) => apply no_transfer_fetch
  | |- no_transfer _ _ (panic _) => apply no_transfer_panic
  | |- no_transfer _ _ (panic_msg _) => apply no_transfer_panic_msg
  | |- no_transfer _ _ (expect _ _) => apply no_transfer_expect
  | |- no_transfer _ _ (prog_each _ _) => apply no_transfer_each; intros ?
  | |- no_transfer _ _ (perform _) => apply no_transfer_perform; reflexivity
  | |- no_transfer _ _ (out32 _) => apply no_transfer_out32; reflexivity
  | |- no_transfer _ _ (match ?x with _ => _ end) => destruct x
  end.
Ltac quiet :=
  repeat first
    [ quiet_step
    | progress unfold get_caller, get_contract_address, get_block_timestamp, get_value, Sdk.get_balance, storage_get,
        storage_set, storage_exists, storage_remove, take_buffer, log, set_return_data, get, set, get_u64, get_u128,
        set_u64, set_u128, get_le ].

Section entry.
Context `{LM : Linear}.
Context (execute_child : bytes -> string -> bytes -> ExecutionContext -> gmap bytes bytes -> ChainState ->
                         result ExecutionResult VmError).
Context (child_in_time : ExecutionContext -> bool).

Lemma no_transfer_entry {T} `{!Borsh T} p l (body : T -> prog bytes) :
  (forall args, no_transfer execute_child child_in_time (body args)) ->
  no_transfer execute_child child_in_time (entry p l body).
Proof. intros Hb. unfold entry. quiet. apply Hb. Qed.
End entry.
