(* ===== verification/Deployed.v ===== *)
(** * Contracts on the ledger

    A contract that is compiled from SDK code, from its module to the ledger: when
    none of its exported functions can end well after asking for a transfer, no
    call of it ever moves money out of it. *)

From S2P Require Import Prelude Interfaces Types Utf8 Vm Host Engine Sdk World HandlerBase Contracts HostSafety SdkCorrect.

Section ledger.
Context `{HB : Blake3} `{WM : Wasmer} {LM : Linear}.
Context (exports : string -> option (N -> N -> guest)).

(** A module compiled from a contract with these exports: they take the place and
    the length of their arguments, [alloc] calls nothing, and there is no start
    function. *)
Record compiled (m : Module_) : Prop := {
  cm_params : forall name f, exports name = Some f -> wasm_export m name = Some 2;
  cm_call : forall name f p l, exports name = Some f -> wasm_call m name [p; l] = f (as_u32 p) (as_u32 l);
  cm_alloc : forall n, exists g k, wasm_call m "alloc" [n] = g_compute g (fun mem => g_return (k mem));
  cm_link : exists mem, wasm_link m = Ok (mem, g_return 0%Z);
}.

(** No exported function that returns has asked for a transfer. *)
Definition never_pays : Prop := forall execute_child child_in_time name f p l env z env',
  exports name = Some f -> run_guest execute_child child_in_time (f p l) env = (Ok z, env') ->
  he_transfers env' = he_transfers env.

Lemma no_transfer_result code m name f args ctx storage cs contract_code res :
  never_pays -> wasm_compile code = Ok m -> compiled m -> exports name = Some f ->
  execute_with_cross_calls (VmEngine:=wasm_engine) code name args ctx storage cs contract_code = Ok res ->
  er_transfers res = [].
Proof.
  intros Hnever Hcode Hm Hf Hrun. apply engine_Ok in Hrun as
    (m' & mem & start & z0 & env0 & ptr & env1 & nparams & z & env2 & Hl & Hlink & Hstart & Hargs & Hex & Hcall & ->).
  rewrite (fresh_load _ m) in Hl by done. injection Hl as <-.
  destruct (cm_link _ Hm) as [mem' Hlink']. rewrite Hlink' in Hlink. injection Hlink as -> <-.
  injection Hstart as <- <-. rewrite (cm_params _ Hm _ _ Hf) in Hex. injection Hex as <-.
  assert (he_transfers env1 = []) as Hno.
  { unfold write_args in Hargs. case_bool_decide; [by injection Hargs as <- <- |].
    destruct (wasm_export m "alloc"); [| by injection Hargs as <- <-].
    destruct (cm_alloc _ Hm (as_i32 (blen args))) as (g & k & Ha). rewrite Ha in Hargs. simpl in Hargs.
    destruct (mem_write _ _ _); [| done]. by injection Hargs as <- <-. }
  assert (exists p l, call_args 2 ptr args = [p; l]) as (p & l & Hpl) by (unfold call_args; destruct ptr; simpl; eauto).
  rewrite Hpl, (cm_call _ Hm _ _ _ _ Hf) in Hcall. simpl. rewrite <- Hno. by eapply Hnever.
Qed.

Context `{TC : TxCodec} `{HX : Hex} `{VS : VmSchedule}.

Lemma storage_changes_balances c changes : forall s,
  ws_balances (apply_storage_changes c changes s).2 = ws_balances s.
Proof.
  induction changes as [| [key v] l IH]; intros s; [done |]. cbn [apply_storage_changes for_each].
  unfold apply_storage_changes in IH. simpl. by destruct v; rewrite (bind_modify (E:=StateError)), IH.
Qed.

Lemma call_keeps_money tx tx_index s out s' p code m f :
  never_pays ->
  try_from_slice (tx_payload tx) = Ok p -> ws_contract_code s !! ccp_contract p = Some code ->
  wasm_compile code = Ok m -> compiled m -> exports (ccp_method p) = Some f ->
  handle_contract_call (VM:=wasm_engine) tx tx_index s = (Ok out, s') ->
  ws_balances s' = ws_balances (paid (ccp_contract p) (tx_from tx) (ccp_value p) s).
Proof.
  intros Hnever Hp Hcode Hm Ham Hf Hrun. unfold handle_contract_call, decode, decode_bytes in Hrun.
  rewrite bind_map_err, Hp in Hrun. cbv zeta in Hrun. rewrite bind_gets, bind_fail_if in Hrun.
  destruct (negb _); [done |]. rewrite bind_fail_if in Hrun. destruct ((slen (ccp_method p) =? 0) || _); [done |].
  rewrite pay_run in Hrun. destruct (_ <? ccp_value p); [done |].
  set (s1 := paid (ccp_contract p) (tx_from tx) (ccp_value p) s) in *.
  assert (ws_contract_code s1 = ws_contract_code s) as Hcode1 by (unfold s1, paid; by destruct (0 <? _)).
  rewrite bind_gets, Hcode1, Hcode, bind_ok_or, bind_get in Hrun.
  destruct (execute_with_timeout _ _ _ _ _ s1) as [r|e] eqn:Hexec.
  2: { apply bind_Ok in Hrun as (? & ? & _ & [=]). }
  assert (er_transfers r = []) as Hnone.
  { unfold execute_with_timeout in Hexec. cbv zeta in Hexec. repeat case_match; try done. by eapply no_transfer_result. }
  rewrite bind_gets, Hnone in Hrun. cbn [transfer_overrun] in Hrun.
  apply bind_Ok in Hrun as ([] & s2 & Hchanges & Hrun). apply bind_Ok in Hrun as ([] & s3 & [= ->] & [= _ <-]).
  rewrite <- (storage_changes_balances (ccp_contract p) (er_storage_changes r) s1). by rewrite Hchanges.
Qed.
End ledger.
