(* ===== verification/ArenaCalls.v ===== *)
(** * The arena pool on the chain

    What the exported functions of the contract do when the engine runs them: an
    operation that does not pay takes the stored state to the state that the
    operation of [ArenaPool] computes; one that pays is aborted. *)

From S2P Require Import Prelude Interfaces Types Concrete Utf8 Vm Host Engine Sdk ArenaPool ArenaEntry ArenaLedger World HandlerBase ConcreteTx ConcreteVm Contracts HostSafety SdkCorrect Deployed.

Section calls.
Context `{LM : Linear} {LML : LinearLaws} `{AC : ArenaCodec}.
Context (execute_child : bytes -> string -> bytes -> ExecutionContext -> gmap bytes bytes -> ChainState ->
                         result ExecutionResult VmError).
Context (child_in_time : ExecutionContext -> bool).
Implicit Types (env : HostEnv).

Abbreviation run := (run_guest execute_child child_in_time).
Abbreviation no_transfer := (SdkCorrect.no_transfer execute_child child_in_time).
Abbreviation gives := (SdkCorrect.gives execute_child child_in_time).

(** ** Nothing is ever paid *)
Lemma quiet_change {A} (m : arena A) : no_transfer (change m).
Proof. unfold change, load_state, logic, save_state. quiet. Qed.

Lemma quiet_flush l : no_transfer (flush_transfers l).
Proof. apply no_transfer_each. intros [to amount]. simpl. destruct (0 <? amount); [apply no_transfer_paid | quiet]. Qed.

Lemma quiet_updating m : no_transfer (updating m).
Proof. apply no_transfer_bind; [apply quiet_change | intros _; quiet]. Qed.

Lemma quiet_paying m : no_transfer (paying m).
Proof. apply no_transfer_bind; [apply quiet_change | intros l]. apply no_transfer_bind; [apply quiet_flush | intros _; quiet]. Qed.

Lemma arena_export_quiet name f p l env z env' :
  arena_export name = Some f -> run (f p l) env = (Ok z, env') -> he_transfers env' = he_transfers env.
Proof.
  intros Hf Hrun. unfold arena_export in Hf.
  repeat (case_decide as Hn; clear Hn; [apply Some_inj in Hf; rewrite <- Hf in Hrun; clear Hf;
    eapply no_transfer_export; [| exact Hrun]; apply no_transfer_entry; intros args; unfold save_state, logic;
    repeat lazymatch goal with
      | |- no_transfer (updating _) => apply quiet_updating
      | |- no_transfer (paying _) => apply quiet_paying
      | _ => progress quiet
      end |]).
  discriminate Hf.
Qed.

(** ** The exported functions refine the operations *)

Implicit Types (s : ContractState).

(** The state in a contract's storage. *)
Definition holds_state (storage : gmap bytes bytes) s : Prop :=
  match storage !! STATE_KEY with
  | Some b => blen b <= STORAGE_READ_BUF /\ try_from_slice b = Ok s
  | None => s = default_ContractState
  end.

(** Calls of the ledger of [ArenaLedger], the exported function and its arguments. *)
Inductive called_as : arena_call -> (N -> N -> guest) -> bytes -> Prop :=
  | ca_deposit b a : try_from_slice (A:=DepositArgs) b = Ok a -> called_as C_deposit deposit b
  | ca_withdraw b a : try_from_slice b = Ok a -> called_as (C_withdraw (wa_amount a)) withdraw b
  | ca_lock b a : try_from_slice b = Ok a ->
      called_as (C_lock_entries (lea_game_hash a) (lea_players a) (lea_entry_fee a)) lock_entries b
  | ca_settle b a : try_from_slice b = Ok a ->
      called_as (C_settle_game (sga_game_hash a) (sga_winners a) (sga_amounts a)) settle_game b
  | ca_refund b a : try_from_slice b = Ok a -> called_as (C_refund_game (rga_game_hash a)) refund_game b
  | ca_emergency b a : try_from_slice b = Ok a ->
      called_as (C_refund_game_emergency (era_game_hash a)) refund_game_emergency b
  | ca_claim b a : try_from_slice (A:=ClaimFeesArgs) b = Ok a -> called_as C_claim_fees claim_fees b
  | ca_pause b a : try_from_slice (A:=PauseArgs) b = Ok a -> called_as C_pause pause b
  | ca_unpause b a : try_from_slice (A:=PauseArgs) b = Ok a -> called_as C_unpause unpause b
  | ca_cleanup b a : try_from_slice b = Ok a -> called_as (C_cleanup_games (cga_hashes a)) cleanup_games b.

Definition msg_of env : msg :=
  mkMsg (ec_caller (he_context env)) (ec_value (he_context env)) (ec_block_timestamp (he_context env)).

Abbreviation traps := (SdkCorrect.traps execute_child child_in_time).

(** ** What becomes of a call *)

Definition FAILED : string := "contract abort: token_transfer failed".

(** From the operation's outcome: nothing to pay and the state is saved; anything
    to pay and the call is aborted; an assertion that fails is the trap. *)
Definition outcome (cost : N) (r : result transfers string * ContractState) (p : prog bytes) env : Prop :=
  match r with
  | (Ok [], s') =>
      blen (to_vec s') <= MAX_HOST_BUFFER_SIZE ->
      gives p env OK (within cost (stored STATE_KEY (to_vec s') env))
  | (Ok ((to, amount) :: _), s') =>
      blen (to_vec s') <= MAX_HOST_BUFFER_SIZE -> length to = 32%nat -> 0 < amount < TWO128 -> traps p env FAILED
  | (Err e, _) => traps p env e
  end.

Lemma gives_load env s :
  he_memory env = true -> STORAGE_READ_FUEL <= he_fuel_remaining env -> holds_state (he_storage env) s ->
  gives load_state env s (spent STORAGE_READ_FUEL env).
Proof.
  intros Hm Hf Hs. unfold holds_state in Hs. apply gives_bind with (a := he_storage env !! STATE_KEY).
  eapply gives_mono.
  - apply gives_storage_get; [apply _ | done | done | done |]. intros v Hv. rewrite Hv in Hs. by destruct Hs.
  - intros env1 Hsp. destruct (he_storage env !! STATE_KEY) as [b|].
    + destruct Hs as [_ Hs]. rewrite Hs. by apply gives_ret.
    + subst s. by apply gives_ret.
Qed.

Lemma change_outcome {A} (m : arena A) env s :
  callable 160000 env -> holds_state (he_storage env) s ->
  match m s with
  | (Ok a, s') => blen (to_vec s') <= MAX_HOST_BUFFER_SIZE ->
      gives (change m) env a (within 60000 (stored STATE_KEY (to_vec s') env))
  | (Err e, _) => traps (change m) env e
  end.
Proof.
  intros [Hm Hro Hf _ _ _] Hs.
  assert (gives load_state env s (spent STORAGE_READ_FUEL env)) as Hl
    by (apply gives_load; [done | unfold STORAGE_READ_FUEL; lia | done]).
  destruct (m s) as [[a|e] s'] eqn:Hrun.
  - intros Hb. apply gives_bind with (a := s). eapply gives_mono; [exact Hl |]. intros env1 [m1 ->]. simpl.
    apply gives_bind with (a := (a, s')). unfold logic. rewrite Hrun. apply gives_ret.
    apply gives_bind with (a := tt). eapply gives_mono.
    + apply gives_storage_set; try (done || apply _). unfold charged, STORAGE_WRITE_FUEL, STORAGE_READ_FUEL. upd. lia.
    + intros env2 Hsp. apply gives_ret. exists 60000. split; [done |].
      change 60000 with (STORAGE_READ_FUEL + STORAGE_WRITE_FUEL).
      eapply spent_trans; [| exact Hsp]. exists m1. by destruct env.
  - apply gives_traps with (a := s). eapply gives_mono; [exact Hl |]. intros env1 _. apply traps_bind.
    unfold logic. rewrite Hrun. apply traps_panic.
Qed.

Lemma updating_outcome (m : arena unit) env s :
  callable 160000 env -> holds_state (he_storage env) s -> outcome 60000 (silent m s) (updating m) env.
Proof.
  intros Hc Hs. pose proof (change_outcome m env s Hc Hs) as Hch. unfold silent.
  destruct (m s) as [[[]|e] s'] eqn:Hrun; rewrite (bind_run _ _ _ _ _ Hrun).
  - simpl. intros Hb. apply gives_bind with (a := tt). eapply gives_mono; [by apply Hch |].
    intros env1 Hw. by apply gives_ret.
  - simpl. by apply traps_bind.
Qed.

Lemma paying_outcome (m : arena transfers) env s :
  callable 160000 env -> holds_state (he_storage env) s -> outcome 60000 (m s) (paying m) env.
Proof.
  intros Hc Hs. pose proof (change_outcome m env s Hc Hs) as Hch.
  destruct (m s) as [[[| [to amount] l]|e] s'] eqn:Hrun; simpl.
  - intros Hb. eapply gives_bind, gives_mono; [by apply Hch |]. intros env1 Hw.
    apply gives_bind with (a := tt). by apply gives_ret, gives_ret.
  - intros Hb Hto Ha. eapply gives_traps, gives_mono; [by apply Hch |]. intros env1 Hw.
    apply within_keeps in Hw as (Hm1 & Hc1 & _ & Hf1). destruct Hc as [Hm Hro Hf _ _ _].
    unfold stored in Hm1, Hc1, Hf1. upd.
    apply traps_bind. unfold flush_transfers. cbn [prog_each snd fst]. apply traps_bind.
    destruct (N.ltb_spec 0 amount); [| lia]. eapply gives_traps, gives_mono.
    + apply gives_transfer; [apply _ | by rewrite Hm1 | unfold TOKEN_TRANSFER_FUEL; lia | by rewrite Hc1 | done | done].
    + intros env2 [m2 ->]. unfold FAILED, require_or_abort. apply (traps_panic_msg _ _ (LML:=LML) "token_transfer failed");
        [change (he_memory env1 = true); by rewrite Hm1 | done].
  - by apply traps_bind.
Qed.

(** What comes before: the caller, the value and the time. *)
Lemma outcome_after {A} c n r (q : prog A) (a : A) (f : A -> prog bytes) env :
  gives q env a (within c env) -> (forall env1, within c env env1 -> outcome n r (f a) env1) ->
  outcome (c + n) r (q ≫= f) env.
Proof.
  intros Hq Hf. destruct r as [[[| [to amount] l]|e] s']; simpl.
  - intros Hb. eapply gives_bind, gives_mono; [exact Hq |]. intros env1 Hw.
    eapply gives_mono; [by apply Hf |]. intros env2 Hw2. eapply within_trans; [| exact Hw2]. by apply within_stored.
  - intros Hb Hto Ha. eapply gives_traps, gives_mono; [exact Hq |]. intros env1 Hw. by apply (Hf env1 Hw).
  - eapply gives_traps, gives_mono; [exact Hq |]. intros env1 Hw. by apply (Hf env1 Hw).
Qed.

(** The exported function from its arguments in memory. *)
Definition exported cost (r : result transfers string * ContractState) (g : guest) env : Prop :=
  match r with
  | (Ok [], s') =>
      blen (to_vec s') <= MAX_HOST_BUFFER_SIZE ->
      exists env', run g env = (Ok 0%Z, env') /\ within cost (stored STATE_KEY (to_vec s') env <| he_return_data := OK |>) env'
  | (Ok ((to, amount) :: _), s') =>
      blen (to_vec s') <= MAX_HOST_BUFFER_SIZE -> length to = 32%nat -> 0 < amount < TWO128 -> (run g env).1 = Err FAILED
  | (Err e, _) => (run g env).1 = Err e
  end.

Lemma entry_exported {T} `{!Borsh T} p l (body : T -> prog bytes) env n b args r :
  mem_read (he_guest env) p l = Ok b -> try_from_slice b = Ok args ->
  callable (n + HOST_CALL_BASE_FUEL) env -> outcome n r (body args) env ->
  exported (n + HOST_CALL_BASE_FUEL) r (export_fn (entry p l body)) env.
Proof.
  intros Hr Hargs Hc Hout.
  assert (forall k, run (entry p l body k) env
    = run ((result ← body args; if bool_decide (result = []) then mret tt else set_return_data result) k) env) as Hentry.
  { intros k. unfold entry, mbind, prog_bind. rewrite (returns_fetch _ _ _ _ _ _ Hr). by rewrite Hargs. }
  unfold export_fn. destruct r as [[[| [to amount] ts]|e] s']; simpl in Hout; unfold exported; rewrite !Hentry.
  - intros Hb. destruct Hout as (env1 & Hw & Hret); [done |].
    apply within_keeps in Hw as Hk. destruct Hk as (Hm1 & _ & _ & Hf1).
    destruct (gives_set_return_data execute_child child_in_time OK env1) as (env2 & Hsp & Hret2).
    + rewrite Hm1. by apply (cb_memory _ _ Hc).
    + pose proof (cb_fuel _ _ Hc). unfold stored in Hf1. upd. lia.
    + done.
    + exists env2. split; [unfold mbind, prog_bind; rewrite Hret; by rewrite Hret2 |].
      eapply within_trans; [| exists HOST_CALL_BASE_FUEL; split; [done | exact Hsp]].
      destruct Hw as (c & Hcn & m & ->). exists c. split; [done |]. exists m. by destruct env.
  - intros Hb Hto Ha. by apply Hout.
  - apply Hout.
Qed.

Lemma body_outcome c f b env s p l :
  called_as c f b -> mem_read (he_guest env) p l = Ok b -> callable 200000 env -> holds_state (he_storage env) s ->
  exists n, n <= 80000 /\ exported (n + HOST_CALL_BASE_FUEL) (run_call (msg_of env) c s) (f p l) env.
Proof.
  intros Hcall Hr Hc Hs.
  assert (forall n, n <= 80000 -> callable (n + HOST_CALL_BASE_FUEL) env) as Hcn.
  { intros n Hn. destruct Hc as [H1 H2 H3 H4 H5 H6]. constructor; try done. unfold HOST_CALL_BASE_FUEL. lia. }
  assert (forall c1 env1, c1 <= 40000 -> within c1 env env1 ->
    callable 160000 env1 /\ holds_state (he_storage env1) s /\ msg_of env1 = msg_of env) as Hthen.
  { intros c1 env1 Hc1 Hw. split; [| split].
    - apply (callable_within 200000 c1) in Hw; [| done]. destruct Hw. constructor; done || lia.
    - apply within_keeps in Hw as (_ & _ & -> & _). done.
    - apply within_keeps in Hw as (_ & Hctx & _). unfold msg_of. by rewrite Hctx. }
  assert (forall r f, (forall env1, within 5000 env env1 -> outcome 60000 r (f (msg_caller (msg_of env))) env1) ->
    outcome 65000 r (get_caller ≫= f) env) as Hone.
  { intros r g Hg. change 65000 with (5000 + 60000). eapply outcome_after; [by eapply caller_within | done]. }
  assert (forall r f, (forall env1, within 15000 env env1 ->
    outcome 60000 r (f (msg_caller (msg_of env)) (msg_value (msg_of env))) env1) ->
    outcome 75000 r (get_caller ≫= fun x => get_value ≫= f x) env) as Hvalue.
  { intros r g Hg. change 75000 with (5000 + (10000 + 60000)). eapply outcome_after; [by eapply caller_within |].
    intros env1 H1. destruct (Hthen 5000 env1 ltac:(lia) H1) as (Hc1 & _ & Hm1).
    eapply outcome_after; [by eapply value_within |]. intros env2 H2.
    change (ec_value (he_context env1)) with (msg_value (msg_of env1)). rewrite Hm1.
    apply Hg. change 15000 with (5000 + 10000). by eapply within_trans. }
  assert (forall r f, (forall env1, within 10000 env env1 ->
    outcome 60000 r (f (msg_caller (msg_of env)) (msg_now (msg_of env))) env1) ->
    outcome 70000 r (get_caller ≫= fun x => get_block_timestamp ≫= f x) env) as Htime.
  { intros r g Hg. change 70000 with (5000 + (5000 + 60000)). eapply outcome_after; [by eapply caller_within |].
    intros env1 H1. destruct (Hthen 5000 env1 ltac:(lia) H1) as (Hc1 & _ & Hm1).
    eapply outcome_after; [by eapply time_within |]. intros env2 H2.
    change (ec_block_timestamp (he_context env1)) with (msg_now (msg_of env1)). rewrite Hm1.
    apply Hg. change 10000 with (5000 + 5000). by eapply within_trans. }
  destruct Hcall as [b a Ha|b a Ha|b a Ha|b a Ha|b a Ha|b a Ha|b a Ha|b a Ha|b a Ha|b a Ha];
    [exists 75000 | exists 65000 | exists 70000 | exists 65000 | exists 65000 | exists 70000 | exists 65000 | exists 65000
     | exists 65000 | exists 65000]; (split; [done |]);
    (eapply entry_exported; [exact Hr | exact Ha | by apply Hcn |]).
  1: apply Hvalue. 3,6: apply Htime. all: try apply Hone.
  all: intros env1 H1; apply Hthen in H1 as (Hc1 & Hs1 & _); [| done].
  all: try (by apply updating_outcome).
  all: by apply paying_outcome.
Qed.

End calls.

(** ** The ledger *)

Section ledger.
Context `{HB : Blake3} `{WM : Wasmer} {LM : Linear} `{AC : ArenaCodec}.
Context `{TC : TxCodec} `{HX : Hex} `{VS : VmSchedule}.

Lemma arena_never : never_pays arena_export.
Proof. intros execute_child in_time name f p l env z env'. apply arena_export_quiet. Qed.

(** C21. Money that is in the arena pool never leaves it.  A call of any of its
    exported functions, by anyone and on any state, that succeeds on the ledger
    leaves every balance as the value paid with the call left it: the functions
    that should pay (withdrawals, the owner's fees, the burn of a settlement) are
    aborted once the host has taken their transfer, because the host returns 0 for
    a transfer it takes and the SDK reads 0 as a failure. *)
Theorem arena_never_pays tx tx_index s out s' p code m f :
  try_from_slice (tx_payload tx) = Ok p -> ws_contract_code s !! ccp_contract p = Some code ->
  wasm_compile code = Ok m -> compiled arena_export m -> arena_export (ccp_method p) = Some f ->
  handle_contract_call (VM:=wasm_engine) tx tx_index s = (Ok out, s') ->
  ws_balances s' = ws_balances (paid (ccp_contract p) (tx_from tx) (ccp_value p) s).
Proof.
  apply (call_keeps_money arena_export). exact arena_never.
Qed.
End ledger.

(** ** Witnesses *)

#[local] Existing Instance toy_blake3.
#[local] Existing Instance toy_memory.
#[local] Existing Instance toy_linear.
#[local] Existing Instance toy_arena_codec.
#[local] Existing Instance toy_tx_codec.
#[local] Existing Instance toy_hex.
#[local] Existing Instance toy_schedule.

Definition toy_no_child (_ : bytes) (_ : string) (_ : bytes) (_ : ExecutionContext) (_ : gmap bytes bytes) (_ : ChainState)
    : result ExecutionResult VmError := Err (ExecutionFailed "").

#[local] Instance arena_machine : Wasmer := toy_wasmer arena_export.

(** Alice deposits 1000 in a new pool. *)
Definition deposit_env : HostEnv :=
  (host_env (@nil byte) (new_top_level alice (toy_addr 8) 10 400 1000 DEFAULT_FUEL_LIMIT false) ∅ toy_chain None ∅)
    <| he_memory := true |>.
Definition deposited : ContractState := after (mkMsg alice 1000 400) C_deposit default_ContractState.


(** The pool is deployed at [toy_contract]; its caller deposits 20. *)
Lemma arena_machine_module : compiled arena_export tt.
Proof.
  constructor.
  - intros name f Hf.
    exact (f_equal (fun o => match o with Some _ => Some 2 | None => if bool_decide (name = "alloc"%string) then Some 1 else None end) Hf).
  - intros name f p l Hf.
    exact (f_equal (fun o => match o with Some f => f (as_u32 p) (as_u32 l) | None => g_trap "bad call" end) Hf).
  - intros n. simpl. by eexists _, _.
  - eexists. reflexivity.
Qed.

Definition deposit_tx : Transaction :=
  toy_tx ContractCall (toy_addr 1) 1 (toy_contract ++ enc_str "deposit" ++ enc_vec [] ++ le128 20).
Definition deposit_payload : ContractCallPayload := mkContractCallPayload toy_contract "deposit" [] 20.
Definition after_deposit : WorldState := (handle_contract_call (VM:=wasm_engine) deposit_tx 0 toy_deployed).2.

Lemma arena_never_pays_witness :
  ws_balances after_deposit = ws_balances (paid toy_contract (toy_addr 1) 20 toy_deployed).
Proof.
  assert (is_ok (handle_contract_call (VM:=wasm_engine) deposit_tx 0 toy_deployed).1 = true) as Hok
    by (vm_compute; reflexivity).
  unfold after_deposit. destruct (handle_contract_call deposit_tx 0 toy_deployed) as [[out|e] s'] eqn:Hrun; [| discriminate Hok].
  refine (arena_never_pays deposit_tx 0 toy_deployed out s' deposit_payload (x00 :: lit "asm") tt deposit
    _ _ eq_refl arena_machine_module eq_refl Hrun); vm_compute; reflexivity.
Defined.
