(* ===== verification/VaultCalls.v ===== *)
(** * The reward vault on the chain

    The rules of [RewardVault] hold of the exported functions; the payments do
    not happen. *)

From stdpp Require Import pretty.
From S2P Require Import Prelude Interfaces Types Concrete Utf8 RewardVault VaultLedger Vm Host Engine Sdk VaultEntry World HandlerBase ConcreteTx ConcreteVm Contracts HostSafety SdkCorrect Deployed.

(** ** Sizes of keys *)
Lemma pretty_N_go_length k : forall n s, n < 10 ^ N.of_nat k ->
  (String.length (pretty_N_go n s) <= k + String.length s)%nat.
Proof.
  induction k as [| k IH]; intros n s Hn.
  - assert (n = 0) as -> by (simpl in Hn; lia). by rewrite pretty_N_go_0.
  - destruct (N.lt_ge_cases 0 n) as [Hpos|]; [| assert (n = 0) as -> by lia; rewrite pretty_N_go_0; lia].
    rewrite pretty_N_go_step by done. etransitivity; [apply IH |].
    + apply N.Div0.div_lt_upper_bound. replace (10 * 10 ^ N.of_nat k) with (10 ^ N.of_nat (S k)); [done |].
      rewrite Nat2N.inj_succ, N.pow_succ_r'. done.
    + simpl. lia.
Qed.

Lemma decimal_short n : n < TWO64 -> blen (decimal n) <= 20.
Proof.
  intros Hn. unfold decimal. rewrite <- slen_as_bytes. unfold slen, pretty, pretty_N. case_decide; [done |].
  pose proof (pretty_N_go_length 20 n "" ltac:(change TWO64 with 18446744073709551616 in Hn; simpl; lia)). simpl in *. lia.
Qed.

Lemma claimed_key_short r d : length r = 32%nat -> d < TWO64 -> blen (claimed_key r d) <= 200.
Proof.
  intros Hr Hd. pose proof (decimal_short d Hd) as H. unfold claimed_key, blen in *.
  rewrite !length_app, length_addr_to_hex, Hr. simpl. lia.
Qed.

Lemma nonce_key_short r : length r = 32%nat -> blen (nonce_key r) <= 200.
Proof. intros Hr. unfold nonce_key, blen. rewrite length_app, length_addr_to_hex, Hr. simpl. lia. Qed.

Lemma platform_key_short a : length a = 32%nat -> blen (platform_key a) <= 200.
Proof. intros Ha. unfold platform_key, blen. rewrite length_app, length_addr_to_hex, Ha. simpl. lia. Qed.

Section calls.
Context `{LM : Linear} `{VC : VaultCodec} `{AC : VaultArgsCodec}.
Context (execute_child : bytes -> string -> bytes -> ExecutionContext -> gmap bytes bytes -> ChainState ->
                         result ExecutionResult VmError).
Context (child_in_time : ExecutionContext -> bool).
Implicit Types (env : HostEnv).

Abbreviation run := (run_guest execute_child child_in_time).
Abbreviation no_transfer := (SdkCorrect.no_transfer execute_child child_in_time).

Lemma vault_export_quiet name f p l env z env' :
  vault_export name = Some f -> run (f p l) env = (Ok z, env') -> he_transfers env' = he_transfers env.
Proof.
  intros Hf Hrun. unfold vault_export in Hf.
  repeat (case_decide as Hn; clear Hn; [apply Some_inj in Hf; rewrite <- Hf in Hrun; clear Hf;
    eapply no_transfer_export; [| exact Hrun]; apply no_transfer_entry; intros args;
    unfold owner_entry, claim_reward_body, require_owner, flag; quiet |]).
  discriminate Hf.
Qed.

(** ** The exported functions refine the rules *)

Context {LML : LinearLaws}.
Implicit Types (e : MockEnv).
Abbreviation gives := (SdkCorrect.gives execute_child child_in_time).
Abbreviation traps := (SdkCorrect.traps execute_child child_in_time).

(** The environment of the rules that a call has. *)
Definition mock_of env : MockEnv :=
  mkMockEnv (he_storage env) (ec_caller (he_context env)) (ec_value (he_context env))
    (ec_block_timestamp (he_context env)) (he_balances env) (ec_contract_address (he_context env)).

(** What the contract keeps: values that can be read back, with their full length. *)
Record well_kept (storage : gmap bytes bytes) : Prop := {
  wk_size : forall k v, storage !! k = Some v -> blen v <= STORAGE_READ_BUF;
  wk_paused : first_byte (storage !! KEY_PAUSED) <= 1;
  wk_nonce : forall r v, storage !! nonce_key r = Some v -> (8 <= length v)%nat;
  wk_claimed : forall r d v, storage !! claimed_key r d = Some v -> (16 <= length v)%nat;
  wk_cap : exists v, storage !! KEY_DAILY_CAP = Some v /\ (16 <= length v)%nat /\ le_value (take 16 v) < TWO128 - 1;
}.

(** A rule on [e] and a program from [env]: the program ends with the rule's
    storage, or, if the rule pays, it is aborted; it traps if the rule fails. *)
Definition agrees (paying : bool) (m : vault unit) e (p : prog bytes) env : Prop :=
  match m e with
  | (Ok _, e') =>
      if paying then traps p env "contract abort: token transfer failed"
      else gives p env [] (fun env' => he_storage env' = me_storage e' /\ he_transfers env' = he_transfers env)
  | (Err _, _) => exists msg, traps p env msg
  end.

Lemma agrees_after {A} b m e (q : prog A) (a : A) (f : A -> prog bytes) env (P : HostEnv -> Prop) :
  gives q env a P -> (forall env1, P env1 -> he_transfers env1 = he_transfers env) ->
  (forall env1, P env1 -> agrees b m e (f a) env1) -> agrees b m e (q ≫= f) env.
Proof.
  intros Hq Ht Hf. unfold agrees in *. destruct (m e) as [[u|msg] e'].
  - destruct b.
    + eapply gives_traps, gives_mono; [exact Hq | exact Hf].
    + eapply gives_bind, gives_mono; [exact Hq |]. intros env1 H1. eapply gives_mono; [by apply Hf |].
      intros env2 [H2 H3]. split; [done |]. by rewrite H3, Ht.
  - destruct Hq as (env1 & HP & Hret). destruct (Hf env1 HP) as [msg' Hm]. exists msg'.
    intros k. unfold mbind, prog_bind. rewrite Hret. apply Hm.
Qed.

(** One check on both sides. *)
Lemma agrees_require b c msg msg' (m : vault unit) e (p : prog bytes) env :
  he_memory env = true -> slen msg' <= MAX_HOST_BUFFER_SIZE ->
  (c = true -> agrees b m e p env) -> agrees b (fail_if (negb c) msg;; m) e (require_or_abort c msg';; p) env.
Proof.
  intros Hm Hs Hc. unfold agrees. rewrite bind_fail_if. destruct c; simpl; [by apply Hc |].
  eexists. apply traps_bind. apply traps_panic_msg; [apply _ | done ..].
Qed.

Lemma within_transfers cost env env' : within cost env env' -> he_transfers env' = he_transfers env.
Proof. by intros (c & _ & m & ->). Qed.

Lemma within_mock cost env env' : within cost env env' -> mock_of env' = mock_of env.
Proof. by intros (c & _ & m & ->). Qed.

Lemma read_within fuel key env :
  callable fuel env -> 10000 <= fuel -> well_kept (he_storage env) -> blen key <= MAX_HOST_BUFFER_SIZE ->
  gives (storage_get key) env (he_storage env !! key) (within 10000 env).
Proof.
  intros [Hm _ Hf _ _ _] Hfuel Hk Hkey. eapply gives_mono.
  - apply gives_storage_get; [apply _ | done | unfold STORAGE_READ_FUEL; lia | done | apply (wk_size _ Hk)].
  - intros env' Hs. by exists 10000.
Qed.

(** Stored numbers read the same on both sides. *)
Definition stored_le (n : nat) (v : option bytes) : option N :=
  v ≫= fun b => if (n <=? length b)%nat then Some (le_value (take n b)) else None.

Lemma le_prefix_get n key e :
  (forall v, me_storage e !! key = Some v -> (n <= length v)%nat) ->
  le_prefix n (me_storage e !! key) e
  = (Ok (default 0 (stored_le n (me_storage e !! key))), e).
Proof.
  intros Hn. unfold le_prefix, stored_le. destruct (me_storage e !! key) as [v|]; [| done].
  specialize (Hn v eq_refl). simpl. by destruct (Nat.leb_spec n (length v)); [| lia].
Qed.

(** The program has got to [env], from the rule's [e]. *)
Definition at_ (fuel : N) e env : Prop := callable fuel env /\ mock_of env = e.

Lemma at_within fuel cost e env env1 : at_ fuel e env -> within cost env env1 -> at_ (fuel - cost) e env1.
Proof.
  intros [Hc He] Hw. split; [by eapply callable_within |]. by rewrite (within_mock _ _ _ Hw).
Qed.

Lemma agrees_step {A} b cost fuel m e (q : prog A) (a : A) (f : A -> prog bytes) env :
  gives q env a (within cost env) -> at_ fuel e env ->
  (forall env1, at_ (fuel - cost) e env1 -> agrees b m e (f a) env1) -> agrees b m e (q ≫= f) env.
Proof.
  intros Hq Ha Hf. eapply agrees_after; [exact Hq | intros env1; apply within_transfers |].
  intros env1 Hw. apply Hf. by eapply at_within.
Qed.

Lemma agrees_read b fuel m e key (f : option bytes -> prog bytes) env :
  at_ fuel e env -> 10000 <= fuel -> well_kept (me_storage e) -> blen key <= MAX_HOST_BUFFER_SIZE ->
  (forall env1, at_ (fuel - 10000) e env1 -> agrees b m e (f (me_storage e !! key)) env1) ->
  agrees b m e (storage_get key ≫= f) env.
Proof.
  intros Ha Hfuel Hk Hkey Hf. assert (me_storage e = he_storage env) as Hst by (by destruct Ha as [_ <-]).
  rewrite Hst in *. eapply (agrees_step b 10000); [| exact Ha | exact Hf]. eapply read_within; [apply Ha | done ..].
Qed.

Lemma agrees_caller b fuel m e (f : bytes -> prog bytes) env :
  at_ fuel e env -> 5000 <= fuel ->
  (forall env1, at_ (fuel - 5000) e env1 -> agrees b m e (f (me_caller e)) env1) -> agrees b m e (get_caller ≫= f) env.
Proof.
  intros Ha Hfuel Hf. assert (me_caller e = ec_caller (he_context env)) as Hcl by (by destruct Ha as [_ <-]).
  rewrite Hcl in *. eapply (agrees_step b 5000); [| exact Ha | exact Hf]. eapply caller_within; [apply _ | apply Ha | done].
Qed.

Lemma agrees_time b fuel m e (f : N -> prog bytes) env :
  at_ fuel e env -> 5000 <= fuel ->
  (forall env1, at_ (fuel - 5000) e env1 -> agrees b m e (f (me_timestamp e)) env1) ->
  agrees b m e (get_block_timestamp ≫= f) env.
Proof.
  intros Ha Hfuel Hf. assert (me_timestamp e = ec_block_timestamp (he_context env)) as Hcl by (by destruct Ha as [_ <-]).
  rewrite Hcl in *. eapply (agrees_step b 5000); [| exact Ha | exact Hf]. eapply time_within; [apply Ha | done].
Qed.

(** The vault's own balance. *)
Lemma agrees_balance b fuel m e (f : N -> prog bytes) env :
  at_ fuel e env -> 15000 <= fuel -> length (me_contract_address e) = 32%nat ->
  mock_get_balance e (me_contract_address e) < TWO128 ->
  (forall env1, at_ (fuel - 15000) e env1 -> agrees b m e (f (mock_get_balance e (me_contract_address e))) env1) ->
  agrees b m e (self_addr ← get_contract_address; balance ← Sdk.get_balance self_addr; f balance) env.
Proof.
  intros Ha Hfuel Hlen Hb Hf. destruct Ha as [Hc <-]. cbn [mock_of me_contract_address] in *.
  eapply (agrees_step b 5000 fuel).
  - eapply gives_mono; [apply gives_get_contract_address; [apply _ | apply Hc | destruct Hc; unfold HOST_CALL_BASE_FUEL; lia | done] |].
    intros env' Hs. by exists 5000.
  - by split.
  - intros env1 [Hc1 He1].
    assert (mock_get_balance (mock_of env) (ec_contract_address (he_context env))
      = default 0 (he_balances env1 !! ec_contract_address (he_context env))) as Hbal.
    { unfold mock_get_balance. rewrite <- He1. done. }
    rewrite Hbal in *. eapply (agrees_step b 10000 (fuel - 5000)).
    + eapply gives_mono; [apply gives_get_balance; [apply _ | apply Hc1 | destruct Hc1; unfold HOST_CALL_BASE_FUEL; lia | done | done] |].
      intros env' Hs. by exists 10000.
    + by split.
    + intros env2 H2. apply Hf. by replace (fuel - 15000) with (fuel - 5000 - 10000) by lia.
Qed.

Lemma agrees_owner b fuel m e (p : prog bytes) env :
  at_ fuel e env -> 15000 <= fuel -> well_kept (me_storage e) ->
  (forall env1, at_ (fuel - 15000) e env1 -> agrees b m e p env1) ->
  agrees b (RewardVault.require_owner;; m) e (require_owner;; p) env.
Proof.
  intros Ha Hfuel Hk Hp. change (agrees b (RewardVault.require_owner;; m) e
    (caller ← get_caller; stored ← storage_get KEY_OWNER;
     owner ← expect (match stored ≫= fun bs => match try_from_slice bs with Ok v => Some v | Err _ => None end with Some o => Ok o | None => Err tt end) "no owner";
     require_or_abort (bool_decide (caller = owner)) "caller is not the owner";; p) env).
  eapply agrees_caller; [exact Ha | lia |]. intros env1 H1.
  eapply (agrees_read b (fuel - 5000)); [exact H1 | lia | done | done |]. intros env2 H2.
  replace (fuel - 5000 - 10000) with (fuel - 15000) in H2 by lia.
  assert ((RewardVault.require_owner;; m) e
    = match stored_owner e with
      | Some owner => (fail_if (negb (bool_decide (me_caller e = owner)))
          ("caller is not the owner: " +:+ string_of_bytes (addr_to_hex (me_caller e)))%string;; m) e
      | None => (Err "owner not set"%string, e)
      end) as Hrule.
  { unfold RewardVault.require_owner, read_owner. rewrite !bind_assoc, bind_get, bind_assoc, bind_assoc, bind_get, bind_ok_or.
    fold (stored_owner e). by destruct (stored_owner e). }
  fold (stored_owner e). unfold agrees. rewrite Hrule. destruct (stored_owner e) as [owner|].
  - apply (agrees_require b); [apply H2 | done |]. intros _. by apply Hp.
  - eexists. apply traps_bind, traps_panic.
Qed.

Lemma agrees_set_key fuel key value e e' msg env (m : vault unit) :
  at_ fuel e env -> 55000 <= fuel -> blen key <= MAX_HOST_BUFFER_SIZE -> blen value <= MAX_HOST_BUFFER_SIZE ->
  m e = (Ok tt, e') -> me_storage e' = <[key := value]> (me_storage e) ->
  agrees false m e (Sdk.storage_set key value;; log msg;; mret []) env.
Proof.
  intros [Hc He] Hfuel Hk Hv Hm Hst. unfold agrees. rewrite Hm. destruct Hc as [H1 H2 H3 _ _ _].
  eapply gives_bind, gives_mono; [apply gives_storage_set; [apply _ | done | unfold STORAGE_WRITE_FUEL; lia | done ..] |].
  intros env1 [m1 ->]. set (env1 := (charged _ _) <| he_guest := m1 |>).
  destruct (gives_log execute_child child_in_time msg env1) as [logs Hlog];
    [done | unfold env1, charged, stored, HOST_CALL_BASE_FUEL, STORAGE_WRITE_FUEL; upd; lia |].
  eapply gives_bind, gives_mono; [exact Hlog |]. intros env2 [m2 ->]. apply gives_ret.
  split; [| done]. rewrite Hst, <- He. done.
Qed.

Lemma agrees_remove_key fuel key e e' msg env (m : vault unit) :
  at_ fuel e env -> 55000 <= fuel -> blen key <= MAX_HOST_BUFFER_SIZE ->
  m e = (Ok tt, e') -> me_storage e' = delete key (me_storage e) ->
  agrees false m e (Sdk.storage_remove key;; log msg;; mret []) env.
Proof.
  intros [Hc He] Hfuel Hk Hm Hst. unfold agrees. rewrite Hm. destruct Hc as [H1 H2 H3 _ _ _].
  eapply gives_bind, gives_mono; [apply gives_storage_remove; [apply _ | done | unfold STORAGE_DELETE_FUEL; lia | done ..] |].
  intros env1 [m1 ->]. set (env1 := (charged _ _) <| he_guest := m1 |>).
  destruct (gives_log execute_child child_in_time msg env1) as [logs Hlog];
    [done | unfold env1, charged, removed, HOST_CALL_BASE_FUEL, STORAGE_DELETE_FUEL; upd; lia |].
  eapply gives_bind, gives_mono; [exact Hlog |]. intros env2 [m2 ->]. apply gives_ret.
  split; [| done]. rewrite Hst, <- He. done.
Qed.

(** The effects of a claim whose checks have passed. *)
Lemma agrees_pay fuel k1 v1 k2 v2 recipient amount msg e env :
  at_ fuel e env -> 205000 <= fuel -> length recipient = 32%nat -> amount < TWO128 ->
  amount <= mock_get_balance e (me_contract_address e) ->
  blen k1 <= MAX_HOST_BUFFER_SIZE -> blen v1 <= MAX_HOST_BUFFER_SIZE ->
  blen k2 <= MAX_HOST_BUFFER_SIZE -> blen v2 <= MAX_HOST_BUFFER_SIZE ->
  agrees (0 <? amount) (RewardVault.storage_set k1 v1;; RewardVault.storage_set k2 v2;; mock_transfer recipient amount) e
    (Sdk.storage_set k1 v1;; Sdk.storage_set k2 v2;; ok ← transfer recipient amount;
     require_or_abort ok "token transfer failed";; log msg;; mret []) env.
Proof.
  intros [Hc He] Hfuel Hr Ha Hbal Hk1 Hv1 Hk2 Hv2. destruct Hc as [H1 H2 H3 _ _ _].
  unfold agrees. unfold RewardVault.storage_set at 1 2. rewrite !bind_modify. unfold mock_transfer. rewrite bind_get, bind_fail_if.
  change (mock_get_balance (_ <| me_storage ::= _ |>) _) with (mock_get_balance e (me_contract_address e)).
  destruct (N.ltb_spec (mock_get_balance e (me_contract_address e)) amount); [lia |]. rewrite bind_modify. unfold st_modify.
  set (env1 := stored k2 v2 (stored k1 v1 env)).
  assert (gives (Sdk.storage_set k1 v1;; Sdk.storage_set k2 v2) env tt (within 100000 env1)) as Hstores.
  { eapply gives_bind, gives_mono; [apply gives_storage_set; [apply _ | done | unfold STORAGE_WRITE_FUEL; lia | done ..] |].
    intros ea [m1 ->]. eapply gives_mono.
    - apply gives_storage_set; [apply _ | done | | done | done | done].
      unfold charged, stored, STORAGE_WRITE_FUEL. upd. lia.
    - intros eb [m2 ->]. exists 100000. split; [done |]. exists m2. unfold env1.
      change 100000 with (STORAGE_WRITE_FUEL + STORAGE_WRITE_FUEL). rewrite <- charged_charged. by destruct env. }
  destruct (N.ltb_spec 0 amount).
  - change (traps ((Sdk.storage_set k1 v1;; Sdk.storage_set k2 v2);; (ok ← transfer recipient amount;
     require_or_abort ok "token transfer failed";; log msg;; mret ([] : bytes))) env "contract abort: token transfer failed").
    eapply gives_traps, gives_mono; [exact Hstores |]. intros ea Hw.
    apply within_keeps in Hw as (Hm1 & Hc1 & _ & Hf1). unfold env1, stored in Hm1, Hc1, Hf1. upd.
    eapply gives_traps, gives_mono.
    + apply gives_transfer; [apply _ | by rewrite Hm1 | unfold TOKEN_TRANSFER_FUEL; lia | by rewrite Hc1 | done | lia].
    + intros eb [m2 ->]. apply traps_bind. apply (traps_panic_msg _ _ (LML:=LML) "token transfer failed");
        [change (he_memory ea = true); by rewrite Hm1 | done].
  - assert (amount = 0) as -> by lia.
    change (gives ((Sdk.storage_set k1 v1;; Sdk.storage_set k2 v2);; (ok ← transfer recipient 0;
     require_or_abort ok "token transfer failed";; log msg;; mret ([] : bytes))) env []
       (fun env' => he_storage env' = <[k2 := v2]> (<[k1 := v1]> (me_storage e)) /\ he_transfers env' = he_transfers env)).
    eapply gives_bind, gives_mono; [exact Hstores |]. intros ea Hw. pose proof (within_transfers _ _ _ Hw) as Ht1.
    apply within_keeps in Hw as (Hm1 & Hc1 & Hst1 & Hf1). unfold env1, stored in Hm1, Hc1, Hf1, Hst1. upd.
    eapply gives_bind, gives_mono.
    + apply gives_transfer_zero; [apply _ | by rewrite Hm1 | unfold TOKEN_TRANSFER_FUEL; lia | by rewrite Hc1 | done].
    + intros eb [m2 ->]. eapply gives_bind. apply gives_ret. set (ec := (charged _ _) <| he_guest := m2 |>).
      destruct (gives_log execute_child child_in_time msg ec) as [logs Hlog];
        [change (he_memory ea = true); by rewrite Hm1 | unfold ec, charged, HOST_CALL_BASE_FUEL, TOKEN_TRANSFER_FUEL; upd; lia |].
      eapply gives_bind, gives_mono; [exact Hlog |]. intros ed [m3 ->]. apply gives_ret.
      split; [change (he_storage ea = <[k2 := v2]> (<[k1 := v1]> (me_storage e))); by rewrite Hst1, <- He | exact Ht1].
Qed.

(** ** The contract refines its rules *)

(** The calls that read and write a bounded number of keys, the exported function
    and its arguments. *)
Inductive called_as : vault_op -> (N -> N -> guest) -> bytes -> Prop :=
  | ca_claim b a : try_from_slice b = Ok a ->
      called_as (V_claim_reward (cra_recipient a) (cra_amount a) (cra_nonce a)) claim_reward b
  | ca_cap b a : try_from_slice b = Ok a -> called_as (V_set_daily_cap (sdc_new_cap a)) set_daily_cap b
  | ca_add b a : try_from_slice b = Ok a -> called_as (V_add_platform (pa_addr a)) add_platform b
  | ca_remove b a : try_from_slice b = Ok a -> called_as (V_remove_platform (pa_addr a)) remove_platform b
  | ca_pause b a : try_from_slice (A:=FundArgs) b = Ok a -> called_as V_pause pause b
  | ca_unpause b a : try_from_slice (A:=FundArgs) b = Ok a -> called_as V_unpause unpause b.

(** The calls that pay. *)
Definition pays_out (op : vault_op) : bool := match op with V_claim_reward _ amount _ => 0 <? amount | _ => false end.

Lemma agrees_get b (m : MockEnv -> vault unit) e p env : agrees b (m e) e p env -> agrees b (st_get ≫= m) e p env.
Proof. done. Qed.

Lemma agrees_le b n o x (m : N -> vault unit) e p env :
  le_prefix n o e = (Ok x, e) -> agrees b (m x) e p env -> agrees b (le_prefix n o ≫= m) e p env.
Proof. intros Hx Hm. unfold agrees in *. by rewrite (bind_run _ _ _ _ _ Hx). Qed.

(** Two checks of the rules are one of the contract. *)
Lemma agrees_cap b claimed amount cap msg1 msg2 (m : vault unit) e (p : prog bytes) env :
  he_memory env = true -> cap < TWO128 - 1 -> (claimed + amount < TWO128 -> agrees b m e p env) ->
  agrees b (fail_if (TWO128 <=? claimed + amount) msg1;; fail_if (cap <? claimed + amount) msg2;; m) e
    (require_or_abort (checked_total claimed amount <=? cap) "daily cap exceeded";; p) env.
Proof.
  intros Hm Hcap Hp. unfold checked_total.
  destruct (N.leb_spec TWO128 (claimed + amount)).
  - rewrite N.min_r by lia. destruct (N.leb_spec (TWO128 - 1) cap); [lia |].
    unfold agrees. rewrite bind_fail_if. eexists. apply traps_bind, traps_panic_msg; [apply _ | done | done].
  - rewrite N.min_l by lia. enough (agrees b (fail_if (cap <? claimed + amount) msg2;; m) e
      (require_or_abort (claimed + amount <=? cap) "daily cap exceeded";; p) env) as H1.
    { unfold agrees in *. by rewrite bind_fail_if. }
    rewrite N.ltb_antisym. apply agrees_require; [done | done |]. intros _. by apply Hp.
Qed.

Lemma claim_agrees args e env :
  at_ 400000 e env -> well_kept (me_storage e) -> length (me_caller e) = 32%nat ->
  length (cra_recipient args) = 32%nat -> cra_amount args < TWO128 -> me_timestamp e < TWO64 ->
  length (me_contract_address e) = 32%nat -> mock_get_balance e (me_contract_address e) < TWO128 ->
  agrees (0 <? cra_amount args) (apply_claim_reward (cra_recipient args) (cra_amount args) (cra_nonce args)) e (claim_reward_body args) env.
Proof.
  intros Ha Hk Hcaller Hr Hamt Hts Haddr Hbal. set (r := cra_recipient args). set (amount := cra_amount args).
  unfold apply_claim_reward, claim_reward_body. apply agrees_get.
  assert (day_from_timestamp (me_timestamp e) < TWO64) as Hday.
  { unfold day_from_timestamp. apply N.Div0.div_lt_upper_bound. change TWO64 with 18446744073709551616 in *. lia. }
  assert (forall x, x <= 200 -> x <= MAX_HOST_BUFFER_SIZE) as Hshort by (intros x Hx; unfold MAX_HOST_BUFFER_SIZE; lia).
  change (flag KEY_PAUSED) with (v ← storage_get KEY_PAUSED; mret (first_byte v)).
  apply (agrees_read _ 400000 _ _ KEY_PAUSED (fun v => _)); [exact Ha | lia | exact Hk | done |]. intros env1 H1.
  replace (first_byte (me_storage e !! KEY_PAUSED) =? 1) with (negb (first_byte (me_storage e !! KEY_PAUSED) =? 0)).
  2: { pose proof (wk_paused _ Hk). destruct (N.eqb_spec (first_byte (me_storage e !! KEY_PAUSED)) 0),
         (N.eqb_spec (first_byte (me_storage e !! KEY_PAUSED)) 1); done || lia. }
  apply agrees_require; [apply H1 | done |]. intros _.
  eapply agrees_caller; [exact H1 | lia |]. intros env2 H2.
  change (flag (platform_key (me_caller e))) with (v ← storage_get (platform_key (me_caller e)); mret (first_byte v)).
  eapply (agrees_read _ _ _ _ (platform_key (me_caller e)) (fun v => _));
    [exact H2 | lia | exact Hk | apply Hshort, platform_key_short, Hcaller |]. intros env3 H3.
  apply agrees_require; [apply H3 | done |]. intros _.
  change (get_u64 (nonce_key r)) with (v ← storage_get (nonce_key r); mret (stored_le 8 v)).
  eapply (agrees_read _ _ _ _ (nonce_key r) (fun v => _));
    [exact H3 | lia | exact Hk | apply Hshort, nonce_key_short, Hr |]. intros env4 H4.
  apply agrees_le with (x := default 0 (stored_le 8 (me_storage e !! nonce_key r)));
    [apply le_prefix_get, (wk_nonce _ Hk) |].
  apply agrees_require; [apply H4 | done |]. intros _.
  eapply agrees_time; [exact H4 | lia |]. intros env5 H5.
  set (ckey := claimed_key r (day_from_timestamp (me_timestamp e))).
  change (get_u128 ckey) with (v ← storage_get ckey; mret (stored_le 16 v)).
  eapply (agrees_read _ _ _ _ ckey (fun v => _));
    [exact H5 | lia | exact Hk | apply Hshort, claimed_key_short; [exact Hr | exact Hday] |]. intros env6 H6.
  apply agrees_le with (x := default 0 (stored_le 16 (me_storage e !! ckey)));
    [apply le_prefix_get, (wk_claimed _ Hk) |].
  change (get_u128 KEY_DAILY_CAP) with (v ← storage_get KEY_DAILY_CAP; mret (stored_le 16 v)).
  eapply (agrees_read _ _ _ _ KEY_DAILY_CAP (fun v => _)); [exact H6 | lia | exact Hk | done |]. intros env7 H7.
  destruct (wk_cap _ Hk) as (cv & Hcv & Hclen & Hcap).
  apply agrees_le with (x := default 0 (stored_le 16 (me_storage e !! KEY_DAILY_CAP)));
    [apply le_prefix_get; intros v Hv; congruence |].
  assert (default 0 (stored_le 16 (me_storage e !! KEY_DAILY_CAP)) < TWO128 - 1) as Hcap'.
  { rewrite Hcv. change (default 0 (if (16 <=? length cv)%nat then Some (le_value (take 16 cv)) else None) < TWO128 - 1).
    destruct (Nat.leb_spec 16 (length cv)); [exact Hcap | lia]. }
  set (cap := default 0 (stored_le 16 (me_storage e !! KEY_DAILY_CAP))) in *.
  set (claimed := default 0 (stored_le 16 (me_storage e !! ckey))).
  apply agrees_cap; [apply H7 | done |]. intros Hfits.
  eapply agrees_balance; [exact H7 | lia | done | done |]. intros env8 H8.
  rewrite (N.ltb_antisym amount (mock_get_balance e _)). apply agrees_require; [apply H8 | done |]. intros Hle. bools.
  match goal with |- context [u128_add ?c ?a] =>
    replace (u128_add c a) with (c + a) by (symmetry; apply wadd_small; exact Hfits) end.
  eapply agrees_pay; [exact H8 | lia | done | done | done | apply Hshort, claimed_key_short; [exact Hr | exact Hday] | | apply Hshort, nonce_key_short, Hr |];
    unfold blen; by rewrite length_le_bytes.
Qed.

(** The exported function from its arguments in memory. *)
Definition exported (paying : bool) (m : vault unit) e (g : guest) env : Prop :=
  match m e with
  | (Ok _, e') =>
      if paying then (run g env).1 = Err "contract abort: token transfer failed"%string
      else exists env', run g env = (Ok 0%Z, env') /\ he_storage env' = me_storage e' /\ he_transfers env' = he_transfers env
  | (Err _, _) => exists msg, (run g env).1 = Err msg
  end.

Lemma vault_exported {T} `{!Borsh T} p l (body : T -> prog bytes) env bs args b m e :
  mem_read (he_guest env) p l = Ok bs -> try_from_slice bs = Ok args -> agrees b m e (body args) env ->
  exported b m e (export_fn (entry p l body)) env.
Proof.
  intros Hr Hargs Hag.
  assert (forall k, run (entry p l body k) env
    = run ((result ← body args; if bool_decide (result = []) then mret tt else set_return_data result) k) env) as Hentry.
  { intros k. unfold entry, mbind, prog_bind. rewrite (returns_fetch _ _ _ _ _ _ Hr). by rewrite Hargs. }
  unfold agrees in Hag. unfold exported, export_fn. destruct (m e) as [[u|msg] e'].
  - destruct b; rewrite Hentry; [apply Hag |]. destruct Hag as (env' & [H1 H2] & Hret).
    exists env'. split; [| done]. unfold mbind, prog_bind. by rewrite Hret.
  - destruct Hag as [msg' Ht]. exists msg'. rewrite Hentry. apply Ht.
Qed.

(** C24. The contract on the chain refines the rules that are tested: for a claim
    and for every owner operation on one key, a call traps if the rule refuses it
    and otherwise leaves exactly the storage that the rule computes, except that a
    claim of a positive amount, once all its checks have passed and its records
    are written, is always aborted, because the transfer the host has taken counts
    as failed. *)
Theorem vault_entry_refines op f b p l env :
  called_as op f b -> typed op -> mem_read (he_guest env) p l = Ok b -> callable 400000 env ->
  well_kept (he_storage env) -> length (ec_contract_address (he_context env)) = 32%nat ->
  default 0 (he_balances env !! ec_contract_address (he_context env)) < TWO128 ->
  match run_op op (mock_of env) with
  | (Ok _, e') =>
      if pays_out op then (run (f p l) env).1 = Err "contract abort: token transfer failed"%string
      else exists env', run (f p l) env = (Ok 0%Z, env')
             /\ he_storage env' = me_storage e' /\ he_transfers env' = he_transfers env
  | (Err _, _) => exists msg, (run (f p l) env).1 = Err msg
  end.
Proof.
  intros Hcall Hty Hr Hc Hk Haddr Hbal. change (exported (pays_out op) (run_op op) (mock_of env) (f p l) env).
  assert (at_ 400000 (mock_of env) env) as Hat by (by split).
  assert (forall x, x <= 200 -> x <= MAX_HOST_BUFFER_SIZE) as Hshort by (intros x Hx; unfold MAX_HOST_BUFFER_SIZE; lia).
  destruct Hcall as [b a Ha|b a Ha|b a Ha|b a Ha|b a Ha|b a Ha]; (eapply vault_exported; [exact Hr | exact Ha |]).
  1: { apply claim_agrees; [done | done | apply (cb_caller _ _ Hc) | apply Hty | apply Hty | apply (cb_time _ _ Hc) | done | done]. }
  all: eapply agrees_owner; [exact Hat | lia | exact Hk |]; intros env1 H1.
  3: { eapply agrees_remove_key; [exact H1 | lia | by apply Hshort, platform_key_short | reflexivity | reflexivity]. }
  all: eapply agrees_set_key; [exact H1 | lia | | | reflexivity | reflexivity];
    first [done | by apply Hshort, platform_key_short | unfold blen; by rewrite length_le_bytes].
Qed.
End calls.

(** ** The ledger *)

Section ledger.
Context `{HB : Blake3} `{WM : Wasmer} {LM : Linear} `{VC : VaultCodec} `{AC : VaultArgsCodec}.
Context `{TC : TxCodec} `{HX : Hex} `{VS : VmSchedule}.

Lemma vault_never : never_pays vault_export.
Proof. intros execute_child in_time name f p l env z env'. apply vault_export_quiet. Qed.

(** The reward vault never pays anybody: a call of any of its exported
    functions that succeeds on the ledger moves nothing but the value that the
    caller pays in; neither the players' rewards nor the owner's withdrawals get
    out. *)
Theorem vault_never_pays tx tx_index s out s' p code m f :
  try_from_slice (tx_payload tx) = Ok p -> ws_contract_code s !! ccp_contract p = Some code ->
  wasm_compile code = Ok m -> compiled vault_export m -> vault_export (ccp_method p) = Some f ->
  handle_contract_call (VM:=wasm_engine) tx tx_index s = (Ok out, s') ->
  ws_balances s' = ws_balances (paid (ccp_contract p) (tx_from tx) (ccp_value p) s).
Proof. apply (call_keeps_money vault_export). exact vault_never. Qed.
End ledger.

(** ** Witnesses *)

#[local] Existing Instance toy_blake3.
#[local] Existing Instance toy_memory.
#[local] Existing Instance toy_linear.
#[local] Existing Instance toy_vault_codec.
#[local] Existing Instance toy_tx_codec.
#[local] Existing Instance toy_hex.
#[local] Existing Instance toy_schedule.
#[local] Existing Instance toy_parser_ret.
#[local] Existing Instance toy_parser_bind.

#[local] Instance toy_args_codec : VaultArgsCodec := {|
  codec_init := toy_decoder (o ← p_take 32; c ← p_num 16; g ← p_num 8; ps ← p_list (p_take 32); mret (mkInitArgs o c g ps));
  codec_claim := toy_decoder (r ← p_take 32; a ← p_num 16; n ← p_num 8; mret (mkClaimRewardArgs r a n));
  codec_fund := toy_unit_codec mkFundArgs;
  codec_cap := toy_decoder (c ← p_num 16; mret (mkSetDailyCapArgs c));
  codec_platform_args := toy_decoder (a ← p_take 32; mret (mkPlatformArgs a));
  codec_withdraw := toy_decoder (a ← p_num 16; mret (mkWithdrawArgs a));
  codec_claimed := toy_decoder (a ← p_take 32; mret (mkGetDailyClaimedArgs a));
  codec_cleanup := toy_decoder (d ← p_num 4; l ← p_list (p_take 32); mret (mkCleanupClaimsArgs d l));
  ser_claimed := le128;
|}.

#[local] Instance vault_machine : Wasmer := toy_wasmer vault_export.

Lemma vault_machine_module : compiled vault_export tt.
Proof.
  constructor.
  - intros name f Hf.
    exact (f_equal (fun o => match o with Some _ => Some 2 | None => if bool_decide (name = "alloc"%string) then Some 1 else None end) Hf).
  - intros name f p l Hf.
    exact (f_equal (fun o => match o with Some f => f (as_u32 p) (as_u32 l) | None => g_trap "bad call" end) Hf).
  - intros n. simpl. by eexists _, _.
  - eexists. reflexivity.
Qed.

(** The game server calls [claim_reward] for 60, on the vault of [VaultLedger]. *)
Definition claim_args : bytes := player ++ le128 60 ++ le64 0.
Definition no_child (_ : bytes) (_ : string) (_ : bytes) (_ : ExecutionContext) (_ : gmap bytes bytes) (_ : ChainState)
    : result ExecutionResult VmError := Err (ExecutionFailed "").
Definition claim_env : HostEnv :=
  (host_env claim_args (new_top_level game_server (toy_addr 8) 10 90000 0 DEFAULT_FUEL_LIMIT false) (me_storage opened)
     (mkChainState (fun _ => 1000) (fun _ => 0) (fun _ => false) (fun _ _ => None) (fun _ => None)) None ∅)
    <| he_memory := true |>.

Lemma opened_well_kept : well_kept (me_storage opened).
Proof.
  assert (map_Forall (fun k v => blen v <= STORAGE_READ_BUF /\ (take 6 k = lit "nonce:" -> (8 <= length v)%nat)
    /\ (take 8 k = lit "claimed:" -> (16 <= length v)%nat)) (me_storage opened)) as Hall
    by (refine (proj1 (bool_decide_eq_true _) _); vm_compute; reflexivity).
  constructor.
  - intros k v Hl. by apply (Hall k v Hl).
  - vm_compute. discriminate.
  - intros r v Hl. by apply (Hall _ v Hl).
  - intros r d v Hl. by apply (Hall _ v Hl).
  - exists (le128 100). split; [vm_compute; reflexivity |]. split; [vm_compute; lia | vm_compute; reflexivity].
Qed.

Lemma vault_entry_refines_witness :
  is_ok (run_op (V_claim_reward player 60 0) (mock_of claim_env)).1 = true
  /\ (run_guest no_child (fun _ => true) (claim_reward 0 56) claim_env).1 = Err "contract abort: token transfer failed"%string.
Proof.
  assert (is_ok (run_op (V_claim_reward player 60 0) (mock_of claim_env)).1 = true) as Hok by (vm_compute; reflexivity).
  split; [exact Hok |].
  pose proof (vault_entry_refines (LML:=toy_linear_laws) no_child (fun _ => true) (V_claim_reward player 60 0) claim_reward
    claim_args 0 56 claim_env (ca_claim claim_args (mkClaimRewardArgs player 60 0) eq_refl)) as H.
  destruct (run_op (V_claim_reward player 60 0) (mock_of claim_env)) as [[u|e] e']; [| discriminate Hok].
  apply H; [by split | vm_compute; reflexivity | constructor; vm_compute; done | exact opened_well_kept | reflexivity | reflexivity].
Defined.

(** A deposit into the vault: all that a call can move. *)
Definition fund_tx : Transaction :=
  toy_tx ContractCall (toy_addr 1) 1 (toy_contract ++ enc_str "fund" ++ enc_vec [] ++ le128 20).
Definition after_fund : WorldState := (handle_contract_call (VM:=wasm_engine) fund_tx 0 toy_deployed).2.

Lemma vault_never_pays_witness :
  ws_balances after_fund = ws_balances (paid toy_contract (toy_addr 1) 20 toy_deployed).
Proof.
  assert (is_ok (handle_contract_call (VM:=wasm_engine) fund_tx 0 toy_deployed).1 = true) as Hok
    by (vm_compute; reflexivity).
  unfold after_fund. destruct (handle_contract_call fund_tx 0 toy_deployed) as [[out|e] s'] eqn:Hrun; [| discriminate Hok].
  refine (vault_never_pays fund_tx 0 toy_deployed out s' (mkContractCallPayload toy_contract "fund" [] 20) (x00 :: lit "asm") tt fund
    _ _ eq_refl vault_machine_module eq_refl Hrun); vm_compute; reflexivity.
Defined.
